(* ===== verification/_CoqProject ===== *)
-Q . S2P
Prelude.v
Tree.v
Digest.v
Manifest.v
Stream.v
Text.v
Protocol.v
Agent.v
Backend.v
ClientDownloads.v
ClientUploads.v
ClientSession.v
Cli.v
Reconcile.v
Storage.v
Database.v
Effects.v
Actions.v
Api.v
Startup.v
Shutdown.v
Migrate.v
Xtask.v
Sessions.v
Uploads.v
UploadSpecs.v
Delivery.v
Completion.v
CdcCompletion.v
Gc.v
GcFacts.v
GcSpecs.v
GcProps.v
Locks.v
AuthSpecs.v
Batch.v
Admin.v
Metrics.v
Handlers.v
Routes.v
Router.v
Service.v
Tenancy.v
Isolation.v
Catalogue.v
Errors.v
Access.v
EndToEnd.v
ClientExamples.v
Examples.v
OperationExamples.v
CompletionExamples.v
CatalogueExamples.v
TenancyExamples.v
SystemExamples.v
