(* ===== verification/Prelude.v ===== *)
(** * Git LFS Delta: a verification library

    Git LFS Delta is a Git LFS server that stores large objects as
    content-defined chunks, shared between the objects of a repository, with a
    client that transfers only the chunks the server lacks.  This library
    models the service (the core crate, the wire types, the chunk store, the
    HTTP handlers with their PostgreSQL statements, the garbage collector, the
    start-up and shutdown, migration and the administrative commands), the client (the transfer
    process, its HTTP data plane with worker threads and chunk cache, and its
    commands) and the developer tasks.  It proves that the service never loses or corrupts a published
    object as far as that holds, and that the client never hands a wrong object
    to Git LFS, never reports an upload that is not complete, and never hangs.

    ** The program and the files that model it

    - [Prelude.v] (this file): machine integers as [N] and [Z] with their
      bounds, [result], indexed loops, the string functions the sources use.
    - [Text.v]: the standard library's UTF-8 decoding, lines, trimming,
      integer parsing and paths, processes ([Commands]), environment variables.
    - [Tree.v]: programs of one thread as trees of atomic actions, with a
      program logic under interference ([holds]) and a bound on the number of
      actions ([bounded]).
    - [Digest.v], [git-lfs-delta-core/src/digest.rs]: [ChunkId] (BLAKE3) and
      [ObjectOid] (SHA-256), their text form, the interfaces to the [hex]
      crate ([HexCodec]) and the hash functions ([Hashes]).
    - [Manifest.v], [manifest.rs] and [profile.rs]: the object manifest and
      [ObjectManifest::validate].
    - [Stream.v], [stream.rs]: [ChunkStream] over the [fastcdc] crate
      ([FastCdc]), whose law is that chunks partition the source within the
      bounds of the profile and that a read error surfaces.
    - [Protocol.v], [git-lfs-delta-protocol/src]: the messages and
      [select_transfer]; the [url] crate is [UrlLib].

    The client, [git-lfs-delta-client/src]:
    - [Agent.v], [transfer.rs]: the custom-transfer protocol on standard input
      and output, over any data plane ([TransferBackend]) and output ([Write]),
      with the protocol it implements as a relation ([protocol]).
    - [Backend.v], [backend.rs]: configuration, requests with retries, the
      chunk cache.  [reqwest] is [Http].
    - [ClientDownloads.v] and [ClientUploads.v], [backend.rs]: [download] and
      [upload] with their worker threads: a state holds the channels, the
      position of each thread and the main thread's variables, [dl_turn] and
      [ul_turn] are one action of one thread.
    - [ClientSession.v]: a scheduler that runs those threads, which makes
      [HttpBackend] a [TransferBackend].
    - [Cli.v], [main.rs]: the commands, the exit code, and the cache
      traversal and pruning.

    The service:
    - [Storage.v], [git-lfs-delta-storage/src/lib.rs]: [ChunkStore] over an
      abstract provider ([ObjectStore]) any of whose calls may fail, before or
      after it took effect.
    - [Database.v], [git-lfs-delta-server/migrations]: the tables as finite
      maps, their constraints, [sqlx::Error], and the invariant [db_ok].
    - [Effects.v]: the world (tables, store, clocks, process state, failures
      to come), transactions, programs as trees of atomic actions, their
      sequential run [run] and interleaved execution [step], the program logic
      [safe] (what holds under interference) and [tx_triple] (transactions).
    - [Actions.v]: what every single action of a program does ([each]).
    - [Api.v], [Sessions.v], [Uploads.v], [Locks.v], [Batch.v]: the handlers of
      [git-lfs-delta-server/src/lib.rs]; errors and authentication; the
      statements and transactions of uploads; CDC and basic uploads, downloads,
      readiness; locks; the batch API.
    - [Metrics.v], [Handlers.v], [Routes.v], [Router.v], [lib.rs]: the counters
      and the metrics text; the actions of every handler; [build_router]'s
      table, the extraction of every handler's arguments and the response of
      its outcome; the metrics layer around them.  [serve] takes an HTTP request to its response.
    - [Startup.v], [Migrate.v], [Shutdown.v], [lib.rs] and [main.rs]: the schema
      check, OIDC discovery and [main] up to the listening socket; the
      migration of the schema; serving until a signal and the grace period.
    - [Gc.v], [git-lfs-delta-server/src/gc.rs]: snapshots, staging,
      collection, reclaiming.
    - [Reconcile.v], [reconcile.rs]: the scan of a mirror for LFS pointers.
    - [Admin.v], [bin/git-lfs-delta-admin.rs]: provisioning and the other
      administrative commands.
    - [UploadSpecs.v], [Delivery.v], [Completion.v], [CdcCompletion.v],
      [GcFacts.v], [GcSpecs.v], [GcProps.v], [AuthSpecs.v]: the theorems about
      those operations.
    - [Errors.v] and [Access.v]: the statuses a handler fails with; what a request
      without access is answered.
    - [Service.v]: all HTTP requests and administrative operations together.
    - [Tenancy.v] and [Isolation.v]: what a request may change, by repository
      and by the access of its sender; the isolation of tenants, published objects.
    - [Catalogue.v]: the abstract catalogue of objects that the service refines.
    - [EndToEnd.v]: the client's requests on the service: [service_http] answers
      the client's [Http] by [serve].
    - [Xtask.v], [xtask/src/main.rs]: the developer tasks.
    - [ClientExamples.v], [Examples.v], [OperationExamples.v], [TenancyExamples.v],
      [CompletionExamples.v], [CatalogueExamples.v] and [SystemExamples.v]:
      concrete instances of every interface, worlds reached by concrete runs (the
      last one runs the client against the service), and the theorems applied
      there.

    A Rust function [f] is the definition [f] (a method [T::f] is [T_f] where
    the bare name would be ambiguous); a handler is a program
    [prog St Json ApiError A], where [St] is the provider's state and [Json]
    the type of JSON values, and a function of the client's data plane is a
    [tree] on the world of the client.  [?] is the monadic bind [let!].  One
    SQL statement is a function of the database time and the tables that
    returns the new tables or the constraint it violates; [pool.begin()] to
    [commit()] is [transaction], whose body is rolled back on any error.  A
    call to the object store inside a transaction is not rolled back.

    ** What the theorems show

    - Core: [validate] accepts exactly the well-formed manifests, its errors
      describe the manifest, it cannot overflow; streaming a source yields a
      valid manifest and chunks that concatenate to the source; identities
      parse back from their text.
    - Storage: chunk paths are injective, storing is immutable and checked,
      reading back returns what was stored.
    - Handlers: what a successful [begin_cdc], [finalize_cdc], basic upload,
      download, batch, lock or unlock request did to the tables and the store
      and what it answered; downloads are authentic under any interference;
      upload followed by download is a round trip.  A basic upload and the three
      requests of a chunked upload succeed when nothing hinders them; a chunk recorded with a wrong length does hinder it
      ([CompletionExamples.wrong_length_blocks_upload]).
    - Authentication: each adapter accepts only what it should; the Forgejo
      cache is bounded, sound and keyed injectively; the server starts only
      with a complete configuration and a compatible schema; provisioning
      gives exactly the access asked for.
    - Garbage collection: what each operation removes, and that it ends; the
      scan that feeds it reports exactly the pointers it was shown.
    - The service refines an abstract state machine ([Catalogue.transition]):
      objects are published, condemned and collected, one at a time, each by one
      atomic action, and change in no other way.
    - The service: [service_ok] in every reachable world of every interleaving
      with failures: the tables are consistent, stored chunks have their
      identity and published objects are authentic; nothing of a repository
      changes unless a writer of it or the collector for it does it, nothing of
      it is told to whom authentication refuses, and published objects are
      immutable; published objects keep their chunks as long as publication
      and collection do not overlap; the HTTP counters are exact; no failure is
      answered like a success.  Objects do
      not survive when the two overlap:
      [Examples.finalize_races_collection] reaches a published object with a
      lost chunk, and [GcProps.drain_blocked_by_finalized_session] shows the
      collector stuck on the chunks of finalized sessions.
    - End to end: the URLs the service issues lead the client's requests to
      their handlers, so that an upload the client reports as done was
      finalised and published by the service.
    - Operation: migrating makes the schema current; a server that was asked to
      stop serves what it has begun for at most 30 seconds and ends; a request
      to stop that comes before [main] listens for it is lost
      ([Shutdown.shutdown_signal_lost]); the developer tasks stop at their first
      failure and start a server that accepts its configuration.
    - Client: the transfer process refines the Git LFS protocol; what it
      reports as downloaded is there, authentic; an upload that succeeds
      delivered every missing chunk before it was finalised; the threads of
      both never deadlock and end after a bounded number of actions, with
      bounded memory; requests are retried as documented; the chunk cache is
      never poisoned; pruning removes the oldest entries and no more than
      needed.

    ** Abstractions and bounds

    - Transactions are atomic, hence serializable; this subsumes the row and
      advisory locks of the code.  Requests interleave between transactions,
      single statements, store calls and file operations; the client's threads
      between requests, file and channel operations, and other processes may
      change the files and the service between any two of these.
    - Failures are a list that the environment chooses: each statement or file
      operation consumes one entry.  A failing statement has no effect; a
      failing commit rolls back.
    - Times are integers: the database clock and lifetimes in microseconds,
      the client's delays in milliseconds.  [make_interval] and timestamps
      overflow at the range of [BIGINT].  [usize] is 64 bits wide.
    - The loop of [collect_due] has fuel; [collect_due_terminates] shows that
      one turn more than there are due tombstones is enough.  The cache
      traversal needs one unit per directory ([cache_entries_complete]), a
      transfer of the client [TURNS] or [UPLOAD_TURNS] actions
      ([download_completes], [upload_completes]).  All other recursion is
      structural.
    - Hash functions, [hex], [fastcdc], [url], [jsonwebtoken], Forgejo, the
      OIDC provider, [serde_json], [reqwest], [git] and the store's provider
      are interfaces with the laws the code relies on; no collision freedom is
      assumed.
    - Paths and strings hold no NUL byte (PostgreSQL would reject the
      statement).

    ** Not modelled

    The tracing and request-identifier layers, logging and its set-up (they keep
    no state of the program), the insides of axum, [sqlx] and its migrator,
    reqwest and clap (interfaces, or left out with the parsing of arguments).
    Semaphores of the service only fail when closed; panics of blocking tasks
    and requests dropped half way are left out. *)
From stdpp Require Export base list strings gmap sets pretty countable sorting.
From Stdlib Require Export NArith ZArith Lia.
From Stdlib Require Export Strings.Byte.

#[global] Set Default Proof Using "Type*".
#[global] Open Scope N_scope.

Declare Scope lfs_scope.
Delimit Scope lfs_scope with lfs.
#[global] Open Scope lfs_scope.

(** ** Bytes and machine integers *)

(** [Vec<u8>], [Bytes], [&[u8]] and the SQL type [BYTEA]. *)
Abbreviation bytes := (list Byte.byte).

(** [slice.len()] of a byte string or of a vector, as a number. *)
Definition lenN {A} (l : list A) : N := N.of_nat (length l).

Definition U16_MAX : N := 65535.
Definition U32_MAX : N := 4294967295.
Definition U64_MAX : N := 18446744073709551615.
Definition I32_MAX : N := 2147483647.
Definition I64_MAX : N := 9223372036854775807.

(** [u64::checked_add]. *)
Definition checked_add_u64 (a b : N) : option N :=
  if a + b <=? U64_MAX then Some (a + b) else None.

(** [AtomicU64::fetch_add] wraps around. *)
Definition wrapping_add_u64 (a b : N) : N := (a + b) `mod` (U64_MAX + 1).

(** [u32::try_from(usize)]. *)
Definition u32_try_from (n : N) : option N :=
  if n <=? U32_MAX then Some n else None.

(** [i64::try_from(u64)] and [i32::try_from(u32)], as SQL integers. *)
Definition i64_try_from (n : N) : option Z :=
  if n <=? I64_MAX then Some (Z.of_N n) else None.
Definition i32_try_from (n : N) : option Z :=
  if n <=? I32_MAX then Some (Z.of_N n) else None.

#[global] Instance byte_eq_dec : EqDecision Byte.byte := Byte.byte_eq_dec.

#[global] Instance byte_countable : Countable Byte.byte :=
  inj_countable Byte.to_N Byte.of_N Byte.of_to_N.

(** ** [Result] *)

Inductive result (E A : Type) : Type :=
| Ok (a : A)
| Err (e : E).
Arguments Ok {E A} a.
Arguments Err {E A} e.

#[global] Instance result_eq_dec {E A} `{!EqDecision E, !EqDecision A} :
  EqDecision (result E A).
Proof. solve_decision. Defined.

#[global] Instance result_ret E : MRet (result E) := λ A a, Ok a.
#[global] Instance result_bind E : MBind (result E) := λ A B f m,
  match m with Ok a => f a | Err e => Err e end.

Definition map_err {E F A} (f : E → F) (m : result E A) : result F A :=
  match m with Ok a => Ok a | Err e => Err (f e) end.

Definition ok_or {E A} (e : E) (m : option A) : result E A :=
  match m with Some a => Ok a | None => Err e end.

Definition is_ok {E A} (m : result E A) : bool :=
  match m with Ok _ => true | Err _ => false end.

(** [let! x := m in k] is [let x = m?; k]. *)
Notation "'let!' x := m 'in' k" := (mbind (λ x, k) m)
  (at level 10, x binder, m at level 100, k at level 200,
   format "'[v' 'let!'  x  :=  m  'in' '/' k ']'") : lfs_scope.

Lemma result_bind_ok {E A B} (m : result E A) (f : A → result E B) b :
  (let! a := m in f a) = Ok b ↔ ∃ a, m = Ok a ∧ f a = Ok b.
Proof.
  destruct m as [a|e]; cbn; split; [eauto|by intros (? & [= ->] & ?)|done|].
  by intros (? & ? & ?).
Qed.

Lemma ok_or_ok {E A} (e : E) (o : option A) a :
  ok_or e o = Ok a ↔ o = Some a.
Proof. destruct o; cbn; naive_solver. Qed.

Lemma map_err_ok {E F A} (f : E → F) (m : result E A) a :
  map_err f m = Ok a ↔ m = Ok a.
Proof. destruct m; cbn; split; naive_solver. Qed.

(** ** Lists *)

(** [iter.enumerate()]: pairs every element with its position from [i]. *)
Fixpoint enumerate_from {A} (i : N) (l : list A) : list (N * A) :=
  match l with
  | [] => []
  | x :: l => (i, x) :: enumerate_from (i + 1) l
  end.
Abbreviation enumerate := (enumerate_from 0).

(** [reader.take(n)]: at most [n] leading elements, [n] a 64-bit number. *)
Fixpoint take_N {A} (n : N) (l : list A) : list A :=
  match l with
  | [] => []
  | x :: l => if n =? 0 then [] else x :: take_N (n - 1) l
  end.

(** [vec.get(index)]. *)
Definition get_N {A} (l : list A) (i : N) : option A := l !! N.to_nat i.

(** Sum of a numeric attribute over a list. *)
Definition sum_by {A} (f : A → N) (l : list A) : N :=
  foldr (λ x acc, f x + acc) 0 l.

(** Loop over a list in any monad, discarding the results. *)
Fixpoint for_each {M : Type → Type} `{!MRet M, !MBind M} {A}
    (l : list A) (f : A → M unit) : M unit :=
  match l with
  | [] => mret tt
  | x :: l => let! _ := f x in for_each l f
  end.

Lemma lenN_app {A} (l k : list A) : lenN (l ++ k) = lenN l + lenN k.
Proof. unfold lenN. rewrite length_app. lia. Qed.

Lemma lenN_cons {A} (x : A) l : lenN (x :: l) = 1 + lenN l.
Proof. unfold lenN. cbn [length]. lia. Qed.

Lemma lenN_nil {A} : lenN ([] : list A) = 0.
Proof. done. Qed.

Lemma sum_by_nil {A} (f : A → N) : sum_by f [] = 0.
Proof. done. Qed.

Lemma sum_by_cons {A} (f : A → N) x l : sum_by f (x :: l) = f x + sum_by f l.
Proof. done. Qed.

(** A filter keeps nothing when no element passes. *)
Lemma filter_nil_iff {A} (P : A → Prop) `{∀ x, Decision (P x)} l :
  filter P l = [] ↔ Forall (λ x, ¬ P x) l.
Proof.
  rewrite Forall_forall. split; [intros Hf x Hx HP; by eapply filter_nil_not_elem_of|].
  intros Hl. induction l as [|x l IH]; [done|]. rewrite filter_cons_False by (apply Hl; set_solver).
  apply IH. set_solver.
Qed.

Lemma lenN_concat {A} (ls : list (list A)) :
  lenN (concat ls) = sum_by lenN ls.
Proof.
  induction ls as [|l ls IH]; [done|].
  cbn [concat]. rewrite lenN_app, IH. done.
Qed.

Lemma sum_by_app {A} (f : A → N) l k :
  sum_by f (l ++ k) = sum_by f l + sum_by f k.
Proof. induction l as [|x l IH]; [done|]. cbn [app]. rewrite !sum_by_cons. lia. Qed.

Lemma sum_by_perm {A} (f : A → N) l k : l ≡ₚ k → sum_by f l = sum_by f k.
Proof. induction 1; rewrite ?sum_by_cons in *; lia. Qed.

Lemma sum_by_le_length {A} (f : A → N) (b : N) l :
  (∀ x, x ∈ l → f x ≤ b) → sum_by f l ≤ b * lenN l.
Proof.
  induction l as [|x l IH]; intros H; [rewrite (lenN_nil (A:=A)), sum_by_nil; lia|].
  rewrite lenN_cons, sum_by_cons.
  pose proof (H x ltac:(set_solver)).
  specialize (IH ltac:(set_solver)). nia.
Qed.

Lemma sum_by_ge_length {A} (f : A → N) (b : N) l :
  (∀ x, x ∈ l → b ≤ f x) → b * lenN l ≤ sum_by f l.
Proof.
  induction l as [|x l IH]; intros H; [rewrite (lenN_nil (A:=A)), sum_by_nil; lia|].
  rewrite lenN_cons, sum_by_cons.
  pose proof (H x ltac:(set_solver)).
  specialize (IH ltac:(set_solver)). nia.
Qed.

Lemma enumerate_from_lookup {A} (l : list A) i k :
  enumerate_from i l !! k = (λ x, (i + N.of_nat k, x)) <$> l !! k.
Proof.
  revert i k. induction l as [|x l IH]; intros i [|k]; cbn; [done..| |].
  - by rewrite N.add_0_r.
  - rewrite IH. destruct (l !! k); cbn; [|done]. do 2 f_equal. lia.
Qed.

Lemma enumerate_from_snd {A} (l : list A) i : (enumerate_from i l).*2 = l.
Proof. revert i. induction l as [|x l IH]; intros i; cbn; [done|]. by rewrite IH. Qed.

Lemma take_N_all {A} n (l : list A) : lenN l ≤ n → take_N n l = l.
Proof.
  revert n. induction l as [|x l IH]; intros n; [done|].
  rewrite lenN_cons. intros H. cbn.
  destruct (N.eqb_spec n 0); [lia|]. rewrite IH; [done|lia].
Qed.

Lemma lenN_take_N {A} n (l : list A) : lenN (take_N n l) = n `min` lenN l.
Proof.
  revert n. induction l as [|x l IH]; intros n; [cbn; unfold lenN; cbn; lia|].
  cbn. destruct (N.eqb_spec n 0) as [->|]; [unfold lenN; cbn; lia|].
  rewrite !lenN_cons, IH. lia.
Qed.

(** ** Strings *)

(** [str::strip_prefix]. *)
Fixpoint strip_prefix (p s : string) : option string :=
  match p, s with
  | EmptyString, _ => Some s
  | String a p, String b s => if Ascii.eqb a b then strip_prefix p s else None
  | String _ _, EmptyString => None
  end.

(** [str::parse::<u64>]: an optional [+], then decimal digits whose value fits. *)
Fixpoint u64_digits (acc : N) (s : string) : option N :=
  match s with
  | EmptyString => Some acc
  | String c s =>
      let d := Ascii.N_of_ascii c in
      if (48 <=? d) && (d <=? 57)
      then let acc := acc * 10 + (d - 48) in
           if acc <=? U64_MAX then u64_digits acc s else None
      else None
  end.

Definition u64_from_str (s : string) : option N :=
  let digits := match s with
                | String c rest => if (Ascii.N_of_ascii c =? 43) then rest else s
                | EmptyString => s
                end in
  match digits with
  | EmptyString => None
  | _ => u64_digits 0 digits
  end.

(** [str::as_bytes]. *)
Definition as_bytes (s : string) : bytes := String.list_byte_of_string s.

Lemma strip_prefix_Some p s t : strip_prefix p s = Some t ↔ s = p +:+ t.
Proof.
  revert s. induction p as [|a p IH]; intros s.
  - cbn. split; [by intros [= ->]|by intros ->].
  - change (String a p +:+ t) with (String a (p +:+ t)).
    destruct s as [|b s]; cbn [strip_prefix]; [done|].
    destruct (Ascii.eqb_spec a b) as [->|Hne].
    + rewrite IH. split; [by intros ->|by intros [= ->]].
    + split; [done|by intros [= -> _]].
Qed.

Lemma string_app_length_inj (s s' t t' : string) :
  String.length s = String.length s' → s +:+ t = s' +:+ t' → s = s' ∧ t = t'.
Proof.
  revert s'. induction s as [|c s IH]; intros [|c' s'] Hl Heq; try done.
  change (String c (s +:+ t) = String c' (s' +:+ t')) in Heq.
  injection Heq as -> Heq. cbn in Hl.
  destruct (IH s') as [-> ->]; [lia|done|done].
Qed.

Lemma string_length_app s t : String.length (s +:+ t) = (String.length s + String.length t)%nat.
Proof. induction s as [|c s IH]; [done|]. cbn. by rewrite <- IH. Qed.

Lemma string_app_assoc s t u : s +:+ t +:+ u = (s +:+ t) +:+ u.
Proof.
  induction s as [|c s IH]; [done|].
  change (String c (s +:+ t +:+ u) = String c ((s +:+ t) +:+ u)). by rewrite IH.
Qed.

Lemma string_app_suffix_inj (s s' t t' : string) :
  String.length t = String.length t' → s +:+ t = s' +:+ t' → t = t'.
Proof.
  intros Hl H. apply (string_app_length_inj s s' t t'); [|done].
  apply (f_equal String.length) in H. rewrite !string_length_app in H. lia.
Qed.

Lemma as_bytes_inj s t : as_bytes s = as_bytes t → s = t.
Proof.
  unfold as_bytes. intros H.
  rewrite <- (String.string_of_list_byte_of_string s),
    <- (String.string_of_list_byte_of_string t). by rewrite H.
Qed.

(** ** Hints and tactics *)

Create HintDb lfs discriminated.
#[export] Hint Rewrite @lenN_app @lenN_cons @lenN_nil @sum_by_nil @sum_by_cons @sum_by_app : lfs.

(** Splits boolean conjunctions and turns numeric tests into propositions. *)
Ltac bool_hyps :=
  repeat match goal with
  | H : _ && _ = true |- _ => apply andb_true_iff in H as [? ?]
  | H : _ || _ = false |- _ => apply orb_false_iff in H as [? ?]
  | H : negb _ = true |- _ => apply negb_true_iff in H
  | H : negb _ = false |- _ => apply negb_false_iff in H
  | H : (_ <=? _)%N = true |- _ => apply N.leb_le in H
  | H : (_ <=? _)%N = false |- _ => apply N.leb_gt in H
  | H : (_ <? _)%N = true |- _ => apply N.ltb_lt in H
  | H : (_ <? _)%N = false |- _ => apply N.ltb_ge in H
  | H : (_ =? _)%N = true |- _ => apply N.eqb_eq in H
  | H : (_ =? _)%N = false |- _ => apply N.eqb_neq in H
  | H : (_ <=? _)%Z = true |- _ => apply Z.leb_le in H
  | H : (_ <=? _)%Z = false |- _ => apply Z.leb_gt in H
  | H : (_ <? _)%Z = true |- _ => apply Z.ltb_lt in H
  | H : (_ <? _)%Z = false |- _ => apply Z.ltb_ge in H
  | H : (_ =? _)%Z = true |- _ => apply Z.eqb_eq in H
  | H : (_ =? _)%Z = false |- _ => apply Z.eqb_neq in H
  | H : bool_decide _ = true |- _ => apply bool_decide_eq_true in H
  | H : bool_decide _ = false |- _ => apply bool_decide_eq_false in H
  end.

(** Case analysis on the scrutinee of a match in the goal or a hypothesis. *)
Ltac break_match :=
  match goal with
  | |- context [match ?x with _ => _ end] => destruct x eqn:?
  | H : context [match ?x with _ => _ end] |- _ => destruct x eqn:?
  end.
