(* ===== verification/Tree.v ===== *)
(** * Tree: programs of one thread among others

    A program of a client thread is a tree of atomic actions on the world the
    threads of all processes share.  Between two actions the environment may
    change the world by any step of a relation [R].  [holds] is the
    postcondition of a program under such interference, [bounded] the number
    of actions it takes at most. *)
From S2P Require Import Prelude.

(** [Leaf r] ends with a result; [Node f k] performs [f] atomically. *)
Inductive tree (C E A : Type) : Type :=
| Leaf (r : result E A)
| Node {X : Type} (f : C → X * C) (k : X → tree C E A).
Arguments Leaf {C E A} r.
Arguments Node {C E A X} f k.

Fixpoint tree_bind {C E A B} (f : A → tree C E B) (m : tree C E A) : tree C E B :=
  match m with
  | Leaf (Ok a) => f a
  | Leaf (Err e) => Leaf (Err e)
  | Node g k => Node g (λ x, tree_bind f (k x))
  end.
#[export] Instance tree_mret C E : MRet (tree C E) := λ A a, Leaf (Ok a).
#[export] Instance tree_mbind C E : MBind (tree C E) := @tree_bind C E.

Definition leaf {C E A} (r : result E A) : tree C E A := Leaf r.
Definition throw {C E A} (e : E) : tree C E A := Leaf (Err e).

(** An action whose value is the result, and one that cannot fail. *)
Definition perform {C E A} (f : C → result E A * C) : tree C E A := Node f Leaf.
Definition observe {C E A} (f : C → A * C) : tree C E A := Node f (λ a, Leaf (Ok a)).

(** A program on its own. *)
Fixpoint alone {C E A} (p : tree C E A) (c : C) : result E A * C :=
  match p with
  | Leaf r => (r, c)
  | Node f k => let '(x, c) := f c in alone (k x) c
  end.

Lemma alone_bind {C E A B} (m : tree C E A) (f : A → tree C E B) c :
  alone (let! a := m in f a) c =
  match alone m c with
  | (Ok a, c) => alone (f a) c
  | (Err e, c) => (Err e, c)
  end.
Proof.
  unfold mbind, tree_mbind. revert c. induction m as [[a|e]|X g k IH]; intros c; cbn; [done..|].
  destruct (g c) as [x c']. apply IH.
Qed.

(** ** Interference *)

Section Holds.
  Context {C : Type} (R : relation C) {R_pre : PreOrder R}.

(** Whatever the environment does between the actions of [p], started at [c],
    every action is an [R] step and the result satisfies [Q]. *)
Fixpoint holds {E A} (Q : result E A → C → Prop) (p : tree C E A) (c : C) : Prop :=
  match p with
  | Leaf r => ∀ c', R c c' → Q r c'
  | Node f k => ∀ c', R c c' → R c' (f c').2 ∧ holds Q (k (f c').1) (f c').2
  end.

Lemma holds_interfere {E A} (Q : result E A → C → Prop) p c c' :
  R c c' → holds Q p c → holds Q p c'.
Proof.
  intros Hc. destruct p as [r|X f k]; cbn; intros H c2 Hc2; apply H; by etrans.
Qed.

Lemma holds_mono {E A} (Q Q' : result E A → C → Prop) p c :
  (∀ r c', R c c' → Q r c' → Q' r c') → holds Q p c → holds Q' p c.
Proof.
  revert c. induction p as [r|X f k IH]; cbn; intros c HQ H c' Hc'; [by eauto|].
  destruct (H c' Hc') as [HR Hk]. split; [done|]. eapply IH; [|done].
  intros r c2 Hc2. apply HQ. etrans; [done|]. by etrans.
Qed.

Lemma holds_bind {E A B} (Q : result E A → C → Prop) (Q' : result E B → C → Prop)
    (m : tree C E A) (f : A → tree C E B) c :
  holds Q m c →
  (∀ a c', R c c' → Q (Ok a) c' → holds Q' (f a) c') →
  (∀ e c', R c c' → Q (Err e) c' → Q' (Err e) c') →
  holds Q' (let! a := m in f a) c.
Proof.
  unfold mbind, tree_mbind. revert c.
  induction m as [[a|e]|X g k IH]; cbn; intros c Hm Hok Herr.
  - apply Hok; [done|]. by apply Hm.
  - intros c' Hc'. apply Herr; [done|]. by apply Hm.
  - intros c' Hc'. destruct (Hm c' Hc') as [HR Hk]. split; [done|].
    assert (R c (g c').2) by (by etrans).
    apply IH; [done|intros a c2 ?; apply Hok; by etrans|intros e c2 ?; apply Herr; by etrans].
Qed.

Lemma holds_leaf {E A} (Q : result E A → C → Prop) r c :
  (∀ c', R c c' → Q r c') → holds Q (leaf r) c.
Proof. done. Qed.

Lemma holds_ret {E A} (Q : result E A → C → Prop) (a : A) c :
  (∀ c', R c c' → Q (Ok a) c') → holds Q (mret a) c.
Proof. done. Qed.

Lemma holds_throw {E A} (Q : result E A → C → Prop) (e : E) c :
  (∀ c', R c c' → Q (Err e) c') → holds Q (throw e) c.
Proof. done. Qed.

Lemma holds_perform {E A} (Q : result E A → C → Prop) (f : C → result E A * C) c :
  (∀ c', R c c' → R c' (f c').2 ∧ ∀ c2, R (f c').2 c2 → Q (f c').1 c2) →
  holds Q (perform f) c.
Proof. done. Qed.

Lemma holds_observe {E A} (Q : result E A → C → Prop) (f : C → A * C) c :
  (∀ c', R c c' → R c' (f c').2 ∧ ∀ c2, R (f c').2 c2 → Q (Ok (f c').1) c2) →
  holds Q (observe f) c.
Proof. done. Qed.

Lemma holds_observe_bind {E A B} (Q : result E B → C → Prop) (f : C → A * C)
    (k : A → tree C E B) c :
  (∀ c', R c c' → R c' (f c').2 ∧ holds Q (k (f c').1) (f c').2) →
  holds Q (let! a := observe f in k a) c.
Proof. done. Qed.

Lemma holds_alone {E A} (Q : result E A → C → Prop) p c r c' :
  holds Q p c → alone p c = (r, c') → R c c' ∧ Q r c'.
Proof.
  revert c. induction p as [r0|X f k IH]; cbn; intros c H.
  - intros [= <- <-]. split; [done|]. by apply H.
  - destruct (H c) as [HR Hk]; [done|]. destruct (f c) as [x c1]. intros Ha.
    apply IH in Ha as [? ?]; [|done]. split; [by etrans|done].
Qed.

End Holds.

(** ** The number of actions *)

Fixpoint bounded {C E A} (n : nat) (p : tree C E A) {struct p} : Prop :=
  match p with
  | Leaf _ => True
  | Node f k => match n with O => False | S n => ∀ x, bounded n (k x) end
  end.

Lemma bounded_mono {C E A} n m (p : tree C E A) : (n ≤ m)%nat → bounded n p → bounded m p.
Proof.
  revert n m. induction p as [r|X f k IH]; intros [|n] [|m] Hm Hp; cbn in *; [done..|lia|].
  intros x. eapply IH, Hp. lia.
Qed.

Lemma bounded_bind {C E A B} n m (p : tree C E A) (f : A → tree C E B) :
  bounded n p → (∀ a, bounded m (f a)) → bounded (n + m) (let! a := p in f a).
Proof.
  unfold mbind, tree_mbind. revert n. induction p as [[a|e]|X g k IH]; intros n Hp Hf; cbn.
  - eapply bounded_mono; [|apply Hf]. lia.
  - exact I.
  - destruct n as [|n]; [done|]. intros x. by apply IH.
Qed.

Lemma bounded_perform {C E A} (f : C → result E A * C) : bounded 1 (perform f).
Proof. by intros x. Qed.

Lemma bounded_observe {C E A} (f : C → A * C) : bounded 1 (observe (E:=E) f).
Proof. by intros x. Qed.

(** ** Runs among others *)

(** A run of a program while others take steps of [others]. *)
Inductive runs {C E A} (others : relation C) : tree C E A → C → result E A → C → Prop :=
| runs_leaf r c : runs others (Leaf r) c r c
| runs_others p c c1 r c' :
    others c c1 → runs others p c1 r c' → runs others p c r c'
| runs_node X (f : C → X * C) k c r c' :
    runs others (k (f c).1) (f c).2 r c' → runs others (Node f k) c r c'.

Lemma runs_alone {C E A} (others : relation C) (p : tree C E A) c :
  runs others p c (alone p c).1 (alone p c).2.
Proof.
  revert c. induction p as [r|X f k IH]; intros c; cbn; [constructor|].
  constructor. destruct (f c) as [x c1]. apply IH.
Qed.

Lemma holds_runs {C E A} (R others : relation C) `{!PreOrder R} (Q : result E A → C → Prop)
    (p : tree C E A) c r c' :
  (∀ c c', others c c' → R c c') →
  runs others p c r c' → holds R Q p c → R c c' ∧ Q r c'.
Proof.
  intros Hsub. induction 1 as [r c|p c c1 r c' Ho _ IH|X f k c r c' _ IH]; cbn; intros H.
  - split; [done|]. by apply H.
  - apply Hsub in Ho. destruct IH as [? ?]; [by eapply (holds_interfere R)|]. split; [by etrans|done].
  - destruct (H c) as [HR Hk]; [done|]. destruct (IH Hk) as [? ?]. split; [by etrans|done].
Qed.

(** ** Sums of ranks *)

Lemma list_sum_insert (ws : list nat) i n n' :
  ws !! i = Some n → (list_sum (<[i := n']> ws) + n = list_sum ws + n')%nat.
Proof.
  revert i. induction ws as [|x ws IH]; intros [|i] Hi; [done|done| |].
  - injection Hi as ->. cbn. lia.
  - apply IH in Hi. change (<[S i := n']> (x :: ws)) with (x :: <[i := n']> ws).
    unfold list_sum in *. cbn [foldr]. lia.
Qed.

Lemma list_sum_replicate_1 n : list_sum (replicate n 1%nat) = n.
Proof.
  induction n as [|n IH]; [done|]. cbn [replicate].
  change (list_sum (1%nat :: replicate n 1%nat)) with (S (list_sum (replicate n 1%nat))). by rewrite IH.
Qed.
