(* ===== verification/Digest.v ===== *)
(** * Digest: the 256-bit identities of [git-lfs-delta-core/src/digest.rs]

    [ChunkId] (BLAKE3) and [ObjectOid] (SHA-256) are the two instances of the
    macro [digest_type!].  The [hex] crate and the two hash functions are
    interfaces ([HexCodec], [Hashes]) with the laws the code relies on; a
    concrete instance of each is given for the executable examples. *)
From S2P Require Import Prelude.

Definition DIGEST_BYTES : nat := 32.
Definition DIGEST_HEX_LENGTH : nat := DIGEST_BYTES * 2.

(** [[u8; 32]]: a byte string with a decidable length check. *)
Abbreviation digest32 := (dsig (λ b : bytes, length b = DIGEST_BYTES)).

Definition digest_bytes (d : digest32) : bytes := proj1_sig d.

Definition digest_of (b : bytes) : option digest32 :=
  match decide (length b = DIGEST_BYTES) with
  | left H => Some (dexist b H)
  | right _ => None
  end.

(** ** The two identity types *)

Record ChunkId := ChunkId_from_bytes { ChunkId_inner : digest32 }.
Record ObjectOid := ObjectOid_from_bytes { ObjectOid_inner : digest32 }.

(** [ChunkId::as_bytes] and [ObjectOid::as_bytes]. *)
Definition ChunkId_as_bytes (id : ChunkId) : bytes := digest_bytes (ChunkId_inner id).
Definition ObjectOid_as_bytes (oid : ObjectOid) : bytes := digest_bytes (ObjectOid_inner oid).

#[global] Instance ChunkId_eq_dec : EqDecision ChunkId.
Proof. solve_decision. Defined.
#[global] Instance ObjectOid_eq_dec : EqDecision ObjectOid.
Proof. solve_decision. Defined.

(** [slice.try_into().map(ChunkId::from_bytes)] on a database value. *)
Definition ChunkId_of_slice (b : bytes) : option ChunkId :=
  ChunkId_from_bytes <$> digest_of b.
Definition ObjectOid_of_slice (b : bytes) : option ObjectOid :=
  ObjectOid_from_bytes <$> digest_of b.

(** ** Hexadecimal text *)

(** [hex::FromHexError] and [DigestParseError]. *)
Inductive FromHexError :=
| InvalidHexCharacter (c : Ascii.ascii) (index : nat)
| OddLength
| InvalidStringLength.

Inductive DigestParseError :=
| DigestLength (received : N)
| DigestHex (error : FromHexError).

(** The [hex] crate. *)
Class HexCodec := {
  hex_encode : bytes → string;
  (** [decode_to_slice] into a slice of the given length. *)
  hex_decode_to_slice : string → nat → result FromHexError bytes;
  hex_error_display : FromHexError → string;
}.

(** Characters of lower-case hexadecimal text. *)
Definition is_lower_hex (c : Ascii.ascii) : bool :=
  let n := Ascii.N_of_ascii c in
  ((48 <=? n) && (n <=? 57)) || ((97 <=? n) && (n <=? 102)).

Fixpoint string_forallb (p : Ascii.ascii → bool) (s : string) : bool :=
  match s with
  | EmptyString => true
  | String c s => p c && string_forallb p s
  end.

(** What [digest.rs] relies on: two lower-case digits per byte, and decoding
    inverts encoding and always fills the slice. *)
Class HexLaws `{!HexCodec} := {
  hex_encode_length b : String.length (hex_encode b) = (2 * length b)%nat;
  hex_encode_lower b : string_forallb is_lower_hex (hex_encode b) = true;
  hex_decode_encode b : hex_decode_to_slice (hex_encode b) (length b) = Ok b;
  hex_decode_length s n b : hex_decode_to_slice s n = Ok b → length b = n;
}.

Section Text.
  Context {hex : HexCodec}.

(** [fmt::Display]. *)
Definition ChunkId_display (id : ChunkId) : string := hex_encode (ChunkId_as_bytes id).
Definition ObjectOid_display (oid : ObjectOid) : string :=
  hex_encode (ObjectOid_as_bytes oid).

(** [FromStr::from_str], shared by both instances of the macro. *)
Definition digest_from_str (value : string) : result DigestParseError digest32 :=
  if negb (Nat.eqb (String.length value) DIGEST_HEX_LENGTH)
  then Err (DigestLength (N.of_nat (String.length value)))
  else
    match hex_decode_to_slice value DIGEST_BYTES with
    | Err e => Err (DigestHex e)
    | Ok b =>
        match digest_of b with
        | Some d => Ok d
        | None => Err (DigestHex InvalidStringLength)
        end
    end.

Definition ChunkId_from_str (value : string) : result DigestParseError ChunkId :=
  let! d := digest_from_str value in Ok (ChunkId_from_bytes d).
Definition ObjectOid_from_str (value : string) : result DigestParseError ObjectOid :=
  let! d := digest_from_str value in Ok (ObjectOid_from_bytes d).

Definition DigestParseError_display (e : DigestParseError) : string :=
  match e with
  | DigestLength n => "digest must contain 64 hexadecimal characters, received " +:+ pretty n
  | DigestHex e => "digest is not valid hexadecimal: " +:+ hex_error_display e
  end.

End Text.

(** ** [serde]

    [Serializer::collect_str], [String::deserialize] and [de::Error::custom] of a
    data format. *)
Class Serializer (Out Error : Type) := { collect_str : string → result Error Out }.
Class Deserializer (In Error : Type) := {
  String_deserialize : In → result Error string;
  de_custom : string → Error;
}.

Section Serde.
  Context {hex : HexCodec} {Out In SerError DeError : Type}
          {ser : Serializer Out SerError} {de : Deserializer In DeError}.

(** [fmt::Debug] is [fmt::Display]. *)
Definition ChunkId_debug : ChunkId → string := ChunkId_display.
Definition ObjectOid_debug : ObjectOid → string := ObjectOid_display.

Definition ChunkId_serialize (self : ChunkId) : result SerError Out :=
  collect_str (ChunkId_display self).
Definition ObjectOid_serialize (self : ObjectOid) : result SerError Out :=
  collect_str (ObjectOid_display self).

Definition ChunkId_deserialize (deserializer : In) : result DeError ChunkId :=
  let! value := String_deserialize deserializer in
  map_err (λ e, de_custom (DigestParseError_display e)) (ChunkId_from_str value).
Definition ObjectOid_deserialize (deserializer : In) : result DeError ObjectOid :=
  let! value := String_deserialize deserializer in
  map_err (λ e, de_custom (DigestParseError_display e)) (ObjectOid_from_str value).

End Serde.

(** ** The hash functions *)

(** [blake3::hash] and [Sha256::digest]; an incremental [Sha256] is the
    list of the bytes fed to it so far. *)
Class Hashes := {
  blake3_hash : bytes → digest32;
  sha256_digest : bytes → digest32;
}.

Section Hasher.
  Context {hashes : Hashes}.

Definition Sha256 : Type := bytes.
Definition Sha256_new : Sha256 := [].
Definition Sha256_update (h : Sha256) (b : bytes) : Sha256 := h ++ b.
Definition Sha256_finalize (h : Sha256) : digest32 := sha256_digest h.

End Hasher.

(** ** A concrete [hex] and concrete hash functions *)

Definition hex_digit (n : N) : Ascii.ascii :=
  Ascii.ascii_of_N (if n <? 10 then 48 + n else 87 + n).

Definition hex_value (c : Ascii.ascii) : option N :=
  let n := Ascii.N_of_ascii c in
  if (48 <=? n) && (n <=? 57) then Some (n - 48)
  else if (97 <=? n) && (n <=? 102) then Some (n - 87)
  else if (65 <=? n) && (n <=? 70) then Some (n - 55)
  else None.

Fixpoint plain_hex_encode (b : bytes) : string :=
  match b with
  | [] => EmptyString
  | x :: b =>
      String (hex_digit (Byte.to_N x / 16))
        (String (hex_digit (Byte.to_N x `mod` 16)) (plain_hex_encode b))
  end.

Fixpoint plain_hex_decode (i : nat) (s : string) : result FromHexError bytes :=
  match s with
  | EmptyString => Ok []
  | String _ EmptyString => Err OddLength
  | String c1 (String c2 s) =>
      match hex_value c1, hex_value c2 with
      | None, _ => Err (InvalidHexCharacter c1 i)
      | _, None => Err (InvalidHexCharacter c2 (S i))
      | Some h, Some l =>
          match Byte.of_N (16 * h + l) with
          | None => Err OddLength
          | Some x => let! b := plain_hex_decode (S (S i)) s in Ok (x :: b)
          end
      end
  end.

#[global] Instance plain_hex : HexCodec := {|
  hex_encode := plain_hex_encode;
  hex_decode_to_slice s n :=
    let! b := plain_hex_decode 0 s in
    if decide (length b = n) then Ok b else Err InvalidStringLength;
  hex_error_display _ := "invalid hexadecimal"%string;
|}.

(** Toy digests: the first 31 bytes, zero padded, with a tag in front. *)
Definition pad_digest (tag : Byte.byte) (b : bytes) : bytes :=
  tag :: take 31 (b ++ replicate 31 x00).

Lemma pad_digest_length tag b : length (pad_digest tag b) = DIGEST_BYTES.
Proof.
  unfold pad_digest. rewrite length_cons, length_take, length_app, length_replicate.
  unfold DIGEST_BYTES. lia.
Qed.

Definition toy_hashes : Hashes := {|
  blake3_hash b := dexist (pad_digest xb3 b) (pad_digest_length _ _);
  sha256_digest b := dexist (pad_digest x25 b) (pad_digest_length _ _);
|}.

(** ** Lemmas *)

Lemma digest_of_length b d : digest_of b = Some d → length b = DIGEST_BYTES ∧ digest_bytes d = b.
Proof. unfold digest_of. case_decide; [|done]. by intros [= <-]. Qed.

Lemma digest_bytes_inj (d d' : digest32) : digest_bytes d = digest_bytes d' → d = d'.
Proof. apply dsig_eq. Qed.

Lemma digest_of_proj (d : digest32) : digest_of (digest_bytes d) = Some d.
Proof.
  unfold digest_of. pose proof (proj2_dsig d). case_decide; [|done].
  f_equal. by apply digest_bytes_inj.
Qed.

Lemma digest32_length (d : digest32) : length (digest_bytes d) = DIGEST_BYTES.
Proof. exact (proj2_dsig d). Qed.

Lemma ChunkId_as_bytes_length id : length (ChunkId_as_bytes id) = DIGEST_BYTES.
Proof. apply digest32_length. Qed.
Lemma ObjectOid_as_bytes_length oid : length (ObjectOid_as_bytes oid) = DIGEST_BYTES.
Proof. apply digest32_length. Qed.

Lemma ChunkId_as_bytes_inj id id' : ChunkId_as_bytes id = ChunkId_as_bytes id' → id = id'.
Proof.
  destruct id as [d], id' as [d']. cbn. intros H. f_equal. by apply digest_bytes_inj.
Qed.
Lemma ObjectOid_as_bytes_inj oid oid' :
  ObjectOid_as_bytes oid = ObjectOid_as_bytes oid' → oid = oid'.
Proof.
  destruct oid as [d], oid' as [d']. cbn. intros H. f_equal. by apply digest_bytes_inj.
Qed.

Lemma ChunkId_of_slice_as_bytes id : ChunkId_of_slice (ChunkId_as_bytes id) = Some id.
Proof. destruct id as [d]. unfold ChunkId_of_slice, ChunkId_as_bytes. by rewrite digest_of_proj. Qed.

Lemma ObjectOid_of_slice_as_bytes oid : ObjectOid_of_slice (ObjectOid_as_bytes oid) = Some oid.
Proof. destruct oid as [d]. unfold ObjectOid_of_slice, ObjectOid_as_bytes. by rewrite digest_of_proj. Qed.

Lemma ChunkId_of_slice_ok b : length b = DIGEST_BYTES → is_Some (ChunkId_of_slice b).
Proof.
  unfold ChunkId_of_slice, digest_of. intros H. case_decide; [|done]. by eexists.
Qed.

Lemma ObjectOid_of_slice_ok b : length b = DIGEST_BYTES → is_Some (ObjectOid_of_slice b).
Proof.
  unfold ObjectOid_of_slice, digest_of. intros H. case_decide; [|done]. by eexists.
Qed.

#[export] Hint Resolve ChunkId_as_bytes_length ObjectOid_as_bytes_length : lfs.

Lemma hex_digit_spec n : n < 16 →
  hex_value (hex_digit n) = Some n ∧ is_lower_hex (hex_digit n) = true.
Proof.
  intros H. rewrite <- (N2Nat.id n) in *. generalize dependent (N.to_nat n).
  intros k Hk. do 16 (destruct k as [|k]; [by vm_compute|]). lia.
Qed.

Lemma byte_split x :
  Byte.to_N x / 16 < 16 ∧ Byte.to_N x `mod` 16 < 16 ∧
  16 * (Byte.to_N x / 16) + Byte.to_N x `mod` 16 = Byte.to_N x.
Proof.
  pose proof (Byte.to_N_bounded x).
  split_and!; [apply N.Div0.div_lt_upper_bound; lia|apply N.mod_lt; lia|].
  by rewrite <- (N.div_mod' (Byte.to_N x) 16).
Qed.

Lemma plain_hex_decode_encode b i : plain_hex_decode i (plain_hex_encode b) = Ok b.
Proof.
  revert i. induction b as [|x b IH]; intros i; [done|]. cbn.
  destruct (byte_split x) as (H1 & H2 & H3).
  rewrite (proj1 (hex_digit_spec _ H1)), (proj1 (hex_digit_spec _ H2)), H3,
    Byte.of_to_N, IH. done.
Qed.

#[global] Instance plain_hex_laws : HexLaws.
Proof.
  split; cbn.
  - intros b. induction b as [|x b IH]; cbn; [done|]. lia.
  - intros b. induction b as [|x b IH]; cbn; [done|].
    destruct (byte_split x) as (H1 & H2 & _).
    by rewrite (proj2 (hex_digit_spec _ H1)), (proj2 (hex_digit_spec _ H2)), IH.
  - intros b. rewrite plain_hex_decode_encode. cbn. by case_decide.
  - intros s n b. destruct (plain_hex_decode 0 s); cbn; [|done].
    case_decide; [|done]. by intros [= <-].
Qed.

Section TextFacts.
  Context {hex : HexCodec} {hex_laws : HexLaws}.

Lemma digest_from_str_encode (d : digest32) : digest_from_str (hex_encode (digest_bytes d)) = Ok d.
Proof.
  unfold digest_from_str. rewrite hex_encode_length, digest32_length. cbn [negb Nat.eqb].
  rewrite Nat.eqb_refl. cbn [negb].
  pose proof (hex_decode_encode (digest_bytes d)) as He. rewrite digest32_length in He.
  by rewrite He, digest_of_proj.
Qed.

Lemma ChunkId_display_inj id id' : ChunkId_display id = ChunkId_display id' → id = id'.
Proof.
  intros H. apply ChunkId_as_bytes_inj.
  pose proof (hex_decode_encode (ChunkId_as_bytes id)) as H1.
  pose proof (hex_decode_encode (ChunkId_as_bytes id')) as H2.
  unfold ChunkId_display in H. rewrite H, !ChunkId_as_bytes_length in *. congruence.
Qed.

Lemma ChunkId_display_length id : String.length (ChunkId_display id) = 64%nat.
Proof. unfold ChunkId_display. by rewrite hex_encode_length, ChunkId_as_bytes_length. Qed.

(** Every text that parses has 64 characters, and the decoder's length
    guarantee makes the fallback of [digest_from_str] unreachable. *)
Lemma digest_from_str_spec value :
  digest_from_str value =
    if Nat.eqb (String.length value) 64
    then match hex_decode_to_slice value 32 with
         | Ok b => ok_or (DigestHex InvalidStringLength) (digest_of b)
         | Err e => Err (DigestHex e)
         end
    else Err (DigestLength (N.of_nat (String.length value))).
Proof.
  unfold digest_from_str, DIGEST_HEX_LENGTH, DIGEST_BYTES. cbn [Nat.mul Nat.add].
  by destruct (Nat.eqb (String.length value) 64).
Qed.

Lemma digest_from_str_length value :
  String.length value ≠ DIGEST_HEX_LENGTH →
  digest_from_str value = Err (DigestLength (N.of_nat (String.length value))).
Proof.
  intros H. unfold digest_from_str. apply Nat.eqb_neq in H. by rewrite H.
Qed.

(** The text form of identities round-trips: the 64 lower-case hexadecimal
    digits a [ChunkId] or an [ObjectOid] displays parse back to it, and a text
    of any other length is rejected with the length it has. *)
Theorem digest_text_roundtrip (id : ChunkId) (oid : ObjectOid) value :
  ChunkId_from_str (ChunkId_display id) = Ok id ∧
  ObjectOid_from_str (ObjectOid_display oid) = Ok oid ∧
  String.length (ObjectOid_display oid) = 64%nat ∧
  string_forallb is_lower_hex (ObjectOid_display oid) = true ∧
  (String.length value ≠ 64%nat →
   ObjectOid_from_str value = Err (DigestLength (N.of_nat (String.length value)))).
Proof.
  unfold ChunkId_from_str, ObjectOid_from_str, ChunkId_display, ObjectOid_display.
  destruct id as [d], oid as [e]. unfold ChunkId_as_bytes, ObjectOid_as_bytes.
  cbn [ChunkId_inner ObjectOid_inner]. split_and!.
  - by rewrite digest_from_str_encode.
  - by rewrite digest_from_str_encode.
  - by rewrite hex_encode_length, digest32_length.
  - apply hex_encode_lower.
  - intros H. by rewrite digest_from_str_length.
Qed.

End TextFacts.

(** Identities survive every format of [serde] whose strings do: what they are
    serialized to is read back as them, and what is read is what the text parses
    to. *)
Section SerdeFacts.
  Context {hex : HexCodec} {hex_laws : HexLaws} {Out In SerError DeError : Type}
          {ser : Serializer Out SerError} {de : Deserializer In DeError} (reread : Out → In)
          (strings_reread : ∀ s out, collect_str s = Ok out → String_deserialize (reread out) = Ok s).

Lemma digest_serde_roundtrip (id : ChunkId) (oid : ObjectOid) out :
  (ChunkId_serialize id = Ok out → ChunkId_deserialize (reread out) = Ok id) ∧
  (ObjectOid_serialize oid = Ok out → ObjectOid_deserialize (reread out) = Ok oid).
Proof.
  destruct (digest_text_roundtrip id oid EmptyString) as (H1 & H2 & _).
  unfold ChunkId_serialize, ChunkId_deserialize, ObjectOid_serialize, ObjectOid_deserialize.
  split; intros Ho%strings_reread; rewrite Ho; cbn; by rewrite ?H1, ?H2.
Qed.

Lemma digest_deserialize_exact (source : In) (oid : ObjectOid) :
  ObjectOid_deserialize source = Ok oid ↔
  ∃ value, String_deserialize source = Ok value ∧ ObjectOid_from_str value = Ok oid.
Proof.
  unfold ObjectOid_deserialize. split.
  - intros (value & Hv & Ho%map_err_ok)%result_bind_ok. by exists value.
  - intros (value & -> & Ho). cbn. by rewrite Ho.
Qed.

End SerdeFacts.

Lemma string_forallb_app p s t :
  string_forallb p (s +:+ t) = string_forallb p s && string_forallb p t.
Proof.
  induction s as [|c s IH]; [done|].
  change (String c s +:+ t) with (String c (s +:+ t)). cbn [string_forallb].
  by rewrite IH, andb_assoc.
Qed.
