(* ===== verification/Manifest.v ===== *)
(** * Manifest: [git-lfs-delta-core/src/profile.rs] and [manifest.rs]

    The chunking profile, the object manifest and [ObjectManifest::validate],
    with the declarative notion of a well-formed manifest that [validate]
    decides. *)
From S2P Require Import Prelude Digest.

(** ** [profile.rs] *)

Inductive ChunkingProfile := FastCdcV1.

#[global] Instance ChunkingProfile_eq_dec : EqDecision ChunkingProfile.
Proof. solve_decision. Defined.

Definition ChunkingProfile_beta_v1 : ChunkingProfile := FastCdcV1.

(** Minimum, target and maximum chunk sizes. *)
Definition ChunkingProfile_sizes (self : ChunkingProfile) : N * N * N :=
  match self with
  | FastCdcV1 => (512 * 1024, 2 * 1024 * 1024, 8 * 1024 * 1024)
  end.

Definition profile_minimum (p : ChunkingProfile) : N := (ChunkingProfile_sizes p).1.1.
Definition profile_maximum (p : ChunkingProfile) : N := (ChunkingProfile_sizes p).2.

(** ** [manifest.rs]: data *)

Definition MAX_OBJECT_SIZE : N := 100 * 1024 * 1024 * 1024.
Definition MAX_CHUNK_DESCRIPTORS : N := 204800.

Inductive ManifestVersion := V1.

#[global] Instance ManifestVersion_eq_dec : EqDecision ManifestVersion.
Proof. solve_decision. Defined.

Record ChunkDescriptor := mkChunkDescriptor {
  cd_id : ChunkId;
  cd_offset : N;
  cd_length : N;
}.

#[global] Instance ChunkDescriptor_eq_dec : EqDecision ChunkDescriptor.
Proof. solve_decision. Defined.

Record ObjectManifest := mkObjectManifest {
  om_version : ManifestVersion;
  om_profile : ChunkingProfile;
  om_object_oid : ObjectOid;
  om_object_size : N;
  om_chunks : list ChunkDescriptor;
}.

#[global] Instance ObjectManifest_eq_dec : EqDecision ObjectManifest.
Proof. solve_decision. Defined.

Inductive ManifestError :=
| ObjectTooLarge (actual maximum : N)
| TooManyChunks (actual maximum : N)
| EmptyChunk (index : N)
| ChunkTooSmall (index actual minimum : N)
| ChunkTooLarge (index actual maximum : N)
| UnexpectedOffset (index expected actual : N)
| SizeOverflow
| SizeMismatch (declared described : N).

(** The [#[error(...)]] texts of [ManifestError]. *)
Definition ManifestError_display (e : ManifestError) : string :=
  match e with
  | ObjectTooLarge a m => "object size " +:+ pretty a +:+ " exceeds the maximum " +:+ pretty m
  | TooManyChunks a m =>
      "manifest has " +:+ pretty a +:+ " chunks, exceeding the maximum " +:+ pretty m
  | EmptyChunk i => "chunk " +:+ pretty i +:+ " has zero length"
  | ChunkTooSmall i a m =>
      "chunk " +:+ pretty i +:+ " has length " +:+ pretty a +:+ ", below the minimum " +:+ pretty m
  | ChunkTooLarge i a m =>
      "chunk " +:+ pretty i +:+ " has length " +:+ pretty a +:+ ", above the maximum " +:+ pretty m
  | UnexpectedOffset i e a =>
      "chunk " +:+ pretty i +:+ " starts at " +:+ pretty a +:+ ", expected " +:+ pretty e
  | SizeOverflow => "manifest chunk lengths overflow the object-size representation"
  | SizeMismatch d s =>
      "manifest describes " +:+ pretty s +:+ " bytes but declares " +:+ pretty d
  end.

(** ** [ObjectManifest::validate] *)

Definition u32_or_max (n : N) : N := default U32_MAX (u32_try_from n).

(** The loop over [self.chunks.iter().enumerate()]; [total] is
    [self.chunks.len()] and the result the final [expected_offset]. *)
Fixpoint validate_chunks (minimum maximum total index expected_offset : N)
    (chunks : list ChunkDescriptor) : result ManifestError N :=
  match chunks with
  | [] => Ok expected_offset
  | chunk :: rest =>
      if cd_length chunk =? 0 then Err (EmptyChunk index)
      else if negb (cd_offset chunk =? expected_offset)
      then Err (UnexpectedOffset index expected_offset (cd_offset chunk))
      else if maximum <? cd_length chunk
      then Err (ChunkTooLarge index (cd_length chunk) (u32_or_max maximum))
      else if (index + 1 <? total) && (cd_length chunk <? minimum)
      then Err (ChunkTooSmall index (cd_length chunk) (u32_or_max minimum))
      else
        match checked_add_u64 expected_offset (cd_length chunk) with
        | None => Err SizeOverflow
        | Some next => validate_chunks minimum maximum total (index + 1) next rest
        end
  end.

Definition ObjectManifest_validate (self : ObjectManifest) : result ManifestError unit :=
  if MAX_OBJECT_SIZE <? om_object_size self
  then Err (ObjectTooLarge (om_object_size self) MAX_OBJECT_SIZE)
  else if MAX_CHUNK_DESCRIPTORS <? lenN (om_chunks self)
  then Err (TooManyChunks (lenN (om_chunks self)) MAX_CHUNK_DESCRIPTORS)
  else
    let '(minimum, _, maximum) := ChunkingProfile_sizes (om_profile self) in
    let! expected_offset :=
      validate_chunks minimum maximum (lenN (om_chunks self)) 0 0 (om_chunks self) in
    if negb (expected_offset =? om_object_size self)
    then Err (SizeMismatch (om_object_size self) expected_offset)
    else Ok tt.

(** ** The specification *)

(** Field ranges that the Rust types ([u64], [u32]) guarantee. *)
Definition descriptor_typed (d : ChunkDescriptor) : Prop :=
  cd_offset d ≤ U64_MAX ∧ cd_length d ≤ U32_MAX.
Definition manifest_typed (m : ObjectManifest) : Prop :=
  om_object_size m ≤ U64_MAX ∧ Forall descriptor_typed (om_chunks m).

(** Bytes described by a list of descriptors. *)
Definition described (l : list ChunkDescriptor) : N := sum_by cd_length l.

(** Descriptor [i] of [total] is acceptable at offset [at]. *)
Definition descriptor_ok (p : ChunkingProfile) (last : bool) (start : N)
    (d : ChunkDescriptor) : Prop :=
  0 < cd_length d ∧ cd_length d ≤ profile_maximum p ∧ cd_offset d = start ∧
  (last = false → profile_minimum p ≤ cd_length d).

(** Ordered, gap-free coverage from [start]: the descriptors follow each
    other, and only the last may be shorter than the profile's minimum. *)
Inductive covers (p : ChunkingProfile) : N → list ChunkDescriptor → Prop :=
| covers_nil start : covers p start []
| covers_cons start d rest :
    descriptor_ok p (bool_decide (rest = [])) start d →
    covers p (start + cd_length d) rest →
    covers p start (d :: rest).

Record well_formed (m : ObjectManifest) : Prop := {
  wf_size : om_object_size m ≤ MAX_OBJECT_SIZE;
  wf_count : lenN (om_chunks m) ≤ MAX_CHUNK_DESCRIPTORS;
  wf_covers : covers (om_profile m) 0 (om_chunks m);
  wf_total : described (om_chunks m) = om_object_size m;
}.

(** What an error value asserts of the manifest it was returned for. *)
Definition error_describes (m : ObjectManifest) (e : ManifestError) : Prop :=
  let at_index i P := ∃ d, get_N (om_chunks m) i = Some d ∧ P d in
  match e with
  | ObjectTooLarge a mx => a = om_object_size m ∧ mx = MAX_OBJECT_SIZE ∧ mx < a
  | TooManyChunks a mx => a = lenN (om_chunks m) ∧ mx = MAX_CHUNK_DESCRIPTORS ∧ mx < a
  | EmptyChunk i => at_index i (λ d, cd_length d = 0)
  | ChunkTooSmall i a mn =>
      at_index i (λ d, cd_length d = a ∧ mn = profile_minimum (om_profile m) ∧ a < mn ∧
                       i + 1 < lenN (om_chunks m))
  | ChunkTooLarge i a mx =>
      at_index i (λ d, cd_length d = a ∧ mx = profile_maximum (om_profile m) ∧ mx < a)
  | UnexpectedOffset i e a =>
      at_index i (λ d, cd_offset d = a ∧ a ≠ e ∧
                       e = described (take (N.to_nat i) (om_chunks m)))
  | SizeOverflow => U64_MAX < described (om_chunks m)
  | SizeMismatch dcl dsc =>
      dcl = om_object_size m ∧ dsc = described (om_chunks m) ∧ dcl ≠ dsc
  end.

(** ** Lemmas *)

Lemma described_cons d l : described (d :: l) = cd_length d + described l.
Proof. done. Qed.

Lemma described_app l k : described (l ++ k) = described l + described k.
Proof. apply sum_by_app. Qed.

Lemma lenN_zero_iff {A} (l : list A) : lenN l = 0 ↔ l = [].
Proof. destruct l; [done|]. rewrite lenN_cons. split; [lia|done]. Qed.

Lemma checked_add_Some a b c : checked_add_u64 a b = Some c ↔ c = a + b ∧ a + b ≤ U64_MAX.
Proof.
  unfold checked_add_u64. destruct (N.leb_spec (a + b) U64_MAX); split.
  - intros [= <-]; auto.
  - by intros [-> _].
  - done.
  - lia.
Qed.

Definition size_bounds (p : ChunkingProfile) (mn mx : N) : Prop :=
  mn = profile_minimum p ∧ mx = profile_maximum p.

(** The loop accepts exactly the covering lists whose total fits in a [u64]. *)
Lemma validate_chunks_ok p mn mx total chunks index start e :
  size_bounds p mn mx →
  total = index + lenN chunks →
  validate_chunks mn mx total index start chunks = Ok e ↔
    covers p start chunks ∧ e = start + described chunks ∧
    (chunks ≠ [] → start + described chunks ≤ U64_MAX).
Proof.
  intros [-> ->]. revert index start.
  induction chunks as [|d rest IH]; intros index start Ht; cbn [validate_chunks].
  - rewrite N.add_0_r. split.
    + intros [= ->]. split_and!; [constructor|done|done].
    + by intros (_ & -> & _).
  - rewrite lenN_cons in Ht. rewrite described_cons.
    assert (Hlast : (index + 1 <? total) = negb (bool_decide (rest = []))).
    { destruct (lenN_zero_iff rest) as [H1 H2]. case_bool_decide as Hr; cbn [negb].
      - specialize (H2 Hr). apply N.ltb_ge. lia.
      - apply N.ltb_lt. destruct (N.eq_dec (lenN rest) 0); [tauto|lia]. }
    rewrite Hlast.
    destruct (N.eqb_spec (cd_length d) 0) as [Hz|Hz].
    { split; [done|]. intros [Hc _]. inversion Hc as [|? ? ? (? & _)]; subst. lia. }
    destruct (N.eqb_spec (cd_offset d) start) as [Ho|Ho]; cbn [negb].
    2:{ split; [done|]. intros [Hc _]. by inversion Hc as [|? ? ? (_ & _ & ? & _)]; subst. }
    destruct (N.ltb_spec (profile_maximum p) (cd_length d)) as [Hx|Hx].
    { split; [done|]. intros [Hc _]. inversion Hc as [|? ? ? (_ & ? & _)]; subst. lia. }
    destruct (negb (bool_decide (rest = [])) && (cd_length d <? profile_minimum p)) eqn:Hm.
    { bool_hyps. split; [done|]. intros [Hc _].
      inversion Hc as [|? ? ? (_ & _ & _ & Hmin)]; subst.
      rewrite bool_decide_eq_false_2 in Hmin by done. specialize (Hmin eq_refl). lia. }
    assert (Hd : descriptor_ok p (bool_decide (rest = [])) start d).
    { split_and!; [lia|done|done|]. intros Hr. rewrite Hr in Hm. cbn in Hm.
      by apply N.ltb_ge in Hm. }
    destruct (checked_add_u64 start (cd_length d)) as [next|] eqn:Hadd.
    + apply checked_add_Some in Hadd as [-> Hle].
      rewrite IH by lia. split.
      * intros (Hc & -> & Hmax). split_and!; [by constructor|lia|].
        intros _. destruct rest; [cbn; lia|]. specialize (Hmax ltac:(done)). lia.
      * intros (Hc & -> & Hmax). inversion Hc; subst.
        split_and!; [done|lia|]. intros _. specialize (Hmax ltac:(done)). lia.
    + split; [done|]. intros (_ & _ & Hmax). specialize (Hmax ltac:(done)).
      unfold checked_add_u64 in Hadd.
      destruct (N.leb_spec (start + cd_length d) U64_MAX); [done|]. lia.
Qed.

Lemma covers_prefix_le p start l i d :
  covers p start l → l !! i = Some d →
  cd_offset d = start + described (take i l).
Proof.
  intros Hc. revert i. induction Hc as [|start d' rest Hd Hc IH]; intros i Hi; [done|].
  destruct i as [|i].
  - injection Hi as <-. destruct Hd as (_ & _ & -> & _).
    change (described (take 0 (d' :: rest))) with 0. lia.
  - change (take (S i) (d' :: rest)) with (d' :: take i rest).
    rewrite (IH i Hi), described_cons. lia.
Qed.

Lemma covers_min_count p start l :
  covers p start l → l ≠ [] →
  profile_minimum p * (lenN l - 1) + 1 ≤ described l.
Proof.
  induction 1 as [|start d rest Hd Hc IH]; intros Hne; [done|].
  rewrite lenN_cons, described_cons. destruct Hd as (Hpos & _ & _ & Hmin).
  destruct rest as [|d' rest].
  - unfold lenN, described; cbn. lia.
  - specialize (IH ltac:(done)). rewrite bool_decide_eq_false_2 in Hmin by done.
    specialize (Hmin eq_refl). rewrite lenN_cons in *. nia.
Qed.

(** Each descriptor of a covering list is acceptable. *)
Lemma covers_lookup p start l i d :
  covers p start l → l !! i = Some d →
  0 < cd_length d ∧ cd_length d ≤ profile_maximum p.
Proof.
  intros Hc. revert i. induction Hc as [|start d' rest Hd Hc IH]; intros i Hi; [done|].
  destruct i as [|i]; cbn in Hi; [|by eapply IH].
  injection Hi as <-. destruct Hd as (? & ? & _). done.
Qed.

Lemma sizes_beta p : ∃ t, ChunkingProfile_sizes p = (profile_minimum p, t, profile_maximum p).
Proof. destruct p. eexists. reflexivity. Qed.

(** Descriptor lists within the resource limits cannot overflow a [u64]. *)
Lemma described_bound m :
  manifest_typed m → lenN (om_chunks m) ≤ MAX_CHUNK_DESCRIPTORS →
  described (om_chunks m) ≤ U64_MAX.
Proof.
  intros [_ Hty] Hlen.
  assert (described (om_chunks m) ≤ U32_MAX * lenN (om_chunks m)) as Hle.
  { apply sum_by_le_length. intros d Hd. rewrite Forall_forall in Hty.
    by apply Hty in Hd as [_ ?]. }
  unfold U32_MAX, U64_MAX, MAX_CHUNK_DESCRIPTORS in *. nia.
Qed.

Lemma validate_iff m :
  ObjectManifest_validate m = Ok tt ↔ well_formed m.
Proof.
  unfold ObjectManifest_validate.
  destruct (sizes_beta (om_profile m)) as [t ->].
  destruct (N.ltb_spec MAX_OBJECT_SIZE (om_object_size m)) as [Hs|Hs].
  { split; [done|]. intros []. lia. }
  destruct (N.ltb_spec MAX_CHUNK_DESCRIPTORS (lenN (om_chunks m))) as [Hn|Hn].
  { split; [done|]. intros []. lia. }
  rewrite result_bind_ok. setoid_rewrite validate_chunks_ok; [|by split|done].
  split.
  - intros (e & (Hc & -> & _) & He).
    destruct (N.eqb_spec (0 + described (om_chunks m)) (om_object_size m)); [|done].
    by constructor.
  - intros [_ _ Hc Ht]. exists (0 + described (om_chunks m)). split_and!; [done|done| |].
    + intros _. unfold U64_MAX, MAX_OBJECT_SIZE in *. lia.
    + rewrite N.add_0_l, Ht, N.eqb_refl. done.
Qed.

Lemma get_N_middle {A} (pre : list A) x rest : get_N (pre ++ x :: rest) (lenN pre) = Some x.
Proof. unfold get_N, lenN. rewrite Nat2N.id. by apply list_lookup_middle. Qed.

Lemma take_lenN_app {A} (pre rest : list A) : take (N.to_nat (lenN pre)) (pre ++ rest) = pre.
Proof. unfold lenN. rewrite Nat2N.id. apply take_app_length. Qed.

(** An error of the loop describes the first offending descriptor. *)
Lemma validate_chunks_err m pre rest e :
  om_chunks m = pre ++ rest →
  validate_chunks (profile_minimum (om_profile m)) (profile_maximum (om_profile m))
    (lenN (om_chunks m)) (lenN pre) (described pre) rest = Err e →
  error_describes m e.
Proof.
  revert pre. induction rest as [|d rest IH]; intros pre Hm He; [done|].
  assert (Hat : get_N (om_chunks m) (lenN pre) = Some d) by (rewrite Hm; apply get_N_middle).
  assert (Hpre : take (N.to_nat (lenN pre)) (om_chunks m) = pre)
    by (rewrite Hm; apply take_lenN_app).
  cbn [validate_chunks] in He.
  assert (Hbig : ∀ p, u32_or_max (profile_maximum p) = profile_maximum p ∧
                      u32_or_max (profile_minimum p) = profile_minimum p)
    by (by intros []; vm_compute).
  destruct (Hbig (om_profile m)) as [Hbx Hbn].
  destruct (N.eqb_spec (cd_length d) 0).
  { injection He as <-. by exists d. }
  destruct (N.eqb_spec (cd_offset d) (described pre)); cbn [negb] in He.
  2:{ injection He as <-. exists d. rewrite Hpre. auto. }
  destruct (N.ltb_spec (profile_maximum (om_profile m)) (cd_length d)).
  { injection He as <-. exists d. rewrite Hbx. auto. }
  destruct ((lenN pre + 1 <? lenN (om_chunks m)) &&
            (cd_length d <? profile_minimum (om_profile m))) eqn:Hmin.
  { bool_hyps. injection He as <-. exists d. rewrite Hbn. auto. }
  destruct (checked_add_u64 (described pre) (cd_length d)) as [next|] eqn:Hadd.
  - apply checked_add_Some in Hadd as [-> _].
    apply (IH (pre ++ [d])); [by rewrite Hm, <- app_assoc|].
    rewrite lenN_app, lenN_cons, described_app, described_cons.
    by replace (described pre + (cd_length d + described [])) with
      (described pre + cd_length d) by (cbn; lia).
  - injection He as <-. unfold checked_add_u64 in Hadd.
    destruct (N.leb_spec (described pre + cd_length d) U64_MAX); [done|].
    cbn. rewrite Hm, described_app, described_cons. lia.
Qed.

Lemma validate_error m e :
  ObjectManifest_validate m = Err e → error_describes m e.
Proof.
  unfold ObjectManifest_validate.
  destruct (sizes_beta (om_profile m)) as [t ->].
  destruct (N.ltb_spec MAX_OBJECT_SIZE (om_object_size m)); [by intros [= <-]|].
  destruct (N.ltb_spec MAX_CHUNK_DESCRIPTORS (lenN (om_chunks m))); [by intros [= <-]|].
  destruct (validate_chunks _ _ _ _ _ _) as [off|e'] eqn:Hv; cbn [mbind result_bind].
  - apply validate_chunks_ok with (p := om_profile m) in Hv as (_ & -> & _); [|by split|done].
    destruct (N.eqb_spec (0 + described (om_chunks m)) (om_object_size m)); [done|].
    intros [= <-]. cbn. split_and!; [done|lia|lia].
  - intros [= <-]. by apply (validate_chunks_err m [] (om_chunks m)).
Qed.

(** A gap-free list of at most 100 GiB has at most 204,800 descriptors. *)
Lemma covers_limit p l :
  covers p 0 l → described l ≤ MAX_OBJECT_SIZE → lenN l ≤ MAX_CHUNK_DESCRIPTORS.
Proof.
  intros Hc Hs. destruct (decide (l = [])) as [->|Hne]; [done|].
  pose proof (covers_min_count _ _ _ Hc Hne) as Hmin. destruct p.
  change (profile_minimum FastCdcV1) with 524288 in Hmin.
  unfold MAX_OBJECT_SIZE, MAX_CHUNK_DESCRIPTORS in *. lia.
Qed.

(** ** Properties *)

(** C17: [ObjectManifest::validate] accepts a manifest exactly when it is well
    formed: bounded size and descriptor count, ordered gap-free coverage with
    every chunk length in the profile's range (the last may be short), and a
    total equal to the declared size. *)
Theorem validate_ok_iff m :
  ObjectManifest_validate m = Ok tt ↔ well_formed m.
Proof. apply validate_iff. Qed.

(** An error of [validate] is truthful: the variant, its index and its
    numbers describe a defect the manifest really has. *)
Theorem validate_error_describes m e :
  ObjectManifest_validate m = Err e → error_describes m e.
Proof. apply validate_error. Qed.

(** The overflow branch is dead code: for every manifest the wire types
    can represent, [validate] never returns [SizeOverflow], because the
    descriptor limit is checked first. *)
Theorem validate_never_overflows m :
  manifest_typed m → ObjectManifest_validate m ≠ Err SizeOverflow.
Proof.
  intros Hty He.
  assert (lenN (om_chunks m) ≤ MAX_CHUNK_DESCRIPTORS) as Hn.
  { revert He. unfold ObjectManifest_validate.
    destruct (N.ltb_spec MAX_OBJECT_SIZE (om_object_size m)); [done|].
    by destruct (N.ltb_spec MAX_CHUNK_DESCRIPTORS (lenN (om_chunks m))). }
  apply validate_error in He. cbn in He.
  pose proof (described_bound m Hty Hn). lia.
Qed.

(** The descriptor limit of 204,800 rejects nothing else than what the
    size limit rejects already: a gap-free manifest of at most 100 GiB whose
    chunk lengths are in range never has more descriptors. *)
Theorem descriptor_limit_is_exact m :
  covers (om_profile m) 0 (om_chunks m) →
  described (om_chunks m) = om_object_size m →
  om_object_size m ≤ MAX_OBJECT_SIZE →
  lenN (om_chunks m) ≤ MAX_CHUNK_DESCRIPTORS.
Proof. intros Hc <- Hs. by eapply covers_limit. Qed.

(** ** Witnesses *)

Definition sample_oid : ObjectOid := ObjectOid_from_bytes (sha256_digest (Hashes:=toy_hashes) []).
Definition sample_id : ChunkId := ChunkId_from_bytes (blake3_hash (Hashes:=toy_hashes) []).

(** Two descriptors: a full one and a short last one. *)
Definition sample_manifest : ObjectManifest := {|
  om_version := V1;
  om_profile := ChunkingProfile_beta_v1;
  om_object_oid := sample_oid;
  om_object_size := 524388;
  om_chunks := [mkChunkDescriptor sample_id 0 524288; mkChunkDescriptor sample_id 524288 100];
|}.

(** The same with a first chunk below the minimum. *)
Definition undersized_manifest : ObjectManifest := {|
  om_version := V1;
  om_profile := ChunkingProfile_beta_v1;
  om_object_oid := sample_oid;
  om_object_size := 101;
  om_chunks := [mkChunkDescriptor sample_id 0 1; mkChunkDescriptor sample_id 1 100];
|}.

Lemma validate_error_describes_witness :
  ObjectManifest_validate undersized_manifest = Err (ChunkTooSmall 0 1 524288) ∧
  error_describes undersized_manifest (ChunkTooSmall 0 1 524288).
Proof.
  split; [vm_compute; reflexivity|].
  apply validate_error_describes. vm_compute. reflexivity.
Defined.

Lemma validate_never_overflows_witness :
  manifest_typed sample_manifest ∧
  ObjectManifest_validate sample_manifest ≠ Err SizeOverflow.
Proof.
  assert (manifest_typed sample_manifest) as H.
  { split; [vm_compute; discriminate|].
    repeat (constructor; [split; vm_compute; discriminate|]). constructor. }
  split; [exact H|]. apply (validate_never_overflows sample_manifest). exact H.
Defined.

Lemma descriptor_limit_is_exact_witness :
  covers FastCdcV1 0 (om_chunks sample_manifest) ∧
  lenN (om_chunks sample_manifest) ≤ MAX_CHUNK_DESCRIPTORS.
Proof.
  assert (covers FastCdcV1 0 (om_chunks sample_manifest)) as H.
  { apply covers_cons; [|apply covers_cons; [|apply covers_nil]];
      repeat split; vm_compute; done. }
  split; [exact H|].
  apply (descriptor_limit_is_exact sample_manifest);
    [exact H|vm_compute; reflexivity|vm_compute; discriminate].
Defined.
