(* ===== verification/Stream.v ===== *)
(** * Stream: [git-lfs-delta-core/src/stream.rs]

    [ChunkStream] drives the FastCDC iterator of the [fastcdc] crate and
    accumulates the object manifest.  The crate is the interface [FastCdc];
    its documented contract (the chunks partition the source in order, within
    the configured sizes) is [FastCdcLaws], and a fixed-size splitter is a
    concrete instance. *)
From S2P Require Import Prelude Digest Manifest.

(** ** The [fastcdc] interface *)

(** A [Read]: the bytes it delivers, and the error it ends with, if any. *)
Record Reader := mkReader { rd_content : bytes; rd_error : option string }.
Definition file_reader (content : bytes) : Reader := mkReader content None.

(** [fastcdc::v2020::ChunkData]. *)
Record CdcChunk := mkCdcChunk { cc_offset : N; cc_length : N; cc_data : bytes }.

(** [StreamCDC::new(reader, min, avg, max)] as the sequence of items it yields
    until it returns [None]; an error carries its [to_string()]. *)
Class FastCdc := {
  stream_cdc : N → N → N → Reader → list (result string CdcChunk);
}.

(** Chunks that cover a source from [start], in order and within bounds. *)
Inductive cdc_chunks (mn mx : N) : N → list CdcChunk → Prop :=
| cdc_nil start : cdc_chunks mn mx start []
| cdc_cons start c rest :
    cc_offset c = start → cc_length c = lenN (cc_data c) →
    0 < cc_length c → cc_length c ≤ mx →
    (rest ≠ [] → mn ≤ cc_length c) →
    cdc_chunks mn mx (start + cc_length c) rest →
    cdc_chunks mn mx start (c :: rest).

Class FastCdcLaws `{!FastCdc} := {
  stream_cdc_partition mn avg mx content :
    0 < mn → mn ≤ avg → avg ≤ mx →
    ∃ cs, stream_cdc mn avg mx (file_reader content) = map Ok cs ∧
          concat (map cc_data cs) = content ∧ cdc_chunks mn mx 0 cs;
  stream_cdc_error mn avg mx content e :
    ∃ e', Err e' ∈ stream_cdc mn avg mx (mkReader content (Some e));
}.

(** ** [ChunkStream] *)

Record Chunk := mkChunk { ch_descriptor : ChunkDescriptor; ch_data : bytes }.

Inductive CoreError :=
| Chunking (message : string)
| CoreChunkTooLarge (length : N).

Definition CoreError_display (e : CoreError) : string :=
  match e with
  | Chunking m => "content-defined chunking failed: " +:+ m
  | CoreChunkTooLarge n => "chunk length " +:+ pretty n +:+ " exceeds the v1 manifest limit"
  end.

Record ChunkStream := mkChunkStream {
  cs_inner : list (result string CdcChunk);
  cs_profile : ChunkingProfile;
  cs_object_hasher : Sha256;
  cs_descriptors : list ChunkDescriptor;
  cs_object_size : N;
}.

Section ChunkStream.
  Context {hashes : Hashes} {fastcdc : FastCdc}.

Definition ChunkStream_new (reader : Reader) (profile : ChunkingProfile) : ChunkStream :=
  let '(minimum, average, maximum) := ChunkingProfile_sizes profile in
  {| cs_inner := stream_cdc minimum average maximum reader;
     cs_profile := profile;
     cs_object_hasher := Sha256_new;
     cs_descriptors := [];
     cs_object_size := 0 |}.

(** The body of [next] once the inner iterator produced an item. *)
Definition ChunkStream_accept (self : ChunkStream) (item : result string CdcChunk)
  : result CoreError (Chunk * ChunkStream) :=
  match item with
  | Err error => Err (Chunking error)
  | Ok chunk =>
      match u32_try_from (cc_length chunk) with
      | None => Err (CoreChunkTooLarge (cc_length chunk))
      | Some length =>
          let descriptor :=
            {| cd_id := ChunkId_from_bytes (blake3_hash (cc_data chunk));
               cd_offset := cc_offset chunk;
               cd_length := length |} in
          Ok ({| ch_descriptor := descriptor; ch_data := cc_data chunk |},
              {| cs_inner := cs_inner self;
                 cs_profile := cs_profile self;
                 cs_object_hasher := Sha256_update (cs_object_hasher self) (cc_data chunk);
                 cs_descriptors := cs_descriptors self ++ [descriptor];
                 cs_object_size := wrapping_add_u64 (cs_object_size self) length |})
      end
  end.

Definition set_inner (self : ChunkStream) (inner : list (result string CdcChunk)) : ChunkStream :=
  {| cs_inner := inner; cs_profile := cs_profile self;
     cs_object_hasher := cs_object_hasher self;
     cs_descriptors := cs_descriptors self; cs_object_size := cs_object_size self |}.

(** [Iterator::next]. *)
Definition ChunkStream_next (self : ChunkStream)
  : option (result CoreError Chunk) * ChunkStream :=
  match cs_inner self with
  | [] => (None, self)
  | item :: rest =>
      let self := set_inner self rest in
      match ChunkStream_accept self item with
      | Err e => (Some (Err e), self)
      | Ok (chunk, self) => (Some (Ok chunk), self)
      end
  end.

(** [for chunk in stream.by_ref() { chunk?; ... }]: the chunks seen and the
    drained stream, or the first error. *)
Fixpoint drain_items (items : list (result string CdcChunk)) (self : ChunkStream)
  : result CoreError (list Chunk * ChunkStream) :=
  match items with
  | [] => Ok ([], self)
  | item :: rest =>
      let! p := ChunkStream_accept (set_inner self rest) item in
      let! q := drain_items rest p.2 in
      Ok (p.1 :: q.1, q.2)
  end.
Definition ChunkStream_drain (self : ChunkStream) : result CoreError (list Chunk * ChunkStream) :=
  drain_items (cs_inner self) self.

Definition ChunkStream_completed_manifest (self : ChunkStream) : ObjectManifest :=
  {| om_version := V1;
     om_profile := cs_profile self;
     om_object_oid := ObjectOid_from_bytes (Sha256_finalize (cs_object_hasher self));
     om_object_size := cs_object_size self;
     om_chunks := cs_descriptors self |}.

Definition ChunkStream_finish (self : ChunkStream) : result CoreError ObjectManifest :=
  let! p := ChunkStream_drain self in
  Ok (ChunkStream_completed_manifest p.2).

Definition ChunkStream_collect_manifest (self : ChunkStream) : result CoreError ObjectManifest :=
  ChunkStream_finish self.

(** The chunk and descriptor made of an inner item. *)
Definition chunk_of (c : CdcChunk) : Chunk :=
  {| ch_descriptor := {| cd_id := ChunkId_from_bytes (blake3_hash (cc_data c));
                         cd_offset := cc_offset c;
                         cd_length := cc_length c |};
     ch_data := cc_data c |}.

(** ** Lemmas *)

Lemma accept_ok self c :
  cc_length c ≤ U32_MAX →
  ChunkStream_accept self (Ok c) =
    Ok (chunk_of c,
        {| cs_inner := cs_inner self;
           cs_profile := cs_profile self;
           cs_object_hasher := cs_object_hasher self ++ cc_data c;
           cs_descriptors := cs_descriptors self ++ [ch_descriptor (chunk_of c)];
           cs_object_size := wrapping_add_u64 (cs_object_size self) (cc_length c) |}).
Proof.
  intros H. unfold ChunkStream_accept, u32_try_from.
  destruct (N.leb_spec (cc_length c) U32_MAX); [done|lia].
Qed.

(** [ChunkStream_drain] is the loop over [next]. *)
Lemma drain_unfold self :
  ChunkStream_drain self =
    match ChunkStream_next self with
    | (None, self) => Ok ([], self)
    | (Some (Err e), _) => Err e
    | (Some (Ok chunk), self) =>
        let! q := ChunkStream_drain self in Ok (chunk :: q.1, q.2)
    end.
Proof.
  unfold ChunkStream_drain, ChunkStream_next.
  destruct (cs_inner self) as [|item rest] eqn:Hi; cbn; [done|].
  destruct (ChunkStream_accept (set_inner self rest) item) as [[c s]|e] eqn:Ha; cbn; [|done].
  enough (cs_inner s = rest) as -> by done.
  unfold ChunkStream_accept in Ha. destruct item as [x|]; [|done].
  destruct (u32_try_from (cc_length x)); [|done]. by injection Ha as _ <-.
Qed.

(** Every item is taken from the inner iterator. *)
Lemma next_inner self item self' :
  ChunkStream_next self = (Some item, self') →
  length (cs_inner self) = S (length (cs_inner self')).
Proof.
  unfold ChunkStream_next. destruct (cs_inner self) as [|x rest]; [done|].
  destruct (ChunkStream_accept (set_inner self rest) x) as [[c s]|e] eqn:Ha; intros [= <- <-]; [|done].
  unfold ChunkStream_accept in Ha. destruct x as [y|]; [|done].
  destruct (u32_try_from _); [|done]. by injection Ha as _ <-.
Qed.

(** What a stream delivered while [next] was called. *)
Inductive yields : ChunkStream → list Chunk → ChunkStream → Prop :=
| yields_nil s : yields s [] s
| yields_snoc s ys s1 y s2 :
    yields s ys s1 → ChunkStream_next s1 = (Some (Ok y), s2) → yields s (ys ++ [y]) s2.

Lemma yields_drain s ys s' :
  yields s ys s' →
  ChunkStream_drain s = let! q := ChunkStream_drain s' in Ok (ys ++ q.1, q.2).
Proof.
  induction 1 as [s|s ys s1 y s2 _ IH Hn].
  - by destruct (ChunkStream_drain s) as [[]|].
  - rewrite IH, (drain_unfold s1), Hn. destruct (ChunkStream_drain s2) as [[l t]|]; cbn; [|done].
    by rewrite <- app_assoc.
Qed.

(** A chunk carries the identity of its bytes, and the manifest lists the
    descriptors of the chunks that were delivered. *)
Lemma accept_descriptor self item chunk self' :
  ChunkStream_accept self item = Ok (chunk, self') →
  cs_descriptors self' = cs_descriptors self ++ [ch_descriptor chunk] ∧
  cd_id (ch_descriptor chunk) = ChunkId_from_bytes (blake3_hash (ch_data chunk)).
Proof.
  unfold ChunkStream_accept. destruct item as [c|]; [|done]. destruct (u32_try_from _); [|done].
  by intros [= <- <-].
Qed.

Lemma drain_items_descriptors items self chunks self' :
  drain_items items self = Ok (chunks, self') →
  cs_descriptors self' = cs_descriptors self ++ map ch_descriptor chunks ∧
  Forall (λ ch, cd_id (ch_descriptor ch) = ChunkId_from_bytes (blake3_hash (ch_data ch))) chunks.
Proof.
  revert self chunks. induction items as [|item items IH]; intros self chunks; cbn [drain_items].
  { intros [= <- <-]. cbn. by rewrite app_nil_r. }
  intros ([c s1] & Ha & ([cs s2] & Hd & [= <- <-])%result_bind_ok)%result_bind_ok. cbn in *.
  apply accept_descriptor in Ha as [Hdesc Hid]. apply IH in Hd as [Hd Hf].
  rewrite Hd, Hdesc, <- app_assoc. cbn. split; [done|]. by constructor.
Qed.

Lemma drain_items_ok mn mx start cs self :
  cdc_chunks mn mx start cs → mx ≤ U32_MAX →
  cs_object_size self = start →
  start + sum_by cc_length cs ≤ U64_MAX →
  ∃ self',
    drain_items (map Ok cs) self = Ok (map chunk_of cs, self') ∧
    cs_profile self' = cs_profile self ∧
    cs_object_hasher self' = cs_object_hasher self ++ concat (map cc_data cs) ∧
    cs_descriptors self' = cs_descriptors self ++ map (ch_descriptor ∘ chunk_of) cs ∧
    cs_object_size self' = start + sum_by cc_length cs.
Proof.
  intros Hc Hmx. revert self.
  induction Hc as [start|start c rest Ho Hl Hp Hle Hmin Hc IH]; intros self Hs Hsum.
  - exists self. cbn. rewrite !app_nil_r, N.add_0_r. auto.
  - cbn [map drain_items]. rewrite accept_ok by lia. cbn [mbind result_bind fst snd].
    rewrite sum_by_cons in Hsum. cbn [set_inner cs_object_size]. rewrite Hs.
    match goal with |- context [drain_items _ ?s] =>
      destruct (IH s) as (s' & -> & H1 & H2 & H3 & H4) end.
    { cbn. unfold wrapping_add_u64. apply N.mod_small. lia. }
    { lia. }
    exists s'. cbn in *. split_and!; [done|done| | |].
    + rewrite H2. by rewrite <- app_assoc.
    + rewrite H3. by rewrite <- app_assoc.
    + rewrite H4. unfold sum_by. cbn. lia.
Qed.

Lemma cdc_covers p start cs :
  cdc_chunks (profile_minimum p) (profile_maximum p) start cs →
  covers p start (map (ch_descriptor ∘ chunk_of) cs).
Proof.
  induction 1 as [start|start c rest Ho Hl Hp Hle Hmin Hc IH]; cbn [map]; [constructor|].
  constructor; [|done]. split_and!; cbn; [done|done|done|].
  intros Hb. apply Hmin. intros ->. by rewrite bool_decide_eq_true_2 in Hb.
Qed.

Lemma cdc_lengths mn mx start cs :
  cdc_chunks mn mx start cs → sum_by cc_length cs = lenN (concat (map cc_data cs)).
Proof.
  induction 1 as [start|start c rest Ho Hl Hp Hle Hmin Hc IH]; [done|].
  cbn [map concat]. rewrite sum_by_cons, lenN_app. lia.
Qed.

Lemma described_chunk_of cs : described (map (ch_descriptor ∘ chunk_of) cs) = sum_by cc_length cs.
Proof.
  induction cs as [|c cs IH]; [done|]. cbn [map]. rewrite described_cons, IH. done.
Qed.

Section Chunked.
  Context {fastcdc_laws : FastCdcLaws}.

(** What streaming a fully readable source produces: the chunks, and the
    manifest that describes them. *)
Lemma drain_new content :
  lenN content ≤ U64_MAX →
  ∃ cs self,
    ChunkStream_drain (ChunkStream_new (file_reader content) ChunkingProfile_beta_v1) =
      Ok (map chunk_of cs, self) ∧
    concat (map cc_data cs) = content ∧
    cdc_chunks (profile_minimum FastCdcV1) (profile_maximum FastCdcV1) 0 cs ∧
    ChunkStream_completed_manifest self =
      {| om_version := V1; om_profile := FastCdcV1;
         om_object_oid := ObjectOid_from_bytes (sha256_digest content);
         om_object_size := lenN content;
         om_chunks := map (ch_descriptor ∘ chunk_of) cs |}.
Proof.
  intros Hlen. unfold ChunkStream_drain, ChunkStream_new, ChunkingProfile_beta_v1. cbn [ChunkingProfile_sizes].
  destruct (stream_cdc_partition (512 * 1024) (2 * 1024 * 1024) (8 * 1024 * 1024) content)
    as (cs & Hcs & Hcat & Hc); [done..|].
  cbn [cs_inner]. rewrite Hcs.
  pose proof (cdc_lengths _ _ _ _ Hc) as Hsum. rewrite Hcat in Hsum.
  destruct (drain_items_ok _ _ 0 cs {| cs_inner := map Ok cs; cs_profile := FastCdcV1;
      cs_object_hasher := Sha256_new; cs_descriptors := []; cs_object_size := 0 |} Hc)
    as (s & Hd & H1 & H2 & H3 & H4); [done|done|lia|].
  exists cs, s. split_and!; [done|done|done|].
  unfold ChunkStream_completed_manifest. rewrite H1, H2, H3, H4. cbn.
  rewrite Hcat. unfold Sha256_finalize. by rewrite Hsum.
Qed.

(** A drained stream has read its source to the end. *)
Lemma drain_no_error rd p res :
  ChunkStream_drain (ChunkStream_new rd p) = Ok res → rd_error rd = None.
Proof.
  unfold ChunkStream_drain, ChunkStream_new.
  destruct (ChunkingProfile_sizes p) as [[mn avg] mx]. cbn [cs_inner].
  destruct rd as [content [e|]]; [|done]. intros Hd. exfalso.
  destruct (stream_cdc_error mn avg mx content e) as [e' He].
  revert He Hd. generalize (mkChunkStream (stream_cdc mn avg mx (mkReader content (Some e))) p
    Sha256_new [] 0) as s. generalize (stream_cdc mn avg mx (mkReader content (Some e))).
  intros items. revert res. induction items as [|item items IH]; intros res s He Hd;
    [by apply elem_of_nil in He|]. cbn [drain_items] in Hd.
  apply result_bind_ok in Hd as ([c s1] & Ha & Hd). apply result_bind_ok in Hd as (q & Hd & _).
  apply elem_of_cons in He as [<-|He]; [done|]. by eapply IH.
Qed.

(** [finish] on a file of at most 100 GiB. *)
Lemma finish_valid content :
  lenN content ≤ MAX_OBJECT_SIZE →
  ∃ m, ChunkStream_finish (ChunkStream_new (file_reader content) ChunkingProfile_beta_v1) = Ok m ∧
       om_object_oid m = ObjectOid_from_bytes (sha256_digest content) ∧
       om_object_size m = lenN content ∧
       ObjectManifest_validate m = Ok tt.
Proof.
  intros Hlen.
  destruct (drain_new content) as (cs & s & Hd & Hcat & Hc & Hm).
  { unfold MAX_OBJECT_SIZE, U64_MAX in *. lia. }
  unfold ChunkStream_finish. rewrite Hd. cbn. eexists. split; [done|].
  rewrite Hm. cbn. split_and!; [done|done|].
  assert (described (map (ch_descriptor ∘ chunk_of) cs) = lenN content) as Ht.
  { by rewrite described_chunk_of, (cdc_lengths _ _ _ _ Hc), Hcat. }
  apply validate_iff.
  pose proof (cdc_covers FastCdcV1 0 cs Hc) as Hcov.
  constructor; cbn; [done| |done|done].
  apply (covers_limit FastCdcV1); [done|by rewrite Ht].
Qed.

(** ** Properties *)

(** C34: the manifest a client or the basic upload computes from a file is
    accepted by [ObjectManifest::validate]: for every fully readable source
    of at most 100 GiB, [finish] succeeds, with the SHA-256 and the length of
    the source, and the manifest is valid. *)
Theorem finish_manifest_valid content :
  lenN content ≤ MAX_OBJECT_SIZE →
  ∃ m, ChunkStream_finish (ChunkStream_new (file_reader content) ChunkingProfile_beta_v1) = Ok m ∧
       om_object_oid m = ObjectOid_from_bytes (sha256_digest content) ∧
       om_object_size m = lenN content ∧
       ObjectManifest_validate m = Ok tt.
Proof. apply finish_valid. Qed.

(** The stream as its clients see it: the chunks, their descriptors and the
    manifest. *)
Lemma stream_describes content :
  lenN content ≤ U64_MAX →
  ∃ chunks self,
    ChunkStream_drain (ChunkStream_new (file_reader content) ChunkingProfile_beta_v1) =
      Ok (chunks, self) ∧
    concat (map ch_data chunks) = content ∧
    (om_chunks (ChunkStream_completed_manifest self) = map ch_descriptor chunks ∧
     om_object_oid (ChunkStream_completed_manifest self) = ObjectOid_from_bytes (sha256_digest content)) ∧
    Forall (λ c, lenN (ch_data c) = cd_length (ch_descriptor c) ∧
                 ChunkId_from_bytes (blake3_hash (ch_data c)) = cd_id (ch_descriptor c)) chunks.
Proof.
  intros Hlen. destruct (drain_new content Hlen) as (cs & s & Hd & Hcat & Hc & Hm).
  exists (map chunk_of cs), s. split_and!; [done| | | |].
  - by rewrite map_map.
  - rewrite Hm. cbn. by rewrite map_map.
  - by rewrite Hm.
  - clear Hd Hcat Hm. induction Hc as [|start c rest Ho Hl Hp Hle Hmin Hc IH]; cbn; [done|].
    constructor; [|done]. by split.
Qed.

(** C35: the streamed chunks reconstruct the source exactly, chunk by chunk:
    each chunk's bytes have the length and the BLAKE3 identity of the
    descriptor at the same position of the manifest. *)
Theorem stream_reconstructs content :
  lenN content ≤ U64_MAX →
  ∃ chunks self,
    ChunkStream_drain (ChunkStream_new (file_reader content) ChunkingProfile_beta_v1) =
      Ok (chunks, self) ∧
    concat (map ch_data chunks) = content ∧
    om_chunks (ChunkStream_completed_manifest self) = map ch_descriptor chunks ∧
    Forall (λ c, lenN (ch_data c) = cd_length (ch_descriptor c) ∧
                 cd_id (ch_descriptor c) = ChunkId_from_bytes (blake3_hash (ch_data c))) chunks.
Proof.
  intros Hlen. destruct (stream_describes content Hlen) as (chunks & s & Hd & Hcat & [Hm _] & Hall).
  exists chunks, s. split_and!; [done..|]. eapply Forall_impl; [exact Hall|]. by intros c [Hl Hi].
Qed.

End Chunked.
End ChunkStream.

(** ** A concrete chunker: blocks of the maximum size *)

Fixpoint drop_N {A} (n : N) (l : list A) : list A :=
  match l with
  | [] => []
  | x :: l' => if n =? 0 then l else drop_N (n - 1) l'
  end.

Fixpoint fixed_blocks (fuel : nat) (mx start : N) (l : bytes) : list CdcChunk :=
  match fuel, l with
  | O, _ | _, [] => []
  | S fuel, _ =>
      let block := take_N mx l in
      mkCdcChunk start (lenN block) block ::
      fixed_blocks fuel mx (start + lenN block) (drop_N mx l)
  end.

#[global] Instance fixed_cdc : FastCdc := {|
  stream_cdc _ _ mx rd :=
    map Ok (fixed_blocks (length (rd_content rd)) mx 0 (rd_content rd)) ++
    match rd_error rd with None => [] | Some e => [Err e] end;
|}.

Lemma take_drop_N {A} n (l : list A) : take_N n l ++ drop_N n l = l.
Proof.
  revert n. induction l as [|x l IH]; intros n; [done|]. cbn.
  destruct (N.eqb_spec n 0); cbn; [done|]. by rewrite IH.
Qed.

Lemma fixed_blocks_spec fuel mn mx start l :
  0 < mn → mn ≤ mx → (length l ≤ fuel)%nat →
  concat (map cc_data (fixed_blocks fuel mx start l)) = l ∧
  cdc_chunks mn mx start (fixed_blocks fuel mx start l).
Proof.
  intros Hmn Hmx. revert start l.
  induction fuel as [|fuel IH]; intros start l Hl; [destruct l; cbn in *; [by split; [|constructor]|lia]|].
  destruct l as [|x l]; [by split; [|constructor]|].
  change (fixed_blocks (S fuel) mx start (x :: l)) with
    (mkCdcChunk start (lenN (take_N mx (x :: l))) (take_N mx (x :: l)) ::
     fixed_blocks fuel mx (start + lenN (take_N mx (x :: l))) (drop_N mx (x :: l))).
  pose proof (take_drop_N mx (x :: l)) as Htd.
  pose proof (lenN_take_N mx (x :: l)) as Hlen. rewrite lenN_cons in Hlen.
  assert (lenN (x :: l) = lenN (take_N mx (x :: l)) + lenN (drop_N mx (x :: l))) as Hsplit
    by (by rewrite <- lenN_app, Htd).
  rewrite lenN_cons in Hsplit.
  destruct (IH (start + lenN (take_N mx (x :: l))) (drop_N mx (x :: l))) as [H1 H2].
  { unfold lenN in *. cbn in Hl. lia. }
  split; [cbn [map concat cc_data]; by rewrite H1, Htd|].
  constructor; cbn [cc_offset cc_length cc_data]; [done|done|lia|lia| |done].
  intros Hrest. rewrite Hlen.
  destruct (N.min_spec mx (1 + lenN l)) as [[? ->]|[Hmin ->]]; [done|].
  exfalso. apply Hrest. assert (lenN (drop_N mx (x :: l)) = 0) as H0 by lia.
  apply lenN_zero_iff in H0. rewrite H0. by destruct fuel.
Qed.

#[global] Instance fixed_cdc_laws : FastCdcLaws.
Proof.
  split.
  - intros mn avg mx content H1 H2 H3.
    exists (fixed_blocks (length content) mx 0 content).
    destruct (fixed_blocks_spec (length content) mn mx 0 content) as [Hc Hp]; [done|lia|done|].
    split_and!; [|done|done]. cbn. by rewrite app_nil_r.
  - intros mn avg mx content e. exists e. cbn. apply elem_of_app. right. by left.
Qed.

(** ** Witnesses *)

Definition sample_content : bytes := [x67; x69; x74; x2d; x6c; x66; x73].

Lemma finish_manifest_valid_witness :
  lenN sample_content ≤ MAX_OBJECT_SIZE ∧
  ∃ m, ChunkStream_finish (hashes := toy_hashes)
         (ChunkStream_new (file_reader sample_content) ChunkingProfile_beta_v1) = Ok m ∧
       ObjectManifest_validate m = Ok tt.
Proof.
  split; [vm_compute; discriminate|].
  destruct (finish_manifest_valid (hashes := toy_hashes) sample_content)
    as (m & H1 & _ & _ & H2); [vm_compute; discriminate|].
  exists m. split; [exact H1|exact H2].
Defined.

Lemma stream_reconstructs_witness :
  lenN sample_content ≤ U64_MAX ∧
  ∃ chunks self,
    ChunkStream_drain (hashes := toy_hashes)
      (ChunkStream_new (file_reader sample_content) ChunkingProfile_beta_v1) = Ok (chunks, self) ∧
    concat (map ch_data chunks) = sample_content.
Proof.
  split; [vm_compute; discriminate|].
  destruct (stream_reconstructs (hashes := toy_hashes) sample_content)
    as (chunks & self & H1 & H2 & _); [vm_compute; discriminate|].
  exists chunks, self. split; [exact H1|exact H2].
Defined.
