(* ===== verification/Text.v ===== *)
(** * Text: what the programs use of [str], [String] and [std::io]

    A [&str] is the [string] of its bytes.  [str::from_utf8] and
    [String::from_utf8_lossy] read UTF-8 as the standard library does: one
    scalar value, or the longest prefix of one, at a time. *)
From S2P Require Import Prelude Stream.

(** ** UTF-8 *)

Definition within (lo hi b : N) : bool := (lo <=? b) && (b <=? hi).
Definition continuation : N → bool := within 128 191.

(** What a reader finds at the front of its input: a scalar value of so many
    bytes, or that many bytes which begin no scalar value. *)
Inductive Utf8Step := Scalar (n : nat) | Broken (n : nat).

(** The bytes that may follow the first one. *)
Definition second_ok (b0 : N) : N → bool :=
  if b0 =? 224 then within 160 191
  else if b0 =? 237 then within 128 159
  else if b0 =? 240 then within 144 191
  else if b0 =? 244 then within 128 143
  else continuation.

(** How many bytes a scalar value takes that starts with [b0]; 0 for none. *)
Definition utf8_char_width (b0 : N) : nat :=
  if b0 <? 128 then 1
  else if within 194 223 b0 then 2
  else if within 224 239 b0 then 3
  else if within 240 244 b0 then 4
  else 0.

Definition utf8_step (b : list N) : Utf8Step :=
  match b with
  | [] => Broken 0
  | b0 :: rest =>
      match utf8_char_width b0, rest with
      | 1%nat, _ => Scalar 1
      | 2%nat, b1 :: _ => if continuation b1 then Scalar 2 else Broken 1
      | 3%nat, b1 :: b2 :: _ =>
          if negb (second_ok b0 b1) then Broken 1
          else if continuation b2 then Scalar 3 else Broken 2
      | 3%nat, [b1] => if second_ok b0 b1 then Broken 2 else Broken 1
      | 4%nat, b1 :: b2 :: b3 :: _ =>
          if negb (second_ok b0 b1) then Broken 1
          else if negb (continuation b2) then Broken 2
          else if continuation b3 then Scalar 4 else Broken 3
      | 4%nat, [b1; b2] =>
          if negb (second_ok b0 b1) then Broken 1
          else if continuation b2 then Broken 3 else Broken 2
      | 4%nat, [b1] => if second_ok b0 b1 then Broken 2 else Broken 1
      | _, _ => Broken 1
      end
  end.

(** The chunks of an input: every scalar value, every broken sequence. *)
Fixpoint utf8_chunks (fuel : nat) (b : list N) : list (bool * list N) :=
  match fuel, b with
  | _, [] => []
  | O, _ => []
  | S fuel, _ =>
      match utf8_step b with
      | Scalar n => (true, take n b) :: utf8_chunks fuel (drop n b)
      | Broken n => (false, take n b) :: utf8_chunks fuel (drop n b)
      end
  end.

Definition codes (s : string) : list N := Ascii.N_of_ascii <$> String.list_ascii_of_string s.
Definition of_codes (l : list N) : string :=
  String.string_of_list_ascii (Ascii.ascii_of_N <$> l).
Definition byte_codes (b : bytes) : list N := Byte.to_N <$> b.

Definition utf8_valid (l : list N) : bool := forallb fst (utf8_chunks (length l) l).

(** [Utf8Error]: the length of the valid prefix. *)
Record Utf8Error := mkUtf8Error { valid_up_to : N }.

Fixpoint valid_prefix (chunks : list (bool * list N)) : N :=
  match chunks with
  | (true, c) :: rest => lenN c + valid_prefix rest
  | _ => 0
  end.

(** [str::from_utf8] and [String::from_utf8]. *)
Definition from_utf8 (b : bytes) : result Utf8Error string :=
  let l := byte_codes b in
  if utf8_valid l then Ok (of_codes l)
  else Err (mkUtf8Error (valid_prefix (utf8_chunks (length l) l))).

(** U+FFFD in UTF-8. *)
Definition REPLACEMENT : list N := [239; 191; 189].

(** [String::from_utf8_lossy] and [Path::to_string_lossy]. *)
Definition to_string_lossy (s : string) : string :=
  let l := codes s in
  of_codes (concat (map (λ c : bool * list N, if c.1 then c.2 else REPLACEMENT)
                        (utf8_chunks (length l) l))).

(** ** Lines *)

(** [str::lines] and [BufRead::lines] cut after every line feed and drop the
    terminator with a carriage return before it. *)
Definition LF : Ascii.ascii := Ascii.ascii_of_N 10.
Definition CR : Ascii.ascii := Ascii.ascii_of_N 13.

Definition strip_carriage_return (line : list Ascii.ascii) : list Ascii.ascii :=
  match reverse line with
  | c :: rest => if Ascii.eqb c CR then reverse rest else line
  | [] => []
  end.

(** The complete lines, and what follows the last line feed. *)
Fixpoint split_lines (s : list Ascii.ascii) : list (list Ascii.ascii) * list Ascii.ascii :=
  match s with
  | [] => ([], [])
  | c :: s =>
      let '(ls, rest) := split_lines s in
      if Ascii.eqb c LF then ([] :: ls, rest)
      else match ls with
           | l :: ls => ((c :: l) :: ls, rest)
           | [] => ([], c :: rest)
           end
  end.

Definition lines (s : string) : list string :=
  let '(ls, rest) := split_lines (String.list_ascii_of_string s) in
  map (String.string_of_list_ascii ∘ strip_carriage_return) ls
  ++ match rest with [] => [] | _ => [String.string_of_list_ascii rest] end.

(** [BufReader::new(input).lines()] over a [Read]: every line is decoded when
    it is read; an error of the reader ends the sequence, and the caller stops
    at the first error of any kind. *)
Definition decode_line (l : list Ascii.ascii) : result string string :=
  let codes := Ascii.N_of_ascii <$> l in
  if utf8_valid codes then Ok (String.string_of_list_ascii l)
  else Err "stream did not contain valid UTF-8".

Definition buffered_lines (input : Reader) : list (result string string) :=
  let '(ls, rest) := split_lines (Ascii.ascii_of_byte <$> rd_content input) in
  map (decode_line ∘ strip_carriage_return) ls
  ++ match rd_error input, rest with
     | Some e, _ => [Err e]
     | None, [] => []
     | None, _ => [decode_line rest]
     end.

(** ** White space *)

(** The Unicode property [White_Space]: the length of the character at the
    front, if it is one. *)
Definition whitespace_at (l : list N) : option nat :=
  match l with
  | 32 :: _ | 9 :: _ | 10 :: _ | 11 :: _ | 12 :: _ | 13 :: _ => Some 1%nat
  | 194 :: 133 :: _ | 194 :: 160 :: _ => Some 2%nat
  | 225 :: 154 :: 128 :: _ | 226 :: 129 :: 159 :: _ | 227 :: 128 :: 128 :: _ => Some 3%nat
  | 226 :: 128 :: c :: _ =>
      if within 128 138 c || (c =? 168) || (c =? 169) || (c =? 175) then Some 3%nat else None
  | _ => None
  end.

(** The words of a text, with the one being read. *)
Fixpoint words_from (fuel : nat) (word l : list N) : list (list N) :=
  let flush := match word with [] => [] | _ => [word] end in
  match fuel, l with
  | O, _ | _, [] => flush
  | S fuel, c :: rest =>
      match whitespace_at l with
      | Some n => flush ++ words_from fuel [] (drop n l)
      | None => words_from fuel (word ++ [c]) rest
      end
  end.

(** [str::split_whitespace]. *)
Definition split_whitespace (s : string) : list string :=
  of_codes <$> words_from (S (length (codes s))) [] (codes s).

Fixpoint trim_start_codes (fuel : nat) (l : list N) : list N :=
  match fuel with
  | O => l
  | S fuel =>
      match whitespace_at l with
      | Some n => trim_start_codes fuel (drop n l)
      | None => l
      end
  end.

(** The shortest prefix after which nothing but white space follows. *)
Fixpoint trim_end_codes (l : list N) : list N :=
  match trim_start_codes (length l) l with
  | [] => []
  | _ => match l with [] => [] | c :: rest => c :: trim_end_codes rest end
  end.

(** [str::trim]. *)
Definition trim (s : string) : string :=
  let l := codes s in of_codes (trim_end_codes (trim_start_codes (length l) l)).

Definition is_empty (s : string) : bool :=
  match s with EmptyString => true | _ => false end.

Definition starts_with (p s : string) : bool :=
  match strip_prefix p s with Some _ => true | None => false end.

Fixpoint ends_with (suffix s : string) : bool :=
  bool_decide (s = suffix)
  || match s with EmptyString => false | String _ s => ends_with suffix s end.

(** ** Integers *)

(** [ParseIntError] of an unsigned integer. *)
Inductive ParseIntError := IntEmpty | InvalidDigit | PosOverflow.

Definition ParseIntError_display (e : ParseIntError) : string :=
  match e with
  | IntEmpty => "cannot parse integer from empty string"
  | InvalidDigit => "invalid digit found in string"
  | PosOverflow => "number too large to fit in target type"
  end.

Fixpoint parse_digits (acc : N) (s : string) : result ParseIntError N :=
  match s with
  | EmptyString => Ok acc
  | String c s =>
      let d := Ascii.N_of_ascii c in
      if within 48 57 d
      then let acc := acc * 10 + (d - 48) in
           if acc <=? U64_MAX then parse_digits acc s else Err PosOverflow
      else Err InvalidDigit
  end.

(** [str::parse] at [u64] and, on a 64-bit machine, at [usize]. *)
Definition u64_parse (s : string) : result ParseIntError N :=
  match s with
  | EmptyString => Err IntEmpty
  | String c EmptyString =>
      if (Ascii.N_of_ascii c =? 43) then Err InvalidDigit else parse_digits 0 s
  | String c rest => if (Ascii.N_of_ascii c =? 43) then parse_digits 0 rest else parse_digits 0 s
  end.

(** ** Paths *)

(** [Path::join] with a relative component. *)
Definition join (base name : string) : string :=
  if is_empty base || ends_with "/" base then base +:+ name else base +:+ "/" +:+ name.

(** What precedes the last separator. *)
Fixpoint before_last_separator (s : string) : option string :=
  match s with
  | EmptyString => None
  | String c rest =>
      match before_last_separator rest with
      | Some p => Some (String c p)
      | None => if Ascii.eqb c (Ascii.ascii_of_N 47) then Some EmptyString else None
      end
  end.

(** [Path::parent] of a path without a trailing separator. *)
Definition path_parent (s : string) : option string :=
  if is_empty s || bool_decide (s = "/") then None
  else match before_last_separator s with
       | Some EmptyString => Some "/"
       | Some p => Some p
       | None => Some EmptyString
       end.

(** ** Errors and processes *)

(** [std::io::Error], as far as the programs look at it. *)
Record IoError := mkIoError { io_broken_pipe : bool; io_message : string }.
Definition io_other (message : string) : IoError := mkIoError false message.

(** [std::env::var]. *)
Inductive EnvVar := EnvValue (s : string) | EnvNotPresent | EnvNotUnicode (message : string).

(** [Command::status] and [Command::output]: the exit code, if the process
    exited, and the standard output. *)
Class Commands (G : Type) := {
  command_output : string → list string → G → result IoError (option N * bytes) * G;
}.

(** [ExitStatus::success]. *)
Definition exit_success (status : option N) : bool := bool_decide (status = Some 0).

(** ** Lemmas *)

Lemma codes_of_codes l : Forall (λ c, c < 256) l → codes (of_codes l) = l.
Proof.
  unfold codes, of_codes. rewrite String.list_ascii_of_string_of_list_ascii.
  induction 1 as [|c l Hc _ IH]; [done|]. cbn.
  rewrite Ascii.N_ascii_embedding by lia. by rewrite IH.
Qed.

Lemma of_codes_codes s : of_codes (codes s) = s.
Proof.
  unfold of_codes, codes. rewrite <- (String.string_of_list_ascii_of_string s) at 2. f_equal.
  induction (String.list_ascii_of_string s) as [|c l IH]; [done|]. cbn.
  by rewrite Ascii.ascii_N_embedding, IH.
Qed.

Lemma byte_codes_small b : Forall (λ c, c < 256) (byte_codes b).
Proof.
  apply Forall_fmap, Forall_true. intros x. unfold compose.
  pose proof (Byte.to_N_bounded x). lia.
Qed.

(** A decoded text is the bytes it was decoded from. *)
Lemma from_utf8_codes b s : from_utf8 b = Ok s → codes s = byte_codes b.
Proof.
  unfold from_utf8. case_match; [|done]. intros [= <-].
  apply codes_of_codes, byte_codes_small.
Qed.

Lemma utf8_chunks_concat fuel l :
  (length l ≤ fuel)%nat → concat (utf8_chunks fuel l).*2 = l.
Proof.
  revert l. induction fuel as [|fuel IH]; intros [|c l] Hl; cbn [length] in Hl; [done|lia|done|].
  assert (∃ b n, utf8_chunks (S fuel) (c :: l) =
            (b, take (S n) (c :: l)) :: utf8_chunks fuel (drop (S n) (c :: l))) as (b & n & ->).
  { cbn [utf8_chunks]. destruct (utf8_step (c :: l)) as [[|n]|[|n]] eqn:Hs; [| | |]; eauto;
      exfalso; cbn in Hs; repeat case_match; done. }
  change (take (S n) (c :: l) ++ concat (utf8_chunks fuel (drop (S n) (c :: l))).*2 = c :: l).
  rewrite IH; [apply take_drop|]. cbn [drop]. rewrite length_drop. lia.
Qed.

(** [from_utf8_lossy] leaves valid text alone. *)
Lemma to_string_lossy_valid s : utf8_valid (codes s) = true → to_string_lossy s = s.
Proof.
  intros Hv. unfold to_string_lossy.
  assert (Hc : concat (map (λ c : bool * list N, if c.1 then c.2 else REPLACEMENT)
                 (utf8_chunks (length (codes s)) (codes s))) = codes s).
  { rewrite <- (utf8_chunks_concat (length (codes s)) (codes s)) at 3 by done.
    unfold utf8_valid in Hv. rewrite forallb_forall in Hv. f_equal. apply map_ext_in.
    intros [b x] Hx. apply Hv in Hx as Hb. cbn in *. by subst. }
  rewrite Hc. apply of_codes_codes.
Qed.
