(* ===== verification/Protocol.v ===== *)
(** * Protocol: the wire types of [git-lfs-delta-protocol]

    The Batch API and CDC messages of [src/lfs.rs] and [src/cdc.rs], and
    [select_transfer].  The [url] crate is the interface [UrlLib]. *)
From S2P Require Import Prelude Digest Manifest.

(** [uuid::Uuid]: a 128-bit value; PostgreSQL orders [UUID] columns the same
    way. *)
Definition UUID_LIMIT : N := 340282366920938463463374607431768211456.
Abbreviation Uuid := (dsig (λ n : N, n < UUID_LIMIT)).

Definition uuid_value (u : Uuid) : N := proj1_sig u.

Lemma uuid_mod_lt n : n `mod` UUID_LIMIT < UUID_LIMIT.
Proof. by apply N.mod_lt. Qed.

(** [Uuid::from_u128]. *)
Definition uuid_from (n : N) : Uuid := dexist (n `mod` UUID_LIMIT) (uuid_mod_lt n).

Lemma uuid_value_inj u v : uuid_value u = uuid_value v → u = v.
Proof. apply dsig_eq. Qed.

Lemma uuid_value_lt u : uuid_value u < UUID_LIMIT.
Proof. exact (proj2_dsig u). Qed.

#[global] Instance Uuid_eq_dec : EqDecision Uuid := _.
#[global] Instance Uuid_countable : Countable Uuid := _.

Class UuidText := { uuid_display : Uuid → string }.

(** ** The [url] crate *)

Class UrlLib := {
  Url : Type;
  #[global] Url_eq_dec :: EqDecision Url;
  url_parse : string → result string Url;
  url_join : Url → string → result string Url;
  (** [path_segments_mut] succeeds (the URL can be a base). *)
  url_has_segments : Url → bool;
  url_pop_if_empty : Url → Url;
  url_extend : Url → list string → Url;
  url_scheme : Url → string;
  url_path : Url → string;
}.

(** The HTTP methods: those the protocol uses, and the others. *)
Inductive Method := GET | POST | PUT | HEAD | OtherMethod (name : string).

#[global] Instance Method_eq_dec : EqDecision Method.
Proof. solve_decision. Defined.

(** ** [lfs.rs] *)

Inductive Operation := Upload | Download.
Inductive TransferKind := Basic | Cdc.

#[global] Instance Operation_eq_dec : EqDecision Operation.
Proof. solve_decision. Defined.
#[global] Instance TransferKind_eq_dec : EqDecision TransferKind.
Proof. solve_decision. Defined.

Definition TransferKind_as_str (self : TransferKind) : string :=
  match self with Basic => "basic" | Cdc => "cdc" end.

Inductive TransferSelectionError := NoSupportedTransfer.

Definition TransferSelectionError_display (_ : TransferSelectionError) : string :=
  "the client offered no supported Git LFS transfer mechanism".

Definition select_transfer (offered : list string)
  : result TransferSelectionError TransferKind :=
  if bool_decide (offered = []) then Ok Basic
  else if existsb (λ t, bool_decide (t = "cdc"%string)) offered then Ok Cdc
  else if existsb (λ t, bool_decide (t = "basic"%string)) offered then Ok Basic
  else Err NoSupportedTransfer.

Record LfsReference := { lr_name : string }.

Record BatchObject := { bo_oid : ObjectOid; bo_size : N }.

Record BatchRequest := {
  br_operation : Operation;
  br_transfers : list string;
  br_reference : option LfsReference;
  br_objects : list BatchObject;
}.

Record BatchObjectError := { boe_code : N; boe_message : string }.

Section Url.
  Context {url_lib : UrlLib}.

Record LfsAction := {
  la_href : Url;
  la_header : gmap string string;
  la_expires_at : option string;
}.

Record BatchObjectResponse := {
  bor_oid : ObjectOid;
  bor_size : N;
  bor_actions : gmap string LfsAction;
  bor_error : option BatchObjectError;
}.

Record BatchResponse := {
  bresp_transfer : TransferKind;
  bresp_objects : list BatchObjectResponse;
}.

End Url.

Record LockOwner := { lo_name : string }.

Record Lock := mkLock {
  lk_id : string;
  lk_path : string;
  lk_locked_at : string;
  lk_owner : LockOwner;
}.

Record LockRequest := { lreq_path : string }.
Record LockResponse := { lresp_lock : Lock }.
Record LockList := { ll_locks : list Lock; ll_next_cursor : option string }.
Record LockVerifyResponse := {
  lv_ours : list Lock;
  lv_theirs : list Lock;
  lv_next_cursor : option string;
}.
Record UnlockRequest := { ur_force : bool }.
Record UnlockResponse := { uresp_lock : Lock }.

(** ** [cdc.rs] *)

Record BeginUploadRequest := {
  bu_protocol_version : N;
  bu_manifest : ObjectManifest;
}.

Record BeginUploadResponse := {
  bur_protocol_version : N;
  bur_upload_id : Uuid;
  bur_missing_chunk_indexes : list N;
  bur_expires_at : string;
}.

(** ** Lemmas *)

Lemma existsb_offered (name : string) offered :
  existsb (λ t, bool_decide (t = name)) offered = bool_decide (name ∈ offered).
Proof.
  apply eq_true_iff_eq. rewrite existsb_exists, bool_decide_eq_true.
  rewrite list_elem_of_In. split.
  - intros (t & Ht & Hn). by apply bool_decide_eq_true in Hn as ->.
  - intros H. exists name. by rewrite bool_decide_eq_true.
Qed.

(** [select_transfer] picks CDC whenever the client offers it, whatever
    the order and whatever else is offered; otherwise basic when it is offered
    or nothing is; and it fails exactly on a non-empty offer with neither. *)
Theorem select_transfer_spec offered :
  select_transfer offered =
    if decide ("cdc"%string ∈ offered) then Ok Cdc
    else if decide (offered = [] ∨ "basic"%string ∈ offered) then Ok Basic
    else Err NoSupportedTransfer.
Proof.
  unfold select_transfer. rewrite !existsb_offered.
  case_bool_decide as Hn; [subst|].
  - destruct (decide _) as [H|]; [by apply elem_of_nil in H|].
    by rewrite decide_True by auto.
  - destruct (decide ("cdc"%string ∈ offered)); [by rewrite bool_decide_eq_true_2|].
    rewrite bool_decide_eq_false_2 by done.
    destruct (decide ("basic"%string ∈ offered)).
    + by rewrite bool_decide_eq_true_2, decide_True by auto.
    + by rewrite bool_decide_eq_false_2, decide_False by tauto.
Qed.

(** ** Concrete URLs for the examples *)

(** A URL is the list of its parts. *)
Definition plain_url : UrlLib := {|
  Url := list string;
  url_parse s := Ok [s];
  url_join u s := Ok (u ++ [s]);
  url_has_segments _ := true;
  url_pop_if_empty u := u;
  url_extend u l := u ++ l;
  url_scheme _ := "https";
  url_path u := foldr String.append EmptyString u;
|}.
