(* ===== verification/Agent.v ===== *)
(** * Agent: the Git LFS custom-transfer protocol of [transfer.rs]

    The agent reads one JSON message per line, calls the data plane
    ([TransferBackend]) for every transfer and writes one JSON message per
    line.  [serde_json] is the interface [TransferJson]; the standard output
    is the interface [Write], which may fail at either of the two calls that
    [write_json_line] makes.  The specification [protocol] says which messages
    a conversation exchanges; [conversation_outcome] states what the driver
    does with it. *)
From S2P Require Import Prelude Digest Stream Text.

(** ** The data of a transfer *)

(** The [BTreeMap] of headers iterates in the order of its keys. *)
Record TransferAction := mkTransferAction {
  ta_href : string;
  ta_header : list (string * string);
}.

Record UploadRequest := mkUploadRequest {
  up_oid : ObjectOid;
  up_size : N;
  up_path : string;
  up_action : option TransferAction;
}.

Record DownloadRequest := mkDownloadRequest {
  dr_oid : ObjectOid;
  dr_size : N;
  dr_action : option TransferAction;
}.

Record DownloadResult := mkDownloadResult {
  dres_path : string;
  dres_bytes_transferred : N;
}.

Record BackendError := BackendError_new { be_code : Z; be_message : string }.

(** [Display] of [BackendError]. *)
Definition BackendError_display (e : BackendError) : string :=
  "transfer failed (" +:+ pretty (be_code e) +:+ "): " +:+ be_message e.

Class TransferBackend (B : Type) := {
  upload : UploadRequest → B → result BackendError N * B;
  download : DownloadRequest → B → result BackendError DownloadResult * B;
}.

(** ** Messages *)

Inductive InputMessage :=
| Init (operation remote : string) (concurrent : bool) (concurrent_transfers : N)
| UploadMessage (request : UploadRequest)
| DownloadMessage (request : DownloadRequest)
| Terminate.

Record WireError := mkWireError { we_code : Z; we_message : string }.

Inductive OutputMessage :=
| Progress (oid : ObjectOid) (bytes_so_far bytes_since_last : N)
| Complete (oid : ObjectOid) (path : option string) (error : option WireError).

(** A line of output: a message, or the empty object that answers [Init]. *)
Inductive OutputLine := Empty | Message (m : OutputMessage).

Inductive TransferProtocolError :=
| ReadFailed (error : string)
| DecodeFailed (error : string)
| WriteFailed (error : IoError)
| NotInitialized
| AlreadyInitialized.

Definition TransferProtocolError_display (e : TransferProtocolError) : string :=
  match e with
  | ReadFailed e => "could not read Git LFS transfer input: " +:+ e
  | DecodeFailed e => "invalid Git LFS transfer message: " +:+ e
  | WriteFailed e => "could not write Git LFS transfer output: " +:+ io_message e
  | NotInitialized => "Git LFS sent a transfer before initialization"
  | AlreadyInitialized => "Git LFS sent duplicate initialization"
  end.

(** ** The interfaces *)

(** [serde_json::from_str] on a line. *)
Class TransferJson := { message_from_str : string → result string InputMessage }.

(** The two writes of a line: the JSON text ([serde_json::to_writer]), then
    the line feed and [flush]. *)
Class Write (W : Type) := {
  to_writer : OutputLine → W → option IoError * W;
  newline_flush : W → option IoError * W;
}.

(** What was completely written: a line counts once its terminator went out. *)
Class WriteLaws (W : Type) `{!Write W} := {
  written : W → list OutputLine;
  written_line line w w1 w2 :
    to_writer line w = (None, w1) → newline_flush w1 = (None, w2) →
    written w2 = written w ++ [line];
  written_partial line w e w1 : to_writer line w = (Some e, w1) → written w1 = written w;
  written_unflushed line w w1 e w2 :
    to_writer line w = (None, w1) → newline_flush w1 = (Some e, w2) →
    written w2 = written w ∨ written w2 = written w ++ [line];
}.

Section Driver.
  Context {B W : Type} {backend : TransferBackend B} {write : Write W} {json : TransferJson}.

(** The state of a run: the data plane and the output. *)
Record Agent := mkAgent { ag_backend : B; ag_output : W }.

Definition Io (A : Type) : Type := Agent → result TransferProtocolError A * Agent.

#[export] Instance io_ret : MRet Io := λ A a s, (Ok a, s).
#[export] Instance io_bind : MBind Io := λ A A' f m s,
  match m s with
  | (Ok a, s) => f a s
  | (Err e, s) => (Err e, s)
  end.

Definition io_lift {A} (r : result TransferProtocolError A) : Io A := λ s, (r, s).

Definition call {A} (f : B → A * B) : Io A := λ s,
  let '(a, b) := f (ag_backend s) in (Ok a, mkAgent b (ag_output s)).

Definition write_json_line (value : OutputLine) : Io unit := λ s,
  match to_writer value (ag_output s) with
  | (Some error, w) => (Err (WriteFailed (io_other (io_message error))), mkAgent (ag_backend s) w)
  | (None, w) =>
      match newline_flush w with
      | (Some error, w) => (Err (WriteFailed error), mkAgent (ag_backend s) w)
      | (None, w) => (Ok tt, mkAgent (ag_backend s) w)
      end
  end.

Definition emit_progress (oid : ObjectOid) (bytes : N) : Io unit :=
  write_json_line (Message (Progress oid bytes bytes)).

Definition emit_complete (oid : ObjectOid) (path : option string) (error : option BackendError)
  : Io unit :=
  write_json_line (Message (Complete oid path
    ((λ error, mkWireError (be_code error) (be_message error)) <$> error))).

Definition require_initialized (initialized : bool) : result TransferProtocolError unit :=
  if initialized then Ok tt else Err NotInitialized.

(** One message: [None] when the conversation is over, else whether the
    conversation is initialised now. *)
Definition handle_message (initialized : bool) (message : InputMessage) : Io (option bool) :=
  match message with
  | Init _ _ _ _ =>
      if initialized then io_lift (Err AlreadyInitialized)
      else let! _ := write_json_line Empty in mret (Some true)
  | UploadMessage request =>
      let! _ := io_lift (require_initialized initialized) in
      let! outcome := call (upload request) in
      let! _ := match outcome with
                | Ok bytes =>
                    let! _ := emit_progress (up_oid request) bytes in
                    emit_complete (up_oid request) None None
                | Err error => emit_complete (up_oid request) None (Some error)
                end in
      mret (Some initialized)
  | DownloadMessage request =>
      let! _ := io_lift (require_initialized initialized) in
      let! outcome := call (download request) in
      let! _ := match outcome with
                | Ok result =>
                    let! _ := emit_progress (dr_oid request) (dres_bytes_transferred result) in
                    emit_complete (dr_oid request) (Some (to_string_lossy (dres_path result))) None
                | Err error => emit_complete (dr_oid request) None (Some error)
                end in
      mret (Some initialized)
  | Terminate => mret None
  end.

(** The loop over the input lines. *)
Fixpoint message_loop (initialized : bool) (input : list (result string string)) : Io unit :=
  match input with
  | [] => mret tt
  | line :: rest =>
      let! line := io_lift (map_err ReadFailed line) in
      let! message := io_lift (map_err DecodeFailed (message_from_str line)) in
      let! next := handle_message initialized message in
      match next with
      | None => mret tt
      | Some initialized => message_loop initialized rest
      end
  end.

Definition run_transfer_protocol (input : Reader) : Io unit :=
  message_loop false (buffered_lines input).

(** ** The specification *)

(** A conversation has not begun, is open, or is closed; the data plane is
    the rest of the abstract state. *)
Inductive phase := Fresh | Open | Closed.

(** What a message may be answered with. *)
Inductive exchange : phase * B → InputMessage → list OutputLine → phase * B → Prop :=
| exchange_init b operation remote concurrent transfers :
    exchange (Fresh, b) (Init operation remote concurrent transfers) [Empty] (Open, b)
| exchange_upload b b' request n :
    upload request b = (Ok n, b') →
    exchange (Open, b) (UploadMessage request)
      [Message (Progress (up_oid request) n n); Message (Complete (up_oid request) None None)]
      (Open, b')
| exchange_upload_failed b b' request e :
    upload request b = (Err e, b') →
    exchange (Open, b) (UploadMessage request)
      [Message (Complete (up_oid request) None (Some (mkWireError (be_code e) (be_message e))))]
      (Open, b')
| exchange_download b b' request r :
    download request b = (Ok r, b') →
    exchange (Open, b) (DownloadMessage request)
      [Message (Progress (dr_oid request) (dres_bytes_transferred r) (dres_bytes_transferred r));
       Message (Complete (dr_oid request) (Some (to_string_lossy (dres_path r))) None)]
      (Open, b')
| exchange_download_failed b b' request e :
    download request b = (Err e, b') →
    exchange (Open, b) (DownloadMessage request)
      [Message (Complete (dr_oid request) None (Some (mkWireError (be_code e) (be_message e))))]
      (Open, b')
| exchange_terminate p b :
    p ≠ Closed → exchange (p, b) Terminate [] (Closed, b).

(** A conversation: messages read, lines written. *)
Inductive protocol : phase * B → list InputMessage → list OutputLine → phase * B → Prop :=
| protocol_nil s : protocol s [] [] s
| protocol_cons s m out s' ms outs s'' :
    exchange s m out s' → protocol s' ms outs s'' →
    protocol s (m :: ms) (out ++ outs) s''.

(** The transfers a message stands for. *)
Definition message_oid (m : InputMessage) : option ObjectOid :=
  match m with
  | UploadMessage r => Some (up_oid r)
  | DownloadMessage r => Some (dr_oid r)
  | _ => None
  end.
Definition completed_oid (l : OutputLine) : option ObjectOid :=
  match l with Message (Complete oid _ _) => Some oid | _ => None end.

(** How a run over [input] ends after the conversation that led from [b0] to
    phase [p] and data plane [b], with [rest] still unread. *)
Definition outcome_ok (rest : list (result string string)) (p : phase)
    (r : result TransferProtocolError unit) : Prop :=
  match r with
  | Ok _ => p = Closed ∨ rest = []
  | Err (ReadFailed e) => p ≠ Closed ∧ ∃ rest', rest = Err e :: rest'
  | Err (DecodeFailed e) =>
      p ≠ Closed ∧ ∃ line rest', rest = Ok line :: rest' ∧ message_from_str line = Err e
  | Err NotInitialized =>
      p = Fresh ∧ ∃ line m rest', rest = Ok line :: rest' ∧ message_from_str line = Ok m ∧
                                  is_Some (message_oid m)
  | Err AlreadyInitialized =>
      p = Open ∧ ∃ line rest' o r c t, rest = Ok line :: rest' ∧
                                      message_from_str line = Ok (Init o r c t)
  | Err (WriteFailed _) => False
  end.

(** Messages and the lines they were read from. *)
Definition decodes (line : result string string) (m : InputMessage) : Prop :=
  ∃ s, line = Ok s ∧ message_from_str s = Ok m.

(** ** Writing a line *)

Section Proofs.
  Context {laws : WriteLaws W}.

(** A line goes out, or the run ends with a write error and at most this line
    more in the output. *)
Lemma write_json_line_spec line s r s' :
  write_json_line line s = (r, s') →
  ag_backend s' = ag_backend s ∧
  match r with
  | Ok _ => written (ag_output s') = written (ag_output s) ++ [line]
  | Err e => (∃ io, e = WriteFailed io) ∧
             ∃ k, (k ≤ 1)%nat ∧ written (ag_output s') = written (ag_output s) ++ take k [line]
  end.
Proof.
  unfold write_json_line. destruct (to_writer line (ag_output s)) as [[e|] w] eqn:Hw.
  - intros [= <- <-]. cbn. split; [done|]. split; [eauto|]. exists 0%nat. split; [lia|].
    rewrite app_nil_r. by eapply written_partial.
  - destruct (newline_flush w) as [[e|] w'] eqn:Hf; intros [= <- <-]; cbn; (split; [done|]).
    + split; [eauto|].
      destruct (written_unflushed line _ _ _ _ Hw Hf) as [H|H].
      * exists 0%nat. split; [lia|]. by rewrite app_nil_r.
      * exists 1%nat. split; [lia|]. done.
    + by eapply written_line.
Qed.

(** Several lines in a row, stopping at the first failure. *)
Definition write_lines (ls : list OutputLine) : Io unit := for_each ls write_json_line.

Lemma write_lines_spec ls s r s' :
  write_lines ls s = (r, s') →
  ag_backend s' = ag_backend s ∧
  match r with
  | Ok _ => written (ag_output s') = written (ag_output s) ++ ls
  | Err e => (∃ io, e = WriteFailed io) ∧
             ∃ k, (k ≤ length ls)%nat ∧
                  written (ag_output s') = written (ag_output s) ++ take k ls
  end.
Proof.
  revert s. induction ls as [|l ls IH]; intros s; cbn [write_lines for_each].
  { intros [= <- <-]. by rewrite app_nil_r. }
  unfold mbind, io_bind at 1. destruct (write_json_line l s) as [[[]|e] s1] eqn:Hl;
    apply write_json_line_spec in Hl as [Hb Hl].
  - intros [Hb' Hr]%IH. split; [congruence|]. destruct r as [[]|e].
    + by rewrite Hr, Hl, <- app_assoc.
    + destruct Hr as [? (k & ? & Hk)]. split; [done|]. exists (S k). cbn. split; [lia|].
      by rewrite Hk, Hl, <- app_assoc.
  - intros [= <- <-]. split; [done|]. destruct Hl as [? (k & Hk & Hl)]. split; [done|].
    exists k. split; [cbn; lia|]. rewrite Hl. f_equal. by destruct k as [|[|]]; [..|lia].
Qed.

(** ** One message *)

(** The phase of a running conversation. *)
Definition running (initialized : bool) : phase := if initialized then Open else Fresh.

(** What the driver does with a message: it refuses it, or it writes what an
    exchange of the protocol answers. *)
Lemma handle_message_spec initialized m s :
  (∃ e, handle_message initialized m s = (Err e, s) ∧
     ((e = NotInitialized ∧ initialized = false ∧ is_Some (message_oid m)) ∨
      (e = AlreadyInitialized ∧ initialized = true ∧ ∃ o r c t, m = Init o r c t))) ∨
  (∃ out p b, exchange (running initialized, ag_backend s) m out (p, b) ∧
     handle_message initialized m s =
       (let! _ := write_lines out in
        mret (match p with Closed => None | _ => Some true end)) (mkAgent b (ag_output s))).
Proof.
  destruct s as [b w], m as [o r c t|req|req|], initialized; cbn [running];
    try (left; eexists; split; [done|]; (left; by eauto) || (right; by eauto 10)).
  - right. eexists _, _, _. split; [constructor|].
    cbn. unfold mbind, io_bind. by destruct (write_json_line _ _) as [[[]|] ?].
  - right. destruct (upload req b) as [[n|e] b'] eqn:Hu.
    + eexists _, _, _. split; [by apply exchange_upload|].
      cbn. unfold mbind, io_bind, call. cbn. rewrite Hu. cbn.
      unfold emit_progress, emit_complete. cbn.
      destruct (write_json_line _ _) as [[[]|] ?]; [|done].
      by destruct (write_json_line _ _) as [[[]|] ?].
    + eexists _, _, _. split; [by apply exchange_upload_failed|].
      cbn. unfold mbind, io_bind, call. cbn. rewrite Hu. cbn.
      unfold emit_complete. cbn. by destruct (write_json_line _ _) as [[[]|] ?].
  - right. destruct (download req b) as [[n|e] b'] eqn:Hu.
    + eexists _, _, _. split; [by apply exchange_download|].
      cbn. unfold mbind, io_bind, call. cbn. rewrite Hu. cbn.
      unfold emit_progress, emit_complete. cbn.
      destruct (write_json_line _ _) as [[[]|] ?]; [|done].
      by destruct (write_json_line _ _) as [[[]|] ?].
    + eexists _, _, _. split; [by apply exchange_download_failed|].
      cbn. unfold mbind, io_bind, call. cbn. rewrite Hu. cbn.
      unfold emit_complete. cbn. by destruct (write_json_line _ _) as [[[]|] ?].
  - right. eexists _, _, _. split; [by apply exchange_terminate|]. done.
  - right. eexists _, _, _. split; [by apply exchange_terminate|]. done.
Qed.

(** One completion per transfer, in order. *)
Lemma exchange_completes s m out s' :
  exchange s m out s' → omap completed_oid out = option_list (message_oid m).
Proof. by destruct 1. Qed.

Lemma protocol_completes s ms outs s' :
  protocol s ms outs s' → omap completed_oid outs = omap message_oid ms.
Proof.
  induction 1 as [|s m out s' ms outs s'' He _ IH]; [done|].
  rewrite omap_app, IH. apply exchange_completes in He as ->. cbn.
  by destruct (message_oid m).
Qed.

(** ** The loop *)

(** The conversation a run has, and how the run ends. *)
Definition conversation (start : phase) (input : list (result string string))
    (s : Agent) (r : result TransferProtocolError unit) (s' : Agent) : Prop :=
  ∃ ms outs p b rest read,
    protocol (start, ag_backend s) ms outs (p, b) ∧
    input = read ++ rest ∧ Forall2 decodes read ms ∧
    match r with
    | Err (WriteFailed _) =>
        ∃ line m out p' b' k rest', rest = line :: rest' ∧ decodes line m ∧
          exchange (p, b) m out (p', b') ∧ ag_backend s' = b' ∧ (k ≤ length out)%nat ∧
          written (ag_output s') = written (ag_output s) ++ outs ++ take k out
    | _ => ag_backend s' = b ∧ written (ag_output s') = written (ag_output s) ++ outs ∧
           outcome_ok rest p r
    end.

Lemma conversation_stop start input s r :
  outcome_ok input start r → conversation start input s r s.
Proof.
  intros Ho. exists [], [], start, (ag_backend s), input, []. split_and!; [constructor|done|constructor|].
  destruct r as [|[]]; try (by split_and!; [|rewrite app_nil_r|]). done.
Qed.

Lemma conversation_step start b w m out p line rest r s' w1 :
  decodes line m → exchange (start, b) m out (p, ag_backend w1) →
  written (ag_output w1) = written w ++ out →
  conversation p rest w1 r s' →
  conversation start (line :: rest) (mkAgent b w) r s'.
Proof.
  intros Hd He Hw (ms & outs & p' & b' & rest' & read & Hp & -> & Hf & Hr).
  exists (m :: ms), (out ++ outs), p', b', rest', (line :: read).
  split_and!; [by econstructor|done|by constructor|]. cbn [ag_output].
  destruct r as [[]|[| |io| |]];
    try (destruct Hr as (? & Hr & ?); split_and!; [done|by rewrite Hr, Hw, <- !app_assoc|done]).
  destruct Hr as (l & m' & o & p2 & b2 & k & rs & ? & ? & ? & ? & ? & Hr).
  exists l, m', o, p2, b2, k, rs. split_and!; try done. by rewrite Hr, Hw, <- !app_assoc.
Qed.

Lemma message_loop_spec input initialized s r s' :
  message_loop initialized input s = (r, s') →
  conversation (running initialized) input s r s'.
Proof.
  revert initialized s. induction input as [|line rest IH]; intros initialized s; cbn [message_loop].
  { intros [= <- <-]. apply conversation_stop. by right. }
  destruct line as [line|e]; [|intros [= <- <-]; apply conversation_stop; cbn;
                               split; [by destruct initialized|eauto]].
  unfold mbind, io_bind, io_lift. cbn [map_err].
  destruct (message_from_str line) as [m|e] eqn:Hm; cbn [map_err];
    [|intros [= <- <-]; apply conversation_stop; cbn; split; [by destruct initialized|eauto]].
  destruct (handle_message_spec initialized m s)
    as [(e & -> & [(-> & -> & Hoid)|(-> & -> & o & q & c & t & ->)])|(out & p & b & He & ->)].
  - intros [= <- <-]. apply conversation_stop. cbn. eauto 10.
  - intros [= <- <-]. apply conversation_stop. cbn. eauto 10.
  - unfold mbind, io_bind, mret, io_ret.
    destruct (write_lines out (mkAgent b (ag_output s))) as [[[]|e] s1] eqn:Hl;
      apply write_lines_spec in Hl as [Hb Hl]; cbn in Hb, Hl.
    + intros Hrun. destruct s as [b0 w0]. eapply (conversation_step _ _ _ _ out p);
        [by exists line| |done|].
      { by rewrite Hb. }
      assert (p = Open ∨ p = Closed) as [->| ->] by (inversion He; auto).
      * by apply (IH true).
      * injection Hrun as <- <-. apply conversation_stop. by left.
    + intros [= <- <-]. destruct Hl as [[io ->] (k & Hk & Hl)].
      eexists [], [], _, _, _, []. split_and!; [constructor|done|constructor|].
      eexists (Ok line), m, out, p, b, k, rest. split_and!; eauto. by exists line.
Qed.

(** Every line was written in some exchange. *)
Lemma protocol_line s ms outs s' line :
  protocol s ms outs s' → line ∈ outs → ∃ s1 m out s2, exchange s1 m out s2 ∧ line ∈ out.
Proof.
  induction 1 as [|s m out s' ms outs s'' He _ IH]; [set_solver|].
  intros [?|?]%elem_of_app; [by eauto 10|by apply IH].
Qed.

Lemma conversation_line start input s r s' line :
  conversation start input s r s' → line ∈ written (ag_output s') →
  line ∈ written (ag_output s) ∨ ∃ s1 m out s2, exchange s1 m out s2 ∧ line ∈ out.
Proof.
  intros (ms & outs & p & b & rest & read & Hp & _ & _ & Hr).
  assert (Hw : ∃ extra, written (ag_output s') = written (ag_output s) ++ outs ++ extra ∧
            (extra = [] ∨ ∃ m out s1 s2 k, exchange s1 m out s2 ∧ extra = take k out)).
  { destruct r as [[]|[| |io| |]]; try (destruct Hr as (_ & -> & _); exists []; rewrite app_nil_r; by auto).
    destruct Hr as (_ & m & out & p' & b' & k & _ & _ & _ & He & _ & _ & ->).
    exists (take k out). split; [done|]. right. by eauto 10. }
  destruct Hw as (extra & -> & Hextra). rewrite !elem_of_app. intros [?|[?|Hin]]; [by left| |].
  - right. by eapply protocol_line.
  - right. destruct Hextra as [->|(m & out & s1 & s2 & k & He & ->)]; [set_solver|].
    exists s1, m, out, s2. split; [done|]. by eapply subseteq_take.
Qed.

(** C23: the transfer process refines the Git LFS custom-transfer protocol.
    Whatever the input, the data plane and the output device do, a run has
    exchanged a conversation the protocol allows: a single initialisation
    before any transfer, progress before success, one completion per transfer
    in the order of the requests, the data plane called once per transfer.  It
    ends without error at [Terminate] or at the end of the input, and with the
    error that the next line calls for otherwise; when a write fails, what was
    written ends inside the answer to the next message. *)
Theorem run_refines_protocol input s r s' :
  run_transfer_protocol input s = (r, s') →
  conversation Fresh (buffered_lines input) s r s' ∧
  (is_ok r = true → ∃ ms outs p b,
     protocol (Fresh, ag_backend s) ms outs (p, b) ∧
     written (ag_output s') = written (ag_output s) ++ outs ∧
     omap completed_oid outs = omap message_oid ms ∧
     (p = Closed ∨ length ms = length (buffered_lines input))).
Proof.
  intros Hc%message_loop_spec. split; [done|]. destruct r as [[]|]; [intros _|done].
  destruct Hc as (ms & outs & p & b & rest & read & Hp & Hi & Hf & _ & Hw & Ho).
  exists ms, outs, p, b. split_and!; [done|done|by eapply protocol_completes|].
  destruct Ho as [?| ->]; [by left|right]. rewrite Hi, app_nil_r. symmetry. by eapply Forall2_length.
Qed.

End Proofs.
End Driver.
Arguments Agent : clear implicits.

(** ** A scripted data plane and a bounded output *)

(** A data plane that transfers everything but the objects it was told to
    refuse, and counts its calls. *)
Record Script := mkScript { sc_refuse : list ObjectOid; sc_calls : N }.

#[export] Instance script_backend : TransferBackend Script := {|
  upload request b :=
    let b' := mkScript (sc_refuse b) (sc_calls b + 1) in
    if bool_decide (up_oid request ∈ sc_refuse b)
    then (Err (BackendError_new 1 "refused"), b') else (Ok (up_size request), b');
  download request b :=
    let b' := mkScript (sc_refuse b) (sc_calls b + 1) in
    if bool_decide (dr_oid request ∈ sc_refuse b)
    then (Err (BackendError_new 1 "refused"), b')
    else (Ok (mkDownloadResult "object" (dr_size request)), b');
|}.

(** A pipe that takes so many lines and then breaks. *)
Record Pipe := mkPipe { pi_lines : list OutputLine; pi_partial : option OutputLine; pi_room : nat }.

#[export] Instance pipe_write : Write Pipe := {|
  to_writer line w :=
    match pi_room w with
    | O => (Some (mkIoError true "broken pipe"), w)
    | S _ => (None, mkPipe (pi_lines w) (Some line) (pi_room w))
    end;
  newline_flush w :=
    match pi_room w, pi_partial w with
    | S n, Some line => (None, mkPipe (pi_lines w ++ [line]) None n)
    | _, _ => (Some (mkIoError true "broken pipe"), w)
    end;
|}.

#[export] Program Instance pipe_laws : WriteLaws Pipe := {| written := pi_lines |}.
Next Obligation.
  intros line w w1 w2 H1 H2. cbn in *. destruct (pi_room w) eqn:Hr; [done|].
  injection H1 as <-. cbn in H2. by injection H2 as <-.
Qed.
Next Obligation. intros line w e w1 H. cbn in *. destruct (pi_room w); by simplify_eq/=. Qed.
Next Obligation.
  intros line w w1 e w2 H1 H2. cbn in *. destruct (pi_room w) eqn:Hr; [done|].
  injection H1 as <-. by cbn in H2.
Qed.
