(* ===== verification/Backend.v ===== *)
(** * Backend: the HTTP data plane of [backend.rs], one call at a time

    The world of a client process is the remote service, the files of the
    cache, the files to upload and the operating system's failures.  The
    [reqwest] client is the interface [Http]: a request is answered with a
    response or a transport error.  Every function is a [tree] of the requests
    and file operations it makes; [Transfers] runs the transfers' threads. *)
From S2P Require Import Prelude Digest Manifest Stream Protocol Text Agent Tree.

(** ** HTTP *)

(** An unparsed [href] or a URL made by [child_url]. *)
Inductive Target {url_lib : UrlLib} := Href (s : string) | Parsed (u : Url).
Inductive Body := NoBody | JsonBody (begin : BeginUploadRequest) | BytesBody (b : bytes).

Record HttpRequest {url_lib : UrlLib} := mkRequest {
  rq_method : Method;
  rq_target : Target;
  rq_headers : list (string * string);
  rq_body : Body;
}.
Arguments mkRequest {url_lib} _ _ _ _.

(** A response: the status, the [Retry-After] header when it is text, and the
    body or the error that reading it ends with. *)
Record HttpResponse := mkResponse {
  rp_status : N;
  rp_retry_after : option string;
  rp_body : result string bytes;
}.

Class Http {url_lib : UrlLib} (Srv : Type) := {
  http_send : HttpRequest → Srv → result string HttpResponse * Srv;
  (** [Display] of a [StatusCode], and of the error of [error_for_status]. *)
  status_display : N → string;
  status_error_display : N → string;
}.

(** [Response::json] on a body, and where [tempfile] keeps a file. *)
Class ClientLib := {
  begin_response_from_json : bytes → result string BeginUploadResponse;
  manifest_from_json : bytes → result string ObjectManifest;
  keep_path : string → gmap string bytes → string;
}.

(** [StatusCode::is_success], [is_server_error] and [is_client_error]. *)
Definition is_success (status : N) : bool := within 200 299 status.
Definition is_server_error (status : N) : bool := within 500 599 status.
Definition is_client_error (status : N) : bool := within 400 499 status.

Definition retryable_status (status : N) : bool :=
  (status =? 408) || (status =? 429) || is_server_error status.

(** [Duration]s in milliseconds. *)
Definition retry_after (response : HttpResponse) : option N :=
  match rp_retry_after response with
  | None => None
  | Some text => match u64_parse text with Ok seconds => Some (seconds * 1000) | Err _ => None end
  end.

Definition backoff (attempt : N) : N := 100 * 2 ^ attempt.

Definition failure (message : string) : BackendError := BackendError_new 1 message.

(** ** Configuration *)

Definition environment_u64 (name : string) (var : EnvVar) (default : N) : result BackendError N :=
  match var with
  | EnvValue value =>
      map_err (λ e, failure ("invalid " +:+ name +:+ ": " +:+ ParseIntError_display e)) (u64_parse value)
  | EnvNotPresent => Ok default
  | EnvNotUnicode e => Err (failure ("could not read " +:+ name +:+ ": " +:+ e))
  end.

(** [usize] is 64 bits wide. *)
Definition environment_usize (name : string) (var : EnvVar) (default : N) : result BackendError N :=
  match var with
  | EnvValue value =>
      map_err (λ e, failure ("invalid " +:+ name +:+ ": " +:+ ParseIntError_display e)) (u64_parse value)
  | EnvNotPresent => Ok default
  | EnvNotUnicode e => Err (failure ("could not read " +:+ name +:+ ": " +:+ e))
  end.

Definition clamp (lo hi n : N) : N := if n <? lo then lo else if hi <? n then hi else n.

(** [HttpBackend], with the timeouts its client was built with. *)
Record HttpBackend := mkHttpBackend {
  hb_connect_timeout : N;
  hb_request_timeout : N;
  cache_root : string;
  chunk_concurrency : N;
}.

(** [HttpBackend::new]; [build] is [Client::builder().build()]. *)
Definition HttpBackend_new (env : string → EnvVar) (build : N → N → result string unit)
    (root : string) : result BackendError HttpBackend :=
  let! connect_timeout := environment_u64 "GIT_LFS_DELTA_HTTP_CONNECT_TIMEOUT_SECONDS"
    (env "GIT_LFS_DELTA_HTTP_CONNECT_TIMEOUT_SECONDS") 10 in
  let! request_timeout := environment_u64 "GIT_LFS_DELTA_HTTP_REQUEST_TIMEOUT_SECONDS"
    (env "GIT_LFS_DELTA_HTTP_REQUEST_TIMEOUT_SECONDS") 300 in
  let! concurrency := environment_usize "GIT_LFS_DELTA_CHUNK_CONCURRENCY"
    (env "GIT_LFS_DELTA_CHUNK_CONCURRENCY") 2 in
  let! _ := map_err (λ e, failure ("could not create HTTP client: " +:+ e))
              (build connect_timeout request_timeout) in
  Ok (mkHttpBackend connect_timeout request_timeout root (clamp 1 8 concurrency)).

Definition action_of (action : option TransferAction) : result BackendError TransferAction :=
  ok_or (failure "server did not provide a CDC transfer action") action.

(** ** The world *)

Section Backend.
  Context {Srv : Type} {url_lib : UrlLib} {http : Http Srv} {lib : ClientLib}
          {hex : HexCodec} {hashes : Hashes} {uuid_text : UuidText} {fastcdc : FastCdc}.

(** Every request this process made, with its outcome. *)
Definition Exchange : Type := HttpRequest * result string HttpResponse.

Record Client := mkClient {
  c_remote : Srv;
  c_files : gmap string bytes;
  c_sources : gmap string Reader;
  c_faults : list (option string);
  c_slept : list N;
  c_log : list Exchange;
}.

Definition set_remote (s : Srv) (e : Exchange) (c : Client) : Client :=
  mkClient s (c_files c) (c_sources c) (c_faults c) (c_slept c) (c_log c ++ [e]).
Definition set_files (f : gmap string bytes) (c : Client) : Client :=
  mkClient (c_remote c) f (c_sources c) (c_faults c) (c_slept c) (c_log c).
Definition next_fault (c : Client) : Client :=
  mkClient (c_remote c) (c_files c) (c_sources c) (tl (c_faults c)) (c_slept c) (c_log c).
Definition add_slept (ms : N) (c : Client) : Client :=
  mkClient (c_remote c) (c_files c) (c_sources c) (c_faults c) (c_slept c ++ [ms]) (c_log c).

Abbreviation Task A := (tree Client BackendError A).

(** A request over the network. *)
Definition send (request : HttpRequest) : Task (result string HttpResponse) :=
  observe (λ c, let '(outcome, s) := http_send request (c_remote c) in
                (outcome, set_remote s (request, outcome) c)).

Definition sleep (ms : N) : Task unit := observe (λ c, (tt, add_slept ms c)).

(** A file operation fails when the operating system says so. *)
Definition file_operation {A} (f : Client → result string A * Client) : Task (result string A) :=
  observe (λ c, match hd None (c_faults c) with
                | Some e => (Err e, next_fault c)
                | None => f (next_fault c)
                end).

Definition fs_read (path : string) : Task (result string bytes) :=
  file_operation (λ c, (ok_or "entity not found" (c_files c !! path), c)).
Definition fs_remove_file (path : string) : Task (result string unit) :=
  file_operation (λ c, match c_files c !! path with
                       | Some _ => (Ok tt, set_files (delete path (c_files c)) c)
                       | None => (Err "entity not found", c)
                       end).
(** Directories and unpublished temporary files are not visible to others. *)
Definition fs_operation : Task (result string unit) := file_operation (λ c, (Ok tt, c)).
Definition file_open (path : string) : Task (result string Reader) :=
  file_operation (λ c, (ok_or "entity not found" (c_sources c !! path), c)).

(** [NamedTempFile::persist_noclobber]: [false] when the name is taken. *)
Definition persist_noclobber (content : bytes) (path : string) : Task (result string bool) :=
  file_operation (λ c, match c_files c !! path with
                       | Some _ => (Ok false, c)
                       | None => (Ok true, set_files (<[path := content]> (c_files c)) c)
                       end).

(** [NamedTempFile::keep] in a directory. *)
Definition keep (content : bytes) (directory : string) : Task (result string string) :=
  file_operation (λ c, let path := keep_path directory (c_files c) in
                       (Ok path, set_files (<[path := content]> (c_files c)) c)).

(** [result.map_err(|error| failure(...))?]. *)
Definition or_fail {A} (message : string) (r : result string A) : Task A :=
  leaf (map_err (λ e, failure (message +:+ e)) r).

(** [for attempt in 0..3 { body } after]: the body returns early or goes on
    with the loop's variables. *)
Fixpoint for_loop {V A} (l : list N) (v : V) (body : N → V → Task (A + V)) (after : V → Task A)
  : Task A :=
  match l with
  | [] => after v
  | i :: l =>
      let! next := body i v in
      match next with
      | inl a => mret a
      | inr v => for_loop l v body after
      end
  end.
Definition ATTEMPTS : list N := [0; 1; 2].

(** ** Requests *)

(** [authorized]: the action's headers, in order. *)
Definition authorized (method : Method) (target : Target) (action : TransferAction) (body : Body)
  : HttpRequest := mkRequest method target (ta_header action) body.

Definition child_url (base : string) (children : list string) : result BackendError Url :=
  let! url := map_err (λ e, failure ("invalid action URL: " +:+ e)) (url_parse base) in
  if url_has_segments url then Ok (url_extend url children)
  else Err (failure "action URL cannot contain path segments").

Definition json_of {A} (decode : bytes → result string A) (response : HttpResponse) : result string A :=
  let! b := rp_body response in decode b.

Definition begin_upload (action : TransferAction) (begin : BeginUploadRequest)
  : Task BeginUploadResponse :=
  for_loop ATTEMPTS tt (λ attempt _,
    let! sent := send (authorized POST (Href (ta_href action)) action (JsonBody begin)) in
    match sent with
    | Ok response =>
        if is_success (rp_status response)
        then let! plan := or_fail "invalid CDC upload plan: "
                            (json_of begin_response_from_json response) in
             mret (inl plan)
        else if retryable_status (rp_status response) && (attempt <? 2)
        then let! _ := sleep (default (backoff attempt) (retry_after response)) in mret (inr tt)
        else throw (failure ("could not begin CDC upload: HTTP "
                             +:+ status_display (rp_status response)))
    | Err error =>
        if attempt <? 2
        then let! _ := sleep (backoff attempt) in mret (inr tt)
        else throw (failure ("could not begin CDC upload: " +:+ error))
    end)
    (λ _, throw (failure "could not begin CDC upload after retries")).

Definition finalize_upload (action : TransferAction) (upload_id : Uuid) : Task unit :=
  let! url := leaf (child_url (ta_href action) [uuid_display upload_id; "finalize"]) in
  for_loop ATTEMPTS tt (λ attempt _,
    let! sent := send (authorized POST (Parsed url) action NoBody) in
    match sent with
    | Ok response =>
        if is_success (rp_status response) then mret (inl tt)
        else if retryable_status (rp_status response) && (attempt <? 2)
        then let! _ := sleep (default (backoff attempt) (retry_after response)) in mret (inr tt)
        else throw (failure ("could not finalize CDC upload: HTTP "
                             +:+ status_display (rp_status response)))
    | Err error =>
        if attempt <? 2
        then let! _ := sleep (backoff attempt) in mret (inr tt)
        else throw (failure ("could not finalize CDC upload: " +:+ error))
    end)
    (λ _, throw (failure "could not finalize CDC upload after retries")).

(** [if attempt < 2 { thread::sleep(delay) }] at the end of an iteration. *)
Definition pause {A V} (attempt delay : N) (v : V) : Task (A + V) :=
  if attempt <? 2 then let! _ := sleep delay in mret (inr v) else mret (inr v).

Definition upload_chunk_with_retry (action : TransferAction) (upload_id : Uuid) (index : N)
    (b : bytes) : Task unit :=
  let! url := leaf (child_url (ta_href action) [uuid_display upload_id; "chunks"; pretty index]) in
  for_loop ATTEMPTS None (λ attempt last_error,
    let delay := backoff attempt in
    let! sent := send (authorized PUT (Parsed url) action (BytesBody b)) in
    match sent with
    | Ok response =>
        if is_success (rp_status response) then mret (inl tt)
        else if retryable_status (rp_status response)
        then pause attempt (default delay (retry_after response))
               (Some ("HTTP " +:+ status_display (rp_status response)))
        else throw (failure ("chunk upload failed with HTTP " +:+ status_display (rp_status response)))
    | Err error => pause attempt delay (Some error)
    end)
    (λ last_error, throw (failure ("chunk upload failed after retries: "
                                   +:+ default "unknown transport failure" last_error))).

(** ** The chunk cache *)

Definition chunk_cache_path (self : HttpBackend) (digest : string) : string :=
  join (join (join (cache_root self) "chunks") (String.substring 0 2 digest)) digest.

Definition valid_chunk (b : bytes) (descriptor : ChunkDescriptor) : bool :=
  (lenN b =? cd_length descriptor)
  && bool_decide (digest_bytes (blake3_hash b) = ChunkId_as_bytes (cd_id descriptor)).

(** The download loop of [read_or_fetch_chunk]. *)
Definition fetch_chunk (action : TransferAction) (url : Url) : Task bytes :=
  let! downloaded := for_loop ATTEMPTS None (λ attempt last_error,
    let delay := backoff attempt in
    let! sent := send (authorized GET (Parsed url) action NoBody) in
    match sent with
    | Ok response =>
        if is_success (rp_status response)
        then let! b := or_fail "could not read chunk response: " (rp_body response) in
             mret (inl (inl b))
        else if retryable_status (rp_status response)
        then pause attempt (default delay (retry_after response))
               (Some ("HTTP " +:+ status_display (rp_status response)))
        else throw (failure ("chunk download failed with HTTP "
                             +:+ status_display (rp_status response)))
    | Err error => pause attempt delay (Some error)
    end)
    (λ last_error, mret (inr last_error)) in
  match downloaded with
  | inl b => mret b
  | inr last_error => throw (failure ("chunk download failed after retries: "
                                      +:+ default "unknown transport failure" last_error))
  end.

(** The validation and publication at the end of [read_or_fetch_chunk]. *)
Definition publish_chunk (path : string) (descriptor : ChunkDescriptor) (b : bytes) : Task bytes :=
  if negb (valid_chunk b descriptor)
  then throw (failure "downloaded chunk failed length or BLAKE3 validation")
  else
    let! _ := leaf (ok_or (failure "cache path has no parent") (path_parent path)) in
    let! created := fs_operation in
    let! _ := or_fail "could not create chunk cache: " created in
    let! temporary := fs_operation in
    let! _ := or_fail "could not create cache temporary file: " temporary in
    let! wrote := fs_operation in
    let! _ := or_fail "could not write cache entry: " wrote in
    let! persisted := persist_noclobber b path in
    match persisted with
    | Ok _ => mret b
    | Err error => throw (failure ("could not publish cache entry: " +:+ error))
    end.

Definition read_or_fetch_chunk (self : HttpBackend) (action : TransferAction) (index : N)
    (descriptor : ChunkDescriptor) : Task bytes :=
  let digest := ChunkId_display (cd_id descriptor) in
  let path := chunk_cache_path self digest in
  let fetch :=
    let! url := leaf (child_url (ta_href action) ["chunks"; pretty index]) in
    let! b := fetch_chunk action url in
    publish_chunk path descriptor b in
  let! cached := fs_read path in
  match cached with
  | Ok b =>
      if valid_chunk b descriptor then mret b
      else let! removed := fs_remove_file path in
           let! _ := or_fail "could not remove corrupt cache entry: " removed in
           fetch
  | Err _ => fetch
  end.

(** ** Rules for tasks *)

(** The interference a task runs under: what every one of its actions is a
    step of.  Only validated bytes are published at a chunk's path. *)
Class Networking (R : relation Client) := {
  #[global] networking_pre :: PreOrder R;
  step_send c request :
    R c (set_remote (http_send request (c_remote c)).2
           (request, (http_send request (c_remote c)).1) c);
  step_sleep c ms : R c (add_slept ms c);
}.
Class Interference (R : relation Client) := {
  #[global] interference_networking :: Networking R;
  step_fault c : R c (next_fault c);
  step_remove c path : R c (set_files (delete path (c_files c)) c);
}.
Class Publishing (self : HttpBackend) (R : relation Client) :=
  step_publish c id b :
    digest_bytes (blake3_hash b) = ChunkId_as_bytes id →
    R c (set_files (<[chunk_cache_path self (ChunkId_display id) := b]> (c_files c)) c).

Section Network.
  Context {R : relation Client} {RN : Networking R}.

Lemma send_holds {A} (Q : result BackendError A → Client → Prop) request k c :
  (∀ o c1 c', R c c1 → R c1 c' → c_log c' = c_log c1 ++ [(request, o)] → holds R Q (k o) c') →
  holds R Q (let! o := send request in k o) c.
Proof.
  intros H. apply (holds_observe_bind R). intros c1 Hc1.
  pose proof (step_send c1 request) as Hs.
  destruct (http_send request (c_remote c1)) as [o s]. cbn in Hs |- *. split; [done|].
  by apply (H o c1).
Qed.

Lemma sleep_holds {A} (Q : result BackendError A → Client → Prop) ms (k : unit → Task A) c :
  (∀ c', R c c' → holds R Q (k tt) c') → holds R Q (let! x := sleep ms in k x) c.
Proof.
  intros H. apply (holds_observe_bind R). intros c1 Hc1. pose proof (step_sleep c1 ms).
  split; [done|]. apply H. by etrans.
Qed.

(** A loop whose body keeps the postcondition. *)
Lemma for_loop_holds {V A} (Q : result BackendError A → Client → Prop) l (v : V) body after c :
  (∀ r c c', R c c' → Q r c → Q r c') →
  (∀ i v c', R c c' → holds R (λ r c', match r with
                             | Ok (inl a) => Q (Ok a) c'
                             | Ok (inr _) => True
                             | Err e => Q (Err e) c'
                             end) (body i v) c') →
  (∀ v c', R c c' → holds R Q (after v) c') →
  holds R Q (for_loop l v body after) c.
Proof.
  intros Hst Hb Ha. assert (H : ∀ c', R c c' → holds R Q (for_loop l v body after) c'); [|by apply H].
  revert v. induction l as [|i l IH]; intros v c1 Hc1; cbn [for_loop]; [by apply Ha|].
  eapply (holds_bind R); [by apply Hb| |by intros].
  intros [a|v'] c2 Hc2 HQ; [|apply IH; by etrans].
  apply (holds_ret R). intros c3 Hc3. by eapply Hst.
Qed.

Lemma or_fail_holds {A B} (Q : result BackendError B → Client → Prop) message (r : result string A)
    (k : A → Task B) c :
  (∀ e c', R c c' → Q (Err e) c') → (∀ a, r = Ok a → holds R Q (k a) c) →
  holds R Q (let! a := or_fail message r in k a) c.
Proof. intros He Hk. unfold or_fail. destruct r; cbn; [by apply Hk|by apply He]. Qed.

Lemma pause_holds {A V} (Q : result BackendError (A + V) → Client → Prop) attempt delay (v : V) c :
  (∀ c', R c c' → Q (Ok (inr v)) c') → holds R Q (pause attempt delay v) c.
Proof.
  intros H. unfold pause. destruct (attempt <? 2); [|by apply (holds_ret R)].
  apply sleep_holds. intros c' Hc'. apply (holds_ret R). intros c2 Hc2. apply H. by etrans.
Qed.

(** [fetch_chunk] makes requests and sleeps, nothing else. *)
Lemma fetch_chunk_holds action url c :
  holds R (λ _ _, True) (fetch_chunk action url) c.
Proof.
  unfold fetch_chunk. apply (holds_bind R (λ _ _, True)); [|by intros [] ? _ _|done].
  apply for_loop_holds; [done| |done]. intros i v c2 _. apply send_holds. intros [response|] c3 c5 _ _ _.
  - destruct (is_success _); [by apply or_fail_holds; [|intros b _ c4 _]|].
    destruct (retryable_status _); [by apply pause_holds|by intros ? ?].
  - by apply pause_holds.
Qed.

End Network.

(** A file operation succeeds or fails; its effect is an action. *)
Lemma file_operation_holds {R : relation Client} {RI : Interference R} {A B} (Q : result BackendError B → Client → Prop) f
    (k : result string A → Task B) c :
  (∀ c', R c' (f c').2) → (∀ a c', R c c' → holds R Q (k a) c') →
  holds R Q (let! a := file_operation f in k a) c.
Proof.
  intros Hf Hk. apply (holds_observe_bind R). intros c1 Hc1. pose proof (step_fault c1) as Hs.
  destruct (hd None (c_faults c1)) as [e|]; cbn.
  - split; [done|]. apply Hk. by etrans.
  - pose proof (Hf (next_fault c1)) as Hs'. destruct (f (next_fault c1)) as [a c2]. cbn in *.
    assert (R c1 c2) by (by etrans). split; [done|]. apply Hk. by etrans.
Qed.

(** [child_url] and the JSON readings fail or not, whatever the world. *)
Lemma leaf_bind {A A'} (r : result BackendError A) (f : A → Task A') :
  (let! a := leaf r in f a) = match r with Ok a => f a | Err e => Leaf (Err e) end.
Proof. by destruct r. Qed.

(** No restriction at all. *)
Definition anything : relation Client := λ _ _, True.
#[export] Instance anything_interference : Interference anything.
Proof. split; [split|..]; done. Qed.
#[export] Instance anything_publishing self : Publishing self anything.
Proof. done. Qed.

(** ** What a successful upload of a chunk did *)

(** The service answered this request with success. *)
Definition succeeded (request : HttpRequest) (log : list Exchange) : Prop :=
  ∃ response, (request, Ok response) ∈ log ∧ is_success (rp_status response) = true.

(** The service accepted the chunk [b] for index [index]. *)
Definition accepted (action : TransferAction) (upload_id : Uuid) (index : N) (b : bytes)
    (log : list Exchange) : Prop :=
  ∃ url, child_url (ta_href action) [uuid_display upload_id; "chunks"; pretty index] = Ok url ∧
         succeeded (authorized PUT (Parsed url) action (BytesBody b)) log.

Definition log_grows (c c' : Client) : Prop := c_log c `prefix_of` c_log c'.

#[export] Instance log_grows_interference : Interference log_grows.
Proof.
  split; [split|..]; unfold log_grows; cbn; try done.
  - split; [by intros ?|intros ? ? ?; apply transitivity].
  - intros. by eexists.
Qed.
#[export] Instance log_grows_publishing self : Publishing self log_grows.
Proof. intros c id b _. unfold log_grows. done. Qed.

Lemma succeeded_grows request c c' :
  log_grows c c' → succeeded request (c_log c) → succeeded request (c_log c').
Proof. intros [k Hk] (r & Hr & Hs). exists r. rewrite Hk. split; [set_solver|done]. Qed.

Lemma upload_chunk_holds action upload_id index b c :
  holds log_grows (λ r c', is_ok r = true → accepted action upload_id index b (c_log c'))
    (upload_chunk_with_retry action upload_id index b) c.
Proof.
  unfold upload_chunk_with_retry. rewrite leaf_bind.
  destruct (child_url _ _) as [url|e] eqn:Hu; [|done].
  apply (for_loop_holds (R:=log_grows)).
  - intros r c1 c2 Hc H Hr. destruct (H Hr) as (u & ? & ?). exists u. split; [done|].
    by eapply succeeded_grows.
  - intros i v c1 _. apply (send_holds (R:=log_grows)). intros [response|e] c0 c2 _ _ Hlog;
      [|by apply (pause_holds (R:=log_grows))].
    destruct (is_success (rp_status response)) eqn:Hs.
    + intros c3 Hc3 _. exists url. split; [done|]. eapply succeeded_grows; [done|].
      exists response. rewrite Hlog. split; [set_solver|done].
    + destruct (retryable_status _); [by apply (pause_holds (R:=log_grows))|by intros ? ?].
  - intros v c1 _ c2 _ Hr. discriminate Hr.
Qed.

(** A successful [finalize_upload] got its answer after it was called. *)
Lemma finalize_upload_holds action upload_id c :
  holds log_grows (λ r c', is_ok r = true → ∃ url post,
      child_url (ta_href action) [uuid_display upload_id; "finalize"] = Ok url ∧
      c_log c' = c_log c ++ post ∧ succeeded (authorized POST (Parsed url) action NoBody) post)
    (finalize_upload action upload_id) c.
Proof.
  unfold finalize_upload. rewrite leaf_bind.
  destruct (child_url _ _) as [url|e] eqn:Hu; [|done].
  apply (for_loop_holds (R:=log_grows)).
  - intros r c1 c2 [k Hk] H Hr. destruct (H Hr) as (u & post & ? & Hp & x & Hx & ?).
    exists u, (post ++ k). split_and!; [done|by rewrite Hk, Hp, <- app_assoc|].
    exists x. split; [set_solver|done].
  - intros i v c1 [k Hk]. apply (send_holds (R:=log_grows)).
    intros [response|e] c0 c2 [k0 Hk0] _ Hlog;
      [|by destruct (i <? 2); [apply (sleep_holds (R:=log_grows))|intros ? ?]].
    destruct (is_success (rp_status response)) eqn:Hs.
    + intros c3 [k3 Hc3] _.
      exists url, (k ++ k0 ++ [(authorized POST (Parsed url) action NoBody, Ok response)] ++ k3).
      split_and!; [done|by rewrite Hc3, Hlog, Hk0, Hk, <- !app_assoc|].
      exists response. split; [set_solver|done].
    + by destruct (_ && _); [apply (sleep_holds (R:=log_grows))|intros ? ?].
  - intros v c1 _ c2 _ Hr. discriminate Hr.
Qed.

(** ** The cache *)

(** Entries appear at a chunk's path only with the chunk's bytes. *)
Definition keeps_cache (self : HttpBackend) (c c' : Client) : Prop :=
  ∀ id b, c_files c' !! chunk_cache_path self (ChunkId_display id) = Some b →
    c_files c !! chunk_cache_path self (ChunkId_display id) = Some b ∨
    digest_bytes (blake3_hash b) = ChunkId_as_bytes id.

#[export] Instance keeps_cache_interference self : Interference (keeps_cache self).
Proof.
  split; [split|..]; unfold keeps_cache; cbn; [split|by auto..|].
  - intros c id b. by left.
  - intros c1 c2 c3 H1 H2 id b [H| ?]%H2; [|by right]. by apply H1.
  - intros c path id b Hb. left. by apply lookup_delete_Some in Hb as [_ ?].
Qed.

(** A joined path ends with the component. *)
Lemma join_suffix base name : ∃ p, join base name = p +:+ name.
Proof. unfold join. case_match; [eauto|]. exists (base +:+ "/"). apply string_app_assoc. Qed.

Lemma chunk_cache_path_inj {hex_laws : HexLaws} self id id' :
  chunk_cache_path self (ChunkId_display id) = chunk_cache_path self (ChunkId_display id') → id = id'.
Proof.
  unfold chunk_cache_path. intros H.
  destruct (join_suffix (join (join (cache_root self) "chunks")
              (String.substring 0 2 (ChunkId_display id))) (ChunkId_display id)) as [p Hp].
  destruct (join_suffix (join (join (cache_root self) "chunks")
              (String.substring 0 2 (ChunkId_display id'))) (ChunkId_display id')) as [p' Hp'].
  rewrite Hp, Hp' in H. apply string_app_suffix_inj in H; [by apply ChunkId_display_inj|].
  by rewrite !ChunkId_display_length.
Qed.

#[export] Instance keeps_cache_publishing {hex_laws : HexLaws} self :
  Publishing self (keeps_cache self).
Proof.
  intros c id b Hb id' b'. cbn. intros [[H <-]|[_ H]]%lookup_insert_Some; [|by left].
  right. apply chunk_cache_path_inj in H as <-. done.
Qed.

(** What [read_or_fetch_chunk] returns was validated, and so is what it leaves
    in the cache, among any tasks. *)
Section Fetch.
  Context (self : HttpBackend) (R : relation Client) {RI : Interference R} {RP : Publishing self R}.

Lemma valid_chunk_hash b d :
  valid_chunk b d = true → digest_bytes (blake3_hash b) = ChunkId_as_bytes (cd_id d).
Proof. intros [_ H]%andb_true_iff. by bool_hyps. Qed.

Definition fetched (d : ChunkDescriptor) (r : result BackendError bytes) (_ : Client) : Prop :=
  match r with Ok b => valid_chunk b d = true | Err _ => True end.

Lemma publish_chunk_holds d b c :
  holds R (fetched d) (publish_chunk (chunk_cache_path self (ChunkId_display (cd_id d))) d b) c.
Proof.
  unfold publish_chunk. destruct (valid_chunk b d) eqn:Hv; [|done]. cbn [negb].
  rewrite leaf_bind. destruct (ok_or _ _); [|done].
  do 3 (apply file_operation_holds; [done|intros ? ? _]; apply or_fail_holds; [done|intros [] _]).
  apply file_operation_holds; [|intros [] ? _; [intros ? _; exact Hv|done]].
  intros c2. destruct (c_files c2 !! _); [done|]. by apply step_publish, valid_chunk_hash.
Qed.

Lemma read_or_fetch_chunk_holds action index d c :
  holds R (fetched d) (read_or_fetch_chunk self action index d) c.
Proof.
  unfold read_or_fetch_chunk. cbv zeta.
  assert (Hfetch : ∀ c, holds R (fetched d)
    (let! url := leaf (child_url (ta_href action) ["chunks"; pretty index]) in
     let! b := fetch_chunk action url in
     publish_chunk (chunk_cache_path self (ChunkId_display (cd_id d))) d b) c).
  { intros c1. rewrite leaf_bind. destruct (child_url _ _) as [url|]; [|done].
    apply (holds_bind R (λ _ _, True)); [apply fetch_chunk_holds|by intros; apply publish_chunk_holds|done]. }
  apply file_operation_holds; [done|]. intros [b|e] c1 _; [|done].
  destruct (valid_chunk b d) eqn:Hv; [intros ? _; exact Hv|].
  apply file_operation_holds; [|intros a c2 _; by apply or_fail_holds].
  intros c2. destruct (c_files c2 !! _); [apply step_remove|done].
Qed.

End Fetch.

(** ** The number of actions of a task *)

Lemma bounded_for_loop {V A} m n l (v : V) (body : N → V → Task (A + V)) after :
  (∀ i v, bounded m (body i v)) → (∀ v, bounded n (after v)) →
  bounded (length l * m + n) (for_loop l v body after).
Proof.
  intros Hb Ha. revert v. induction l as [|i l IH]; intros v; cbn [for_loop length]; [apply Ha|].
  eapply bounded_mono; [|apply (bounded_bind m (length l * m + n)); [apply Hb|]]; [lia|].
  by intros [a|v'].
Qed.

Lemma bounded_pause {A V} attempt delay (v : V) : bounded 1 (pause (A:=A) attempt delay v).
Proof. unfold pause. by destruct (attempt <? 2). Qed.

Lemma bounded_leaf_bind {A B} n (r : result BackendError A) (f : A → Task B) :
  (∀ a, bounded n (f a)) → bounded n (let! a := leaf r in f a).
Proof. rewrite leaf_bind. by destruct r. Qed.

Lemma bounded_observe_bind {A B} n (f : Client → A * Client) (k : A → Task B) :
  (∀ a, bounded n (k a)) → bounded (S n) (let! a := observe f in k a).
Proof. done. Qed.

(** The most actions a worker's task takes. *)
Definition TASK_ACTIONS : nat := 12.

Lemma upload_chunk_bounded action upload_id index b :
  bounded TASK_ACTIONS (upload_chunk_with_retry action upload_id index b).
Proof.
  apply bounded_leaf_bind. intros url.
  eapply (bounded_mono (3 * 2 + 0)); [unfold TASK_ACTIONS; lia|].
  apply (bounded_for_loop 2 0 ATTEMPTS); [|done]. intros i v. apply bounded_observe_bind. intros [response|].
  - destruct (is_success _); [done|]. destruct (retryable_status _); [apply bounded_pause|done].
  - apply bounded_pause.
Qed.

Lemma fetch_chunk_bounded action url : bounded 6 (fetch_chunk action url).
Proof.
  apply (bounded_bind (3 * 2 + 0) 0); [|by intros []].
  apply (bounded_for_loop 2 0 ATTEMPTS); [|done]. intros i v. apply bounded_observe_bind. intros [response|].
  - destruct (is_success _); [by apply bounded_leaf_bind|].
    destruct (retryable_status _); [apply bounded_pause|done].
  - apply bounded_pause.
Qed.

Lemma publish_chunk_bounded path d b : bounded 4 (publish_chunk path d b).
Proof.
  unfold publish_chunk. destruct (negb _); [done|]. apply bounded_leaf_bind. intros _.
  do 3 (apply bounded_observe_bind; intros ?; apply bounded_leaf_bind; intros []).
  apply bounded_observe_bind. by intros [].
Qed.

Lemma read_or_fetch_chunk_bounded self action index d :
  bounded TASK_ACTIONS (read_or_fetch_chunk self action index d).
Proof.
  unfold read_or_fetch_chunk. cbv zeta.
  assert (Hf : bounded 10
    (let! url := leaf (child_url (ta_href action) ["chunks"; pretty index]) in
     let! b := fetch_chunk action url in
     publish_chunk (chunk_cache_path self (ChunkId_display (cd_id d))) d b)).
  { apply bounded_leaf_bind. intros url.
    apply (bounded_bind 6 4); [apply fetch_chunk_bounded|]. intros b. apply publish_chunk_bounded. }
  apply bounded_observe_bind. intros [b|e]; [|by eapply (bounded_mono 10); [lia|]].
  destruct (valid_chunk b d); [done|].
  apply bounded_observe_bind. intros a. by apply bounded_leaf_bind.
Qed.

(** ** The retry policy *)

(** An outcome worth another attempt. *)
Definition transient (o : result string HttpResponse) : bool :=
  match o with
  | Ok response =>
      let status := rp_status response in
      (status =? 408) || (status =? 429) || within 500 599 status
  | Err _ => true
  end.
Definition success (o : result string HttpResponse) : bool :=
  match o with Ok response => within 200 299 (rp_status response) | Err _ => false end.

(** The exchanges of a call with result [ok]: the same request at most three
    times, again only after a transient outcome, until one is not transient.
    The call succeeds if and only if the last outcome does; where the body of
    a response is decoded ([reads]) it may also fail after a success. *)
Definition attempted (request : HttpRequest) (reads ok : bool) (es : list Exchange) : Prop :=
  ∃ outs final, es = map (pair request) (outs ++ [final]) ∧
    forallb transient outs = true ∧ (length outs ≤ 2)%nat ∧
    (ok = true → success final = true) ∧
    (success final = true → ok || reads = true) ∧
    (success final = false → transient final = true → length outs = 2%nat).

Lemma transient_not_success o : transient o = true → success o = false.
Proof.
  destruct o; cbn; [|done]. unfold within.
  rewrite !orb_true_iff, andb_true_iff, !N.eqb_eq, !N.leb_le, andb_false_iff, !N.leb_gt. lia.
Qed.

(** The code's tests. *)
Lemma transient_response response :
  transient (Ok response) = retryable_status (rp_status response).
Proof. done. Qed.
Lemma success_response response : success (Ok response) = is_success (rp_status response).
Proof. done. Qed.

(** A loop over the attempts, from what one iteration does. *)
Section Retry.
  Context {V A : Type} (request : HttpRequest) (body : N → V → Task (A + V)) (after : V → Task A)
          (good : A → bool) (reads : bool).

(** One iteration: one request, then an early return after a success, or the
    next attempt after a transient outcome, or an error. *)
Definition iteration (i : N) (c : Client) (run : result BackendError (A + V) * Client) : Prop :=
  ∃ o, c_log run.2 = c_log c ++ [(request, o)] ∧
  ((success o = true ∧
      match run.1 with Ok (inl a) => good a = true | Ok (inr _) => False | Err _ => reads = true end) ∨
   (transient o = true ∧ ∃ v', run.1 = Ok (inr v')) ∨
   (success o = false ∧ (transient o = true → 2 ≤ i) ∧ ∃ e, run.1 = Err e)).
Hypothesis Hbody : ∀ i v c, iteration i c (alone (body i v) c).
Hypothesis Hafter : ∀ v c, ∃ r,
  alone (after v) c = (r, c) ∧ match r with Ok a => good a = false | Err _ => True end.

(** Did the loop end with a good value? *)
Definition ended_well (r : result BackendError A) : bool :=
  match r with Ok a => good a | Err _ => false end.

Lemma for_loop_attempts l v c r c' :
  (∀ k i, l !! k = Some i → 2 ≤ i → S k = length l) → l ≠ [] →
  alone (for_loop l v body after) c = (r, c') →
  ∃ outs final, c_log c' = c_log c ++ map (pair request) (outs ++ [final]) ∧
    forallb transient outs = true ∧ (S (length outs) ≤ length l)%nat ∧
    (ended_well r = true → success final = true) ∧
    (success final = true → ended_well r || reads = true) ∧
    (success final = false → transient final = true → S (length outs) = length l).
Proof.
  revert v c. induction l as [|i l IH]; intros v c Hl Hne; [done|]. cbn [for_loop].
  rewrite alone_bind.
  pose proof (Hbody i v c) as (o & Hlog & Hrest). destruct (alone (body i v) c) as [r0 c1].
  cbn [fst snd] in *. destruct Hrest as [(Hs & Hr)|[(Ht & v' & ->)|(Hs & Hi & e & ->)]].
  - intros Hrun. exists [], o.
    assert (c' = c1 ∧ ended_well r || reads = true) as [-> Hgood].
    { destruct r0 as [[a|]|e]; [|done|]; injection Hrun as <- <-; (split; [done|]); cbn; by rewrite Hr. }
    cbn. split_and!; [done|done|lia|done|done|congruence].
  - pose proof (transient_not_success o Ht) as Hs. destruct l as [|j l].
    + cbn. destruct (Hafter v' c1) as (r1 & -> & Hr1). intros [= <- <-]. exists [], o. cbn.
      split_and!; [done|done|done| |congruence|done].
      unfold ended_well. destruct r1; [congruence|done].
    + intros (outs & final & Hlog' & Hf & Hn & H1 & H2 & H3)%IH; [| |done].
      * exists (o :: outs), final. cbn in *. rewrite Hlog', Hlog, <- app_assoc.
        split_and!; [done|by rewrite Ht|lia|done|done|]. intros ? ?. f_equal. by apply H3.
      * intros k j' Hk Hj. specialize (Hl (S k) j' Hk Hj). cbn in *. lia.
  - intros [= <- <-]. exists [], o. cbn. split_and!; [done|done|lia|done|congruence|].
    intros _ Ht%Hi. specialize (Hl 0%nat i eq_refl Ht). cbn in Hl. lia.
Qed.

(** The loop over [0..3]. *)
Lemma attempts_attempted v c r c' :
  alone (for_loop ATTEMPTS v body after) c = (r, c') →
  ∃ es, c_log c' = c_log c ++ es ∧ attempted request reads (ended_well r) es.
Proof.
  intros (outs & final & Hlog & Hf & Hn & H1 & H2 & H3)%for_loop_attempts; [| |done].
  - eexists. split; [done|]. exists outs, final. cbn in *.
    split_and!; [done|done|lia|done|done|]. intros ? ?. specialize (H3 ltac:(done) ltac:(done)). lia.
  - intros [|[|[|k]]] i; cbn; [intros [= <-]; lia|intros [= <-]; lia|done|done].
Qed.

End Retry.

Lemma alone_send {A} request (k : result string HttpResponse → Task A) c :
  alone (let! o := send request in k o) c =
  alone (k (http_send request (c_remote c)).1)
    (set_remote (http_send request (c_remote c)).2
       (request, (http_send request (c_remote c)).1) c).
Proof. cbn. by destruct (http_send request (c_remote c)). Qed.

(** Both ways of going on after a transient outcome. *)
Lemma alone_sleep {A} ms (k : unit → Task A) c :
  alone (let! x := sleep ms in k x) c = alone (k tt) (add_slept ms c).
Proof. done. Qed.

Lemma alone_pause {A V} attempt delay (v : V) c :
  (alone (pause (A:=A) attempt delay v) c).1 = Ok (inr v) ∧
  c_log (alone (pause (A:=A) attempt delay v) c).2 = c_log c.
Proof. unfold pause. by destruct (attempt <? 2). Qed.

(** How an iteration ends after its request was answered. *)
Section Iterations.
  Context {V A : Type} (request : HttpRequest) (good : A → bool) (reads : bool)
          (i : N) (c : Client).
  Local Abbreviation iteration run := (iteration (V:=V) request good reads i c run).

Lemma iteration_success response (run : result BackendError (A + V) * Client) :
  c_log run.2 = c_log c ++ [(request, Ok response)] →
  is_success (rp_status response) = true →
  match run.1 with Ok (inl a) => good a = true | Ok (inr _) => False | Err _ => reads = true end →
  iteration run.
Proof. intros. eexists. split; [done|]. by left. Qed.

Lemma iteration_stop c1 response e :
  c_log c1 = c_log c ++ [(request, Ok response)] →
  is_success (rp_status response) = false →
  (retryable_status (rp_status response) = true → 2 ≤ i) → iteration (Err e, c1).
Proof.
  intros Hl Hs Hi. eexists. split; [done|]. right; right. split; [done|].
  rewrite transient_response. eauto.
Qed.

Lemma iteration_again response v (run : result BackendError (A + V) * Client) :
  c_log run.2 = c_log c ++ [(request, Ok response)] → run.1 = Ok (inr v) →
  is_success (rp_status response) = false → retryable_status (rp_status response) = true →
  iteration run.
Proof.
  intros Hl Hr Hs Ht. eexists. split; [done|]. right; left. rewrite transient_response. eauto.
Qed.

Lemma iteration_transport error (run : result BackendError (A + V) * Client) :
  c_log run.2 = c_log c ++ [(request, Err error)] →
  ((∃ v, run.1 = Ok (inr v)) ∨ 2 ≤ i ∧ ∃ e, run.1 = Err e) → iteration run.
Proof.
  intros Hl [[v Hr]|[Hi [e Hr]]]; eexists; (split; [done|]); right; [left; eauto|right; eauto].
Qed.

End Iterations.

Lemma is_ok_ended_well {A} (r : result BackendError A) : ended_well (λ _, true) r = is_ok r.
Proof. by destruct r. Qed.

(** C33: the retry policy.  Finalising an upload and uploading a chunk send the
    same request at most three times, again only after a transport error or
    one of the statuses 408, 429 and 5xx; the call succeeds if and only if the
    last answer is a success, and it gives up before the third attempt only on
    an answer that another attempt would not change. *)
Theorem retry_policy action upload_id index b c :
  (∀ url r c',
     child_url (ta_href action) [uuid_display upload_id; "chunks"; pretty index] = Ok url →
     alone (upload_chunk_with_retry action upload_id index b) c = (r, c') →
     ∃ es, c_log c' = c_log c ++ es ∧
       attempted (authorized PUT (Parsed url) action (BytesBody b)) false (is_ok r) es) ∧
  (∀ url r c',
     child_url (ta_href action) [uuid_display upload_id; "finalize"] = Ok url →
     alone (finalize_upload action upload_id) c = (r, c') →
     ∃ es, c_log c' = c_log c ++ es ∧
       attempted (authorized POST (Parsed url) action NoBody) false (is_ok r) es) ∧
  (∀ begin r c',
     alone (begin_upload action begin) c = (r, c') →
     ∃ es, c_log c' = c_log c ++ es ∧
       attempted (authorized POST (Href (ta_href action)) action (JsonBody begin)) true (is_ok r) es).
Proof.
  split_and!.
  - intros url r c' Hu. unfold upload_chunk_with_retry. rewrite leaf_bind, Hu.
    rewrite <- is_ok_ended_well. apply attempts_attempted; [|by eexists].
    clear. intros i v c. rewrite alone_send.
    destruct (http_send _ _) as [[response|e] s]; cbn [fst snd].
    + destruct (is_success (rp_status response)) eqn:Hs; [by eapply iteration_success|].
      destruct (retryable_status _) eqn:Hr; [|by eapply iteration_stop; [|done|congruence]].
      eapply iteration_again; [by rewrite (proj2 (alone_pause _ _ _ _))|apply alone_pause|done|done].
    + eapply iteration_transport; [by rewrite (proj2 (alone_pause _ _ _ _))|].
      left. eexists. apply alone_pause.
  - intros url r c' Hu. unfold finalize_upload. rewrite leaf_bind, Hu.
    rewrite <- is_ok_ended_well. apply attempts_attempted; [|by eexists].
    clear. intros i v c. rewrite alone_send.
    destruct (http_send _ _) as [[response|e] s]; cbn [fst snd].
    + destruct (is_success (rp_status response)) eqn:Hs; [by eapply iteration_success|].
      destruct (retryable_status _) eqn:Hr; [|by eapply iteration_stop; [|done|congruence]].
      destruct (i <? 2) eqn:Hi; bool_hyps; [by eapply iteration_again|by eapply iteration_stop].
    + destruct (i <? 2) eqn:Hi; bool_hyps; eapply iteration_transport; eauto.
  - intros begin r c'. unfold begin_upload.
    rewrite <- is_ok_ended_well. apply attempts_attempted; [|by eexists].
    clear. intros i v c. rewrite alone_send.
    destruct (http_send _ _) as [[response|e] s]; cbn [fst snd].
    + destruct (is_success (rp_status response)) eqn:Hs.
      { unfold or_fail. rewrite leaf_bind. by destruct (json_of _ _); eapply iteration_success. }
      destruct (retryable_status _) eqn:Hr; [|by eapply iteration_stop; [|done|congruence]].
      destruct (i <? 2) eqn:Hi; bool_hyps; [by eapply iteration_again|by eapply iteration_stop].
    + destruct (i <? 2) eqn:Hi; bool_hyps; eapply iteration_transport; eauto.
Qed.

(** ** Reading through the cache *)

(** Requests leave the files and the failures to come alone. *)
Definition same_files (c c' : Client) : Prop :=
  c_files c' = c_files c ∧ c_faults c' = c_faults c.

#[export] Instance same_files_networking : Networking same_files.
Proof.
  split; unfold same_files; cbn; [split|done..].
  - by intros c.
  - intros c1 c2 c3 [-> ->] [-> ->]. done.
Qed.

(** Without failures a file operation is its effect. *)
Lemma alone_file_operation {A B} f (k : result string A → Task B) c :
  c_faults c = [] → alone (let! a := file_operation f in k a) c = alone (k (f c).1) (f c).2.
Proof.
  intros Hf. assert (Hn : next_fault c = c) by (destruct c; cbn in *; by subst).
  unfold file_operation, observe, mbind, tree_mbind. cbn. rewrite Hf, Hn. cbn. by destruct (f c).
Qed.

Lemma alone_or_fail {A B} message (r : result string A) (k : A → Task B) c :
  alone (let! a := or_fail message r in k a) c =
  match r with Ok a => alone (k a) c | Err e => (Err (failure (message +:+ e)), c) end.
Proof. unfold or_fail. by destruct r. Qed.

(** The entry of a chunk. *)
Local Abbreviation entry self d :=
  (chunk_cache_path self (ChunkId_display (cd_id d))).

Lemma alone_publish_chunk self d b c r c' :
  c_faults c = [] → c_files c !! entry self d = None →
  alone (publish_chunk (entry self d) d b) c = (r, c') →
  (∃ e, r = Err e) ∨
  (r = Ok b ∧ valid_chunk b d = true ∧ c' = set_files (<[entry self d := b]> (c_files c)) c).
Proof.
  intros Hf Hn. unfold publish_chunk. destruct (valid_chunk b d) eqn:Hv; cbn [negb];
    [|intros [= <- <-]; eauto].
  rewrite leaf_bind. destruct (ok_or _ _); [|intros [= <- <-]; eauto].
  unfold fs_operation. do 3 (rewrite alone_file_operation by done; cbn [fst snd];
        rewrite alone_or_fail; cbn beta iota).
  unfold persist_noclobber. rewrite alone_file_operation by done. rewrite Hn. cbn.
  intros [= <- <-]. eauto.
Qed.

(** A call that succeeds leaves the chunk it returns in the cache. *)
Lemma read_or_fetch_caches self action index d c b c' :
  c_faults c = [] →
  alone (read_or_fetch_chunk self action index d) c = (Ok b, c') →
  valid_chunk b d = true ∧ c_files c' !! entry self d = Some b ∧ c_faults c' = [].
Proof.
  intros Hf. unfold read_or_fetch_chunk. cbv zeta.
  assert (Hfetch : ∀ c1, c_faults c1 = [] → c_files c1 !! entry self d = None →
    alone (let! url := leaf (child_url (ta_href action) ["chunks"; pretty index]) in
           let! b := fetch_chunk action url in publish_chunk (entry self d) d b) c1 = (Ok b, c') →
    valid_chunk b d = true ∧ c_files c' !! entry self d = Some b ∧ c_faults c' = []).
  { intros c1 Hf1 Hn. rewrite leaf_bind. destruct (child_url _ _) as [url|]; [|done].
    rewrite alone_bind. destruct (alone (fetch_chunk action url) c1) as [[b0|] c2] eqn:Ha; [|done].
    destruct (holds_alone same_files _ _ _ _ _ (fetch_chunk_holds (R:=same_files) action url c1) Ha)
      as [[Hfs Hfa] _].
    intros [[e He]|([= ->] & Hv & ->)]%alone_publish_chunk; [done| |congruence..].
    split; [done|]. cbn. split; [by rewrite lookup_insert_eq|congruence]. }
  unfold fs_read. rewrite alone_file_operation by done. cbn [fst snd].
  destruct (c_files c !! entry self d) as [b0|] eqn:Hb; cbn [ok_or]; [|by apply Hfetch].
  destruct (valid_chunk b0 d) eqn:Hv; [by intros [= <- <-]|].
  unfold fs_remove_file. rewrite alone_file_operation by done. rewrite Hb. cbn [fst snd].
  rewrite alone_or_fail. apply Hfetch; [done|]. cbn. by rewrite lookup_delete_eq.
Qed.

(** C26: the chunk cache is never poisoned and always used.  Among any other
    processes that publish only validated chunks, every action of
    [read_or_fetch_chunk] does so too, and the bytes it returns have the
    length and the BLAKE3 identity of the descriptor, whatever the cache held
    and the service answered.  Without file failures, what it returned is in
    the cache, and asking for the chunk again answers from the cache without a
    request. *)
Theorem chunk_cache_sound {hex_laws : HexLaws} self action index d c :
  holds (keeps_cache self) (λ r _, ∀ b, r = Ok b → valid_chunk b d = true)
    (read_or_fetch_chunk self action index d) c ∧
  (∀ b c', c_faults c = [] →
     alone (read_or_fetch_chunk self action index d) c = (Ok b, c') →
     alone (read_or_fetch_chunk self action index d) c' = (Ok b, c')).
Proof.
  split.
  - apply (holds_mono _ (fetched d)); [by intros r c' _ Hr b ->|].
    apply read_or_fetch_chunk_holds; apply _.
  - intros b c' Hf (Hv & Hb & Hf')%read_or_fetch_caches; [|done].
    unfold read_or_fetch_chunk. cbv zeta. unfold fs_read. rewrite alone_file_operation by done.
    cbn [fst snd]. rewrite Hb. cbn [ok_or]. by rewrite Hv.
Qed.

End Backend.
Arguments Client Srv {url_lib} : assert.
Arguments Exchange {url_lib} : assert.
