(* ===== verification/ClientDownloads.v ===== *)
(** * ClientDownloads: [HttpBackend::download] with its worker threads

    The main thread feeds a bounded channel of jobs, [chunk_concurrency]
    workers read or fetch the chunks, and a bounded channel brings them back
    in any order.  A state holds both channels, the position of every thread
    and the variables of the main thread; [dl_turn] is one atomic action of
    one thread.  Other processes may change the world between any two turns. *)
From S2P Require Import Prelude Digest Manifest Stream Protocol Text Agent Tree Backend.
From stdpp Require Import relations.
#[local] Open Scope N_scope.

Section Downloads.
  Context {Srv : Type} {url_lib : UrlLib} {http : Http Srv} {lib : ClientLib}
          {hex : HexCodec} {hashes : Hashes}.
  Local Abbreviation Client := (Client Srv).
  Local Abbreviation Task A := (tree Client BackendError A).

(** ** Before the threads start *)

(** [error_for_status]. *)
Definition error_for_status (response : HttpResponse) : result string HttpResponse :=
  if is_client_error (rp_status response) || is_server_error (rp_status response)
  then Err (status_error_display (rp_status response)) else Ok response.

Definition download_prepare (request : DownloadRequest) : Task (TransferAction * ObjectManifest) :=
  let! action := leaf (action_of (dr_action request)) in
  let! sent := send (authorized GET (Href (ta_href action)) action NoBody) in
  let! response := or_fail "could not fetch CDC manifest: " (mbind error_for_status sent) in
  let! manifest := or_fail "invalid CDC manifest: " (json_of manifest_from_json response) in
  let! _ := or_fail "invalid CDC manifest: "
              (map_err ManifestError_display (ObjectManifest_validate manifest)) in
  if bool_decide (om_object_oid manifest ≠ dr_oid request)
     || negb (om_object_size manifest =? dr_size request)
  then throw (failure "server manifest does not match the requested Git LFS object")
  else
    let! created := fs_operation in
    let! _ := or_fail "could not create cache root: " created in
    let! temporary := fs_operation in
    let! _ := or_fail "could not create download file: " temporary in
    mret (action, manifest).

(** ** The threads *)

Inductive DlWorker :=
| DwWaiting
| DwFetching (index : nat) (task : Task bytes)
| DwSending (index : nat) (result : result BackendError bytes)
| DwExited.

Inductive DlMain :=
| DmFilling
| DmReceiving
| DmDraining
| DmScheduling
| DmJoining (outcome : result BackendError unit)
| DmJoined (outcome : result BackendError unit).

Record Download := mkDownload {
  dl_client : Client;
  dl_jobs : list (nat * ChunkDescriptor);
  dl_results : list (nat * result BackendError bytes);
  dl_workers : list DlWorker;
  dl_main : DlMain;
  dl_next_scheduled : nat;
  dl_next_write : nat;
  dl_pending : gmap nat bytes;
  dl_hasher : Sha256;
  dl_temporary : bytes;
}.

Section Scope.
  Context (self : HttpBackend) (action : TransferAction) (manifest : ObjectManifest).
  Local Abbreviation concurrency := (N.to_nat (chunk_concurrency self)).
  Local Abbreviation chunks := (om_chunks manifest).
  Local Abbreviation total := (length chunks).

Definition dl_start (c : Client) : Download :=
  mkDownload c [] [] (replicate concurrency DwWaiting) DmFilling 0 0 ∅ Sha256_new [].

Definition with_client (c : Client) (s : Download) : Download :=
  mkDownload c (dl_jobs s) (dl_results s) (dl_workers s) (dl_main s) (dl_next_scheduled s)
    (dl_next_write s) (dl_pending s) (dl_hasher s) (dl_temporary s).
Definition with_main (m : DlMain) (s : Download) : Download :=
  mkDownload (dl_client s) (dl_jobs s) (dl_results s) (dl_workers s) m (dl_next_scheduled s)
    (dl_next_write s) (dl_pending s) (dl_hasher s) (dl_temporary s).
Definition with_worker (i : nat) (w : DlWorker) (s : Download) : Download :=
  mkDownload (dl_client s) (dl_jobs s) (dl_results s) (<[i := w]> (dl_workers s)) (dl_main s)
    (dl_next_scheduled s) (dl_next_write s) (dl_pending s) (dl_hasher s) (dl_temporary s).

Definition dw_exited (w : DlWorker) : bool := match w with DwExited => true | _ => false end.
Definition dl_all_exited (s : Download) : bool := forallb dw_exited (dl_workers s).

(** The job sender lives as long as the closure of the main thread. *)
Definition dl_jobs_closed (s : Download) : bool :=
  match dl_main s with DmJoining _ | DmJoined _ => true | _ => false end.

(** [?] in the closure: its locals are dropped and the scope joins. *)
Definition dl_abort (e : BackendError) (s : Download) : Download :=
  mkDownload (dl_client s) (dl_jobs s) (dl_results s) (dl_workers s) (DmJoining (Err e))
    (dl_next_scheduled s) (dl_next_write s) ∅ (dl_hasher s) (dl_temporary s).

(** [jobs.send((next_scheduled, chunks[next_scheduled].clone()))?] and
    [next_scheduled += 1]; blocks while the channel is full. *)
Definition dl_schedule (d : ChunkDescriptor) (next : DlMain) (s : Download) : option Download :=
  if dl_all_exited s then Some (dl_abort (failure "chunk download worker stopped") s)
  else if (length (dl_jobs s) <? concurrency)%nat
  then Some (mkDownload (dl_client s) (dl_jobs s ++ [(dl_next_scheduled s, d)]) (dl_results s)
               (dl_workers s) next (S (dl_next_scheduled s)) (dl_next_write s) (dl_pending s)
               (dl_hasher s) (dl_temporary s))
  else None.

(** [temporary.write_all(&bytes)]. *)
Definition dl_write (b : bytes) (s : Download) : Download :=
  match hd None (c_faults (dl_client s)) with
  | Some e => dl_abort (failure ("could not reconstruct download: " +:+ e))
                (with_client (next_fault (dl_client s)) s)
  | None => mkDownload (next_fault (dl_client s)) (dl_jobs s) (dl_results s) (dl_workers s)
              DmScheduling (dl_next_scheduled s) (S (dl_next_write s))
              (delete (dl_next_write s) (dl_pending s)) (Sha256_update (dl_hasher s) b)
              (dl_temporary s ++ b)
  end.

(** One action of the main thread; [None] when it is blocked or done. *)
Definition dl_main_turn (s : Download) : option Download :=
  match dl_main s with
  | DmFilling =>
      if (dl_next_scheduled s <? concurrency)%nat
      then match chunks !! dl_next_scheduled s with
           | Some d => dl_schedule d DmFilling s
           | None => Some (with_main DmReceiving s)
           end
      else Some (with_main DmReceiving s)
  | DmReceiving =>
      if (dl_next_write s <? total)%nat
      then match dl_results s with
           | (index, Ok b) :: rest =>
               Some (mkDownload (dl_client s) (dl_jobs s) rest (dl_workers s) DmDraining
                       (dl_next_scheduled s) (dl_next_write s) (<[index := b]> (dl_pending s))
                       (dl_hasher s) (dl_temporary s))
           | (index, Err e) :: rest =>
               Some (dl_abort e
                      (mkDownload (dl_client s) (dl_jobs s) rest (dl_workers s) (dl_main s)
                         (dl_next_scheduled s) (dl_next_write s) (dl_pending s) (dl_hasher s)
                         (dl_temporary s)))
           | [] => if dl_all_exited s
                   then Some (dl_abort (failure "chunk download worker stopped") s) else None
           end
      else Some (with_main (DmJoining (Ok tt)) s)
  | DmDraining =>
      match dl_pending s !! dl_next_write s with
      | Some b => Some (dl_write b s)
      | None => Some (with_main DmReceiving s)
      end
  | DmScheduling =>
      match chunks !! dl_next_scheduled s with
      | Some d => dl_schedule d DmDraining s
      | None => Some (with_main DmDraining s)
      end
  | DmJoining outcome => if dl_all_exited s then Some (with_main (DmJoined outcome) s) else None
  | DmJoined _ => None
  end.

(** One action of a worker. *)
Definition dl_worker_turn (i : nat) (w : DlWorker) (s : Download) : option Download :=
  match w with
  | DwWaiting =>
      match dl_jobs s with
      | (index, descriptor) :: rest =>
          Some (with_worker i (DwFetching index (read_or_fetch_chunk self action (N.of_nat index) descriptor))
                 (mkDownload (dl_client s) rest (dl_results s) (dl_workers s) (dl_main s)
                    (dl_next_scheduled s) (dl_next_write s) (dl_pending s) (dl_hasher s)
                    (dl_temporary s)))
      | [] => if dl_jobs_closed s then Some (with_worker i DwExited s) else None
      end
  | DwFetching index (Leaf r) => Some (with_worker i (DwSending index r) s)
  | DwFetching index (Node f k) =>
      let '(x, c) := f (dl_client s) in
      Some (with_worker i (DwFetching index (k x)) (with_client c s))
  | DwSending index r =>
      if (length (dl_results s) <? concurrency)%nat
      then Some (with_worker i DwWaiting
                  (mkDownload (dl_client s) (dl_jobs s) (dl_results s ++ [(index, r)])
                     (dl_workers s) (dl_main s) (dl_next_scheduled s) (dl_next_write s)
                     (dl_pending s) (dl_hasher s) (dl_temporary s)))
      else None
  | DwExited => None
  end.

(** A turn of the main thread ([None]) or of worker [i]. *)
Definition dl_turn (who : option nat) (s : Download) : option Download :=
  match who with
  | None => dl_main_turn s
  | Some i => match dl_workers s !! i with Some w => dl_worker_turn i w s | None => None end
  end.

(** A turn of some thread, or any change of the world by other processes. *)
Inductive dl_step : Download → Download → Prop :=
| dl_step_turn who s s' : dl_turn who s = Some s' → dl_step s s'
| dl_step_others c s : dl_step s (with_client c s).

(** Paths by the number of turns. *)
Inductive dl_path : nat → Download → Download → Prop :=
| dl_path_nil s : dl_path 0 s s
| dl_path_turn n who s s1 s' : dl_turn who s = Some s1 → dl_path n s1 s' → dl_path (S n) s s'
| dl_path_others n c s s' : dl_path n (with_client c s) s' → dl_path n s s'.

End Scope.

(** ** After the threads *)

Definition download_complete (self : HttpBackend) (request : DownloadRequest)
    (outcome : result BackendError unit) (s : Download) : Task DownloadResult :=
  let! _ := leaf outcome in
  if bool_decide (digest_bytes (Sha256_finalize (dl_hasher s)) ≠ ObjectOid_as_bytes (dr_oid request))
  then throw (failure "reconstructed download failed SHA-256 validation")
  else
    let! kept := keep (dl_temporary s) (cache_root self) in
    let! path := or_fail "could not retain completed download: " kept in
    mret (mkDownloadResult path (dr_size request)).

(** A run of [download]: it fails before the threads start, or the threads run
    until all have joined and the rest follows. *)
Inductive downloads (self : HttpBackend) (request : DownloadRequest) (c : Client)
  : result BackendError DownloadResult → Client → Prop :=
| downloads_refused e c' :
    runs (λ _ _, True) (download_prepare request) c (Err e) c' →
    downloads self request c (Err e) c'
| downloads_joined action manifest c1 s outcome :
    runs (λ _ _, True) (download_prepare request) c (Ok (action, manifest)) c1 →
    rtc (dl_step self action manifest) (dl_start self c1) s →
    dl_main s = DmJoined outcome →
    downloads self request c (alone (download_complete self request outcome s) (dl_client s)).1
      (alone (download_complete self request outcome s) (dl_client s)).2.

(** ** What a state holds *)

Section Invariant.
  Context (self : HttpBackend) (action : TransferAction) (manifest : ObjectManifest).
  Local Abbreviation concurrency := (N.to_nat (chunk_concurrency self)).
  Local Abbreviation chunks := (om_chunks manifest).
  Local Abbreviation total := (length chunks).
  Local Abbreviation dl_turn := (dl_turn self action manifest).
  Local Abbreviation dl_step := (dl_step self action manifest).

(** Index [i] is described, and [r] is not a wrong answer for it. *)
Definition described_at (i : nat) (d : ChunkDescriptor) : Prop := chunks !! i = Some d.
Definition answer_ok (i : nat) (r : result BackendError bytes) : Prop :=
  ∃ d, described_at i d ∧ ∀ b, r = Ok b → valid_chunk b d = true.
Definition worker_ok (w : DlWorker) : Prop :=
  match w with
  | DwFetching i task => ∃ d, described_at i d ∧ ∀ c, holds anything (fetched d) task c
  | DwSending i r => answer_ok i r
  | DwWaiting | DwExited => True
  end.

(** Every chunk in transit is, or will be, a valid chunk of its index; what was
    written is the first chunks, in order. *)
Record dl_data (s : Download) : Prop := {
  data_jobs : Forall (λ j, described_at j.1 j.2) (dl_jobs s);
  data_workers : Forall worker_ok (dl_workers s);
  data_results : Forall (λ r, answer_ok r.1 r.2) (dl_results s);
  data_pending : map_Forall (λ i b, answer_ok i (Ok b)) (dl_pending s);
  data_written : ∃ bs, Forall2 (λ d b, valid_chunk b d = true) (take (dl_next_write s) chunks) bs ∧
                       dl_temporary s = concat bs ∧ dl_hasher s = concat bs ∧
                       (dl_next_write s ≤ total)%nat;
  data_outcome : match dl_main s with
                 | DmJoining (Ok _) | DmJoined (Ok _) => dl_next_write s = total
                 | _ => True
                 end;
}.

Lemma dl_data_start c : dl_data (dl_start self c).
Proof.
  split; cbn; [constructor| |constructor|by apply map_Forall_empty| |done].
  - by apply Forall_replicate.
  - exists []. split_and!; [by rewrite take_0|done|done|lia].
Qed.

Lemma dl_data_worker i w s :
  dl_data s → worker_ok w → dl_data (with_worker i w s).
Proof. intros [] Hw. split; cbn; try done. by apply Forall_insert. Qed.

Lemma dl_data_client c s : dl_data s → dl_data (with_client c s).
Proof. by intros []. Qed.

Lemma dl_data_abort e s : dl_data s → dl_data (dl_abort e s).
Proof. intros []. split; cbn; try done. Qed.

Lemma dl_data_worker_turn i w s s' :
  dl_data s → dl_workers s !! i = Some w → dl_worker_turn self action i w s = Some s' → dl_data s'.
Proof.
  intros Hd Hw. pose proof (Forall_lookup_1 _ _ _ _ (data_workers s Hd) Hw) as Hok.
  destruct w as [|index task|index r|]; cbn [dl_worker_turn].
  - destruct (dl_jobs s) as [|[index d] rest] eqn:Hj.
    + destruct (dl_jobs_closed s); [|done]. intros [= <-]. by apply dl_data_worker.
    + intros [= <-]. destruct Hd as [Hjobs ? ? ? ? ?]. rewrite Hj in Hjobs.
      apply Forall_cons in Hjobs as [Hjob Hjobs]. apply dl_data_worker; [by split|].
      exists d. split; [done|]. intros c. apply read_or_fetch_chunk_holds; apply _.
  - destruct Hok as (d & Hdesc & Hh). destruct task as [r|X f k]; cbn in Hh.
    + intros [= <-]. apply dl_data_worker; [done|]. exists d. split; [done|].
      intros b ->. by apply (Hh (dl_client s) (dl_client s)).
    + pose proof (λ c, proj2 (Hh (dl_client s) c I)) as Hk.
      specialize (Hk (dl_client s)). destruct (f (dl_client s)) as [x c]. intros [= <-].
      apply dl_data_worker; [by apply dl_data_client|]. exists d. split; [done|]. intros c0.
      by apply (holds_interfere anything _ _ c).
  - destruct (_ <? _)%nat; [|done]. intros [= <-]. destruct Hd.
    apply dl_data_worker; [|done]. split; cbn; try done. apply Forall_app. split; [done|]. by constructor.
  - done.
Qed.

Lemma dl_data_schedule d next s s' :
  dl_data s → described_at (dl_next_scheduled s) d →
  match next with DmJoining (Ok _) | DmJoined (Ok _) => False | _ => True end →
  dl_schedule self d next s = Some s' → dl_data s'.
Proof.
  intros Hd Hdesc Hn. unfold dl_schedule.
  destruct (dl_all_exited s); [intros [= <-]; by apply dl_data_abort|].
  destruct (_ <? _)%nat; [|done]. intros [= <-]. destruct Hd. split; cbn; try done.
  - apply Forall_app. split; [done|]. by constructor.
  - by destruct next as [| | | |[]|[]].
Qed.

Lemma dl_data_write b s :
  dl_data s → dl_pending s !! dl_next_write s = Some b → dl_data (dl_write b s).
Proof.
  intros Hd Hb. unfold dl_write. destruct (hd None _); [by apply dl_data_abort, dl_data_client|].
  pose proof (data_pending s Hd _ _ Hb) as (d & Hdesc & Hv).
  destruct Hd as [? ? ? Hp (bs & Hbs & Ht & Hh & Hle) _]. split; cbn; try done.
  - by apply map_Forall_delete.
  - exists (bs ++ [b]). unfold Sha256_update. rewrite Ht, Hh, concat_app. cbn. rewrite app_nil_r.
    split_and!; [|done|done|by eapply lookup_lt_Some].
    rewrite (take_S_r _ _ _ Hdesc). apply Forall2_app; [done|]. constructor; [by apply Hv|done].
Qed.

Lemma dl_data_main_turn s s' :
  dl_data s → dl_main_turn self manifest s = Some s' → dl_data s'.
Proof.
  intros Hd. unfold dl_main_turn. destruct (dl_main s) as [| | | |o|o] eqn:Hm.
  - destruct (_ <? _)%nat; [|intros [= <-]; by destruct Hd].
    destruct (chunks !! dl_next_scheduled s) eqn:Hc; [|intros [= <-]; by destruct Hd].
    by apply dl_data_schedule.
  - destruct (Nat.ltb_spec (dl_next_write s) total) as [Hlt|Hge].
    + destruct (dl_results s) as [|[index [b|e]] rest] eqn:Hr.
      * destruct (dl_all_exited s); [|done]. intros [= <-]. by apply dl_data_abort.
      * intros [= <-]. destruct Hd as [? ? Hres ? ? ?]. rewrite Hr in Hres.
        apply Forall_cons in Hres as [? ?]. split; cbn; try done. by apply map_Forall_insert_2.
      * intros [= <-]. apply dl_data_abort. destruct Hd as [? ? Hres ? ? ?]. rewrite Hr in Hres.
        apply Forall_cons in Hres as [? ?]. by split.
    + intros [= <-]. destruct Hd as [? ? ? ? (bs & Hb & Ht & Hh & Hle) _]. split; cbn; try done.
      * by exists bs.
      * lia.
  - destruct (dl_pending s !! dl_next_write s) eqn:Hp; intros [= <-]; [by apply dl_data_write|].
    by destruct Hd.
  - destruct (chunks !! dl_next_scheduled s) eqn:Hc; [by apply dl_data_schedule|].
    intros [= <-]. by destruct Hd.
  - destruct (dl_all_exited s); [|done]. intros [= <-]. destruct Hd. rewrite Hm in *. by split.
  - done.
Qed.

Lemma dl_data_turn who s s' : dl_data s → dl_turn who s = Some s' → dl_data s'.
Proof.
  intros Hd. destruct who as [i|]; cbn; [|by apply dl_data_main_turn].
  destruct (dl_workers s !! i) eqn:Hw; [|done]. by apply (dl_data_worker_turn i d).
Qed.

Lemma dl_data_steps s s' : dl_data s → rtc dl_step s s' → dl_data s'.
Proof.
  intros Hd. induction 1 as [s|s s1 s2 Hs _ IH]; [done|]. apply IH.
  destruct Hs; [by eapply dl_data_turn|by apply dl_data_client].
Qed.

End Invariant.

(** ** No deadlock, no endless run, bounded memory *)

Section Progress.
  Context (self : HttpBackend) (action : TransferAction) (manifest : ObjectManifest).
  Local Abbreviation concurrency := (N.to_nat (chunk_concurrency self)).
  Local Abbreviation chunks := (om_chunks manifest).
  Local Abbreviation total := (length chunks).
  Local Abbreviation dl_turn := (dl_turn self action manifest).
  Local Abbreviation dl_path := (dl_path self action manifest).

(** The indexes between the two channels. *)
Definition dw_index (w : DlWorker) : option nat :=
  match w with DwFetching i _ | DwSending i _ => Some i | _ => None end.
Definition flight (s : Download) : list nat :=
  (dl_jobs s).*1 ++ omap dw_index (dl_workers s) ++ (dl_results s).*1.

(** Scheduled and not yet written indexes are in transit or pending, once. *)
Definition window (s : Download) : Prop :=
  (dl_next_write s ≤ dl_next_scheduled s)%nat ∧ (dl_next_scheduled s ≤ total)%nat ∧
  flight s ++ (map_to_list (dl_pending s)).*1
    ≡ₚ seq (dl_next_write s) (dl_next_scheduled s - dl_next_write s).

Definition dl_open (s : Download) : Prop := Forall (λ w, dw_exited w = false) (dl_workers s).

(** Where the main thread is, and how far ahead it has scheduled. *)
Definition dl_position (s : Download) : Prop :=
  let ns := dl_next_scheduled s in
  let nw := dl_next_write s in
  match dl_main s with
  | DmFilling => window s ∧ dl_open s ∧ nw = 0%nat ∧ (ns ≤ concurrency)%nat ∧ dl_pending s = ∅
  | DmReceiving =>
      window s ∧ dl_open s ∧ ns = (total `min` (nw + concurrency))%nat ∧ dl_pending s !! nw = None
  | DmDraining => window s ∧ dl_open s ∧ ns = (total `min` (nw + concurrency))%nat
  | DmScheduling =>
      window s ∧ dl_open s ∧ (0 < nw)%nat ∧ ns = (total `min` (nw - 1 + concurrency))%nat
  | DmJoining _ | DmJoined _ => (length (flight s) ≤ concurrency)%nat ∧ dl_pending s = ∅
  end.
Definition dl_control (s : Download) : Prop := length (dl_workers s) = concurrency ∧ dl_position s.

Lemma omap_insert_perm {A B} (f : A → option B) (l : list A) i x y :
  l !! i = Some x →
  option_list (f y) ++ omap f l ≡ₚ option_list (f x) ++ omap f (<[i := y]> l).
Proof.
  intros Hi. destruct (list_elem_of_split_length l i x Hi) as (l1 & l2 & -> & ->).
  rewrite insert_app_r_alt, Nat.sub_diag by lia. cbn [insert list_insert].
  rewrite !omap_app. cbn. destruct (f x), (f y); cbn; solve_Permutation.
Qed.
(** A worker's turn keeps what is in transit and the main thread's variables. *)
Lemma dl_worker_turn_frame i w s s' :
  dl_workers s !! i = Some w → dl_worker_turn self action i w s = Some s' →
  flight s' ≡ₚ flight s ∧ length (dl_workers s') = length (dl_workers s) ∧
  dl_main s' = dl_main s ∧ dl_next_scheduled s' = dl_next_scheduled s ∧
  dl_next_write s' = dl_next_write s ∧ dl_pending s' = dl_pending s ∧
  (dl_jobs_closed s = false → dl_open s → dl_open s').
Proof.
  intros Hi. unfold flight.
  pose proof (λ v, omap_insert_perm dw_index _ i _ v Hi) as Hp.
  destruct w as [|index [r|X f k]|index r|]; cbn [dl_worker_turn].
  - destruct (dl_jobs s) as [|[index d] rest] eqn:Hj.
    + destruct (dl_jobs_closed s) eqn:Hc; [|done]. intros [= <-]. specialize (Hp DwExited).
      cbn in *. rewrite Hj. cbn. rewrite <- Hp. split_and!; try done. apply length_insert.
    + intros [= <-].
      specialize (Hp (DwFetching index (read_or_fetch_chunk self action (N.of_nat index) d))).
      cbn in *. split_and!; try done; [|by apply length_insert|].
      * rewrite <- Hp. solve_Permutation.
      * intros _ Ho. by apply Forall_insert.
  - intros [= <-]. specialize (Hp (DwSending index r)). cbn in *.
    apply Permutation_cons_inv in Hp. rewrite Hp.
    split_and!; try done; [by apply length_insert|]. intros _ Ho. by apply Forall_insert.
  - destruct (f (dl_client s)) as [x c]. intros [= <-]. specialize (Hp (DwFetching index (k x))).
    cbn in *. apply Permutation_cons_inv in Hp. rewrite Hp.
    split_and!; try done; [by apply length_insert|]. intros _ Ho. by apply Forall_insert.
  - destruct (_ <? _)%nat; [|done]. intros [= <-]. specialize (Hp DwWaiting). cbn in *.
    split_and!; try done; [|by apply length_insert|].
    + rewrite fmap_app. cbn. rewrite Hp. solve_Permutation.
    + intros _ Ho. by apply Forall_insert.
  - done.
Qed.

Lemma dl_position_flight s s' :
  flight s' ≡ₚ flight s → dl_main s' = dl_main s →
  dl_next_scheduled s' = dl_next_scheduled s → dl_next_write s' = dl_next_write s →
  dl_pending s' = dl_pending s → (dl_jobs_closed s = false → dl_open s → dl_open s') →
  dl_position s → dl_position s'.
Proof.
  intros Hf Hm Hs Hw Hp Ho. unfold dl_position, window, dl_jobs_closed in *.
  rewrite Hm, Hs, Hw, Hp. destruct (dl_main s); rewrite Hf; naive_solver.
Qed.

Lemma flight_bound s :
  dl_control s → (length (flight s) + size (dl_pending s) ≤ concurrency)%nat.
Proof.
  intros [_ Hp]. unfold dl_position in Hp.
  assert (Hw : window s → (length (flight s) + size (dl_pending s) =
                           dl_next_scheduled s - dl_next_write s)%nat).
  { intros (_ & _ & H). apply Permutation_length in H.
    by rewrite length_app, length_fmap, length_map_to_list, length_seq in H. }
  destruct (dl_main s); try (destruct Hp as (?%Hw & _ & Hp); lia);
    destruct Hp as [? ->]; rewrite map_size_empty; lia.
Qed.

Lemma not_all_exited s :
  (0 < concurrency)%nat → length (dl_workers s) = concurrency → dl_open s → dl_all_exited s = false.
Proof.
  unfold dl_open, dl_all_exited. intros Hc Hl Ho. destruct (dl_workers s) as [|w ws]; cbn in *; [lia|].
  apply Forall_cons in Ho as [-> _]. done.
Qed.

Lemma dl_control_abort e s : dl_control s → dl_control (dl_abort e s).
Proof.
  intros Hc. pose proof (flight_bound s Hc). destruct Hc as [Hl _]. split; [done|].
  unfold dl_position. cbn. unfold flight in *. cbn in *. split; [lia|done].
Qed.
Lemma window_schedule s d next :
  window s → described_at manifest (dl_next_scheduled s) d →
  window (mkDownload (dl_client s) (dl_jobs s ++ [(dl_next_scheduled s, d)]) (dl_results s)
            (dl_workers s) next (S (dl_next_scheduled s)) (dl_next_write s) (dl_pending s)
            (dl_hasher s) (dl_temporary s)).
Proof.
  intros (Hle & Hlt & Hp) Hd%lookup_lt_Some. unfold window, flight in *. cbn in *.
  split_and!; [lia|lia|].
  replace (S (dl_next_scheduled s) - dl_next_write s)%nat
    with (S (dl_next_scheduled s - dl_next_write s)) by lia.
  rewrite seq_S, <- Hp, fmap_app. cbn.
  replace (dl_next_write s + (dl_next_scheduled s - dl_next_write s))%nat
    with (dl_next_scheduled s) by lia. solve_Permutation.
Qed.

Lemma window_receive s index b rest :
  window s → dl_results s = (index, Ok b) :: rest →
  window (mkDownload (dl_client s) (dl_jobs s) rest (dl_workers s) DmDraining
            (dl_next_scheduled s) (dl_next_write s) (<[index := b]> (dl_pending s))
            (dl_hasher s) (dl_temporary s)).
Proof.
  intros (Hle & Hlt & Hp) Hr. unfold window, flight in *. cbn in *. rewrite Hr in Hp. cbn in Hp.
  split_and!; [done|done|].
  assert (dl_pending s !! index = None) as Hn.
  { apply eq_None_not_Some. intros [b' Hb']. apply elem_of_map_to_list in Hb'.
    pose proof (NoDup_seq (dl_next_write s) (dl_next_scheduled s - dl_next_write s)) as Hnd.
    rewrite <- Hp in Hnd. apply NoDup_app in Hnd as (_ & Hnd & _).
    apply (Hnd index); [set_solver|]. apply list_elem_of_fmap. by exists (index, b'). }
  rewrite map_to_list_insert by done. cbn. rewrite <- Hp. solve_Permutation.
Qed.

Lemma window_write s b hasher temporary :
  window s → dl_pending s !! dl_next_write s = Some b →
  window (mkDownload (next_fault (dl_client s)) (dl_jobs s) (dl_results s) (dl_workers s)
            DmScheduling (dl_next_scheduled s) (S (dl_next_write s))
            (delete (dl_next_write s) (dl_pending s)) hasher temporary).
Proof.
  intros (Hle & Hlt & Hp) Hb. unfold window, flight in *. cbn in *.
  rewrite <- (map_to_list_delete _ _ _ Hb) in Hp. cbn in Hp.
  rewrite <- Permutation_middle in Hp.
  destruct (dl_next_scheduled s - dl_next_write s)%nat as [|n] eqn:Hn.
  { by apply Permutation_nil_r in Hp. }
  cbn [seq] in Hp. apply Permutation_cons_inv in Hp.
  replace (dl_next_scheduled s - S (dl_next_write s))%nat with n by lia.
  split_and!; [lia|done|done].
Qed.

Lemma window_drained s :
  window s → (total ≤ dl_next_write s)%nat → flight s = [] ∧ dl_pending s = ∅.
Proof.
  intros (Hle & Hlt & Hp) Hge.
  replace (dl_next_scheduled s - dl_next_write s)%nat with 0%nat in Hp by lia.
  apply Permutation_nil_r, app_eq_nil in Hp as [Hf Hm]. split; [done|].
  apply map_to_list_empty_iff. by destruct (map_to_list (dl_pending s)).
Qed.

Lemma dl_control_main_turn s s' :
  (0 < concurrency)%nat → dl_control s → dl_main_turn self manifest s = Some s' → dl_control s'.
Proof.
  intros Hconc Hc. pose proof (dl_control_abort) as Habort. pose proof (flight_bound s Hc) as Hroom.
  pose proof Hc as [Hlen Hp]. unfold dl_main_turn, dl_position in *.
  destruct (dl_main s) as [| | | |o|o] eqn:Hm.
  - destruct Hp as (Hw & Ho & Hn & Hle & He).
    assert (Hlt : (dl_next_scheduled s ≤ total)%nat) by apply Hw.
    destruct (Nat.ltb_spec (dl_next_scheduled s) concurrency) as [Hs|Hs].
    + destruct (chunks !! dl_next_scheduled s) as [d|] eqn:Hd.
      * unfold dl_schedule. rewrite not_all_exited by done. destruct (_ <? _)%nat; [|done].
        intros [= <-]. split; [done|]. unfold dl_position. cbn.
        split_and!; [by apply window_schedule|done|done|lia|done].
      * intros [= <-]. split; [done|]. unfold dl_position. cbn.
        apply lookup_ge_None in Hd. split_and!; [done|done|lia|]. by rewrite He.
    + intros [= <-]. split; [done|]. unfold dl_position. cbn.
      split_and!; [done|done|lia|]. by rewrite He.
  - destruct Hp as (Hw & Ho & Hs & Hn).
    destruct (Nat.ltb_spec (dl_next_write s) total) as [Hlt|Hge].
    + destruct (dl_results s) as [|[index [b|e]] rest] eqn:Hr.
      * destruct (dl_all_exited s); [|done]. intros [= <-]. by apply Habort.
      * intros [= <-]. split; [done|]. unfold dl_position. cbn.
        split_and!; [by apply window_receive|done|done].
      * intros [= <-]. split; [done|]. unfold dl_position. cbn. split; [|done].
        unfold flight in *. cbn. rewrite Hr in Hroom. rewrite !length_app in *. cbn in *. lia.
    + intros [= <-]. split; [done|]. unfold dl_position. cbn.
      destruct (window_drained s Hw Hge) as [Hf ->]. split; [|done].
      unfold flight in *. cbn. rewrite Hf. cbn. lia.
  - destruct Hp as (Hw & Ho & Hs).
    destruct (dl_pending s !! dl_next_write s) as [b|] eqn:Hb; intros [= <-].
    + unfold dl_write. destruct (hd None _).
      * apply Habort. split; [done|]. unfold dl_position. cbn. by rewrite Hm.
      * split; [done|]. unfold dl_position. cbn [dl_main]. cbv zeta.
        split_and!; [by eapply window_write|done|cbn; lia|cbn; lia].
    + split; [done|]. unfold dl_position. cbn. done.
  - destruct Hp as (Hw & Ho & Hpos & Hs).
    destruct (chunks !! dl_next_scheduled s) as [d|] eqn:Hd.
    + unfold dl_schedule. rewrite not_all_exited by done. destruct (_ <? _)%nat; [|done].
      intros [= <-]. split; [done|]. unfold dl_position. cbn.
      pose proof (lookup_lt_Some _ _ _ Hd).
      split_and!; [by apply window_schedule|done|lia].
    + intros [= <-]. split; [done|]. unfold dl_position. cbn.
      apply lookup_ge_None in Hd. split_and!; [done|done|lia].
  - destruct (dl_all_exited s); [|done]. intros [= <-]. done.
  - done.
Qed.

Lemma dl_control_turn who s s' :
  (0 < concurrency)%nat → dl_control s → dl_turn who s = Some s' → dl_control s'.
Proof.
  intros Hconc Hc. destruct who as [i|]; cbn; [|by apply dl_control_main_turn].
  destruct (dl_workers s !! i) as [w|] eqn:Hw; [|done]. intros Ht.
  destruct (dl_worker_turn_frame i w s s' Hw Ht) as (? & Hl & ? & ? & ? & ? & ?).
  destruct Hc as [Hlen Hp]. split; [congruence|]. by eapply dl_position_flight.
Qed.

Lemma dl_control_start c : dl_control (dl_start self c).
Proof.
  split; [apply length_replicate|]. unfold dl_position, window, flight. cbn.
  rewrite map_to_list_empty. split_and!; [lia|lia| | |done|lia|done].
  - induction concurrency; [done|]. done.
  - apply Forall_replicate. done.
Qed.
(** *** Some thread can always move *)

Definition can_move (s : Download) : Prop := ∃ who s', dl_turn who s = Some s'.

(** A worker that holds an index, or sees a job, or may exit, is not blocked. *)
Lemma worker_can_move s i w :
  dl_control s → dl_workers s !! i = Some w → w ≠ DwExited →
  (dw_index w = None → dl_jobs s ≠ [] ∨ dl_jobs_closed s = true) → can_move s.
Proof.
  intros Hc Hw Hne Hj. exists (Some i). cbn. rewrite Hw.
  destruct w as [|index [r|X f k]|index r|]; cbn [dl_worker_turn].
  - destruct (dl_jobs s) as [|[index d] rest]; [|by eexists].
    destruct Hj as [?|Hj]; [done|done|]. rewrite Hj. by eexists.
  - by eexists.
  - destruct (f (dl_client s)). by eexists.
  - assert (length (dl_results s) < concurrency)%nat as Hlt.
    { pose proof (flight_bound s Hc) as Hb. unfold flight in Hb. rewrite !length_app, !length_fmap in Hb.
      pose proof (omap_insert_perm dw_index _ i _ DwWaiting Hw) as Hp%Permutation_length.
      rewrite !length_app in Hp. cbn in Hp. lia. }
    apply Nat.ltb_lt in Hlt. rewrite Hlt. by eexists.
  - done.
Qed.

Lemma idle_or_busy s :
  (∃ i w, dl_workers s !! i = Some w ∧ is_Some (dw_index w)) ∨ omap dw_index (dl_workers s) = [].
Proof.
  induction (dl_workers s) as [|w ws [(i & v & Hi & Hv)|IH]]; [by right|left; by exists (S i), v|].
  destruct (dw_index w) as [x|] eqn:Hw; [left; exists 0%nat, w; eauto|right]. cbn. by rewrite Hw.
Qed.

Lemma all_exited_or_not s :
  dl_all_exited s = true ∨ ∃ i w, dl_workers s !! i = Some w ∧ w ≠ DwExited.
Proof.
  unfold dl_all_exited. induction (dl_workers s) as [|w ws [IH|(i & v & Hi & Hv)]]; [by left| |].
  - destruct w; cbn; [right|right|right|by left]; by exists 0%nat; eexists.
  - right. by exists (S i), v.
Qed.

(** A main thread that can send is not blocked. *)
Lemma schedule_can_move s d next :
  dl_control s → dl_main s = DmFilling ∨ dl_main s = DmScheduling →
  (dl_next_scheduled s < concurrency)%nat ∨ dl_main s = DmScheduling →
  described_at manifest (dl_next_scheduled s) d → is_Some (dl_schedule self d next s).
Proof.
  intros Hc Hm Hlt Hd%lookup_lt_Some. unfold dl_schedule. destruct (dl_all_exited s); [by eexists|].
  enough (length (dl_jobs s) < concurrency)%nat as Hl by (apply Nat.ltb_lt in Hl; rewrite Hl; by eexists).
  assert (Hw : window s ∧ (dl_next_scheduled s < dl_next_write s + concurrency)%nat).
  { destruct Hc as [_ Hp]. unfold dl_position in Hp.
    destruct Hm as [Hm|Hm]; rewrite Hm in Hp, Hlt.
    - destruct Hp as (Hw & _ & ? & ? & _). destruct Hlt as [?|?]; [|done]. split; [done|lia].
    - destruct Hp as (Hw & _ & ? & ?). split; [done|lia]. }
  destruct Hw as [(? & ? & Hp%Permutation_length) ?]. unfold flight in Hp.
  rewrite !length_app, !length_fmap, length_seq in Hp. lia.
Qed.

Lemma dl_can_move s :
  (0 < concurrency)%nat → dl_control s → (∀ o, dl_main s ≠ DmJoined o) → can_move s.
Proof.
  intros Hconc Hc Hj. destruct (idle_or_busy s) as [(i & w & Hi & x & Hx)|Hidle].
  { eapply worker_can_move; [done|done|by intros ->|congruence]. }
  pose proof Hc as [Hlen Hp]. unfold dl_position in Hp.
  assert (Hstart : dl_open s → dl_jobs s ≠ [] → can_move s).
  { intros Ho Hjobs. destruct (lookup_lt_is_Some_2 (dl_workers s) 0) as [w Hw]; [lia|].
    eapply worker_can_move; [done|done| |by left].
    apply (Forall_lookup_1 _ _ _ _ Ho) in Hw. by intros ->. }
  destruct (dl_main s) as [| | | |o|o] eqn:Hm; [| | | | |by destruct (Hj o)].
  - exists None. cbn. unfold dl_main_turn. rewrite Hm.
    destruct (Nat.ltb_spec (dl_next_scheduled s) concurrency); [|by eexists].
    destruct (chunks !! dl_next_scheduled s) eqn:Hd; [|by eexists].
    by eapply schedule_can_move; eauto.
  - destruct Hp as (Hw & Ho & Hs & Hn).
    destruct (decide (dl_jobs s = [])) as [Hjobs|Hjobs]; [|by apply Hstart].
    exists None. cbn. unfold dl_main_turn. rewrite Hm.
    destruct (Nat.ltb_spec (dl_next_write s) total) as [Hlt|]; [|by eexists].
    destruct (dl_results s) as [|[index [b|e]] rest] eqn:Hr; [exfalso|by eexists..].
    destruct Hw as (_ & _ & Hperm). unfold flight in Hperm. rewrite Hidle, Hjobs, Hr in Hperm.
    cbn in Hperm. assert (dl_next_write s ∈ (map_to_list (dl_pending s)).*1) as Hin.
    { rewrite Hperm. apply elem_of_seq. lia. }
    apply list_elem_of_fmap in Hin as ([i b] & Hi & Hin%elem_of_map_to_list). cbn in Hi. congruence.
  - exists None. cbn. unfold dl_main_turn. rewrite Hm.
    destruct (dl_pending s !! dl_next_write s); by eexists.
  - exists None. cbn. unfold dl_main_turn. rewrite Hm.
    destruct (chunks !! dl_next_scheduled s) eqn:Hd; [|by eexists].
    by eapply schedule_can_move; eauto.
  - destruct (all_exited_or_not s) as [Hall|(i & w & Hw & Hne)].
    + exists None. cbn. unfold dl_main_turn. rewrite Hm, Hall. by eexists.
    + eapply worker_can_move; [done|done|done|]. right. unfold dl_jobs_closed. by rewrite Hm.
Qed.

(** *** Every turn makes progress *)

Definition worker_rank (w : DlWorker) (n : nat) : Prop :=
  match w with
  | DwWaiting => n = 1%nat
  | DwFetching _ task => ∃ k, bounded k task ∧ n = (k + 7)%nat
  | DwSending _ _ => n = 6%nat
  | DwExited => n = 0%nat
  end.
Definition main_rank (m : DlMain) : nat :=
  match m with
  | DmFilling => 3 | DmReceiving => 2 | DmDraining => 3 | DmScheduling => 4
  | DmJoining _ => 1 | DmJoined _ => 0
  end.
Definition dl_rank (s : Download) (m : nat) : Prop :=
  ∃ ws, Forall2 worker_rank (dl_workers s) ws ∧
    m = ((total - dl_next_scheduled s) * (TASK_ACTIONS + 8)
         + length (dl_jobs s) * (TASK_ACTIONS + 7) + list_sum ws
         + length (dl_results s) * 4 + size (dl_pending s) * 2 + main_rank (dl_main s))%nat.

(** A worker moves on with a smaller rank, all other things equal. *)
Lemma worker_rank_step s s' i w w' m :
  dl_rank s m → dl_workers s !! i = Some w → dl_workers s' = <[i := w']> (dl_workers s) →
  (∀ n, worker_rank w n → ∃ n', worker_rank w' n' ∧
     ((total - dl_next_scheduled s') * (TASK_ACTIONS + 8)
      + length (dl_jobs s') * (TASK_ACTIONS + 7) + n'
      + length (dl_results s') * 4 + size (dl_pending s') * 2 + main_rank (dl_main s')
      < (total - dl_next_scheduled s) * (TASK_ACTIONS + 8)
      + length (dl_jobs s) * (TASK_ACTIONS + 7) + n
      + length (dl_results s) * 4 + size (dl_pending s) * 2 + main_rank (dl_main s))%nat) →
  ∃ m', dl_rank s' m' ∧ (m' < m)%nat.
Proof.
  intros (ws & Hws & ->) Hw Hs Hn. destruct (Forall2_lookup_l _ _ _ _ _ Hws Hw) as (n & Hi & Hr).
  destruct (Hn n Hr) as (n' & Hr' & Hlt). eexists. split.
  - exists (<[i := n']> ws). split; [|done]. rewrite Hs. by apply Forall2_insert.
  - pose proof (list_sum_insert ws i n n' Hi). lia.
Qed.

Lemma dl_rank_worker_turn i w s s' m :
  dl_workers s !! i = Some w → dl_worker_turn self action i w s = Some s' →
  dl_rank s m → ∃ m', dl_rank s' m' ∧ (m' < m)%nat.
Proof.
  intros Hw Ht Hr. destruct w as [|index [r|X f k]|index r|]; cbn [dl_worker_turn] in Ht.
  - destruct (dl_jobs s) as [|[index d] rest] eqn:Hj.
    + destruct (dl_jobs_closed s); [|done]. injection Ht as <-.
      eapply worker_rank_step; [done|done|done|]. intros n ->. exists 0%nat. cbn. split; [done|lia].
    + injection Ht as <-. eapply worker_rank_step; [done|done|done|]. intros n ->.
      exists (TASK_ACTIONS + 7)%nat. rewrite Hj. cbn [length]. split; [|cbn; lia].
      exists TASK_ACTIONS. split; [apply read_or_fetch_chunk_bounded|done].
  - injection Ht as <-. eapply worker_rank_step; [done|done|done|]. intros n (k & _ & ->).
    exists 6%nat. cbn. split; [done|lia].
  - destruct (f (dl_client s)) as [x c]. injection Ht as <-.
    eapply worker_rank_step; [done|done|done|]. intros n ([|j] & Hb & ->); cbn in Hb; [done|].
    exists (j + 7)%nat. cbn. split; [eauto|lia].
  - destruct (_ <? _)%nat; [|done]. injection Ht as <-.
    eapply worker_rank_step; [done|done|done|]. intros n ->. exists 1%nat. cbn [worker_rank]. split; [done|].
    cbn. rewrite length_app. cbn. lia.
  - done.
Qed.
Lemma main_rank_step s s' m :
  dl_rank s m → dl_workers s' = dl_workers s →
  ((total - dl_next_scheduled s') * (TASK_ACTIONS + 8)
   + length (dl_jobs s') * (TASK_ACTIONS + 7)
   + length (dl_results s') * 4 + size (dl_pending s') * 2 + main_rank (dl_main s')
   < (total - dl_next_scheduled s) * (TASK_ACTIONS + 8)
   + length (dl_jobs s) * (TASK_ACTIONS + 7)
   + length (dl_results s) * 4 + size (dl_pending s) * 2 + main_rank (dl_main s))%nat →
  ∃ m', dl_rank s' m' ∧ (m' < m)%nat.
Proof.
  intros (ws & Hws & ->) Hw Hlt. eexists. split; [exists ws; split; [by rewrite Hw|done]|]. lia.
Qed.

Lemma dl_rank_abort e s m :
  (1 < main_rank (dl_main s))%nat → dl_rank s m → ∃ m', dl_rank (dl_abort e s) m' ∧ (m' < m)%nat.
Proof.
  intros Hr Hm. eapply main_rank_step; [done|done|]. cbn. rewrite map_size_empty. lia.
Qed.

Lemma dl_rank_schedule d next s s' m :
  (1 < main_rank (dl_main s))%nat → (main_rank next ≤ main_rank (dl_main s))%nat →
  described_at manifest (dl_next_scheduled s) d → dl_schedule self d next s = Some s' →
  dl_rank s m → ∃ m', dl_rank s' m' ∧ (m' < m)%nat.
Proof.
  intros Hr Hn Hd%lookup_lt_Some. unfold dl_schedule.
  destruct (dl_all_exited s); [intros [= <-]; by apply dl_rank_abort|].
  destruct (_ <? _)%nat; [|done]. intros [= <-] Hm. eapply main_rank_step; [done|done|].
  cbn [dl_next_scheduled dl_jobs dl_results dl_pending dl_main]. rewrite length_app. cbn [length].
  replace (total - dl_next_scheduled s)%nat with (S (total - S (dl_next_scheduled s))) by lia. lia.
Qed.

Lemma dl_rank_main_turn s s' m :
  dl_main_turn self manifest s = Some s' → dl_rank s m → ∃ m', dl_rank s' m' ∧ (m' < m)%nat.
Proof.
  intros Ht Hr. unfold dl_main_turn in Ht. destruct (dl_main s) as [| | | |o|o] eqn:Hm.
  - destruct (_ <? _)%nat.
    + destruct (chunks !! dl_next_scheduled s) eqn:Hd.
      * eapply dl_rank_schedule; [| |exact Hd|exact Ht|exact Hr]; rewrite Hm; cbn; lia.
      * injection Ht as <-. eapply main_rank_step; [done|done|]. rewrite Hm. cbn. lia.
    + injection Ht as <-. eapply main_rank_step; [done|done|]. rewrite Hm. cbn. lia.
  - destruct (_ <? _)%nat.
    + destruct (dl_results s) as [|[index [b|e]] rest] eqn:Hres.
      * destruct (dl_all_exited s); [|done]. injection Ht as <-. apply dl_rank_abort; [|done].
        rewrite Hm. cbn. lia.
      * injection Ht as <-. eapply main_rank_step; [done|done|]. rewrite Hm, Hres. cbn.
        rewrite map_size_insert. destruct (dl_pending s !! index); cbn; lia.
      * injection Ht as <-. eapply main_rank_step; [done|done|]. rewrite Hm, Hres. cbn.
        rewrite map_size_empty. lia.
    + injection Ht as <-. eapply main_rank_step; [done|done|]. rewrite Hm. cbn. lia.
  - destruct (dl_pending s !! dl_next_write s) as [b|] eqn:Hb; injection Ht as <-.
    + unfold dl_write. destruct (hd None _).
      * apply dl_rank_abort; [cbn; rewrite Hm; cbn; lia|].
        destruct Hr as (ws & ? & ->). by exists ws.
      * eapply main_rank_step; [done|done|]. rewrite Hm. cbn.
        rewrite map_size_delete, Hb. cbn.
        assert (size (dl_pending s) ≠ 0%nat); [|lia]. intros Hz%map_size_empty_iff.
        by rewrite Hz in Hb.
    + eapply main_rank_step; [done|done|]. rewrite Hm. cbn. lia.
  - destruct (chunks !! dl_next_scheduled s) eqn:Hd.
    + eapply dl_rank_schedule; [| |exact Hd|exact Ht|exact Hr]; rewrite Hm; cbn; lia.
    + injection Ht as <-. eapply main_rank_step; [done|done|]. rewrite Hm. cbn. lia.
  - destruct (dl_all_exited s); [|done]. injection Ht as <-.
    eapply main_rank_step; [done|done|]. rewrite Hm. cbn. lia.
  - done.
Qed.

Lemma dl_path_inv n s s' m :
  (0 < concurrency)%nat → dl_path n s s' → dl_control s → dl_rank s m →
  dl_control s' ∧ ∃ m', dl_rank s' m' ∧ (m' + n ≤ m)%nat.
Proof.
  intros Hconc Hp. revert m.
  induction Hp as [s|n who s s1 s' Ht _ IH|n c s s' _ IH]; intros m Hc Hr.
  - split; [done|]. exists m. split; [done|lia].
  - assert (∃ m1, dl_rank s1 m1 ∧ (m1 < m)%nat) as (m1 & Hr1 & Hlt).
    { destruct who as [i|]; cbn in Ht; [|by eapply dl_rank_main_turn].
      destruct (dl_workers s !! i) eqn:Hw; [|done]. by eapply dl_rank_worker_turn. }
    apply (dl_control_turn _ _ _ Hconc Hc) in Ht.
    destruct (IH m1 Ht Hr1) as (? & m' & ? & ?). split; [done|]. exists m'. split; [done|lia].
  - apply IH; [|done]. done.
Qed.

(** The most turns a download of so many chunks takes. *)
Definition TURNS (chunk_count workers : nat) : nat := chunk_count * (TASK_ACTIONS + 8) + workers + 3.

Lemma dl_rank_start c : dl_rank (dl_start self c) (TURNS total concurrency).
Proof.
  exists (replicate concurrency 1%nat). split.
  - cbn. induction concurrency; cbn; [constructor|by constructor].
  - unfold TURNS, dl_start. cbn [dl_next_scheduled dl_jobs dl_results dl_pending dl_main length].
    rewrite map_size_empty. cbn [main_rank].
    rewrite list_sum_replicate_1.
    lia.
Qed.

End Progress.

(** C24: a download neither hangs nor runs forever, and holds a bounded number
    of chunks.  With at least one worker, whatever the service answers, in any
    order of the threads' actions and with any changes by other processes
    between them: the threads take at most [TURNS] actions; before they have
    all joined one of them can act, so that neither a full nor an empty
    channel ever blocks all of them, error paths included; and the chunks
    scheduled but not yet written are never more than [chunk_concurrency]. *)
Theorem download_completes self action manifest c n s :
  1 ≤ chunk_concurrency self →
  dl_path self action manifest n (dl_start self c) s →
  (n ≤ TURNS (length (om_chunks manifest)) (N.to_nat (chunk_concurrency self)))%nat ∧
  ((∃ outcome, dl_main s = DmJoined outcome) ∨
   ∃ who s', dl_turn self action manifest who s = Some s') ∧
  (length (flight s) + size (dl_pending s) ≤ N.to_nat (chunk_concurrency self))%nat.
Proof.
  intros Hconc Hpath.
  destruct (dl_path_inv self action manifest n _ s _ ltac:(lia) Hpath
              (dl_control_start self manifest c) (dl_rank_start self manifest c))
    as (Hc & m' & _ & Hn).
  split_and!; [lia| |by eapply flight_bound].
  destruct (dl_main s) eqn:Hm; try (right; eapply dl_can_move; [lia|done|congruence]).
  left. by eexists.
Qed.

(** ** Authenticity *)

Lemma download_prepare_holds request c :
  holds anything (λ r _, ∀ action manifest, r = Ok (action, manifest) →
      ObjectManifest_validate manifest = Ok tt ∧ om_object_oid manifest = dr_oid request ∧
      om_object_size manifest = dr_size request)
    (download_prepare request) c.
Proof.
  unfold download_prepare. rewrite leaf_bind. destruct (action_of _) as [action|]; [|done].
  apply send_holds. intros o c0 c1 _ _ _. do 2 (apply or_fail_holds; [done|intros ? _]).
  apply or_fail_holds; [done|]. intros [] Hv. apply map_err_ok in Hv.
  destruct (_ || _) eqn:Hc; [done|]. bool_hyps.
  do 2 (apply file_operation_holds; [done|]; intros ? ? _; apply or_fail_holds; [done|]; intros ? _).
  intros ? _ ? ? [= <- <-]. split_and!; [done| |done]. by apply dec_stable.
Qed.

(** Valid chunks of all descriptors make up as many bytes as are described. *)
Lemma valid_chunks_length ds bs :
  Forall2 (λ d b, valid_chunk b d = true) ds bs → lenN (concat bs) = described ds.
Proof.
  induction 1 as [|d b ds bs Hv _ IH]; [done|]. cbn [concat].
  rewrite lenN_app, IH. unfold described. rewrite sum_by_cons.
  unfold valid_chunk in Hv. bool_hyps. lia.
Qed.

(** What a successful download left. *)
Definition delivered (request : DownloadRequest) (result : DownloadResult) (c : Client) : Prop :=
  dres_bytes_transferred result = dr_size request ∧
  ∃ manifest bs,
    ObjectManifest_validate manifest = Ok tt ∧ om_object_oid manifest = dr_oid request ∧
    Forall2 (λ d b, valid_chunk b d = true) (om_chunks manifest) bs ∧
    c_files c !! dres_path result = Some (concat bs) ∧
    sha256_digest (concat bs) = ObjectOid_inner (dr_oid request) ∧
    lenN (concat bs) = dr_size request.

Lemma downloads_delivered self request c r c' result :
  downloads self request c r c' → r = Ok result → delivered request result c'.
Proof.
  destruct 1 as [e c' _|action manifest c1 s outcome Hprep Hsteps Hmain]; [done|].
  destruct (holds_runs anything (λ _ _, True) _ _ _ _ _ ltac:(done) Hprep
              (download_prepare_holds request c)) as [_ Hok]. clear Hprep. rename Hok into Hprep.
  destruct (Hprep _ _ eq_refl) as (Hv & Hoid & Hsize).
  pose proof (dl_data_steps _ _ _ _ _ (dl_data_start self manifest c1) Hsteps) as Hd.
  unfold download_complete. rewrite leaf_bind. destruct outcome as [[]|]; [|done].
  case_bool_decide as Hsha; [done|].
  unfold keep. unfold file_operation, observe. cbn.
  destruct (hd None _); [done|]. cbn. intros [= <-]. unfold delivered. cbn. split; [done|].
  pose proof (data_outcome _ _ Hd) as Hn. rewrite Hmain in Hn.
  destruct (data_written _ _ Hd) as (bs & Hbs & Ht & Hh & _).
  rewrite Hn, take_ge in Hbs by done. exists manifest, bs.
  split_and!; [done|done|done| | |].
  - rewrite Ht. by rewrite lookup_insert_eq.
  - rewrite Hh in Hsha. apply (dsig_eq (λ b : bytes, length b = DIGEST_BYTES)). exact Hsha.
  - rewrite (valid_chunks_length _ _ Hbs), <- Hsize. apply validate_iff in Hv. apply Hv.
Qed.

(** C20: a download that succeeds left the requested object.  Whatever the
    service answers, however the threads and other processes interleave, and
    whatever the chunk cache holds, the file that is handed to Git LFS has the
    SHA-256 identity and the size of the request, and it is the concatenation,
    in order, of chunks that match the descriptors of the validated manifest. *)
Theorem client_download_authentic self request c r c' result :
  downloads self request c r c' → r = Ok result →
  delivered request result c'.
Proof. apply downloads_delivered. Qed.

End Downloads.
