(* ===== verification/ClientUploads.v ===== *)
(** * ClientUploads: [HttpBackend::upload] with its worker threads

    The main thread reads the file a second time and hands every missing chunk
    to a bounded channel; [chunk_concurrency] workers upload them and report
    the first error each on an unbounded channel.  [ul_turn] is one atomic
    action of one thread.  Other processes may change the world between any
    two turns, but not the requests this process has made. *)
From S2P Require Import Prelude Digest Manifest Stream Protocol Text Agent Tree Backend.
From stdpp Require Import relations.
#[local] Open Scope N_scope.

Section ClientUploads.
  Context {Srv : Type} {url_lib : UrlLib} {http : Http Srv} {lib : ClientLib}
          {hex : HexCodec} {hashes : Hashes} {uuid_text : UuidText} {fastcdc : FastCdc}.
  Local Abbreviation Client := (Client Srv).
  Local Abbreviation Task A := (tree Client BackendError A).

(** ** Before the threads start *)

(** What the threads work with. *)
Record Plan := mkPlan {
  pl_action : TransferAction;
  pl_begin : BeginUploadRequest;
  pl_response : BeginUploadResponse;
  pl_source : Reader;
  pl_missing : gset N;
}.

Definition upload_prepare (request : UploadRequest) : Task Plan :=
  let! action := leaf (action_of (up_action request)) in
  let! opened := file_open (up_path request) in
  let! file := or_fail "could not open upload source: " opened in
  let! manifest := leaf (map_err (λ e, failure (CoreError_display e))
                     (ChunkStream_finish (ChunkStream_new file ChunkingProfile_beta_v1))) in
  if bool_decide (om_object_oid manifest ≠ up_oid request)
     || negb (om_object_size manifest =? up_size request)
  then throw (failure "upload source does not match the Git LFS OID and size")
  else
    let begin := {| bu_protocol_version := 1; bu_manifest := manifest |} in
    let! plan := begin_upload action begin in
    if negb (bur_protocol_version plan =? 1)
    then throw (failure "server selected an unsupported CDC protocol version")
    else if existsb (λ index, lenN (om_chunks manifest) <=? index) (bur_missing_chunk_indexes plan)
    then throw (failure "server upload plan contains a chunk index outside the manifest")
    else
      let! reopened := file_open (up_path request) in
      let! file := or_fail "could not reopen upload source: " reopened in
      let missing : gset N := list_to_set (bur_missing_chunk_indexes plan) in
      if bool_decide (size missing ≠ length (bur_missing_chunk_indexes plan))
      then throw (failure "server upload plan contains duplicate chunk indexes")
      else mret (mkPlan action begin plan file missing).

(** ** The threads *)

Inductive UlWorker :=
| UwWaiting
| UwUploading (index : N) (data : bytes) (task : Task unit)
| UwExited.

Inductive UlMain :=
| UmReading
| UmSending (index : N) (data : bytes)
| UmPolling
| UmJoining (producer_error : option BackendError)
| UmJoined (producer_error : option BackendError).

Record Upload := mkUpload {
  ul_client : Client;
  ul_jobs : list (N * bytes);
  ul_failures : list BackendError;
  ul_workers : list UlWorker;
  ul_main : UlMain;
  ul_stream : ChunkStream;
  ul_position : N;
}.

Section Scope.
  Context (self : HttpBackend) (plan : Plan).
  Local Abbreviation concurrency := (N.to_nat (chunk_concurrency self)).

Definition ul_start (c : Client) : Upload :=
  mkUpload c [] [] (replicate concurrency UwWaiting) UmReading
    (ChunkStream_new (pl_source plan) ChunkingProfile_beta_v1) 0.

Definition ul_with_client (c : Client) (s : Upload) : Upload :=
  mkUpload c (ul_jobs s) (ul_failures s) (ul_workers s) (ul_main s) (ul_stream s) (ul_position s).
Definition ul_with_main (m : UlMain) (s : Upload) : Upload :=
  mkUpload (ul_client s) (ul_jobs s) (ul_failures s) (ul_workers s) m (ul_stream s) (ul_position s).
Definition ul_with_worker (i : nat) (w : UlWorker) (s : Upload) : Upload :=
  mkUpload (ul_client s) (ul_jobs s) (ul_failures s) (<[i := w]> (ul_workers s)) (ul_main s)
    (ul_stream s) (ul_position s).
Definition ul_with_failures (fs : list BackendError) (s : Upload) : Upload :=
  mkUpload (ul_client s) (ul_jobs s) fs (ul_workers s) (ul_main s) (ul_stream s) (ul_position s).
Definition ul_with_jobs (jobs : list (N * bytes)) (s : Upload) : Upload :=
  mkUpload (ul_client s) jobs (ul_failures s) (ul_workers s) (ul_main s) (ul_stream s) (ul_position s).

Definition uw_exited (w : UlWorker) : bool := match w with UwExited => true | _ => false end.
Definition ul_all_exited (s : Upload) : bool := forallb uw_exited (ul_workers s).
Definition ul_jobs_closed (s : Upload) : bool :=
  match ul_main s with UmJoining _ | UmJoined _ => true | _ => false end.

(** [for (index, chunk) in stream.by_ref().enumerate()], up to [jobs.send]. *)
Definition ul_read (s : Upload) : Upload :=
  let '(item, stream) := ChunkStream_next (ul_stream s) in
  let next m := mkUpload (ul_client s) (ul_jobs s) (ul_failures s) (ul_workers s) m stream
                  (ul_position s + 1) in
  match item with
  | None => ul_with_main (UmJoining None) s
  | Some (Err e) => next (UmJoining (Some (failure (CoreError_display e))))
  | Some (Ok chunk) =>
      match u32_try_from (ul_position s) with
      | None => next (UmJoining (Some (failure "object has too many chunks")))
      | Some index =>
          if bool_decide (index ∈ pl_missing plan)
          then next (UmSending index (ch_data chunk)) else next UmPolling
      end
  end.

(** One action of the main thread; [None] when it is blocked or done. *)
Definition ul_main_turn (s : Upload) : option Upload :=
  match ul_main s with
  | UmReading => Some (ul_read s)
  | UmSending index data =>
      if ul_all_exited s
      then Some (ul_with_main (UmJoining (Some (failure "chunk upload worker stopped"))) s)
      else if (length (ul_jobs s) <? concurrency)%nat
      then Some (ul_with_main UmPolling (ul_with_jobs (ul_jobs s ++ [(index, data)]) s))
      else None
  | UmPolling =>
      match ul_failures s with
      | error :: rest => Some (ul_with_main (UmJoining (Some error)) (ul_with_failures rest s))
      | [] => Some (ul_with_main UmReading s)
      end
  | UmJoining error => if ul_all_exited s then Some (ul_with_main (UmJoined error) s) else None
  | UmJoined _ => None
  end.

(** One action of a worker. *)
Definition ul_worker_turn (i : nat) (w : UlWorker) (s : Upload) : option Upload :=
  match w with
  | UwWaiting =>
      match ul_jobs s with
      | (index, data) :: rest =>
          Some (ul_with_worker i
                  (UwUploading index data
                     (upload_chunk_with_retry (pl_action plan) (bur_upload_id (pl_response plan))
                        index data))
                  (ul_with_jobs rest s))
      | [] => if ul_jobs_closed s then Some (ul_with_worker i UwExited s) else None
      end
  | UwUploading index data (Leaf (Ok _)) => Some (ul_with_worker i UwWaiting s)
  | UwUploading index data (Leaf (Err error)) =>
      Some (ul_with_worker i UwExited (ul_with_failures (ul_failures s ++ [error]) s))
  | UwUploading index data (Node f k) =>
      let '(x, c) := f (ul_client s) in
      Some (ul_with_worker i (UwUploading index data (k x)) (ul_with_client c s))
  | UwExited => None
  end.

Definition ul_turn (who : option nat) (s : Upload) : option Upload :=
  match who with
  | None => ul_main_turn s
  | Some i => match ul_workers s !! i with Some w => ul_worker_turn i w s | None => None end
  end.

(** What other processes may do to the world: anything but this process's own
    history. *)
Definition others (c c' : Client) : Prop := c_log c' = c_log c.

(** Paths by the number of turns. *)
Inductive ul_path : nat → Upload → Upload → Prop :=
| ul_path_nil s : ul_path 0 s s
| ul_path_turn n who s s1 s' : ul_turn who s = Some s1 → ul_path n s1 s' → ul_path (S n) s s'
| ul_path_others n c s s' :
    others (ul_client s) c → ul_path n (ul_with_client c s) s' → ul_path n s s'.

End Scope.

(** ** After the threads *)

(** [producer_error.or_else(|| errors.try_recv().ok())]. *)
Definition upload_error (producer_error : option BackendError) (s : Upload) : option BackendError :=
  match producer_error with Some e => Some e | None => hd_error (ul_failures s) end.

Definition upload_complete (request : UploadRequest) (plan : Plan)
    (producer_error : option BackendError) (s : Upload) : Task N :=
  match upload_error producer_error s with
  | Some error => throw error
  | None =>
      let! _ := finalize_upload (pl_action plan) (bur_upload_id (pl_response plan)) in
      mret (up_size request)
  end.

(** A run of [upload]. *)
Inductive uploads (self : HttpBackend) (request : UploadRequest) (c : Client)
  : result BackendError N → Client → Prop :=
| uploads_refused e c' :
    runs others (upload_prepare request) c (Err e) c' → uploads self request c (Err e) c'
| uploads_joined plan c1 n s producer_error r c' :
    runs others (upload_prepare request) c (Ok plan) c1 →
    ul_path self plan n (ul_start self plan c1) s →
    ul_main s = UmJoined producer_error →
    runs others (upload_complete request plan producer_error s) (ul_client s) r c' →
    uploads self request c r c'.

(** ** What a state holds *)

Section Invariant.
  Context (self : HttpBackend) (plan : Plan).
  Local Abbreviation concurrency := (N.to_nat (chunk_concurrency self)).
  Local Abbreviation ul_turn := (ul_turn self plan).
  Local Abbreviation ul_path := (ul_path self plan).

Definition chunk_accepted (index : N) (data : bytes) (log : list (Exchange (url_lib:=url_lib))) : Prop :=
  accepted (pl_action plan) (bur_upload_id (pl_response plan)) index data log.

(** An error was reported, and will be returned. *)
Definition trouble (s : Upload) : Prop :=
  ul_failures s ≠ [] ∨
  match ul_main s with UmJoining (Some _) | UmJoined (Some _) => True | _ => False end.

(** A missing chunk that was read is queued, or on its way, or accepted. *)
Definition handled (s : Upload) (index : N) (data : bytes) : Prop :=
  (index, data) ∈ ul_jobs s ∨ (∃ task, UwUploading index data task ∈ ul_workers s) ∨
  ul_main s = UmSending index data ∨ chunk_accepted index data (c_log (ul_client s)).

Definition task_ok (c : Client) (w : UlWorker) : Prop :=
  match w with
  | UwUploading index data task =>
      holds log_grows (λ r c', is_ok r = true → chunk_accepted index data (c_log c')) task c
  | UwWaiting | UwExited => True
  end.

Record ul_good (s : Upload) : Prop := {
  good_failures : ul_failures s = [];
  good_stream : ∃ ys, yields (ChunkStream_new (pl_source plan) ChunkingProfile_beta_v1) ys (ul_stream s) ∧
    ul_position s = lenN ys ∧
    ∀ k ch, ys !! k = Some ch → N.of_nat k ∈ pl_missing plan → handled s (N.of_nat k) (ch_data ch);
  good_tasks : Forall (task_ok (ul_client s)) (ul_workers s);
  good_exited : UwExited ∈ ul_workers s → ul_jobs s = [] ∧ ul_jobs_closed s = true;
  good_main : match ul_main s with
              | UmJoining None => (ChunkStream_next (ul_stream s)).1 = None
              | UmJoined None => (ChunkStream_next (ul_stream s)).1 = None ∧ ul_all_exited s = true
              | UmJoining (Some _) | UmJoined (Some _) => False
              | _ => True
              end;
}.
Definition ul_invariant (s : Upload) : Prop := trouble s ∨ ul_good s.

Lemma ul_start_good c : ul_good (ul_start self plan c).
Proof.
  split; cbn; [done| | | |done].
  - exists []. split_and!; [constructor|done|done].
  - by apply Forall_replicate.
  - intros [? _]%elem_of_replicate. done.
Qed.

Lemma handled_mono s s' index data :
  handled s index data →
  ((index, data) ∈ ul_jobs s → handled s' index data) →
  (∀ task, UwUploading index data task ∈ ul_workers s → handled s' index data) →
  (ul_main s = UmSending index data → handled s' index data) →
  log_grows (ul_client s) (ul_client s') → handled s' index data.
Proof.
  intros [?|[[t ?]|[?|(u & ? & ?)]]] H1 H2 H3 H4; [by auto|by eauto|by auto|].
  right; right; right. exists u. split; [done|]. by eapply succeeded_grows.
Qed.

Lemma task_ok_grows c c' w : log_grows c c' → task_ok c w → task_ok c' w.
Proof. intros Hc. destruct w; cbn; try done. by apply (holds_interfere log_grows). Qed.

Lemma trouble_turn who s s' : trouble s → ul_turn who s = Some s' → trouble s'.
Proof.
  intros Ht. destruct who as [i|]; cbn.
  - destruct (ul_workers s !! i) as [w|]; [|done]. destruct w as [|index data [[[]|e]|X f k]|]; cbn.
    + destruct (ul_jobs s) as [|[index data] rest].
      * destruct (ul_jobs_closed s); [|done]. by intros [= <-].
      * by intros [= <-].
    + by intros [= <-].
    + intros [= <-]. left. cbn. by destruct (ul_failures s).
    + destruct (f (ul_client s)). by intros [= <-].
    + done.
  - unfold ul_main_turn. destruct Ht as [Ht|Ht].
    + destruct (ul_main s) as [|index data| |o|o].
      * intros [= <-]. left. unfold ul_read. destruct (ChunkStream_next _) as [[[chunk|e]|] st]; cbn;
          [|done|done]. destruct (u32_try_from _); [|done]. by destruct (bool_decide _).
      * destruct (ul_all_exited s); [intros [= <-]; by left|].
        destruct (_ <? _)%nat; [|done]. intros [= <-]. by left.
      * destruct (ul_failures s); [done|]. intros [= <-]. by right.
      * destruct (ul_all_exited s); [|done]. intros [= <-]. by left.
      * done.
    + unfold trouble. destruct (ul_main s) as [| | |[e|]|[e|]]; try done.
      destruct (ul_all_exited s); [|done]. intros [= <-]. by right.
Qed.

(** A worker's turn, with no error to report. *)
Lemma good_worker_turn i w s s' :
  ul_good s → ul_workers s !! i = Some w → ul_worker_turn plan i w s = Some s' → ul_invariant s'.
Proof.
  intros [Hf (ys & Hys & Hpos & Hh) Ht He Hm] Hw Hturn.
  pose proof (list_elem_of_lookup_2 _ _ _ Hw) as Hin.
  assert (Hrest : ∀ c' w', log_grows (ul_client s) c' → task_ok c' w' →
            Forall (task_ok c') (<[i := w']> (ul_workers s))).
  { intros c' w' Hc Hw'. apply Forall_insert; [|done].
    eapply Forall_impl; [exact Ht|]. intros v. by apply task_ok_grows. }
  assert (Hother : ∀ index data task, UwUploading index data task ∈ ul_workers s →
            w ≠ UwUploading index data task → ∀ w', UwUploading index data task ∈ <[i := w']> (ul_workers s)).
  { intros index data task [j Hj]%list_elem_of_lookup Hne w'. apply list_elem_of_lookup. exists j.
    rewrite list_lookup_insert_ne; [done|]. intros ->. congruence. }
  assert (Hlive : ∀ w', w' ≠ UwExited → UwExited ∈ <[i := w']> (ul_workers s) → UwExited ∈ ul_workers s).
  { intros w' Hne [j Hj]%list_elem_of_lookup. apply list_lookup_insert_Some in Hj as [(<- & ? & _)|[_ Hj]];
      [done|]. apply list_elem_of_lookup. eauto. }
  assert (Hjoin : (∃ o, ul_main s = UmJoined o) → w = UwExited).
  { intros [o Ho]. rewrite Ho in Hm. destruct o; [done|]. destruct Hm as [_ Hall].
    unfold ul_all_exited in Hall. rewrite forallb_forall in Hall.
    apply list_elem_of_In, Hall in Hin. by destruct w. }
  assert (Hmain : w ≠ UwExited → match ul_main s with
              | UmJoining None => (ChunkStream_next (ul_stream s)).1 = None
              | UmJoined _ | UmJoining (Some _) => False
              | _ => True
              end).
  { intros Hne. destruct (ul_main s) as [| | |[]|o]; try done. apply Hne, Hjoin. by exists o. }
  pose proof (Forall_lookup_1 _ _ _ _ Ht Hw) as Hok.
  destruct w as [|index data [[[]|e]|X f k]|]; cbn [ul_worker_turn] in Hturn; [| | | |done].
  - specialize (Hmain ltac:(done)). destruct (ul_jobs s) as [|[index data] rest] eqn:Hj.
    + destruct (ul_jobs_closed s) eqn:Hcl; [|done]. injection Hturn as <-. right.
      split; [done| |by apply Hrest| |].
      * exists ys. split_and!; [done|done|]. intros k ch Hk Hmiss.
        apply (handled_mono s); [by apply Hh| | | |done]; unfold handled; cbn; [by auto| |by auto].
        intros task Htask. right; left. exists task. by apply Hother.
      * done.
      * unfold ul_with_worker. cbn. by destruct (ul_main s) as [| | |[]|].
    + injection Hturn as <-. right. split; [done| | | |].
      * exists ys. split_and!; [done|done|]. intros k ch Hk Hmiss.
        apply (handled_mono s); [by apply Hh| | | |done]; unfold handled; cbn; [|  |by auto].
        -- rewrite Hj. intros [[= -> ->]|?]%elem_of_cons; [|by auto]. right; left. eexists.
           apply list_elem_of_lookup. exists i. apply list_lookup_insert_eq. by eapply lookup_lt_Some.
        -- intros task Htask. right; left. exists task. by apply Hother.
      * cbn. apply Hrest; [done|]. apply upload_chunk_holds.
      * cbn. intros [? _]%Hlive%He; [done|done].
      * cbn. by destruct (ul_main s) as [| | |[]|].
  - specialize (Hmain ltac:(done)). injection Hturn as <-. right. split; [done| |by apply Hrest| |].
    + exists ys. split_and!; [done|done|]. intros k ch Hk Hmiss.
      apply (handled_mono s); [by apply Hh| | | |done]; unfold handled; cbn; [by auto| |by auto].
      intros task Htask. destruct (decide (index = N.of_nat k ∧ data = ch_data ch)) as [[-> ->]|Hne].
      * right; right; right. by apply (Hok (ul_client s)).
      * right; left. exists task. apply Hother; [done|]. intros Heq. apply Hne. by injection Heq as ? ? _.
    + cbn. intros Hx%Hlive; [by apply He|done].
    + cbn. by destruct (ul_main s) as [| | |[]|].
  - injection Hturn as <-. left. left. cbn. by destruct (ul_failures s).
  - specialize (Hmain ltac:(done)). cbn in Hok.
    destruct (Hok (ul_client s)) as [Hgrow Hk]; [done|].
    destruct (f (ul_client s)) as [x c]. injection Hturn as <-. right.
    split; [done| |by apply Hrest| |].
    + exists ys. split_and!; [done|done|]. intros k0 ch Hk0 Hmiss.
      apply (handled_mono s); [by apply Hh| | | |done]; unfold handled; cbn; [by auto| |by auto].
      intros task Htask. right; left.
      destruct (decide (index = N.of_nat k0 ∧ data = ch_data ch)) as [[-> ->]|Hne].
      * exists (k x). apply list_elem_of_lookup. exists i. apply list_lookup_insert_eq.
        by eapply lookup_lt_Some.
      * exists task. apply Hother; [done|]. intros Heq. apply Hne. by injection Heq as ? ? _.
    + cbn. intros Hx%Hlive; [by apply He|done].
    + cbn. by destruct (ul_main s) as [| | |[]|].
Qed.

(** A turn of the main thread, with no error to report. *)
Lemma good_main_turn s s' : ul_good s → ul_main_turn self plan s = Some s' → ul_invariant s'.
Proof.
  intros [Hf (ys & Hys & Hpos & Hh) Ht He Hm]. unfold ul_main_turn, ul_jobs_closed in *.
  destruct (ul_main s) as [|index data| |o|o] eqn:Hmain.
  - intros [= <-]. unfold ul_read.
    destruct (ChunkStream_next (ul_stream s)) as [[[chunk|e]|] st] eqn:Hn.
    + assert (Hpos' : N.to_nat (ul_position s) = length ys) by (rewrite Hpos; unfold lenN; lia).
      destruct (u32_try_from (ul_position s)) as [index|] eqn:Hu; [|left; by right].
      assert (index = ul_position s) as -> by
        (unfold u32_try_from in Hu; destruct (_ <=? _); congruence).
      assert (Hnew : ∀ m,
        match m with
        | UmSending i d => i = ul_position s ∧ d = ch_data chunk
        | UmPolling => ul_position s ∉ pl_missing plan
        | _ => False
        end →
        ul_invariant (mkUpload (ul_client s) (ul_jobs s) (ul_failures s) (ul_workers s) m st
                        (ul_position s + 1))).
      { intros m Hnew. right. split; cbn; [done| |done| |by destruct m].
        - exists (ys ++ [chunk]). split_and!; [by econstructor| |].
          + rewrite Hpos, lenN_app. done.
          + intros k ch Hk Hmiss. apply lookup_app_Some in Hk as [Hk|[Hge Hk]].
            * apply (handled_mono s); [by apply Hh|unfold handled; cbn; by eauto..| |done].
              intros Hs. by rewrite Hmain in Hs.
            * apply list_lookup_singleton_Some in Hk as [Hk <-].
              assert (N.of_nat k = ul_position s) as Heq by (rewrite Hpos; unfold lenN; lia).
              rewrite Heq in *. destruct m; try done. destruct Hnew as [-> ->].
              unfold handled. cbn. auto.
        - intros [_ ?]%He. done. }
      case_bool_decide; by apply Hnew.
    + left. by right.
    + right. split; cbn; [done| |done| |by rewrite Hn].
      * exists ys. split_and!; [done|done|]. intros k ch Hk Hmiss.
        apply (handled_mono s); [by apply Hh|unfold handled; cbn; by eauto..| |done].
        intros Hs. by rewrite Hmain in Hs.
      * intros [_ ?]%He. done.
  - destruct (ul_all_exited s); [intros [= <-]; left; by right|].
    destruct (_ <? _)%nat; [|done]. intros [= <-]. right. split; cbn; [done| |done| |done].
    + exists ys. split_and!; [done|done|]. intros k ch Hk Hmiss.
      apply (handled_mono s); [by apply Hh| | | |done]; unfold handled; cbn.
      * intros ?. left. set_solver.
      * by eauto.
      * rewrite Hmain. intros [= -> ->]. left. set_solver.
    + intros [_ ?]%He. done.
  - rewrite Hf. intros [= <-]. right. split; cbn; [done| |done| |done].
    + exists ys. split_and!; [done|done|]. intros k ch Hk Hmiss.
      apply (handled_mono s); [by apply Hh|unfold handled; cbn; by eauto..| |done].
      intros Hs. by rewrite Hmain in Hs.
    + intros [_ ?]%He. done.
  - destruct o; [done|]. destruct (ul_all_exited s) eqn:Hall; [|done]. intros [= <-].
    right. split; cbn; [done| |done| |done].
    + exists ys. split_and!; [done|done|]. intros k ch Hk Hmiss.
      apply (handled_mono s); [by apply Hh|unfold handled; cbn; by eauto..| |done].
      intros Hs. by rewrite Hmain in Hs.
    + intros Hx%He. done.
  - done.
Qed.

Lemma ul_invariant_turn who s s' : ul_invariant s → ul_turn who s = Some s' → ul_invariant s'.
Proof.
  intros [Ht|Hg] Hturn; [left; by eapply trouble_turn|].
  destruct who as [i|]; cbn in Hturn; [|by eapply good_main_turn].
  destruct (ul_workers s !! i) eqn:Hw; [|done]. by eapply good_worker_turn.
Qed.

Lemma ul_invariant_others c s :
  others (ul_client s) c → ul_invariant s → ul_invariant (ul_with_client c s).
Proof.
  intros Ho [Ht|[Hf (ys & Hys & Hpos & Hh) Ht He Hm]]; [by left|right].
  assert (Hg : log_grows (ul_client s) c) by (exists []; by rewrite Ho, app_nil_r).
  split; cbn; [done| | |done|done].
  - exists ys. split_and!; [done|done|]. intros k ch Hk Hmiss.
    apply (handled_mono s); [by apply Hh|unfold handled; cbn; by eauto..|done].
  - eapply Forall_impl; [exact Ht|]. intros v. by apply task_ok_grows.
Qed.

Lemma ul_invariant_path n s s' : ul_path n s s' → ul_invariant s → ul_invariant s'.
Proof.
  induction 1 as [s|n who s s1 s' Ht _ IH|n c s s' Ho _ IH]; intros H; [done| |].
  - by eapply IH, ul_invariant_turn.
  - by apply IH, ul_invariant_others.
Qed.

(** When the threads have joined and no error is found, every missing chunk of
    the second reading has been accepted. *)
Lemma ul_joined_accepted s producer_error :
  (0 < length (ul_workers s))%nat → ul_invariant s → ul_main s = UmJoined producer_error →
  upload_error producer_error s = None →
  ∃ ys st, ChunkStream_drain (ChunkStream_new (pl_source plan) ChunkingProfile_beta_v1) = Ok (ys, st) ∧
    ∀ k ch, ys !! k = Some ch → N.of_nat k ∈ pl_missing plan →
      chunk_accepted (N.of_nat k) (ch_data ch) (c_log (ul_client s)).
Proof.
  intros Hlen Hinv Hm He. unfold upload_error in He. destruct producer_error as [|]; [done|].
  destruct Hinv as [[Hf|Hj]|[Hf (ys & Hys & Hpos & Hh) Ht Hex Hmain]].
  { by destruct (ul_failures s). }
  { by rewrite Hm in Hj. }
  rewrite Hm in Hmain. destruct Hmain as [Hnext Hall].
  unfold ul_all_exited in Hall. rewrite forallb_forall in Hall.
  assert (Hworkers : ∀ w, w ∈ ul_workers s → w = UwExited).
  { intros w Hw%list_elem_of_In%Hall. by destruct w. }
  destruct Hex as [Hjobs _].
  { destruct (ul_workers s) as [|w ws]; cbn in Hlen; [lia|].
    rewrite <- (Hworkers w); set_solver. }
  exists ys, (ul_stream s). split.
  - rewrite (yields_drain _ _ _ Hys), (drain_unfold (ul_stream s)).
    destruct (ChunkStream_next (ul_stream s)) as [item st] eqn:Hn. cbn in Hnext. subst item.
    assert (st = ul_stream s) as ->.
    { unfold ChunkStream_next in Hn. destruct (cs_inner (ul_stream s)); [congruence|].
      by destruct (ChunkStream_accept _ _) as [[]|]. }
    cbn. by rewrite app_nil_r.
  - intros k ch Hk Hmiss. destruct (Hh k ch Hk Hmiss) as [Hj|[[t Hw]|[Hs|Hacc]]]; [|  | |done].
    + rewrite Hjobs in Hj. set_solver.
    + by apply Hworkers in Hw.
    + by rewrite Hm in Hs.
Qed.

(** ** No deadlock, no endless run *)

Definition ul_control (s : Upload) : Prop := length (ul_workers s) = concurrency.

Lemma ul_control_turn who s s' : ul_control s → ul_turn who s = Some s' → ul_control s'.
Proof.
  intros Hc. destruct who as [i|]; cbn.
  - destruct (ul_workers s !! i) as [[|index data [[[]|e]|X f k]|]|]; cbn; [| | | |done|done].
    + destruct (ul_jobs s) as [|[]]; [destruct (ul_jobs_closed s); [|done]|];
        intros [= <-]; unfold ul_control; cbn; by rewrite length_insert.
    + intros [= <-]. unfold ul_control. cbn. by rewrite length_insert.
    + intros [= <-]. unfold ul_control. cbn. by rewrite length_insert.
    + destruct (f _). intros [= <-]. unfold ul_control. cbn. by rewrite length_insert.
  - unfold ul_main_turn. destruct (ul_main s) as [|i d| |o|o].
    + intros [= <-]. unfold ul_read. destruct (ChunkStream_next _) as [[[ch|e]|] st]; [|done..].
      destruct (u32_try_from _); [|done]. by case_bool_decide.
    + destruct (ul_all_exited s); [by intros [= <-]|]. destruct (_ <? _)%nat; [|done]. by intros [= <-].
    + destruct (ul_failures s); by intros [= <-].
    + destruct (ul_all_exited s); [|done]. by intros [= <-].
    + done.
Qed.

Lemma ul_can_move s :
  (0 < concurrency)%nat → (∀ o, ul_main s ≠ UmJoined o) → ∃ who s', ul_turn who s = Some s'.
Proof.
  intros Hconc Hj.
  assert (Hworker : (ul_jobs s ≠ [] ∨ ul_jobs_closed s = true) →
            ul_all_exited s = false → ∃ who s', ul_turn who s = Some s').
  { intros Hjobs Hex. unfold ul_all_exited in Hex.
    assert (∃ i w, ul_workers s !! i = Some w ∧ w ≠ UwExited) as (i & w & Hi & Hne).
    { induction (ul_workers s) as [|w ws IH]; [done|]. cbn in Hex.
      destruct (uw_exited w) eqn:Hw; [|by exists 0%nat, w; destruct w].
      destruct (IH Hex) as (i & v & ? & ?). by exists (S i), v. }
    exists (Some i). cbn. rewrite Hi. destruct w as [|index data [[[]|e]|X f k]|]; cbn; [|by eexists..| |done].
    - destruct (ul_jobs s) as [|[]]; [|by eexists].
      destruct Hjobs as [?|Hjobs]; [done|]. rewrite Hjobs. by eexists.
    - destruct (f _). by eexists. }
  assert (Hmain : ∀ s', ul_main_turn self plan s = Some s' → ∃ who s', ul_turn who s = Some s').
  { intros s' Hs. by exists None, s'. }
  unfold ul_main_turn in Hmain. unfold ul_jobs_closed in Hworker.
  destruct (ul_main s) as [|i d| |o|o] eqn:Hm; [exact (Hmain _ eq_refl)| | | |by destruct (Hj o)].
  - destruct (ul_all_exited s); [exact (Hmain _ eq_refl)|].
    destruct (Nat.ltb_spec (length (ul_jobs s)) concurrency); [exact (Hmain _ eq_refl)|].
    apply Hworker; [|done]. left. intros Hn. rewrite Hn in *. cbn in *. lia.
  - destruct (ul_failures s); exact (Hmain _ eq_refl).
  - destruct (ul_all_exited s); [exact (Hmain _ eq_refl)|]. apply Hworker; [by right|done].
Qed.

Definition uw_rank (w : UlWorker) (n : nat) : Prop :=
  match w with
  | UwWaiting => n = 1%nat
  | UwUploading _ _ task => ∃ k, bounded k task ∧ n = (k + 2)%nat
  | UwExited => n = 0%nat
  end.
Definition um_rank (m : UlMain) : nat :=
  match m with
  | UmReading => 2 | UmSending _ _ => TASK_ACTIONS + 6 | UmPolling => 3
  | UmJoining _ => 1 | UmJoined _ => 0
  end.
Definition ul_weight (s : Upload) : nat :=
  length (cs_inner (ul_stream s)) * (TASK_ACTIONS + 5) + length (ul_jobs s) * (TASK_ACTIONS + 2)
  + um_rank (ul_main s).
Definition ul_rank (s : Upload) (m : nat) : Prop :=
  ∃ ws, Forall2 uw_rank (ul_workers s) ws ∧ m = (ul_weight s + list_sum ws)%nat.

Lemma ul_rank_worker s s' i w w' m :
  ul_rank s m → ul_workers s !! i = Some w → ul_workers s' = <[i := w']> (ul_workers s) →
  (∀ n, uw_rank w n → ∃ n', uw_rank w' n' ∧ (ul_weight s' + n' < ul_weight s + n)%nat) →
  ∃ m', ul_rank s' m' ∧ (m' < m)%nat.
Proof.
  intros (ws & Hws & ->) Hw Hs Hn. destruct (Forall2_lookup_l _ _ _ _ _ Hws Hw) as (n & Hi & Hr).
  destruct (Hn n Hr) as (n' & Hr' & Hlt). eexists. split.
  - exists (<[i := n']> ws). split; [|done]. rewrite Hs. by apply Forall2_insert.
  - pose proof (list_sum_insert ws i n n' Hi). lia.
Qed.

Lemma ul_rank_main s s' m :
  ul_rank s m → ul_workers s' = ul_workers s → (ul_weight s' < ul_weight s)%nat →
  ∃ m', ul_rank s' m' ∧ (m' < m)%nat.
Proof.
  intros (ws & Hws & ->) Hw Hlt. eexists. split; [exists ws; split; [by rewrite Hw|done]|]. lia.
Qed.

Lemma ul_rank_turn who s s' m :
  ul_turn who s = Some s' → ul_rank s m → ∃ m', ul_rank s' m' ∧ (m' < m)%nat.
Proof.
  intros Ht Hr. destruct who as [i|]; cbn in Ht.
  - destruct (ul_workers s !! i) as [[|index data [[[]|e]|X f k]|]|] eqn:Hw; cbn in Ht; [| | | |done|done].
    + destruct (ul_jobs s) as [|[index data] rest] eqn:Hj.
      * destruct (ul_jobs_closed s); [|done]. injection Ht as <-.
        eapply ul_rank_worker; [done|done|done|]. intros n ->. exists 0%nat.
        split; [done|]. unfold ul_weight. cbn. lia.
      * injection Ht as <-. eapply ul_rank_worker; [done|done|done|]. intros n ->.
        exists (TASK_ACTIONS + 2)%nat. split.
        -- exists TASK_ACTIONS. split; [apply upload_chunk_bounded|done].
        -- unfold ul_weight. cbn [ul_stream ul_jobs ul_main ul_with_worker ul_with_jobs].
           rewrite Hj. cbn [length]. lia.
    + injection Ht as <-. eapply ul_rank_worker; [done|done|done|]. intros n (k & _ & ->).
      exists 1%nat. split; [done|]. unfold ul_weight. cbn. lia.
    + injection Ht as <-. eapply ul_rank_worker; [done|done|done|]. intros n (k & _ & ->).
      exists 0%nat. split; [done|]. unfold ul_weight. cbn. lia.
    + destruct (f (ul_client s)) as [x c]. injection Ht as <-.
      eapply ul_rank_worker; [done|done|done|]. intros n ([|j] & Hb & ->); cbn in Hb; [done|].
      exists (j + 2)%nat. split; [by exists j|]. unfold ul_weight. cbn. lia.
  - unfold ul_main_turn in Ht. destruct (ul_main s) as [|i d| |o|o] eqn:Hm.
    + injection Ht as <-. unfold ul_read.
      destruct (ChunkStream_next (ul_stream s)) as [[item|] st] eqn:Hn.
      * apply next_inner in Hn. destruct item as [ch|e]; [destruct (u32_try_from _); [case_bool_decide|]|];
          (eapply ul_rank_main; [done|done|]; unfold ul_weight; cbn [ul_stream ul_jobs ul_main];
           rewrite Hm, Hn; cbn [um_rank]; lia).
      * eapply ul_rank_main; [done|done|]. unfold ul_weight. cbn. rewrite Hm. cbn. lia.
    + destruct (ul_all_exited s).
      * injection Ht as <-. eapply ul_rank_main; [done|done|]. unfold ul_weight. cbn. rewrite Hm. cbn. lia.
      * destruct (_ <? _)%nat; [|done]. injection Ht as <-. eapply ul_rank_main; [done|done|].
        unfold ul_weight. cbn [ul_stream ul_jobs ul_main ul_with_main ul_with_jobs]. rewrite Hm, length_app.
        cbn [length um_rank]. lia.
    + destruct (ul_failures s); injection Ht as <-; (eapply ul_rank_main; [done|done|]);
        unfold ul_weight; cbn; rewrite Hm; cbn; lia.
    + destruct (ul_all_exited s); [|done]. injection Ht as <-. eapply ul_rank_main; [done|done|].
      unfold ul_weight. cbn. rewrite Hm. cbn. lia.
    + done.
Qed.

Lemma ul_path_inv n s s' m :
  ul_path n s s' → ul_control s → ul_rank s m →
  ul_control s' ∧ ∃ m', ul_rank s' m' ∧ (m' + n ≤ m)%nat.
Proof.
  intros Hp. revert m. induction Hp as [s|n who s s1 s' Ht _ IH|n c s s' _ _ IH]; intros m Hc Hr.
  - split; [done|]. exists m. split; [done|lia].
  - destruct (ul_rank_turn _ _ _ _ Ht Hr) as (m1 & Hr1 & Hlt).
    destruct (IH m1 (ul_control_turn _ _ _ Hc Ht) Hr1) as (? & m' & ? & ?).
    split; [done|]. exists m'. split; [done|lia].
  - by apply IH.
Qed.

(** The most turns an upload takes whose source delivers so many items. *)
Definition UPLOAD_TURNS (items workers : nat) : nat := items * (TASK_ACTIONS + 5) + workers + 2.
Definition source_items : nat :=
  length (cs_inner (ChunkStream_new (pl_source plan) ChunkingProfile_beta_v1)).

Lemma ul_rank_start c : ul_rank (ul_start self plan c) (UPLOAD_TURNS source_items concurrency).
Proof.
  exists (replicate concurrency 1%nat). split.
  - cbn. induction concurrency; cbn; [constructor|by constructor].
  - rewrite list_sum_replicate_1. unfold UPLOAD_TURNS, ul_weight, source_items. cbn. lia.
Qed.

(** C25: an upload neither hangs nor runs forever.  With at least one worker,
    whatever the service answers and however the threads and other processes
    interleave, the threads take at most [UPLOAD_TURNS] actions, and until
    they have all joined one of them can act: a full channel does not block
    the reader once every worker has given up. *)
Theorem upload_completes c n s :
  1 ≤ chunk_concurrency self → ul_path n (ul_start self plan c) s →
  (n ≤ UPLOAD_TURNS source_items concurrency)%nat ∧
  ((∃ error, ul_main s = UmJoined error) ∨ ∃ who s', ul_turn who s = Some s').
Proof.
  intros Hconc Hpath.
  destruct (ul_path_inv n _ s _ Hpath (length_replicate _ _) (ul_rank_start c)) as (Hc & m' & _ & Hn).
  split; [lia|].
  destruct (ul_main s) eqn:Hm; try (right; eapply ul_can_move; [lia|congruence]).
  left. by eexists.
Qed.

End Invariant.

(** ** What a successful upload means *)

(** What is known of a plan before the threads start. *)
Definition plan_ok (request : UploadRequest) (plan : Plan) : Prop :=
  up_action request = Some (pl_action plan) ∧
  (∃ file, ChunkStream_finish (ChunkStream_new file ChunkingProfile_beta_v1)
           = Ok (bu_manifest (pl_begin plan))) ∧
  om_object_oid (bu_manifest (pl_begin plan)) = up_oid request ∧
  om_object_size (bu_manifest (pl_begin plan)) = up_size request ∧
  bur_protocol_version (pl_response plan) = 1 ∧
  NoDup (bur_missing_chunk_indexes (pl_response plan)) ∧
  ∀ index, index ∈ pl_missing plan ↔
    index ∈ bur_missing_chunk_indexes (pl_response plan) ∧
    index < lenN (om_chunks (bu_manifest (pl_begin plan))).

Lemma size_list_to_set_NoDup (l : list N) :
  size (list_to_set l : gset N) = length l → NoDup l.
Proof.
  induction l as [|x l IH]; [constructor|]. cbn [list_to_set length]. intros Hs.
  assert (Hle : (size (list_to_set l : gset N) ≤ length l)%nat).
  { clear. induction l as [|x l IH]; [done|]. cbn [list_to_set length].
    pose proof (size_union_alt ({[x]} : gset N) (list_to_set l)) as Hu.
    pose proof (subseteq_size ((list_to_set l : gset N) ∖ {[x]}) (list_to_set l) ltac:(set_solver)).
    rewrite size_singleton in Hu. lia. }
  destruct (decide (x ∈ l)) as [Hx|Hx].
  - rewrite subseteq_union_1_L in Hs by set_solver. lia.
  - constructor; [done|]. apply IH. rewrite size_union, size_singleton in Hs by set_solver. lia.
Qed.

Lemma begin_upload_holds action begin c :
  holds anything (λ _ _, True) (begin_upload action begin) c.
Proof.
  apply for_loop_holds; [done| |done]. intros i v c1 _. apply send_holds.
  intros [response|e] c2 c3 _ _ _.
  - destruct (is_success _); [by apply or_fail_holds|].
    destruct (_ && _); [by apply sleep_holds|done].
  - destruct (_ <? _); [by apply sleep_holds|done].
Qed.

Lemma upload_prepare_holds request c :
  holds anything (λ r _, ∀ plan, r = Ok plan → plan_ok request plan) (upload_prepare request) c.
Proof.
  unfold upload_prepare. rewrite leaf_bind.
  destruct (up_action request) as [action|] eqn:Ha; cbn [action_of ok_or]; [|done].
  apply file_operation_holds; [done|]. intros o c1 _. apply or_fail_holds; [done|]. intros file _.
  rewrite leaf_bind.
  destruct (ChunkStream_finish _) as [manifest|] eqn:Hm; cbn [map_err]; [|done].
  destruct (_ || _) eqn:Hid; [done|]. bool_hyps. apply dec_stable in H.
  apply (holds_bind anything (λ _ _, True)); [apply begin_upload_holds| |done].
  intros plan c2 _ _. destruct (negb _) eqn:Hver; [done|]. bool_hyps.
  destruct (existsb _ _) eqn:Hidx; [done|].
  apply file_operation_holds; [done|]. intros o2 c3 _. apply or_fail_holds; [done|]. intros file2 _.
  case_bool_decide as Hdup; [done|].
  intros c4 _ p [= <-]. unfold plan_ok. cbn. split_and!; try done.
  - by exists file.
  - by apply size_list_to_set_NoDup.
  - intros index. rewrite elem_of_list_to_set. split; [|by intros []]. intros Hin. split; [done|].
    apply Bool.not_true_iff_false in Hidx. rewrite existsb_exists in Hidx.
    destruct (N.le_gt_cases (lenN (om_chunks manifest)) index) as [Hle|]; [|done].
    destruct Hidx. exists index. split; [by apply list_elem_of_In|by apply N.leb_le].
Qed.

Lemma upload_complete_holds request plan producer_error s :
  holds log_grows (λ r c', ∀ n, r = Ok n →
      upload_error producer_error s = None ∧ n = up_size request ∧
      ∃ url post, child_url (ta_href (pl_action plan))
                    [uuid_display (bur_upload_id (pl_response plan)); "finalize"] = Ok url ∧
        c_log c' = c_log (ul_client s) ++ post ∧
        succeeded (authorized POST (Parsed url) (pl_action plan) NoBody) post)
    (upload_complete request plan producer_error s) (ul_client s).
Proof.
  unfold upload_complete. destruct (upload_error producer_error s) eqn:He; [done|].
  eapply (holds_bind log_grows); [apply finalize_upload_holds| |by intros].
  intros [] c1 _ Hfin c2 [k Hk] n [= <-]. destruct (Hfin eq_refl) as (url & post & Hu & Hp & r & Hr & Hs).
  split_and!; [done|done|]. exists url, (post ++ k).
  split_and!; [done|by rewrite Hk, Hp, <- app_assoc|]. exists r. split; [set_solver|done].
Qed.

(** A successful upload. *)
Lemma uploads_ok self request c r c' size :
  1 ≤ chunk_concurrency self → uploads self request c r c' → r = Ok size →
  size = up_size request ∧
  ∃ plan chunks st pre post url,
    plan_ok request plan ∧
    ChunkStream_drain (ChunkStream_new (pl_source plan) ChunkingProfile_beta_v1) = Ok (chunks, st) ∧
    c_log c' = pre ++ post ∧
    (∀ k ch, chunks !! k = Some ch → N.of_nat k ∈ pl_missing plan →
       accepted (pl_action plan) (bur_upload_id (pl_response plan)) (N.of_nat k) (ch_data ch) pre) ∧
    child_url (ta_href (pl_action plan))
      [uuid_display (bur_upload_id (pl_response plan)); "finalize"] = Ok url ∧
    succeeded (authorized POST (Parsed url) (pl_action plan) NoBody) post ∧
    (ChunkStream_finish (ChunkStream_new (pl_source plan) ChunkingProfile_beta_v1)
       = Ok (bu_manifest (pl_begin plan)) →
     map cd_id (om_chunks (bu_manifest (pl_begin plan))) =
     map (λ ch, ChunkId_from_bytes (blake3_hash (ch_data ch))) chunks).
Proof.
  intros Hconc. destruct 1 as [e c' _|plan c1 n s producer_error r c' Hprep Hpath Hmain Hfin]; [done|].
  intros ->.
  destruct (holds_runs anything others _ _ _ _ _ ltac:(done) Hprep (upload_prepare_holds request c))
    as [_ Hplan].
  destruct (holds_runs log_grows others _ _ _ _ _ ltac:(intros ? ? Ho; exists []; by rewrite Ho, app_nil_r)
              Hfin (upload_complete_holds request plan producer_error s)) as [_ Hdone].
  destruct (Hdone size eq_refl) as (He & -> & url & post & Hurl & Hlog & Hpost).
  destruct (ul_path_inv self plan n _ s _ Hpath (length_replicate _ _) (ul_rank_start self plan c1))
    as [Hlen _].
  destruct (ul_joined_accepted plan s producer_error) as (chunks & st & Hdrain & Hacc);
    [unfold ul_control in Hlen; lia| |done|done|].
  { eapply ul_invariant_path; [exact Hpath|]. right. apply ul_start_good. }
  split; [done|]. exists plan, chunks, st, (c_log (ul_client s)), post, url.
  split_and!; [by apply Hplan|done|done|exact Hacc|done|done|].
  unfold ChunkStream_finish. rewrite Hdrain. cbn. intros [= <-]. cbn.
  apply drain_items_descriptors in Hdrain as [-> Hids]. cbn. rewrite map_map. apply map_ext_in.
  intros ch Hch. rewrite Forall_forall in Hids. by apply Hids, list_elem_of_In.
Qed.


End ClientUploads.
