(* ===== verification/ClientSession.v ===== *)
(** * ClientSession: the transfer process, from its input to its threads

    [HttpBackend] is a [TransferBackend]: a scheduler picks which thread acts
    next, and the threads run until all have joined.  Every scheduler gives a
    run of [downloads] or [uploads], so what is proved of those holds of every
    line the process writes. *)
From S2P Require Import Prelude Digest Manifest Stream Protocol Text Agent Tree Backend ClientDownloads ClientUploads.
From stdpp Require Import relations.
#[local] Open Scope N_scope.

Section Session.
  Context {Srv : Type} {url_lib : UrlLib} {http : Http Srv} {lib : ClientLib}
          {hex : HexCodec} {hashes : Hashes} {uuid_text : UuidText} {fastcdc : FastCdc}.
  Context (self : HttpBackend) (choice : nat → nat).
  Local Abbreviation Client := (Client Srv).
  Local Abbreviation concurrency := (N.to_nat (chunk_concurrency self)).

(** The threads: the main one and the workers. *)
Definition threads : list (option nat) := None :: map Some (seq 0 concurrency).

(** What the scheduler's pick leads to. *)
Definition scheduled_turn {T} (turn : option nat → T → option T) (k : nat) (s : T) : option T :=
  let enabled := omap (λ who, turn who s) threads in
  enabled !! (choice k `mod` length enabled)%nat.

Fixpoint drive {T} (turn : option nat → T → option T) (fuel : nat) (s : T) : T :=
  match fuel with
  | O => s
  | S fuel =>
      match scheduled_turn turn fuel s with
      | Some s' => drive turn fuel s'
      | None => s
      end
  end.

Definition not_joined : BackendError := failure "the threads have not joined".

Definition http_download (request : DownloadRequest) (c : Client)
  : result BackendError DownloadResult * Client :=
  match alone (download_prepare request) c with
  | (Err e, c1) => (Err e, c1)
  | (Ok (action, manifest), c1) =>
      let s := drive (dl_turn self action manifest)
                 (TURNS (length (om_chunks manifest)) concurrency) (dl_start self c1) in
      match dl_main s with
      | DmJoined outcome => alone (download_complete self request outcome s) (dl_client s)
      | _ => (Err not_joined, dl_client s)
      end
  end.

Definition http_upload (request : UploadRequest) (c : Client)
  : result BackendError N * Client :=
  match alone (upload_prepare request) c with
  | (Err e, c1) => (Err e, c1)
  | (Ok plan, c1) =>
      let s := drive (ul_turn self plan) (UPLOAD_TURNS (source_items plan) concurrency)
                 (ul_start self plan c1) in
      match ul_main s with
      | UmJoined producer_error =>
          alone (upload_complete request plan producer_error s) (ul_client s)
      | _ => (Err not_joined, ul_client s)
      end
  end.

#[export] Instance http_backend : TransferBackend Client := {|
  upload := http_upload;
  download := http_download;
|}.

(** ** The scheduler finds a thread whenever one can act *)

Lemma scheduled_turn_sound {T} (turn : option nat → T → option T) k s s' :
  scheduled_turn turn k s = Some s' → ∃ who, turn who s = Some s'.
Proof.
  intros Hs%list_elem_of_lookup_2. apply list_elem_of_omap in Hs as (who & _ & Ht). by exists who.
Qed.

Lemma scheduled_turn_complete {T} (turn : option nat → T → option T) k s :
  (∃ who s', who ∈ threads ∧ turn who s = Some s') → is_Some (scheduled_turn turn k s).
Proof.
  intros (who & s' & Hin & Ht). apply lookup_lt_is_Some_2, Nat.mod_upper_bound.
  assert (s' ∈ omap (λ who, turn who s) threads) as Hs by (apply list_elem_of_omap; eauto).
  intros Hn%length_zero_iff_nil. rewrite Hn in Hs. set_solver.
Qed.

Lemma worker_thread {W} (ws : list W) i w :
  length ws = concurrency → ws !! i = Some w → Some i ∈ threads.
Proof.
  intros Hl Hi%lookup_lt_Some. unfold threads. apply elem_of_cons. right.
  apply list_elem_of_fmap. exists i. split; [done|]. apply elem_of_seq. lia.
Qed.

Lemma drive_spec {T} (turn : option nat → T → option T) fuel s :
  ∃ n, nsteps (λ s s', ∃ who, turn who s = Some s') n s (drive turn fuel s) ∧
       (n = fuel ∨ ∃ k, scheduled_turn turn k (drive turn fuel s) = None).
Proof.
  revert s. induction fuel as [|fuel IH]; intros s; cbn [drive].
  - exists 0%nat. split; [constructor|by left].
  - destruct (scheduled_turn turn fuel s) as [s1|] eqn:Hs.
    + destruct (IH s1) as (n & Hn & Hend). apply scheduled_turn_sound in Hs.
      exists (S n). split; [by econstructor|]. destruct Hend as [->|?]; [by left|by right].
    + exists 0%nat. split; [constructor|right]. by exists fuel.
Qed.

(** ** Downloads *)

Context (Hconcurrency : 1 ≤ chunk_concurrency self).

Lemma dl_nsteps_path action manifest n s s' :
  nsteps (λ s s', ∃ who, dl_turn self action manifest who s = Some s') n s s' →
  dl_path self action manifest n s s'.
Proof. induction 1 as [|n s s1 s' [who Ht] _ IH]; [constructor|by econstructor]. Qed.

Lemma dl_path_steps action manifest n s s' :
  dl_path self action manifest n s s' → rtc (dl_step self action manifest) s s'.
Proof.
  induction 1 as [|n who s s1 s' Ht _ IH|n c s s' _ IH]; [done| |].
  - eapply rtc_l; [by eapply dl_step_turn|done].
  - eapply rtc_l; [by apply dl_step_others|done].
Qed.

(** The threads of a download have joined when the scheduler stops. *)
Lemma drive_download action manifest c :
  ∃ n outcome,
    let s := drive (dl_turn self action manifest) (TURNS (length (om_chunks manifest)) concurrency)
               (dl_start self c) in
    dl_path self action manifest n (dl_start self c) s ∧ dl_main s = DmJoined outcome.
Proof using Hconcurrency.
  assert (Hpos : (0 < concurrency)%nat) by lia.
  destruct (drive_spec (dl_turn self action manifest)
              (TURNS (length (om_chunks manifest)) concurrency) (dl_start self c)) as (n & Hn & Hend).
  apply dl_nsteps_path in Hn. set (s := drive _ _ _) in *. clearbody s. exists n.
  destruct (dl_path_inv self action manifest n _ s _ Hpos Hn
              (dl_control_start self manifest c) (dl_rank_start self manifest c))
    as (Hc & m' & (ws & _ & Hm) & Hle).
  assert (∃ outcome, dl_main s = DmJoined outcome) as [outcome Ho]; [|by exists outcome].
  destruct Hend as [->|[k Hk]].
  - assert (main_rank (dl_main s) ≤ m')%nat as Hr by (rewrite Hm; apply Nat.le_add_l).
    clear Hm. destruct (dl_main s) eqn:Hmain; cbn [main_rank] in Hr; [lia..|by eexists].
  - destruct (dl_main s) eqn:Hmain; try (by eexists);
      (destruct (scheduled_turn_complete (dl_turn self action manifest) k s) as [? ?];
       [|congruence]; destruct (dl_can_move self action manifest s) as (who & s' & Ht);
       [done|done|congruence|]; exists who, s'; split; [|done]; destruct who as [i|]; [|by left];
       cbn in Ht; destruct (dl_workers s !! i) eqn:Hw; [|done]; eapply worker_thread, Hw; apply Hc).
Qed.

(** The download the process performs is one of [downloads]. *)
Lemma http_download_refines request c :
  downloads self request c (http_download request c).1 (http_download request c).2.
Proof using Hconcurrency.
  unfold http_download. pose proof (runs_alone (λ _ _, True) (download_prepare request) c) as Hr.
  destruct (alone (download_prepare request) c) as [[[action manifest]|e] c1]; cbn in *;
    [|by constructor].
  destruct (drive_download action manifest c1) as (n & outcome & Hp & Hm). cbv zeta in Hm, Hp.
  rewrite Hm. eapply downloads_joined; [done|by eapply dl_path_steps|done].
Qed.

(** ** Uploads *)

Lemma ul_nsteps_path plan n s s' :
  nsteps (λ s s', ∃ who, ul_turn self plan who s = Some s') n s s' → ul_path self plan n s s'.
Proof. induction 1 as [|n s s1 s' [who Ht] _ IH]; [constructor|by econstructor]. Qed.

Lemma drive_upload plan c :
  ∃ n error,
    let s := drive (ul_turn self plan) (UPLOAD_TURNS (source_items plan) concurrency)
               (ul_start self plan c) in
    ul_path self plan n (ul_start self plan c) s ∧ ul_main s = UmJoined error.
Proof using Hconcurrency.
  assert (Hpos : (0 < concurrency)%nat) by lia.
  destruct (drive_spec (ul_turn self plan) (UPLOAD_TURNS (source_items plan) concurrency)
              (ul_start self plan c)) as (n & Hn & Hend).
  apply ul_nsteps_path in Hn. set (s := drive _ _ _) in *. clearbody s. exists n.
  destruct (ul_path_inv self plan n _ s _ Hn (length_replicate _ _) (ul_rank_start self plan c))
    as (Hc & m' & (ws & _ & Hm) & Hle).
  assert (∃ error, ul_main s = UmJoined error) as [error Ho]; [|by exists error].
  destruct Hend as [->|[k Hk]].
  - assert (um_rank (ul_main s) ≤ ul_weight s)%nat as Hr by apply Nat.le_add_l.
    assert (um_rank (ul_main s) = 0)%nat as Hz by lia.
    destruct (ul_main s) eqn:Hmain; cbn [um_rank] in Hz; [lia..|by eexists].
  - destruct (ul_main s) eqn:Hmain; try (by eexists);
      (destruct (scheduled_turn_complete (ul_turn self plan) k s) as [? ?];
       [|congruence]; destruct (ul_can_move self plan s) as (who & s' & Ht);
       [done|congruence|]; exists who, s'; split; [|done]; destruct who as [i|]; [|by left];
       cbn in Ht; destruct (ul_workers s !! i) eqn:Hw; [|done]; by eapply worker_thread, Hw).
Qed.

(** The upload the process performs is one of [uploads]. *)
Lemma http_upload_refines request c :
  uploads self request c (http_upload request c).1 (http_upload request c).2.
Proof using Hconcurrency.
  unfold http_upload. pose proof (runs_alone others (upload_prepare request) c) as Hr.
  destruct (alone (upload_prepare request) c) as [[plan|e] c1]; cbn [fst snd] in *; [|by constructor].
  destruct (drive_upload plan c1) as (n & error & Hp & Hm). cbv zeta in Hm, Hp.
  rewrite Hm. eapply uploads_joined; [exact Hr|exact Hp|exact Hm|apply runs_alone].
Qed.

(** ** The process *)

Section Process.
  Context {W : Type} {write : Write W} {write_laws : WriteLaws W} {json : TransferJson}.

(** Every completed download of a session was delivered. *)
Lemma session_authentic input (s s' : Agent Client W) r oid path :
  run_transfer_protocol input s = (r, s') →
  Message (Complete oid (Some path) None) ∈ written (ag_output s') →
  Message (Complete oid (Some path) None) ∉ written (ag_output s) →
  ∃ request result c c',
    dr_oid request = oid ∧ http_download request c = (Ok result, c') ∧
    path = to_string_lossy (dres_path result) ∧ delivered request result c'.
Proof using Hconcurrency write_laws.
  intros Hrun%message_loop_spec Hin Hout.
  destruct (conversation_line _ _ _ _ _ _ Hrun Hin) as [?|(s1 & m & out & s2 & He & Hline)]; [done|].
  destruct He as [|b b' request n Hu|b b' request e Hu|b b' request result Hd|b b' request e Hd|];
    repeat (apply elem_of_cons in Hline as [Hline|Hline]); try discriminate Hline;
    try by apply not_elem_of_nil in Hline.
  injection Hline as -> ->. exists request, result, b, b'. split_and!; [done|done|done|].
  pose proof (http_download_refines request b) as Href.
  cbn in Hd. rewrite Hd in Href. by eapply downloads_delivered.
Qed.

End Process.

End Session.
