(* ===== verification/Cli.v ===== *)
(** * Cli: the commands of the client, [git-lfs-delta-client/src/main.rs]

    A command runs on a machine: [git] and the other programs are the
    interface [Commands]; the standard output and the removal of files fail
    when the operating system says so.  A directory is what [read_dir] and
    [metadata] report of it. *)
From S2P Require Import Prelude Digest Stream Protocol Text Agent Backend ClientDownloads ClientSession.

(** ** Errors *)

(** A [Box<dyn Error>]: its text and, for it and every [source] below it,
    whether it is an [io::Error] and of what kind. *)
Inductive ErrorNode := IoNode (broken_pipe : bool) | OtherNode.
Record CliError := mkCliError { ce_message : string; ce_chain : list ErrorNode }.

Definition text_error (message : string) : CliError := mkCliError message [OtherNode].
Definition cli_io_error (e : IoError) : CliError := mkCliError (io_message e) [IoNode (io_broken_pipe e)].

(** [is_broken_pipe]: walks down the sources. *)
Fixpoint is_broken_pipe (chain : list ErrorNode) : bool :=
  match chain with
  | [] => false
  | IoNode true :: _ => true
  | _ :: rest => is_broken_pipe rest
  end.

(** The chain of a [TransferProtocolError] ([#[source]] attributes). *)
Definition protocol_error (e : TransferProtocolError) : CliError :=
  mkCliError (TransferProtocolError_display e)
    (OtherNode :: match e with
                  | WriteFailed io => [IoNode (io_broken_pipe io)]
                  | ReadFailed _ => [IoNode false]
                  | DecodeFailed _ => [OtherNode]
                  | _ => []
                  end).

(** ** The cache directory *)

Record DirError := mkDirError { de_not_found : bool; de_error : IoError }.

(** What [read_dir] yields for a name: an error, an entry whose [metadata]
    fails, or a file, a directory or something else. *)
Inductive FsNode :=
| FsFile (size : N) (modified : option N)
| FsDirectory (listing : result DirError (list FsChild))
| FsOther
with FsChild :=
| ChildError (error : IoError)
| MetadataError (name : string) (error : IoError)
| Child (name : string) (node : FsNode).

Record CacheEntry := mkCacheEntry { ce_path : string; ce_size : N; ce_modified : N }.

(** The loop over the children of one directory: what it adds to [pending]
    and to [entries]. *)
Fixpoint read_children (directory : string) (children : list FsChild)
    (pending : list (string * FsNode)) (entries : list CacheEntry)
  : result IoError (list (string * FsNode) * list CacheEntry) :=
  match children with
  | [] => Ok (pending, entries)
  | ChildError e :: _ | MetadataError _ e :: _ => Err e
  | Child name node :: rest =>
      match node with
      | FsDirectory _ => read_children directory rest (pending ++ [(join directory name, node)]) entries
      | FsFile size modified =>
          read_children directory rest pending
            (entries ++ [mkCacheEntry (join directory name) size (default 0 modified)])
      | FsOther => read_children directory rest pending entries
      end
  end.

(** [while let Some(directory) = pending.pop()]. *)
Fixpoint cache_walk (fuel : nat) (pending : list (string * FsNode)) (entries : list CacheEntry)
  : option (result IoError (list CacheEntry)) :=
  match reverse pending with
  | [] => Some (Ok entries)
  | (directory, node) :: rest =>
      match fuel with
      | O => None
      | S fuel =>
          let pending := reverse rest in
          match node with
          | FsDirectory (Ok children) =>
              match read_children directory children pending entries with
              | Ok (pending, entries) => cache_walk fuel pending entries
              | Err e => Some (Err e)
              end
          | FsDirectory (Err e) =>
              if de_not_found e then cache_walk fuel pending entries else Some (Err (de_error e))
          | _ => Some (Err (io_other "Not a directory"))
          end
      end
  end.

(** [cache_entries(root)], where [chunks] is what [read_dir] reports of the
    directory [chunks] in the root. *)
Definition cache_entries (fuel : nat) (root : string) (chunks : FsNode)
  : option (result IoError (list CacheEntry)) :=
  cache_walk fuel [(join root "chunks", chunks)] [].

(** The files below a directory, in any order, when nothing fails. *)
Fixpoint files_below (directory : string) (node : FsNode) : list CacheEntry :=
  match node with
  | FsFile _ _ | FsOther => []
  | FsDirectory (Err _) => []
  | FsDirectory (Ok children) =>
      concat (map (λ child,
        match child with
        | Child name (FsFile size modified) =>
            [mkCacheEntry (join directory name) size (default 0 modified)]
        | Child name node => files_below (join directory name) node
        | _ => []
        end) children)
  end.

(** Every listing below can be read. *)
Fixpoint readable (node : FsNode) : bool :=
  match node with
  | FsFile _ _ | FsOther => true
  | FsDirectory (Err e) => de_not_found e
  | FsDirectory (Ok children) =>
      forallb (λ child, match child with Child _ node => readable node | _ => false end) children
  end.

(** The number of directories below, this one included. *)
Fixpoint directories (node : FsNode) : nat :=
  match node with
  | FsFile _ _ | FsOther => 0
  | FsDirectory (Err _) => 1
  | FsDirectory (Ok children) =>
      S (list_sum (map (λ child, match child with Child _ node => directories node | _ => 0%nat end)
                       children))
  end.

(** ** Pruning *)

(** [slice::sort_by_key] is stable. *)
Fixpoint insert_by {A} (key : A → N) (x : A) (l : list A) : list A :=
  match l with
  | [] => [x]
  | y :: l => if key x <=? key y then x :: y :: l else y :: insert_by key x l
  end.
Definition sort_by_key {A} (key : A → N) (l : list A) : list A := foldr (insert_by key) [] l.

(** The sum of the sizes as the release build computes it. *)
Definition total_size (entries : list CacheEntry) : N :=
  foldl (λ total entry, wrapping_add_u64 total (ce_size entry)) 0 entries.

(** The removal loop: what is left of the entries, the accounted total and the
    number removed.  [remove] says which removals the system refuses. *)
Fixpoint prune_loop (remove : string → option IoError) (maximum total removed : N)
    (entries : list CacheEntry) : result IoError (N * N) * list CacheEntry :=
  match entries with
  | [] => (Ok (total, removed), [])
  | entry :: rest =>
      if total <=? maximum then (Ok (total, removed), entries)
      else match remove (ce_path entry) with
           | Some e => (Err e, entries)
           | None => prune_loop remove maximum (total - ce_size entry) (removed + 1) rest
           end
  end.

(** The sorting and the loop of [prune_cache] on the entries found: the outcome
    and the entries kept, oldest first. *)
Definition prune_entries (remove : string → option IoError) (maximum : N) (entries : list CacheEntry)
  : result IoError (N * N) * list CacheEntry :=
  let entries := sort_by_key ce_modified entries in
  prune_loop remove maximum (total_size entries) 0 entries.

(** The fold of [CacheCommands::Stats]. *)
Definition cache_stats (entries : list CacheEntry) : N * N :=
  foldl (λ '(files, size) entry, (files + 1, wrapping_add_u64 size (ce_size entry))) (0, 0) entries.

(** ** Git configuration *)

Inductive Scope := Local | Global.
Definition scope_flag (scope : Scope) : string :=
  match scope with Local => "--local" | Global => "--global" end.

Record Machine (G : Type) := mkMachine {
  m_system : G;
  m_output : list string;
  m_output_faults : list (option IoError);
}.
Arguments mkMachine {G} _ _ _.
Arguments m_system {G} _.
Arguments m_output {G} _.
Arguments m_output_faults {G} _.

Section Commands.
  Context {G : Type} {commands : Commands G} {url_lib : UrlLib}.

Definition Cmd (A : Type) : Type := Machine G → result CliError A * Machine G.
#[export] Instance cmd_ret : MRet Cmd := λ A a m, (Ok a, m).
#[export] Instance cmd_bind : MBind Cmd := λ A B f c m,
  match c m with
  | (Ok a, m) => f a m
  | (Err e, m) => (Err e, m)
  end.
Definition cmd_result {A} (r : result CliError A) : Cmd A := λ m, (r, m).
Definition cmd_fail {A} (message : string) : Cmd A := λ m, (Err (text_error message), m).

Definition write_output (line : string) : Cmd unit := λ m,
  match m_output_faults m with
  | Some e :: rest => (Err (cli_io_error e), mkMachine (m_system m) (m_output m) rest)
  | faults => (Ok tt, mkMachine (m_system m) (m_output m ++ [line]) (tl faults))
  end.

Definition command (program : string) (arguments : list string) : Cmd (option N * bytes) := λ m,
  let '(r, g) := command_output program arguments (m_system m) in
  (map_err cli_io_error r, mkMachine g (m_output m) (m_output_faults m)).

Definition require_command (program : string) (arguments : list string) : Cmd unit :=
  let! out := command program arguments in
  if exit_success out.1 then mret tt
  else cmd_fail (program +:+ " is installed but returned a failure").

Definition git_config (scope key value : string) : Cmd unit :=
  let! out := command "git" ["config"; scope; key; value] in
  if exit_success out.1 then mret tt else cmd_fail ("git config failed for " +:+ key).

Definition utf8_text (b : bytes) : Cmd string :=
  cmd_result (map_err (λ _, text_error "invalid utf-8 sequence") (from_utf8 b)).

Definition git_config_value (key : string) : Cmd (option string) :=
  let! out := command "git" ["config"; "--get"; key] in
  if exit_success out.1 then let! text := utf8_text out.2 in mret (Some (trim text))
  else if bool_decide (out.1 = Some 1) then mret None
  else cmd_fail ("git config could not read " +:+ key).

(** [install]; [executable] is [std::env::current_exe()]. *)
Definition install (executable : result IoError string) (scope : Scope) : Cmd unit :=
  let! _ := require_command "git" ["--version"] in
  let! _ := require_command "git-lfs" ["version"] in
  let! executable := cmd_result (map_err cli_io_error executable) in
  let flag := scope_flag scope in
  let! _ := git_config flag "lfs.customtransfer.cdc.path" (to_string_lossy executable) in
  let! _ := git_config flag "lfs.customtransfer.cdc.args" "transfer" in
  let! _ := git_config flag "lfs.customtransfer.cdc.concurrent" "true" in
  write_output ("configured Git LFS Delta custom transfer agent (" +:+ flag +:+ ")").

Definition TRANSFER_KEYS : list string :=
  ["lfs.customtransfer.cdc.path"; "lfs.customtransfer.cdc.args"; "lfs.customtransfer.cdc.concurrent"].

(** Status 5 is [git]'s answer for a key that is not set. *)
Definition uninstall (scope : Scope) : Cmd unit :=
  let flag := scope_flag scope in
  let! _ := for_each TRANSFER_KEYS (λ key,
    let! out := command "git" ["config"; flag; "--unset-all"; key] in
    if negb (exit_success out.1) && negb (bool_decide (out.1 = Some 5))
    then cmd_fail ("git config could not remove " +:+ key) else mret tt) in
  write_output ("removed Git LFS Delta custom transfer agent (" +:+ flag +:+ ")").

Definition lfs_url_ok (url : Url) : bool :=
  existsb (String.eqb (url_scheme url)) ["http"; "https"] && ends_with "/info/lfs" (url_path url).

Definition configure (scope : Scope) (url : string) : Cmd unit :=
  let! parsed := cmd_result (map_err text_error (url_parse url)) in
  if negb (lfs_url_ok parsed) then cmd_fail "LFS URL must be HTTP(S) and end in /info/lfs"
  else
    let flag := scope_flag scope in
    let! _ := git_config flag "lfs.url" url in
    write_output ("configured LFS endpoint (" +:+ flag +:+ "): " +:+ url).

Definition status : Cmd unit :=
  for_each ("lfs.url" :: TRANSFER_KEYS) (λ key,
    let! out := command "git" ["config"; "--get"; key] in
    let! value := if exit_success out.1 then let! text := utf8_text out.2 in mret (trim text)
                  else mret "<unset>" in
    write_output (key +:+ "=" +:+ value)).

(** [doctor]: [canonicalize] is the file system's, [cache] the cache directory
    and what creating it and a file in it returns, [debug] the [Debug] text of
    a string, [version] the package version. *)
Definition doctor (canonicalize : string → result IoError string) (debug : string → string)
    (version : string) (executable : result IoError string)
    (cache : result CliError string) (probe : result IoError unit) : Cmd unit :=
  let! _ := require_command "git" ["--version"] in
  let! _ := require_command "git-lfs" ["version"] in
  let! executable := cmd_result (map_err cli_io_error (mbind canonicalize executable)) in
  let! value := git_config_value "lfs.customtransfer.cdc.path" in
  let! configured := cmd_result (ok_or (text_error "Git LFS Delta transfer agent is not registered") value) in
  let! configured_path := cmd_result (map_err (λ e, text_error
      ("configured transfer path " +:+ debug configured +:+ " is unavailable: " +:+ io_message e))
    (canonicalize configured)) in
  if bool_decide (configured_path ≠ executable)
  then cmd_fail ("configured transfer path " +:+ to_string_lossy configured_path
                 +:+ " does not match this executable " +:+ to_string_lossy executable
                 +:+ "; rerun install")
  else
    let! cache := cmd_result cache in
    let! _ := cmd_result (map_err cli_io_error probe) in
    let! _ := write_output ("Git LFS Delta: " +:+ version) in
    let! _ := write_output ("executable: " +:+ to_string_lossy executable) in
    let! _ := write_output ("transfer registration: " +:+ to_string_lossy configured_path) in
    let! _ := write_output "Git: ok" in
    let! _ := write_output "Git LFS: ok" in
    write_output ("cache: " +:+ to_string_lossy cache +:+ " (writable)").

(** The cache directory and the entries below it. *)
Definition found_entries (fuel : nat) (cache : result CliError string) (chunks : FsNode)
  : Cmd (list CacheEntry) :=
  let! root := cmd_result cache in
  match cache_entries fuel root chunks with
  | Some found => cmd_result (map_err cli_io_error found)
  | None => cmd_fail "out of fuel"
  end.

(** [prune_cache]. *)
Definition prune_cache (fuel : nat) (cache : result CliError string) (chunks : FsNode)
    (remove : string → option IoError) (maximum : N) : Cmd unit :=
  let! entries := found_entries fuel cache chunks in
  let! done := cmd_result (map_err cli_io_error (prune_entries remove maximum entries).1) in
  write_output ("removed " +:+ pretty done.2 +:+ " chunks; cache now uses " +:+ pretty done.1
                +:+ " bytes").

(** The command line, without [transfer]. *)
Inductive CliCommand :=
| Install (scope : Scope)
| Uninstall (scope : Scope)
| Configure (url : string) (scope : Scope)
| Status
| Doctor
| CacheStats
| CachePrune (max_bytes : N).

(** What a command finds on the file system. *)
Record Site := mkSite {
  st_executable : result IoError string;
  st_canonicalize : string → result IoError string;
  st_debug : string → string;
  st_version : string;
  st_cache_root : result CliError string;
  st_probe : result IoError unit;
  st_chunks : FsNode;
  st_remove : string → option IoError;
}.

(** [run], one level of directories per unit of fuel. *)
Definition run (fuel : nat) (site : Site) (command : CliCommand) : Cmd unit :=
  match command with
  | Install scope => install (st_executable site) scope
  | Uninstall scope => uninstall scope
  | Configure url scope => configure scope url
  | Status => status
  | Doctor => doctor (st_canonicalize site) (st_debug site) (st_version site) (st_executable site)
                (st_cache_root site) (st_probe site)
  | CacheStats =>
      let! entries := found_entries fuel (st_cache_root site) (st_chunks site) in
      let '(files, size) := cache_stats entries in
      write_output (pretty files +:+ " chunks, " +:+ pretty size +:+ " bytes")
  | CachePrune max_bytes =>
      prune_cache fuel (st_cache_root site) (st_chunks site) (st_remove site) max_bytes
  end.

End Commands.

(** [Commands::Transfer]: the backend, then the protocol on it. *)
Section Transfer.
  Context {Srv W : Type} {url_lib : UrlLib} {http : Http Srv} {lib : ClientLib}
          {hex : HexCodec} {hashes : Hashes} {uuid_text : UuidText} {fastcdc : FastCdc}
          {write : Write W} {json : TransferJson}.

Definition backend_error (e : BackendError) : CliError := text_error (BackendError_display e).

Definition transfer (env : string → EnvVar) (build : N → N → result string unit)
    (cache : result CliError string) (choice : nat → nat) (input : Reader)
    (agent : Agent (Client Srv) W) : result CliError unit * Agent (Client Srv) W :=
  match let! root := cache in map_err backend_error (HttpBackend_new env build root) with
  | Err e => (Err e, agent)
  | Ok self =>
      let '(r, agent) := run_transfer_protocol (backend := http_backend self choice) input agent in
      (map_err protocol_error r, agent)
  end.

(** The number of workers is between one and eight, whatever was configured. *)
Lemma HttpBackend_new_concurrency env build root self :
  HttpBackend_new env build root = Ok self → 1 ≤ chunk_concurrency self ≤ 8.
Proof.
  unfold HttpBackend_new. intros (? & _ & H)%result_bind_ok.
  apply result_bind_ok in H as (? & _ & H). apply result_bind_ok in H as (n & _ & H).
  apply result_bind_ok in H as (? & _ & [= <-]). cbn. unfold clamp.
  destruct (N.ltb_spec n 1); [lia|]. destruct (N.ltb_spec 8 n); lia.
Qed.


End Transfer.

(** ** The exit code *)

(** [main]: a broken pipe is a success. *)
Definition exit_code (r : result CliError unit) : bool :=
  match r with
  | Ok _ => true
  | Err e => is_broken_pipe (ce_chain e)
  end.

(** ** The traversal *)

Definition pending_files (pending : list (string * FsNode)) : list CacheEntry :=
  concat (map (λ p, files_below p.1 p.2) pending).
Definition pending_readable (pending : list (string * FsNode)) : bool :=
  forallb (λ p, readable p.2) pending.
Definition pending_directories (pending : list (string * FsNode)) : nat :=
  list_sum (map (λ p, directories p.2) pending).
Definition is_directory (node : FsNode) : bool :=
  match node with FsDirectory _ => true | _ => false end.

(** What one child contributes. *)
Definition child_files (directory : string) (child : FsChild) : list CacheEntry :=
  match child with
  | Child name (FsFile size modified) => [mkCacheEntry (join directory name) size (default 0 modified)]
  | Child name node => files_below (join directory name) node
  | _ => []
  end.
Definition child_readable (child : FsChild) : bool :=
  match child with Child _ node => readable node | _ => false end.
Definition child_directories (child : FsChild) : nat :=
  match child with Child _ node => directories node | _ => 0 end.

Lemma read_children_spec directory children pending entries :
  match read_children directory children pending entries with
  | Ok (pending', entries') =>
      pending_files pending' ++ entries' ≡ₚ
        pending_files pending ++ entries ++ concat (map (child_files directory) children) ∧
      pending_readable pending' = pending_readable pending && forallb child_readable children ∧
      (pending_directories pending' = pending_directories pending
                                      + list_sum (map child_directories children))%nat ∧
      (forallb (is_directory ∘ snd) pending = true → forallb (is_directory ∘ snd) pending' = true)
  | Err _ => forallb child_readable children = false
  end.
Proof.
  assert (Hcons : ∀ x l, list_sum (x :: l) = (x + list_sum l)%nat) by done.
  revert pending entries. induction children as [|child children IH]; intros pending entries.
  { cbn. rewrite app_nil_r, andb_true_r. split_and!; [done|done|lia|done]. }
  destruct child as [e|name e|name [size modified|listing|]];
    cbn [read_children map concat forallb child_files child_readable]; [done|done| | |];
    rewrite ?Hcons; cbn [child_directories].
  - specialize (IH pending (entries ++ [mkCacheEntry (join directory name) size (default 0 modified)])).
    destruct (read_children _ _ _ _) as [[p' e']|]; [|done]. destruct IH as (IH & ? & ? & ?).
    split_and!; [|done..]. rewrite IH. solve_Permutation.
  - specialize (IH (pending ++ [(join directory name, FsDirectory listing)]) entries).
    destruct (read_children _ _ _ _) as [[p' e']|].
    + destruct IH as (IH & Hr & Hd & Hi). split_and!.
      * rewrite IH. unfold pending_files. rewrite map_app, concat_app. cbn [map concat].
        rewrite app_nil_r. solve_Permutation.
      * rewrite Hr. unfold pending_readable. rewrite forallb_app. cbn [forallb snd].
        by rewrite andb_true_r, andb_assoc.
      * rewrite Hd. unfold pending_directories. rewrite map_app, list_sum_app. cbn [map snd].
        rewrite Hcons. cbn [list_sum foldr]. unfold list_sum. cbn [foldr]. lia.
      * intros Hp. apply Hi. rewrite forallb_app, Hp. done.
    + rewrite IH. apply andb_false_r.
  - specialize (IH pending entries). destruct (read_children _ _ _ _) as [[p' e']|]; [|done].
    destruct IH as (IH & ? & ? & ?). by split_and!.
Qed.

Lemma cache_walk_spec fuel pending entries :
  (pending_directories pending ≤ fuel)%nat → forallb (is_directory ∘ snd) pending = true →
  ∃ r, cache_walk fuel pending entries = Some r ∧
    match r with
    | Ok found => found ≡ₚ pending_files pending ++ entries ∧ pending_readable pending = true
    | Err _ => pending_readable pending = false
    end.
Proof.
  revert pending entries. induction fuel as [|fuel IH]; intros pending entries Hf Hd;
    (destruct (reverse pending) as [|[directory node] rest] eqn:Hrev;
     [apply (f_equal reverse) in Hrev; rewrite reverse_involutive in Hrev; subst pending;
      by exists (Ok entries)|]);
    apply (f_equal reverse) in Hrev; rewrite reverse_involutive, reverse_cons in Hrev; subst pending.
  - exfalso. unfold pending_directories in Hf. rewrite map_app, list_sum_app in Hf.
    rewrite forallb_app in Hd. apply andb_true_iff in Hd as [_ Hd].
    destruct node as [| |]; [done| |done]. destruct listing; cbn in Hf; lia.
  - unfold pending_directories in Hf. rewrite map_app, list_sum_app in Hf.
    rewrite forallb_app in Hd. apply andb_true_iff in Hd as [Hd Hnode].
    assert (Hrun : cache_walk (S fuel) (reverse rest ++ [(directory, node)]) entries =
      match node with
      | FsDirectory (Ok children) =>
          match read_children directory children (reverse rest) entries with
          | Ok (pending, entries) => cache_walk fuel pending entries
          | Err e => Some (Err e)
          end
      | FsDirectory (Err e) =>
          if de_not_found e then cache_walk fuel (reverse rest) entries else Some (Err (de_error e))
      | _ => Some (Err (io_other "Not a directory"))
      end).
    { cbn [cache_walk]. by rewrite reverse_app, reverse_involutive. }
    rewrite Hrun. unfold pending_files, pending_readable. rewrite map_app, concat_app, forallb_app.
    destruct node as [|[children|e]|]; [done| | |done].
    + pose proof (read_children_spec directory children (reverse rest) entries) as Hc.
      destruct (read_children _ _ _ _) as [[pending' entries']|e].
      * destruct Hc as (Hp & Hr & Hn & Hi). destruct (IH pending' entries') as (r & -> & Hres).
        { cbn in Hf. unfold pending_directories in *. rewrite Hn.
          change (list_sum (map child_directories children)) with
            (list_sum (map (λ child, match child with Child _ node => directories node | _ => 0%nat end)
                        children)). lia. }
        { by apply Hi. }
        exists r. split; [done|]. cbn [map concat forallb fst snd]. rewrite app_nil_r, andb_true_r.
        unfold pending_readable in Hr, Hres. destruct r as [found|e].
        -- destruct Hres as [Hfound Hread]. rewrite Hr in Hread. split; [|exact Hread].
           rewrite Hfound, Hp.
           change (files_below directory (FsDirectory (Ok children)))
             with (concat (map (child_files directory) children)).
           unfold pending_files. solve_Permutation.
        -- by rewrite Hr in Hres.
      * exists (Err e). split; [done|]. cbn [map concat forallb fst snd].
        change (readable (FsDirectory (Ok children))) with (forallb child_readable children).
        rewrite Hc. cbn. apply andb_false_r.
    + destruct (de_not_found e) eqn:He.
      * destruct (IH (reverse rest) entries) as (r & -> & Hres); [cbn in Hf; unfold pending_directories; lia|done|].
        exists r. split; [done|]. cbn. rewrite He, andb_true_r, app_nil_r. exact Hres.
      * exists (Err (de_error e)). split; [done|]. cbn. rewrite He. apply andb_false_r.
Qed.

(** ** Pruning *)

Lemma insert_by_perm {A} (key : A → N) x l : insert_by key x l ≡ₚ x :: l.
Proof.
  induction l as [|y l IH]; cbn; [done|]. destruct (_ <=? _); [done|]. rewrite IH. constructor.
Qed.

Lemma sort_by_key_perm {A} (key : A → N) l : sort_by_key key l ≡ₚ l.
Proof.
  induction l as [|x l IH]; [done|]. change (sort_by_key key (x :: l)) with (insert_by key x (sort_by_key key l)).
  by rewrite insert_by_perm, IH.
Qed.

Lemma insert_by_sorted {A} (key : A → N) x l :
  StronglySorted (λ a b, key a ≤ key b) l → StronglySorted (λ a b, key a ≤ key b) (insert_by key x l).
Proof.
  induction 1 as [|y l Hl IH Hy]; cbn; [repeat constructor|].
  destruct (N.leb_spec (key x) (key y)).
  - constructor; [by constructor|]. constructor; [done|]. eapply Forall_impl; [exact Hy|]. cbn. lia.
  - constructor; [done|]. rewrite insert_by_perm. constructor; [lia|done].
Qed.

Lemma sort_by_key_sorted {A} (key : A → N) l :
  StronglySorted (λ a b, key a ≤ key b) (sort_by_key key l).
Proof. induction l as [|x l IH]; [constructor|]. by apply insert_by_sorted. Qed.

Lemma total_size_spec entries : sum_by ce_size entries ≤ U64_MAX → total_size entries = sum_by ce_size entries.
Proof.
  unfold total_size. intros Hs.
  assert (H : ∀ acc, acc + sum_by ce_size entries ≤ U64_MAX →
    foldl (λ total entry, wrapping_add_u64 total (ce_size entry)) acc entries
      = acc + sum_by ce_size entries); [|by apply H].
  clear Hs. induction entries as [|e entries IH]; intros acc Hs; [cbn; lia|].
  cbn [foldl]. rewrite sum_by_cons in *. rewrite IH.
  - unfold wrapping_add_u64. rewrite N.mod_small by (unfold U64_MAX in *; lia). lia.
  - unfold wrapping_add_u64. rewrite N.mod_small by (unfold U64_MAX in *; lia). lia.
Qed.

Lemma prune_loop_spec remove maximum removed entries r kept :
  prune_loop remove maximum (sum_by ce_size entries) removed entries = (r, kept) →
  ∃ gone, entries = gone ++ kept ∧ Forall (λ e, remove (ce_path e) = None) gone ∧
    (∀ g, last gone = Some g → maximum < ce_size g + sum_by ce_size kept) ∧
    match r with
    | Ok (total, count) => total = sum_by ce_size kept ∧ total ≤ maximum ∧ count = removed + lenN gone
    | Err e => maximum < sum_by ce_size kept ∧
               ∃ k rest, kept = k :: rest ∧ remove (ce_path k) = Some e
    end.
Proof.
  revert removed. induction entries as [|entry rest IH]; intros removed; cbn [prune_loop].
  { intros [= <- <-]. exists []. split_and!; [done|done|done|done|apply N.le_0_l|]. unfold lenN. cbn. lia. }
  destruct (N.leb_spec (sum_by ce_size (entry :: rest)) maximum) as [Hle|Hgt].
  { intros [= <- <-]. exists []. split_and!; [done|done|done|done|done|]. unfold lenN. cbn. lia. }
  destruct (remove (ce_path entry)) as [e|] eqn:Hr.
  { intros [= <- <-]. exists []. split_and!; [done|done|done|done|]. by exists entry, rest. }
  replace (sum_by ce_size (entry :: rest) - ce_size entry) with (sum_by ce_size rest)
    by (rewrite sum_by_cons; lia).
  intros (gone & -> & Hg & Hlast & Hres)%IH. exists (entry :: gone).
  split_and!; [done|by constructor| |].
  - intros g Hl. destruct gone as [|g' gone]; [|by apply Hlast].
    injection Hl as <-. by rewrite sum_by_cons in Hgt.
  - destruct r as [[total count]|]; [|done]. destruct Hres as (? & ? & ->).
    split_and!; [done|done|]. rewrite lenN_cons. lia.
Qed.

(** Pruning removes the oldest entries, as few as needed.  If the sizes add
    up within 64 bits, the entries removed and kept are those found, nothing
    kept is older than anything removed, and every removal was needed to reach
    the limit; on success the bytes kept are within the limit and are the
    number reported.  A refused removal stops the loop at that entry, above
    the limit. *)
Theorem prune_cache_spec remove maximum entries r kept :
  sum_by ce_size entries ≤ U64_MAX → prune_entries remove maximum entries = (r, kept) →
  ∃ gone, gone ++ kept ≡ₚ entries ∧ Forall (λ e, remove (ce_path e) = None) gone ∧
    (∀ g k, g ∈ gone → k ∈ kept → ce_modified g ≤ ce_modified k) ∧
    (∀ g, last gone = Some g → maximum < ce_size g + sum_by ce_size kept) ∧
    match r with
    | Ok (total, count) => total = sum_by ce_size kept ∧ total ≤ maximum ∧ count = lenN gone
    | Err e => maximum < sum_by ce_size kept ∧
               ∃ k rest, kept = k :: rest ∧ remove (ce_path k) = Some e
    end.
Proof.
  intros Hs. unfold prune_entries. pose proof (sort_by_key_perm ce_modified entries) as Hperm.
  pose proof (sort_by_key_sorted ce_modified entries) as Hsorted.
  rewrite total_size_spec by (by rewrite (sum_by_perm _ _ _ Hperm)).
  intros (gone & Heq & Hg & Hlast & Hres)%prune_loop_spec. exists gone.
  rewrite Heq in Hsorted, Hperm. split_and!; [done|done| |done|].
  - intros g k Hgone Hkept. exact (StronglySorted_app_1_elem_of _ _ _ _ _ Hsorted Hgone Hkept).
  - destruct r as [[total count]|]; [|done]. by rewrite N.add_0_l in Hres.
Qed.

(** The cache is found completely.  When every listing below the cache
    directory can be read, or does not exist, the traversal ends and finds
    each regular file below it exactly once, with its size and time; when one
    cannot be read it ends with an error, never with a partial list.  One
    iteration per directory is enough. *)
Theorem cache_entries_complete root listing fuel :
  (directories (FsDirectory listing) ≤ fuel)%nat →
  ∃ r, cache_entries fuel root (FsDirectory listing) = Some r ∧
    match r with
    | Ok found => found ≡ₚ files_below (join root "chunks") (FsDirectory listing) ∧
                  readable (FsDirectory listing) = true
    | Err _ => readable (FsDirectory listing) = false
    end.
Proof.
  intros Hf. destruct (cache_walk_spec fuel [(join root "chunks", FsDirectory listing)] [])
    as (r & Hr & Hres); [unfold pending_directories; cbn [map]; unfold list_sum; cbn [foldr snd]; lia|done|].
  exists r. split; [exact Hr|]. unfold pending_files, pending_readable in Hres. cbn [map concat forallb] in Hres.
  rewrite andb_true_r, !app_nil_r in Hres. exact Hres.
Qed.

(** ** Exit codes *)

Lemma write_json_line_exit {B W} `{!Write W} line (s s' : Agent B W) e :
  write_json_line line s = (Err e, s') →
  exit_code (Err (protocol_error e)) = true ↔
  ∃ w io w', to_writer line (ag_output s) = (None, w) ∧ newline_flush w = (Some io, w') ∧
             io_broken_pipe io = true.
Proof.
  unfold write_json_line. destruct (to_writer line (ag_output s)) as [[io|] w] eqn:Hw.
  - intros [= <- <-]. split; [done|]. by intros (? & ? & ? & ? & _).
  - destruct (newline_flush w) as [[io|] w'] eqn:Hf; [|done]. intros [= <- <-]. cbn.
    split; [|intros (? & ? & ? & [= <-] & Hf' & Hb); by rewrite Hf in Hf'; injection Hf' as <- _; rewrite Hb].
    intros Hb. exists w, io, w'. split_and!; [done|done|]. by destruct (io_broken_pipe io).
Qed.
