(* ===== verification/Reconcile.v ===== *)
(** * Reconcile: the reachability scan of [reconcile.rs]

    [scan] mirrors a repository with [git], lists its references and collects
    the LFS pointers [git grep] finds.  [git] is the interface [Commands]; the
    scan itself only reads what it prints. *)
From S2P Require Import Prelude Digest Text.

(** ** Data *)

Record ReachabilityScan := mkReachabilityScan {
  ref_fingerprint : string;
  reachable_objects : list ObjectOid;
}.

Inductive ScanError :=
| ScanIo (error : IoError)
| ScanCommand (program : string) (status : option N)
| ScanUtf8 (error : Utf8Error)
| ScanMalformed (line : string).

(** The order of [ObjectOid]: lexicographic on its bytes. *)
Fixpoint bytes_compare (a b : bytes) : comparison :=
  match a, b with
  | [], [] => Eq
  | [], _ => Lt
  | _, [] => Gt
  | x :: a, y :: b =>
      match N.compare (Byte.to_N x) (Byte.to_N y) with
      | Eq => bytes_compare a b
      | c => c
      end
  end.
Definition oid_compare (a b : ObjectOid) : comparison :=
  bytes_compare (ObjectOid_as_bytes a) (ObjectOid_as_bytes b).
Definition oid_lt (a b : ObjectOid) : Prop := oid_compare a b = Lt.

(** [BTreeSet::insert]; the set is the list its iterator yields. *)
Fixpoint btree_insert (x : ObjectOid) (set : list ObjectOid) : list ObjectOid :=
  match set with
  | [] => [x]
  | y :: rest =>
      match oid_compare x y with
      | Lt => x :: set
      | Eq => set
      | Gt => y :: btree_insert x rest
      end
  end.

Definition POINTER_VERSION : string := "version https://git-lfs.github.com/spec/v1".

Section Scan.
  Context {G : Type} {commands : Commands G} {hex : HexCodec} {hashes : Hashes}.

(** ** Commands *)

Definition Scan (A : Type) : Type := G → result ScanError A * G.
#[export] Instance scan_ret : MRet Scan := λ A a g, (Ok a, g).
#[export] Instance scan_bind : MBind Scan := λ A B f c g,
  match c g with
  | (Ok a, g) => f a g
  | (Err e, g) => (Err e, g)
  end.
Definition scan_result {A} (r : result ScanError A) : Scan A := λ g, (r, g).

Definition format_command (program : string) (arguments : list string) : string :=
  foldl (λ display argument, display +:+ " " +:+ to_string_lossy argument)
    (to_string_lossy program) arguments.

Definition scan_command (program : string) (arguments : list string) : Scan (option N * bytes) :=
  λ g, let '(r, g) := command_output program arguments g in (map_err ScanIo r, g).

Definition run (program : string) (arguments : list string) : Scan unit :=
  let! out := scan_command program arguments in
  if exit_success out.1 then mret tt
  else scan_result (Err (ScanCommand (format_command program arguments) out.1)).

Definition output (program : string) (arguments : list string) : Scan bytes :=
  let! out := scan_command program arguments in
  if exit_success out.1 then mret out.2
  else scan_result (Err (ScanCommand (format_command program arguments) out.1)).

(** [git grep] exits with 1 and prints nothing when nothing matches. *)
Definition output_allow_no_matches (program : string) (arguments : list string) : Scan bytes :=
  let! out := scan_command program arguments in
  match out.1, out.2 with
  | Some 0, stdout => mret stdout
  | Some 1, [] => mret []
  | status, _ => scan_result (Err (ScanCommand (format_command program arguments) status))
  end.

Definition scan_utf8 (b : bytes) : result ScanError string := map_err ScanUtf8 (from_utf8 b).

(** ** Pointers *)

(** What the loop of [parse_pointer_candidates] makes of the text a candidate
    shows: [None] when it is not a pointer. *)
Definition read_pointer (specification pointer : string) : result ScanError (option ObjectOid) :=
  match lines pointer with
  | [] => Ok None
  | first :: rest =>
      if negb (String.eqb first POINTER_VERSION) then Ok None
      else match rest with
           | oid_line :: size_line :: rest =>
               match rest with
               | _ :: _ => Err (ScanMalformed specification)
               | [] =>
                   if negb (starts_with "size " size_line) then Err (ScanMalformed specification)
                   else let! digest := ok_or (ScanMalformed specification)
                                         (strip_prefix "oid sha256:" oid_line) in
                        let! oid := map_err (λ _, ScanMalformed specification)
                                      (ObjectOid_from_str digest) in
                        Ok (Some oid)
               end
           | _ => Err (ScanMalformed specification)
           end
  end.

Definition pointer_step (mirror : string) (objects : list ObjectOid) (specification : string)
  : Scan (list ObjectOid) :=
  let! shown := output "git" ["-C"; mirror; "show"; specification] in
  let! pointer := scan_result (scan_utf8 shown) in
  let! found := scan_result (read_pointer specification pointer) in
  mret (match found with Some oid => btree_insert oid objects | None => objects end).

Fixpoint pointer_loop (mirror : string) (objects : list ObjectOid) (specifications : list string)
  : Scan (list ObjectOid) :=
  match specifications with
  | [] => mret objects
  | specification :: rest =>
      let! objects := pointer_step mirror objects specification in
      pointer_loop mirror objects rest
  end.

(** [text.lines().filter(|line| !line.trim().is_empty())]. *)
Definition candidate_lines (text : string) : list string :=
  filter (λ line, is_empty (trim line) = false) (lines text).

Definition parse_pointer_candidates (mirror : string) (candidates : bytes) : Scan (list ObjectOid) :=
  let! text := scan_result (scan_utf8 candidates) in
  pointer_loop mirror [] (candidate_lines text).

(** ** The scan *)

Definition ref_names (refs_text : string) : list string :=
  omap (λ line, split_whitespace line !! 1%nat) (lines refs_text).

(** [tempdir] is [tempfile::tempdir()]; the directory is removed at the end. *)
Definition scan (tempdir : result IoError string) (remote : string) : Scan ReachabilityScan :=
  let! directory := scan_result (map_err ScanIo tempdir) in
  let mirror := join directory "repository.git" in
  let! _ := run "git" ["clone"; "--mirror"; remote; mirror] in
  let! refs := output "git" ["-C"; mirror; "show-ref"] in
  let ref_fingerprint := hex_encode (digest_bytes (sha256_digest refs)) in
  let! refs_text := scan_result (scan_utf8 refs) in
  let! candidates := output_allow_no_matches "git"
    (["-C"; mirror; "grep"; "-l"; "-F"; POINTER_VERSION] ++ ref_names refs_text ++ ["--"]) in
  let! reachable_objects := parse_pointer_candidates mirror candidates in
  mret (mkReachabilityScan ref_fingerprint reachable_objects).

(** ** The specification *)

(** A text is a pointer to [oid]. *)
Definition points_to (pointer : string) (oid : ObjectOid) : Prop :=
  ∃ digest size, lines pointer = [POINTER_VERSION; "oid sha256:" +:+ digest; "size " +:+ size] ∧
                 ObjectOid_from_str digest = Ok oid.
Definition not_a_pointer (pointer : string) : Prop := hd_error (lines pointer) ≠ Some POINTER_VERSION.

Lemma starts_with_iff p s : starts_with p s = true ↔ ∃ t, s = p +:+ t.
Proof.
  unfold starts_with. destruct (strip_prefix p s) as [t|] eqn:H.
  - split; [|done]. intros _. exists t. by apply strip_prefix_Some.
  - split; [done|]. intros [t Ht]. apply strip_prefix_Some in Ht. congruence.
Qed.

Lemma read_pointer_spec specification pointer :
  match read_pointer specification pointer with
  | Ok (Some oid) => points_to pointer oid
  | Ok None => not_a_pointer pointer
  | Err e => e = ScanMalformed specification ∧ ¬ not_a_pointer pointer ∧ ∀ oid, ¬ points_to pointer oid
  end.
Proof.
  unfold read_pointer, points_to, not_a_pointer.
  destruct (lines pointer) as [|first rest]; [done|]. cbn [hd_error].
  destruct (String.eqb_spec first POINTER_VERSION) as [->|Hne]; cbn [negb]; [|congruence].
  assert (Hbad : (∀ oid, ¬ ∃ digest size, POINTER_VERSION :: rest =
      [POINTER_VERSION; "oid sha256:" +:+ digest; "size " +:+ size] ∧ ObjectOid_from_str digest = Ok oid) →
    ScanMalformed specification = ScanMalformed specification ∧
    ¬ Some POINTER_VERSION ≠ Some POINTER_VERSION ∧
    ∀ oid, ¬ ∃ digest size, POINTER_VERSION :: rest =
      [POINTER_VERSION; "oid sha256:" +:+ digest; "size " +:+ size] ∧ ObjectOid_from_str digest = Ok oid).
  { intros H. split_and!; [done|by intros []|done]. }
  destruct rest as [|oid_line [|size_line [|extra rest]]];
    try (apply Hbad; by intros oid (? & ? & ? & _)).
  destruct (starts_with "size " size_line) eqn:Hs; cbn [negb].
  - apply starts_with_iff in Hs as [size ->].
    destruct (strip_prefix "oid sha256:" oid_line) as [digest|] eqn:Ho; cbn [ok_or].
    + apply strip_prefix_Some in Ho as ->. cbn [mbind result_bind].
      destruct (ObjectOid_from_str digest) as [oid|e] eqn:Hd; cbn [map_err mbind result_bind].
      * by exists digest, size.
      * apply Hbad. intros oid (d & s & Heq & Hoid).
        assert (digest = d) as <-; [|congruence].
        assert (strip_prefix "oid sha256:" ("oid sha256:" +:+ d) = Some d) as Hstrip
          by (by apply strip_prefix_Some).
        assert (strip_prefix "oid sha256:" ("oid sha256:" +:+ digest) = Some digest) as Hstrip'
          by (by apply strip_prefix_Some).
        apply (f_equal (λ l : list string, l !! 1%nat)) in Heq. cbn [lookup list_lookup] in Heq.
        assert (∀ a b : string, Some a = Some b → a = b) as Hinj by (by intros ? ? [= ->]).
        apply Hinj in Heq. rewrite Heq in Hstrip'. congruence.
    + apply Hbad. intros oid (d & s & [= -> _] & _).
      assert (strip_prefix "oid sha256:" ("oid sha256:" +:+ d) = Some d) by (by apply strip_prefix_Some).
      congruence.
  - apply Hbad. intros oid (d & s & [= _ ->] & _).
    assert (starts_with "size " ("size " +:+ s) = true) by (apply starts_with_iff; eauto). congruence.
Qed.

(** ** The ordered set *)

Lemma bytes_compare_eq a b : bytes_compare a b = Eq ↔ a = b.
Proof.
  revert b. induction a as [|x a IH]; intros [|y b]; cbn; [done..|].
  destruct (N.compare_spec (Byte.to_N x) (Byte.to_N y)) as [Hxy|Hxy|Hxy].
  - rewrite IH. assert (x = y) as ->; [|split; congruence].
    apply (f_equal Byte.of_N) in Hxy. rewrite !Byte.of_to_N in Hxy. congruence.
  - split; [done|]. intros [= -> _]. lia.
  - split; [done|]. intros [= -> _]. lia.
Qed.

Lemma bytes_compare_antisym a b : bytes_compare b a = CompOpp (bytes_compare a b).
Proof.
  revert b. induction a as [|x a IH]; intros [|y b]; cbn; [done..|].
  rewrite (N.compare_antisym (Byte.to_N x) (Byte.to_N y)).
  destruct (Byte.to_N x ?= Byte.to_N y)%N; cbn; [apply IH|done|done].
Qed.

Lemma bytes_compare_trans a b c :
  bytes_compare a b = Lt → bytes_compare b c = Lt → bytes_compare a c = Lt.
Proof.
  revert b c. induction a as [|x a IH]; intros [|y b] [|z c]; cbn; [done..|].
  destruct (N.compare_spec (Byte.to_N x) (Byte.to_N y)) as [Hxy|Hxy|Hxy]; intros H1; [| |done];
    (destruct (N.compare_spec (Byte.to_N y) (Byte.to_N z)) as [Hyz|Hyz|Hyz]; intros H2; [| |done]).
  - rewrite Hxy, Hyz, N.compare_refl. by eapply IH.
  - rewrite Hxy. apply N.compare_lt_iff in Hyz as ->. done.
  - rewrite <- Hyz. apply N.compare_lt_iff in Hxy as ->. done.
  - assert (Byte.to_N x ?= Byte.to_N z = Lt) as -> by (apply N.compare_lt_iff; lia). done.
Qed.

Lemma oid_compare_eq a b : oid_compare a b = Eq ↔ a = b.
Proof.
  unfold oid_compare. rewrite bytes_compare_eq. split; [apply ObjectOid_as_bytes_inj|by intros ->].
Qed.

Lemma btree_insert_elem x set o : o ∈ btree_insert x set ↔ o = x ∨ o ∈ set.
Proof.
  induction set as [|y rest IH]; cbn; [set_solver|].
  destruct (oid_compare x y) eqn:Hc; [|set_solver|set_solver].
  apply oid_compare_eq in Hc as ->. set_solver.
Qed.

Lemma btree_insert_sorted x set :
  StronglySorted oid_lt set → StronglySorted oid_lt (btree_insert x set).
Proof.
  induction 1 as [|y rest Hs IH Hy]; cbn; [repeat constructor|].
  destruct (oid_compare x y) eqn:Hc.
  - by constructor.
  - constructor; [by constructor|]. constructor; [done|]. eapply Forall_impl; [exact Hy|].
    intros z Hz. unfold oid_lt, oid_compare in *. by eapply bytes_compare_trans.
  - constructor; [done|]. apply Forall_forall. intros z [->|Hz]%btree_insert_elem.
    + unfold oid_lt, oid_compare in *. by rewrite bytes_compare_antisym, Hc.
    + by eapply Forall_forall in Hy.
Qed.

(** ** The candidates *)

Section Candidates.
  Context (mirror : string) (shown : string → result ScanError bytes).
  (** Showing an object reads the mirror and leaves it as it is. *)
  Hypothesis Hshow : ∀ specification g,
    output "git" ["-C"; mirror; "show"; specification] g = (shown specification, g).

(** The text a candidate shows. *)
Definition shows (specification pointer : string) : Prop :=
  ∃ b, shown specification = Ok b ∧ from_utf8 b = Ok pointer.

(** Why a candidate stops the scan. *)
Definition stops (specification : string) (e : ScanError) : Prop :=
  shown specification = Err e ∨
  (∃ b u, shown specification = Ok b ∧ from_utf8 b = Err u ∧ e = ScanUtf8 u) ∨
  (∃ pointer, shows specification pointer ∧ e = ScanMalformed specification ∧
              ¬ not_a_pointer pointer ∧ ∀ oid, ¬ points_to pointer oid).

Lemma pointer_step_spec objects specification g :
  ∃ r, pointer_step mirror objects specification g = (r, g) ∧
  match r with
  | Ok objects' =>
      ∃ pointer, shows specification pointer ∧
        ((not_a_pointer pointer ∧ objects' = objects) ∨
         ∃ oid, points_to pointer oid ∧ objects' = btree_insert oid objects)
  | Err e => stops specification e
  end.
Proof.
  unfold pointer_step, mbind, scan_bind, scan_result. rewrite Hshow.
  destruct (shown specification) as [b|e] eqn:Hs; [|eexists; split; [done|by left]].
  unfold scan_utf8. destruct (from_utf8 b) as [pointer|u] eqn:Hu; cbn [map_err];
    [|eexists; split; [done|right; left; by eauto]].
  assert (shows specification pointer) by (by exists b).
  pose proof (read_pointer_spec specification pointer) as Hr.
  destruct (read_pointer specification pointer) as [[oid|]|e]; cbn; (eexists; split; [done|]).
  - exists pointer. split; [done|right]. by exists oid.
  - exists pointer. split; [done|by left].
  - right; right. exists pointer. destruct Hr as (-> & ? & ?). done.
Qed.

Lemma points_to_functional pointer oid oid' :
  points_to pointer oid → points_to pointer oid' → oid = oid'.
Proof.
  intros (d & s & H & Hd) (d' & s' & H' & Hd'). rewrite H in H'.
  apply (f_equal (λ l : list string, l !! 1%nat)) in H'. cbn [lookup list_lookup] in H'.
  assert (∀ a b : string, Some a = Some b → a = b) as Hinj by (by intros ? ? [= ->]).
  apply Hinj in H'. apply (inj (String.append "oid sha256:")) in H'. congruence.
Qed.

Lemma pointer_loop_spec objects specifications g :
  StronglySorted oid_lt objects →
  ∃ r, pointer_loop mirror objects specifications g = (r, g) ∧
  match r with
  | Ok found =>
      StronglySorted oid_lt found ∧
      (∀ oid, oid ∈ found ↔ oid ∈ objects ∨
         ∃ specification pointer, specification ∈ specifications ∧
           shows specification pointer ∧ points_to pointer oid) ∧
      (∀ specification, specification ∈ specifications → ∃ pointer,
         shows specification pointer ∧ (not_a_pointer pointer ∨ ∃ oid, points_to pointer oid))
  | Err e => ∃ specification, specification ∈ specifications ∧ stops specification e
  end.
Proof.
  revert objects. induction specifications as [|specification rest IH]; intros objects Hs; cbn.
  { exists (Ok objects). split_and!; [done|done| |set_solver]. intros oid. set_solver. }
  unfold mbind, scan_bind. destruct (pointer_step_spec objects specification g) as (r & -> & Hr).
  destruct r as [objects'|e]; [|exists (Err e); split; [done|]; exists specification; set_solver].
  destruct Hr as (pointer & Hshown & Hpointer).
  assert (StronglySorted oid_lt objects') as Hs'.
  { destruct Hpointer as [[_ ->]|(oid & _ & ->)]; [done|by apply btree_insert_sorted]. }
  destruct (IH objects' Hs') as (r & -> & Hrest). exists r. split; [done|].
  destruct r as [found|e]; [|destruct Hrest as (s & ? & ?); exists s; set_solver].
  destruct Hrest as (Hsorted & Hfound & Hall).
  assert (Hfun : ∀ p, shows specification p → p = pointer).
  { intros p (b & Hb & Hp). destruct Hshown as (b' & Hb' & Hp'). congruence. }
  split_and!; [done| |].
  - intros oid. rewrite Hfound. split.
    + intros [Hin|(s & p & ? & ? & ?)]; [|right; exists s, p; set_solver].
      destruct Hpointer as [[_ ->]|(o & Ho & ->)]; [by left|].
      apply btree_insert_elem in Hin as [->|?]; [right|by left].
      exists specification, pointer. set_solver.
    + intros [Hin|(s & p & Hin & Hp & Ho)].
      * left. destruct Hpointer as [[_ ->]|(o & _ & ->)]; [done|]. apply btree_insert_elem. by right.
      * apply elem_of_cons in Hin as [->|Hin]; [|right; by exists s, p].
        apply Hfun in Hp as ->. left.
        destruct Hpointer as [[Hnot _]|(o & Ho' & ->)].
        -- destruct Ho as (d & z & Hl & _). unfold not_a_pointer in Hnot. by rewrite Hl in Hnot.
        -- apply btree_insert_elem. left. by eapply points_to_functional.
  - intros s [->|?]%elem_of_cons; [|by apply Hall]. exists pointer. split; [done|].
    destruct Hpointer as [[? _]|(o & ? & _)]; [by left|right; by exists o].
Qed.

(** C32: the scan reports exactly the objects the candidates point to, or fails.
    If it succeeds, every candidate is a text that either does not start with
    the pointer version or is a complete pointer, and the result lists the
    identities of those pointers, in order and without repetition.  If it
    fails, some candidate could not be shown, was not UTF-8, or started like a
    pointer and was not one; nothing is ever left out silently.  The mirror is
    only read. *)
Theorem parse_pointer_candidates_exact candidates text g :
  from_utf8 candidates = Ok text →
  ∃ r, parse_pointer_candidates mirror candidates g = (r, g) ∧
  match r with
  | Ok found =>
      StronglySorted oid_lt found ∧
      (∀ oid, oid ∈ found ↔ ∃ specification pointer,
         specification ∈ candidate_lines text ∧ shows specification pointer ∧ points_to pointer oid) ∧
      (∀ specification, specification ∈ candidate_lines text → ∃ pointer,
         shows specification pointer ∧ (not_a_pointer pointer ∨ ∃ oid, points_to pointer oid))
  | Err e => ∃ specification, specification ∈ candidate_lines text ∧ stops specification e
  end.
Proof.
  intros Hu. unfold parse_pointer_candidates, mbind, scan_bind, scan_result, scan_utf8.
  rewrite Hu. cbn [map_err].
  destruct (pointer_loop_spec [] (candidate_lines text) g) as (r & -> & Hr); [constructor|].
  exists r. split; [done|]. destruct r as [found|e]; [|done].
  destruct Hr as (? & Hf & ?). split_and!; [done| |done]. intros oid. rewrite Hf. set_solver.
Qed.

End Candidates.

End Scan.
