(* ===== verification/Storage.v ===== *)
(** * Storage: [git-lfs-delta-storage/src/lib.rs]

    [ChunkStore] over the [object_store] crate.  The provider is the interface
    [ObjectStore] with the documented contract of each call in
    [ObjectStoreLaws]; [MemStore] is a concrete provider with a schedule of
    injected failures. *)
From S2P Require Import Prelude Digest Protocol.

(** ** The [object_store] interface *)

(** [object_store::Error], as far as the callers distinguish it. *)
Inductive OsError := OsAlreadyExists | OsNotFound | OsOther.

#[global] Instance OsError_eq_dec : EqDecision OsError.
Proof. solve_decision. Defined.

(** The asynchronous calls, as state transitions of the provider [St]; a
    [path] is what [Path::from] makes of a string. *)
Class ObjectStore (St : Type) := {
  os_path : Type;
  #[global] os_path_eq_dec :: EqDecision os_path;
  os_path_from : string → os_path;
  os_put_create : os_path → bytes → St → result OsError unit * St;
  os_put : os_path → bytes → St → result OsError unit * St;
  os_get : os_path → St → result OsError bytes * St;
  os_head : os_path → St → result OsError unit * St;
  os_delete : os_path → St → result OsError unit * St;
  (** The bytes the provider would deliver for a path. *)
  os_lookup : St → os_path → option bytes;
  (** The provider answers every coming call. *)
  os_available : St → Prop;
}.

(** Characters that [Path::from] keeps as they are. *)
Definition is_path_char (c : Ascii.ascii) : bool :=
  let n := Ascii.N_of_ascii c in
  is_lower_hex c || (n =? 45) || (n =? 47) || (n =? 95) || ((97 <=? n) && (n <=? 122)).

(** A failed mutation may or may not have taken effect at the provider; no
    call touches another path. *)
Class ObjectStoreLaws (St : Type) `{!ObjectStore St} := {
  os_path_from_inj s t :
    string_forallb is_path_char s = true → string_forallb is_path_char t = true →
    os_path_from s = os_path_from t → s = t;
  os_put_create_spec p b st r st' :
    os_put_create p b st = (r, st') →
    (∀ q, q ≠ p → os_lookup st' q = os_lookup st q) ∧
    match r with
    | Ok _ => os_lookup st p = None ∧ os_lookup st' p = Some b
    | Err OsAlreadyExists => is_Some (os_lookup st p) ∧ os_lookup st' p = os_lookup st p
    | Err _ => os_lookup st' p = os_lookup st p ∨
               os_lookup st p = None ∧ os_lookup st' p = Some b
    end;
  os_put_spec p b st r st' :
    os_put p b st = (r, st') →
    (∀ q, q ≠ p → os_lookup st' q = os_lookup st q) ∧
    match r with
    | Ok _ => os_lookup st' p = Some b
    | Err _ => os_lookup st' p = os_lookup st p ∨ os_lookup st' p = Some b
    end;
  os_get_spec p st r st' :
    os_get p st = (r, st') →
    (∀ q, os_lookup st' q = os_lookup st q) ∧
    match r with
    | Ok b => os_lookup st p = Some b
    | Err OsNotFound => os_lookup st p = None
    | Err _ => True
    end;
  os_head_spec p st r st' :
    os_head p st = (r, st') →
    (∀ q, os_lookup st' q = os_lookup st q) ∧
    match r with
    | Ok _ => is_Some (os_lookup st p)
    | Err OsNotFound => os_lookup st p = None
    | Err _ => True
    end;
  os_delete_spec p st r st' :
    os_delete p st = (r, st') →
    (∀ q, q ≠ p → os_lookup st' q = os_lookup st q) ∧
    match r with
    | Ok _ => os_lookup st' p = None
    | Err OsNotFound => os_lookup st p = None ∧ os_lookup st' p = None
    | Err _ => os_lookup st' p = os_lookup st p ∨ os_lookup st' p = None
    end;
  os_available_get p st :
    os_available st →
    (os_get p st).1 = ok_or OsNotFound (os_lookup st p) ∧ os_available (os_get p st).2;
  os_available_put_create p b st :
    os_available st →
    (os_put_create p b st).1 =
      match os_lookup st p with None => Ok tt | Some _ => Err OsAlreadyExists end ∧
    os_available (os_put_create p b st).2;
  os_available_head p st :
    os_available st →
    (os_head p st).1 = match os_lookup st p with Some _ => Ok tt | None => Err OsNotFound end ∧
    os_available (os_head p st).2;
  os_available_delete p st :
    os_available st →
    (os_delete p st).1 = match os_lookup st p with Some _ => Ok tt | None => Err OsNotFound end ∧
    os_available (os_delete p st).2;
}.

(** [Uuid]'s [Display]: hyphenated lower-case hexadecimal, injective. *)
Class UuidTextLaws `{!UuidText} := {
  uuid_display_length u : String.length (uuid_display u) = 36%nat;
  uuid_display_chars u :
    string_forallb (λ c, is_lower_hex c || (Ascii.N_of_ascii c =? 45)) (uuid_display u) = true;
  uuid_display_inj u v : uuid_display u = uuid_display v → u = v;
}.

Inductive StorageError :=
| ProbeMismatch
| DigestMismatch (expected : ChunkId) (actual : string)
| Provider (error : OsError).

Section ChunkStore.
  Context {St : Type} {object_store : ObjectStore St} {hex : HexCodec}
          {hashes : Hashes} {uuid_text : UuidText}.

(** ** Digest check and path of a chunk *)

Definition verify_digest (expected : ChunkId) (b : bytes) : result StorageError unit :=
  let actual := blake3_hash b in
  if decide (digest_bytes actual = ChunkId_as_bytes expected) then Ok tt
  else Err (DigestMismatch expected (hex_encode (digest_bytes actual))).

(** The formatted key; [&digest[..2]] is the prefix of two characters. *)
Definition chunk_key (repository_id : Uuid) (chunk_id : ChunkId) : string :=
  let digest := ChunkId_display chunk_id in
  "repositories/" +:+ uuid_display repository_id +:+ "/chunks/" +:+
  String.substring 0 2 digest +:+ "/" +:+ digest.

Definition chunk_path (repository_id : Uuid) (chunk_id : ChunkId) : os_path :=
  os_path_from (chunk_key repository_id chunk_id).

Definition StorageError_display (e : StorageError) : string :=
  match e with
  | ProbeMismatch => "object storage readiness probe returned unexpected bytes"
  | DigestMismatch e a =>
      "chunk digest mismatch: expected " +:+ ChunkId_display e +:+ ", received " +:+ a
  | Provider _ => "object storage failed"
  end.

(** ** The operations of [ChunkStore] *)

Definition put_verified (repository_id : Uuid) (claimed_id : ChunkId) (b : bytes) (st : St)
  : result StorageError unit * St :=
  match verify_digest claimed_id b with
  | Err e => (Err e, st)
  | Ok _ =>
      let '(r, st) := os_put_create (chunk_path repository_id claimed_id) b st in
      (match r with
       | Ok _ | Err OsAlreadyExists => Ok tt
       | Err error => Err (Provider error)
       end, st)
  end.

Definition get_verified (repository_id : Uuid) (chunk_id : ChunkId) (st : St)
  : result StorageError bytes * St :=
  let '(r, st) := os_get (chunk_path repository_id chunk_id) st in
  (let! b := map_err Provider r in
   let! _ := verify_digest chunk_id b in
   Ok b, st).

Definition exists_chunk (repository_id : Uuid) (chunk_id : ChunkId) (st : St)
  : result StorageError bool * St :=
  let '(r, st) := os_head (chunk_path repository_id chunk_id) st in
  (match r with
   | Ok _ => Ok true
   | Err OsNotFound => Ok false
   | Err error => Err (Provider error)
   end, st).

Definition delete_chunk (repository_id : Uuid) (chunk_id : ChunkId) (st : St)
  : result StorageError unit * St :=
  let '(r, st) := os_delete (chunk_path repository_id chunk_id) st in
  (match r with
   | Ok _ | Err OsNotFound => Ok tt
   | Err error => Err (Provider error)
   end, st).

(** [b"git-lfs-delta-ready"]. *)
Definition probe_bytes : bytes :=
  [x67; x69; x74; x2d; x6c; x66; x73; x2d; x64; x65; x6c; x74; x61; x2d; x72; x65; x61; x64; x79].

(** [healthcheck], with the identifier [Uuid::new_v4()] drew. *)
Definition healthcheck (probe : Uuid) (st : St) : result StorageError unit * St :=
  let path := os_path_from ("_health/" +:+ uuid_display probe) in
  let '(r, st) := os_put path probe_bytes st in
  match r with
  | Err e => (Err (Provider e), st)
  | Ok _ =>
      let '(r, st) := os_get path st in
      match r with
      | Err e => (Err (Provider e), st)
      | Ok actual =>
          let '(r, st) := os_delete path st in
          match r with
          | Err e => (Err (Provider e), st)
          | Ok _ => (if decide (actual = probe_bytes) then Ok tt else Err ProbeMismatch, st)
          end
      end
  end.

(** ** Invariant: a stored chunk hashes to its identity *)

Definition chunk_bytes (st : St) (repository_id : Uuid) (id : ChunkId) : option bytes :=
  os_lookup st (chunk_path repository_id id).

Definition stored (st : St) (repository_id : Uuid) (id : ChunkId) (b : bytes) : Prop :=
  chunk_bytes st repository_id id = Some b ∧
  ChunkId_from_bytes (blake3_hash b) = id.

Definition content_ok (st : St) : Prop :=
  ∀ repository_id id b,
    chunk_bytes st repository_id id = Some b → ChunkId_from_bytes (blake3_hash b) = id.

(** ** Lemmas *)

Lemma verify_digest_ok id b :
  verify_digest id b = Ok tt ↔ ChunkId_from_bytes (blake3_hash b) = id.
Proof.
  unfold verify_digest. case_decide as H; split.
  - intros _. destruct id as [d]. f_equal. by apply digest_bytes_inj.
  - done.
  - done.
  - by intros <-.
Qed.

Section Laws.
  Context {store_laws : ObjectStoreLaws St} {hex_laws : HexLaws} {uuid_laws : UuidTextLaws}.

Lemma string_forallb_weaken (p q : Ascii.ascii → bool) s :
  (∀ c, p c = true → q c = true) →
  string_forallb p s = true → string_forallb q s = true.
Proof.
  intros Hpq. induction s as [|c s IH]; cbn; [done|]. intros H. bool_hyps.
  by rewrite Hpq, IH.
Qed.

Lemma string_forallb_substring p s n m :
  string_forallb p s = true → string_forallb p (String.substring n m s) = true.
Proof.
  revert n m. induction s as [|c s IH]; intros [|n] [|m]; cbn; intros H; bool_hyps;
    try done; [by rewrite H, (IH 0%nat m)|by apply IH|by apply IH].
Qed.

Lemma chunk_key_chars r id : string_forallb is_path_char (chunk_key r id) = true.
Proof.
  assert (Hhex : string_forallb is_path_char (ChunkId_display id) = true).
  { eapply string_forallb_weaken; [|apply hex_encode_lower].
    intros c Hc. unfold is_path_char. by rewrite Hc. }
  assert (Hu : string_forallb is_path_char (uuid_display r) = true).
  { eapply string_forallb_weaken; [|apply uuid_display_chars].
    intros c Hc. unfold is_path_char. cbv beta zeta in *.
    destruct (is_lower_hex c); [done|]. cbn [orb] in *. by rewrite Hc. }
  unfold chunk_key. rewrite !string_forallb_app, Hu, Hhex, string_forallb_substring by done.
  done.
Qed.

Lemma chunk_path_key r r' id id' :
  chunk_path r id = chunk_path r' id' → r = r' ∧ id = id'.
Proof.
  intros H. apply os_path_from_inj in H; [|apply chunk_key_chars..].
  unfold chunk_key in H.
  apply (string_app_length_inj "repositories/" "repositories/") in H as [_ H]; [|done].
  apply string_app_length_inj in H as [Hr H]; [|by rewrite !uuid_display_length].
  apply uuid_display_inj in Hr as ->.
  apply (string_app_length_inj "/chunks/" "/chunks/") in H as [_ H]; [|done].
  assert (Hlen : ∀ x, String.length (String.substring 0 2 (ChunkId_display x)) = 2%nat).
  { intros x. unfold ChunkId_display.
    pose proof (hex_encode_length (ChunkId_as_bytes x)) as Hx.
    rewrite ChunkId_as_bytes_length in Hx. cbn in Hx.
    revert Hx. destruct (hex_encode _) as [|c1 [|c2 s]]; [done..|]. by destruct s. }
  apply string_app_length_inj in H as [_ H]; [|by rewrite !Hlen].
  apply (string_app_length_inj "/" "/") in H as [_ H]; [|done].
  by apply ChunkId_display_inj in H as ->.
Qed.

Lemma chunk_path_ne r r' id id' : (r, id) ≠ (r', id') → chunk_path r id ≠ chunk_path r' id'.
Proof. intros H Heq. apply chunk_path_key in Heq as [-> ->]. done. Qed.

(** What each operation does to every chunk of every repository. *)
Lemma put_verified_spec r id b st res st' :
  put_verified r id b st = (res, st') →
  (∀ r' id', (r', id') ≠ (r, id) → chunk_bytes st' r' id' = chunk_bytes st r' id') ∧
  (chunk_bytes st' r id = chunk_bytes st r id ∨
   chunk_bytes st r id = None ∧ stored st' r id b) ∧
  (res = Ok tt → is_Some (chunk_bytes st' r id) ∧ ChunkId_from_bytes (blake3_hash b) = id).
Proof.
  unfold put_verified, chunk_bytes, stored.
  destruct (verify_digest id b) as [[]|e] eqn:Hv;
    [|by intros [= <- <-]; split_and!; [|left|]].
  apply verify_digest_ok in Hv.
  destruct (os_put_create _ b st) as [q st1] eqn:Hp. intros [= <- <-].
  apply os_put_create_spec in Hp as [Hother Hp].
  split; [intros; apply Hother; by apply chunk_path_ne|].
  destruct q as [[]|[]].
  - destruct Hp as [Hn Hs]. split; [right; unfold chunk_bytes; auto|].
    intros _. rewrite Hs. eauto.
  - destruct Hp as [Hs Hsame]. split; [auto|]. intros _. rewrite Hsame. auto.
  - split; [|done]. destruct Hp as [?|[??]]; [auto|right; unfold chunk_bytes; auto].
  - split; [|done]. destruct Hp as [?|[??]]; [auto|right; unfold chunk_bytes; auto].
Qed.

Lemma get_verified_spec r id st res st' :
  get_verified r id st = (res, st') →
  (∀ r' id', chunk_bytes st' r' id' = chunk_bytes st r' id') ∧
  match res with
  | Ok b => stored st r id b
  | Err (Provider OsNotFound) => chunk_bytes st r id = None
  | Err (DigestMismatch e _) =>
      e = id ∧ ∃ b, chunk_bytes st r id = Some b ∧ ChunkId_from_bytes (blake3_hash b) ≠ id
  | Err _ => True
  end.
Proof.
  unfold get_verified, chunk_bytes, stored.
  destruct (os_get _ st) as [q st1] eqn:Hg. intros [= <- <-].
  apply os_get_spec in Hg as [Hsame Hg]. split; [intros; apply Hsame|].
  destruct q as [b|[]]; cbn; [|done..].
  destruct (verify_digest id b) as [[]|e] eqn:Hv; cbn.
  - by apply verify_digest_ok in Hv.
  - assert (verify_digest id b ≠ Ok tt) as Hne by (by rewrite Hv).
    rewrite verify_digest_ok in Hne. unfold verify_digest in Hv.
    case_decide; [done|]. injection Hv as <-. eauto.
Qed.

Lemma exists_chunk_spec r id st res st' :
  exists_chunk r id st = (res, st') →
  (∀ r' id', chunk_bytes st' r' id' = chunk_bytes st r' id') ∧
  match res with
  | Ok true => is_Some (chunk_bytes st r id)
  | Ok false => chunk_bytes st r id = None
  | Err _ => True
  end.
Proof.
  unfold exists_chunk, chunk_bytes. destruct (os_head _ st) as [q st1] eqn:Hh.
  intros [= <- <-]. apply os_head_spec in Hh as [Hsame Hh].
  split; [intros; apply Hsame|]. by destruct q as [[]|[]].
Qed.

Lemma delete_chunk_spec r id st res st' :
  delete_chunk r id st = (res, st') →
  (∀ r' id', (r', id') ≠ (r, id) → chunk_bytes st' r' id' = chunk_bytes st r' id') ∧
  (chunk_bytes st' r id = chunk_bytes st r id ∨ chunk_bytes st' r id = None) ∧
  (res = Ok tt → chunk_bytes st' r id = None).
Proof.
  unfold delete_chunk, chunk_bytes. destruct (os_delete _ st) as [q st1] eqn:Hd.
  intros [= <- <-]. apply os_delete_spec in Hd as [Hother Hd].
  split; [intros; apply Hother; by apply chunk_path_ne|].
  destruct q as [[]|[]]; cbn; naive_solver.
Qed.

(** Chunk paths are repository scoped: no two (repository, chunk)
    pairs share a path, so one repository's chunks are invisible to another. *)
Theorem chunk_path_inj r r' id id' :
  chunk_path r id = chunk_path r' id' → r = r' ∧ id = id'.
Proof. apply chunk_path_key. Qed.

(** An available provider delivers what it has. *)
Lemma get_verified_available r id b st :
  os_available st → stored st r id b →
  (get_verified r id st).1 = Ok b ∧ os_available (get_verified r id st).2.
Proof.
  intros Ha [Hb Hh]. unfold get_verified, chunk_bytes in *.
  destruct (os_available_get (chunk_path r id) st Ha) as [Hg Ha'].
  destruct (os_get (chunk_path r id) st) as [q st']. cbn in *. split; [|done].
  rewrite Hg, Hb. cbn. by rewrite (proj2 (verify_digest_ok id b) Hh).
Qed.

Lemma exists_chunk_available r id st :
  os_available st →
  (exists_chunk r id st).1 = Ok (bool_decide (is_Some (chunk_bytes st r id))) ∧
  os_available (exists_chunk r id st).2.
Proof.
  intros Ha. unfold exists_chunk, chunk_bytes.
  destruct (os_available_head (chunk_path r id) st Ha) as [Hh Ha'].
  destruct (os_head (chunk_path r id) st) as [q st']. cbn in *. split; [|done]. rewrite Hh.
  by destruct (os_lookup st (chunk_path r id)).
Qed.

(** The store is an immutable map: storing never replaces the bytes of a
    chunk nor touches another one; bytes that do not hash to the claimed
    identity are rejected without a call to the provider; an accepted chunk is
    present, also when it already was. *)
Theorem put_verified_immutable r id b st :
  let '(res, st') := put_verified r id b st in
  (∀ r' id' b', chunk_bytes st r' id' = Some b' → chunk_bytes st' r' id' = Some b') ∧
  (∀ r' id', (r', id') ≠ (r, id) → chunk_bytes st' r' id' = chunk_bytes st r' id') ∧
  (res = Ok tt → is_Some (chunk_bytes st' r id)) ∧
  (ChunkId_from_bytes (blake3_hash b) ≠ id →
   res = Err (DigestMismatch id (hex_encode (digest_bytes (blake3_hash b)))) ∧ st' = st).
Proof.
  destruct (put_verified r id b st) as [res st'] eqn:Hp.
  pose proof (put_verified_spec _ _ _ _ _ _ Hp) as (Hother & Hsame & Hok). split_and!.
  - intros r' id' b' Hb. destruct (decide ((r', id') = (r, id))) as [[= -> ->]|Hne].
    + destruct Hsame as [->|[Hn _]]; [done|congruence].
    + by rewrite Hother.
  - done.
  - intros Hres. by apply Hok.
  - intros Hne. unfold put_verified, verify_digest in Hp.
    rewrite decide_False in Hp; [by injection Hp as <- <-|].
    intros Heq. by apply Hne, ChunkId_as_bytes_inj.
Qed.

(** A round trip through an available provider: bytes stored under their
    own identity are read back, from an intact store, as bytes with that
    identity, and as the very same bytes when the chunk was new. *)
Theorem put_get_roundtrip r b st :
  os_available st → content_ok st →
  let id := ChunkId_from_bytes (blake3_hash b) in
  let '(res, st') := put_verified r id b st in
  res = Ok tt ∧ ∃ b', (get_verified r id st').1 = Ok b' ∧
    ChunkId_from_bytes (blake3_hash b') = id ∧ (chunk_bytes st r id = None → b' = b).
Proof.
  intros Ha Hc id. destruct (put_verified r id b st) as [res st'] eqn:Hp.
  pose proof (put_verified_spec _ _ _ _ _ _ Hp) as (_ & Hsame & Hok).
  unfold put_verified in Hp. rewrite (proj2 (verify_digest_ok id b)) in Hp by done.
  destruct (os_available_put_create (chunk_path r id) b st Ha) as [Hres Ha'].
  destruct (os_put_create _ b st) as [q st1]. cbn in Hres, Ha'. injection Hp as <- <-.
  assert ((match q with
           | Ok _ | Err OsAlreadyExists => Ok tt
           | Err error => Err (Provider error)
           end : result StorageError unit) = Ok tt) as Hq by (rewrite Hres; by destruct (os_lookup st _)).
  split; [exact Hq|]. destruct (Hok Hq) as [[b' Hb'] _].
  assert (stored st1 r id b' ∧ (chunk_bytes st r id = None → b' = b)) as [Hst Hnew].
  { destruct Hsame as [Heq|[Hn [Hb Hh]]].
    - rewrite Heq in Hb'. split; [|congruence]. split; [congruence|by eapply Hc].
    - rewrite Hb in Hb'. injection Hb' as <-. by split. }
  exists b'. destruct (get_verified_available r id b' st1 Ha' Hst) as [Hg _].
  split_and!; [done|apply Hst|done].
Qed.

(** [_health/] keys are no chunk keys. *)
Lemma health_path_ne r id probe :
  chunk_path r id ≠ os_path_from ("_health/" +:+ uuid_display probe).
Proof.
  intros H. apply os_path_from_inj in H; [done|apply chunk_key_chars|].
  rewrite string_forallb_app. cbn [andb].
  eapply string_forallb_weaken; [|apply uuid_display_chars].
  intros c Hc. unfold is_path_char. cbv beta zeta in *.
  destruct (is_lower_hex c); [done|]. cbn [orb] in *. by rewrite Hc.
Qed.

(** The probe of a health check is no chunk. *)
Lemma healthcheck_spec probe st r id :
  chunk_bytes (healthcheck probe st).2 r id = chunk_bytes st r id.
Proof.
  unfold healthcheck, chunk_bytes. pose proof (health_path_ne r id probe) as Hne.
  destruct (os_put _ _ _) as [[] st1] eqn:H1; apply os_put_spec in H1 as [H1 _];
    cbn; [|by apply H1].
  destruct (os_get _ st1) as [[] st2] eqn:H2; apply os_get_spec in H2 as [H2 _];
    cbn; [|by rewrite H2, H1].
  destruct (os_delete _ st2) as [[] st3] eqn:H3; apply os_delete_spec in H3 as [H3 _];
    cbn; by rewrite H3, H2, H1.
Qed.

End Laws.
End ChunkStore.

(** ** A concrete provider with injected failures *)

(** Contents, and for each coming call whether it fails with [OsOther];
    [fm_applied] tells whether a failing mutation still takes effect. *)
Record MemStore := mkMemStore {
  fm_contents : gmap string bytes;
  fm_faults : list bool;
  fm_applied : bool;
}.

Definition mem_with (st : MemStore) (m : gmap string bytes) : MemStore :=
  mkMemStore m (tl (fm_faults st)) (fm_applied st).

Definition mem_fault (st : MemStore) : bool := hd false (fm_faults st).

#[global] Instance mem_store : ObjectStore MemStore := {|
  os_path := string;
  os_path_from s := s;
  os_put_create p b st :=
    let m := fm_contents st in
    match m !! p with
    | Some _ => (if mem_fault st then Err OsOther else Err OsAlreadyExists, mem_with st m)
    | None =>
        if mem_fault st
        then (Err OsOther, mem_with st (if fm_applied st then <[p := b]> m else m))
        else (Ok tt, mem_with st (<[p := b]> m))
    end;
  os_put p b st :=
    let m := fm_contents st in
    if mem_fault st
    then (Err OsOther, mem_with st (if fm_applied st then <[p := b]> m else m))
    else (Ok tt, mem_with st (<[p := b]> m));
  os_get p st :=
    let m := fm_contents st in
    (if mem_fault st then Err OsOther else ok_or OsNotFound (m !! p), mem_with st m);
  os_head p st :=
    let m := fm_contents st in
    (if mem_fault st then Err OsOther
     else match m !! p with Some _ => Ok tt | None => Err OsNotFound end, mem_with st m);
  os_delete p st :=
    let m := fm_contents st in
    if mem_fault st
    then (Err OsOther, mem_with st (if fm_applied st then delete p m else m))
    else match m !! p with
         | Some _ => (Ok tt, mem_with st (delete p m))
         | None => (Err OsNotFound, mem_with st m)
         end;
  os_lookup st p := fm_contents st !! p;
  os_available st := fm_faults st = [];
|}.

#[global] Instance mem_store_laws : ObjectStoreLaws MemStore.
Proof.
  split; cbn.
  - done.
  - intros p b st r st'. destruct (fm_contents st !! p) eqn:Hp, (mem_fault st), (fm_applied st);
      intros [= <- <-]; cbn; rewrite ?Hp; split; intros; simplify_map_eq; eauto.
  - intros p b st r st'. destruct (mem_fault st), (fm_applied st);
      intros [= <- <-]; cbn; split; intros; simplify_map_eq; eauto.
  - intros p st r st'. destruct (mem_fault st), (fm_contents st !! p) eqn:Hp;
      intros [= <- <-]; cbn; rewrite ?Hp; eauto.
  - intros p st r st'. destruct (mem_fault st), (fm_contents st !! p) eqn:Hp;
      intros [= <- <-]; cbn; rewrite ?Hp; eauto.
  - intros p st r st'. destruct (fm_contents st !! p) eqn:Hp, (mem_fault st), (fm_applied st);
      intros [= <- <-]; cbn; rewrite ?Hp; split; intros; simplify_map_eq; eauto.
  - intros p st Hf. unfold mem_fault, mem_with. by rewrite Hf.
  - intros p b st Hf. unfold mem_fault, mem_with. rewrite Hf. by destruct (fm_contents st !! p).
  - intros p st Hf. unfold mem_fault, mem_with. by rewrite Hf.
  - intros p st Hf. unfold mem_fault, mem_with. rewrite Hf. by destruct (fm_contents st !! p).
Qed.

(** [Uuid] text: five groups of hexadecimal digits of the 128-bit value. *)
Fixpoint hex_digits (n : nat) (u : N) : string :=
  match n with
  | O => EmptyString
  | S n => String (hex_digit ((u / 16 ^ N.of_nat n) `mod` 16)) (hex_digits n u)
  end.

Definition plain_uuid_display (u : Uuid) : string :=
  let n := uuid_value u in
  hex_digits 8 (n / 16 ^ 24) +:+ "-" +:+ hex_digits 4 (n / 16 ^ 20) +:+ "-" +:+
  hex_digits 4 (n / 16 ^ 16) +:+ "-" +:+ hex_digits 4 (n / 16 ^ 12) +:+ "-" +:+ hex_digits 12 n.

#[global] Instance plain_uuid : UuidText := {| uuid_display := plain_uuid_display |}.

Lemma hex_digits_length n u : String.length (hex_digits n u) = n.
Proof. induction n as [|n IH]; cbn; [done|]. by rewrite IH. Qed.

Lemma hex_digits_lower n u : string_forallb is_lower_hex (hex_digits n u) = true.
Proof.
  induction n as [|n IH]; cbn [hex_digits string_forallb]; [done|].
  rewrite IH. by rewrite (proj2 (hex_digit_spec _ (N.mod_lt _ 16 ltac:(done)))).
Qed.

Lemma hex_digit_inj a b : a < 16 → b < 16 → hex_digit a = hex_digit b → a = b.
Proof.
  intros Ha Hb H. pose proof (proj1 (hex_digit_spec a Ha)) as H1.
  rewrite H, (proj1 (hex_digit_spec b Hb)) in H1. congruence.
Qed.

Lemma hex_digits_inj n u v :
  hex_digits n u = hex_digits n v → u `mod` 16 ^ N.of_nat n = v `mod` 16 ^ N.of_nat n.
Proof.
  induction n as [|n IH]; cbn [hex_digits]; [by rewrite !N.mod_1_r|].
  intros [= Hd Hrest]. specialize (IH Hrest).
  apply hex_digit_inj in Hd; [|by apply N.mod_lt..].
  rewrite Nat2N.inj_succ, N.pow_succ_r', (N.mul_comm 16).
  by rewrite !N.Div0.mod_mul_r, IH, Hd.
Qed.

Lemma plain_uuid_groups u v :
  plain_uuid_display u = plain_uuid_display v →
  (uuid_value u / 16 ^ 24) `mod` 16 ^ 8 = (uuid_value v / 16 ^ 24) `mod` 16 ^ 8 ∧
  (uuid_value u / 16 ^ 20) `mod` 16 ^ 4 = (uuid_value v / 16 ^ 20) `mod` 16 ^ 4 ∧
  (uuid_value u / 16 ^ 16) `mod` 16 ^ 4 = (uuid_value v / 16 ^ 16) `mod` 16 ^ 4 ∧
  (uuid_value u / 16 ^ 12) `mod` 16 ^ 4 = (uuid_value v / 16 ^ 12) `mod` 16 ^ 4 ∧
  uuid_value u `mod` 16 ^ 12 = uuid_value v `mod` 16 ^ 12.
Proof.
  unfold plain_uuid_display. intros H.
  apply string_app_length_inj in H as [H1 H]; [|by rewrite !hex_digits_length].
  apply (string_app_length_inj "-" "-") in H as [_ H]; [|done].
  apply string_app_length_inj in H as [H2 H]; [|by rewrite !hex_digits_length].
  apply (string_app_length_inj "-" "-") in H as [_ H]; [|done].
  apply string_app_length_inj in H as [H3 H]; [|by rewrite !hex_digits_length].
  apply (string_app_length_inj "-" "-") in H as [_ H]; [|done].
  apply string_app_length_inj in H as [H4 H]; [|by rewrite !hex_digits_length].
  apply (string_app_length_inj "-" "-") in H as [_ H5]; [|done].
  split_and!; [by apply (hex_digits_inj 8)|by apply (hex_digits_inj 4)|
    by apply (hex_digits_inj 4)|by apply (hex_digits_inj 4)|by apply (hex_digits_inj 12)].
Qed.

(** A 128-bit number is determined by its five groups. *)
Lemma split_128 n : n < UUID_LIMIT →
  n = (n / 16 ^ 24) `mod` 16 ^ 8 * 16 ^ 24 + (n / 16 ^ 20) `mod` 16 ^ 4 * 16 ^ 20 +
      (n / 16 ^ 16) `mod` 16 ^ 4 * 16 ^ 16 + (n / 16 ^ 12) `mod` 16 ^ 4 * 16 ^ 12 +
      n `mod` 16 ^ 12.
Proof.
  intros Hn. unfold UUID_LIMIT in Hn.
  replace (n / 16 ^ 16) with (n / 16 ^ 12 / 16 ^ 4) by (by rewrite N.Div0.div_div).
  replace (n / 16 ^ 20) with (n / 16 ^ 12 / 16 ^ 4 / 16 ^ 4) by (by rewrite !N.Div0.div_div).
  replace (n / 16 ^ 24) with (n / 16 ^ 12 / 16 ^ 4 / 16 ^ 4 / 16 ^ 4)
    by (by rewrite !N.Div0.div_div).
  pose proof (N.div_mod' n (16 ^ 12)) as E1.
  set (a := n / 16 ^ 12) in *. pose proof (N.div_mod' a (16 ^ 4)) as E2.
  set (b := a / 16 ^ 4) in *. pose proof (N.div_mod' b (16 ^ 4)) as E3.
  set (c := b / 16 ^ 4) in *. pose proof (N.div_mod' c (16 ^ 4)) as E4.
  set (d := c / 16 ^ 4) in *.
  clearbody a b c d.
  change (16 ^ 12) with 281474976710656 in *. change (16 ^ 4) with 65536 in *.
  change (16 ^ 8) with 4294967296. change (16 ^ 16) with 18446744073709551616.
  change (16 ^ 20) with 1208925819614629174706176.
  change (16 ^ 24) with 79228162514264337593543950336.
  generalize dependent (n `mod` 281474976710656). generalize dependent (a `mod` 65536).
  generalize dependent (b `mod` 65536). generalize dependent (c `mod` 65536).
  intros x1 E4 x2 E3 x3 E2 x4 E1.
  rewrite (N.mod_small d) by lia. lia.
Qed.

#[global] Instance plain_uuid_laws : UuidTextLaws.
Proof.
  split; cbn; intros u.
  - by unfold plain_uuid_display.
  - unfold plain_uuid_display.
    assert (Hw : ∀ n x, string_forallb (λ c, is_lower_hex c || (Ascii.N_of_ascii c =? 45))
                          (hex_digits n x) = true).
    { intros n x. eapply string_forallb_weaken; [|apply hex_digits_lower].
      intros c Hc. by rewrite Hc. }
    by rewrite !string_forallb_app, !Hw.
  - intros v H. apply plain_uuid_groups in H as (H1 & H2 & H3 & H4 & H5).
    apply uuid_value_inj.
    rewrite (split_128 _ (uuid_value_lt u)), (split_128 _ (uuid_value_lt v)).
    by rewrite H1, H2, H3, H4, H5.
Qed.

(** Reading the text back: the digits, whatever the hyphens. *)
Fixpoint hex_number (n : N) (s : string) : option N :=
  match s with
  | EmptyString => Some n
  | String c s =>
      if Ascii.N_of_ascii c =? 45 then hex_number n s
      else h ← hex_value c; hex_number (16 * n + h) s
  end.

Definition plain_uuid_parse (s : string) : option Uuid :=
  n ← hex_number 0 s; let u := uuid_from n in
  if bool_decide (plain_uuid_display u = s) then Some u else None.

Lemma hex_number_digits k u n s :
  hex_number n (hex_digits k u +:+ s) =
  hex_number (n * 16 ^ N.of_nat k + u `mod` 16 ^ N.of_nat k) s.
Proof.
  revert n. induction k as [|k IH]; intros n.
  - cbn. by rewrite N.mod_1_r, N.mul_1_r, N.add_0_r.
  - set (d := (u / 16 ^ N.of_nat k) `mod` 16). assert (Hd : d < 16) by (by apply N.mod_lt).
    destruct (hex_digit_spec d Hd) as [Hv Hl].
    cbn [hex_digits]. fold d.
    change (String ?c ?r +:+ s) with (String c (r +:+ s)). cbn [hex_number]. rewrite Hv.
    destruct (N.eqb_spec (Ascii.N_of_ascii (hex_digit d)) 45) as [He|_].
    { exfalso. unfold hex_value in Hv. rewrite He in Hv. done. }
    cbn. rewrite IH. f_equal. rewrite Nat2N.inj_succ, N.pow_succ_r', (N.mul_comm 16 (16 ^ _)).
    rewrite N.Div0.mod_mul_r. fold d. lia.
Qed.

Lemma string_app_empty_r s : s +:+ EmptyString = s.
Proof. induction s as [|c s IH]; [done|]. change (String c (s +:+ EmptyString) = String c s). by rewrite IH. Qed.

Lemma plain_uuid_roundtrip u : plain_uuid_parse (uuid_display u) = Some u.
Proof.
  pose proof (split_128 _ (uuid_value_lt u)) as Hs. cbn. unfold plain_uuid_parse.
  assert (Hn : hex_number 0 (plain_uuid_display u) = Some (uuid_value u)).
  { assert (Hh : ∀ n s, hex_number n ("-" +:+ s) = hex_number n s) by done.
    unfold plain_uuid_display.
    do 4 (rewrite hex_number_digits, Hh). rewrite <- (string_app_empty_r (hex_digits 12 _)).
    rewrite hex_number_digits. cbn [hex_number]. f_equal. rewrite Hs at 6. cbn [N.of_nat]. lia. }
  rewrite Hn. cbn.
  assert (uuid_from (uuid_value u) = u) as ->.
  { apply uuid_value_inj. unfold uuid_value at 1, uuid_from. cbn. by apply N.mod_small, uuid_value_lt. }
  by rewrite bool_decide_eq_true_2.
Qed.
