(* ===== verification/Database.v ===== *)
(** * Database: the PostgreSQL schema of [git-lfs-delta-server/migrations]

    One finite map per table, keyed by the primary key, with the constraints
    of the migrations as decidable checks that a statement performs before it
    changes a table.  [BYTEA] columns hold raw byte strings, [JSONB] is the
    type of the [ManifestJson] interface, timestamps are integers (in
    microseconds). *)
From S2P Require Import Prelude Digest Manifest Protocol.

(** ** Rows *)

Inductive SessionState := Open | Finalized | Expired.

#[global] Instance SessionState_eq_dec : EqDecision SessionState.
Proof. solve_decision. Defined.

Record RepositoryRow := { rp_owner : string; rp_name : string }.

Record ChunkRow := mkChunkRow { ck_size : Z; ck_reference_count : Z }.

Record ObjectChunkRow := mkObjectChunkRow {
  oc_chunk_id : bytes;
  oc_byte_offset : Z;
  oc_byte_length : Z;
}.

Record LockRow := {
  lr_repository_id : Uuid;
  lr_path : string;
  lr_owner_subject : string;
  lr_created_at : Z;
}.

Record EpochRow := {
  ep_repository_id : Uuid;
  ep_ref_fingerprint : string;
  ep_complete : bool;
  ep_completed_at : option Z;
}.

Record GrantRow := { gr_can_read : bool; gr_can_write : bool; gr_can_admin : bool }.

Record TombstoneRow := { tb_delete_after : Z }.

Section Tables.
  Context {Json : Type}.

Record ObjectRow := mkObjectRow { ob_size : Z; ob_manifest : Json }.

Record SessionRow := mkSessionRow {
  us_repository_id : Uuid;
  us_object_oid : bytes;
  us_object_size : Z;
  us_manifest : Json;
  us_state : SessionState;
  us_expires_at : Z;
}.

(** [upload_session_chunks] maps its primary key (session, chunk) to the
    repository column. *)
Record Db := mkDb {
  repositories : gmap Uuid RepositoryRow;
  objects : gmap (Uuid * bytes) ObjectRow;
  chunks : gmap (Uuid * bytes) ChunkRow;
  object_chunks : gmap (Uuid * bytes * Z) ObjectChunkRow;
  upload_sessions : gmap Uuid SessionRow;
  upload_session_chunks : gmap (Uuid * bytes) Uuid;
  lfs_locks : gmap Uuid LockRow;
  reachability_epochs : gmap Uuid EpochRow;
  reachable_objects : gset (Uuid * bytes);
  repository_grants : gmap (Uuid * string) GrantRow;
  object_tombstones : gmap (Uuid * bytes) TombstoneRow;
  chunk_gc_queue : gmap (Uuid * bytes) Z;
}.

Definition empty_db : Db := mkDb ∅ ∅ ∅ ∅ ∅ ∅ ∅ ∅ ∅ ∅ ∅ ∅.

(** Table updates. *)
Definition with_repositories (t : gmap Uuid RepositoryRow) (db : Db) : Db :=
  mkDb t (objects db) (chunks db) (object_chunks db) (upload_sessions db)
    (upload_session_chunks db) (lfs_locks db) (reachability_epochs db)
    (reachable_objects db) (repository_grants db) (object_tombstones db) (chunk_gc_queue db).
Definition with_repository_grants (t : gmap (Uuid * string) GrantRow) (db : Db) : Db :=
  mkDb (repositories db) (objects db) (chunks db) (object_chunks db) (upload_sessions db)
    (upload_session_chunks db) (lfs_locks db) (reachability_epochs db)
    (reachable_objects db) t (object_tombstones db) (chunk_gc_queue db).
Definition with_objects (t : gmap (Uuid * bytes) ObjectRow) (db : Db) : Db :=
  mkDb (repositories db) t (chunks db) (object_chunks db) (upload_sessions db)
    (upload_session_chunks db) (lfs_locks db) (reachability_epochs db)
    (reachable_objects db) (repository_grants db) (object_tombstones db) (chunk_gc_queue db).
Definition with_chunks (t : gmap (Uuid * bytes) ChunkRow) (db : Db) : Db :=
  mkDb (repositories db) (objects db) t (object_chunks db) (upload_sessions db)
    (upload_session_chunks db) (lfs_locks db) (reachability_epochs db)
    (reachable_objects db) (repository_grants db) (object_tombstones db) (chunk_gc_queue db).
Definition with_object_chunks (t : gmap (Uuid * bytes * Z) ObjectChunkRow) (db : Db) : Db :=
  mkDb (repositories db) (objects db) (chunks db) t (upload_sessions db)
    (upload_session_chunks db) (lfs_locks db) (reachability_epochs db)
    (reachable_objects db) (repository_grants db) (object_tombstones db) (chunk_gc_queue db).
Definition with_upload_sessions (t : gmap Uuid SessionRow) (db : Db) : Db :=
  mkDb (repositories db) (objects db) (chunks db) (object_chunks db) t
    (upload_session_chunks db) (lfs_locks db) (reachability_epochs db)
    (reachable_objects db) (repository_grants db) (object_tombstones db) (chunk_gc_queue db).
Definition with_upload_session_chunks (t : gmap (Uuid * bytes) Uuid) (db : Db) : Db :=
  mkDb (repositories db) (objects db) (chunks db) (object_chunks db) (upload_sessions db)
    t (lfs_locks db) (reachability_epochs db)
    (reachable_objects db) (repository_grants db) (object_tombstones db) (chunk_gc_queue db).
Definition with_lfs_locks (t : gmap Uuid LockRow) (db : Db) : Db :=
  mkDb (repositories db) (objects db) (chunks db) (object_chunks db) (upload_sessions db)
    (upload_session_chunks db) t (reachability_epochs db)
    (reachable_objects db) (repository_grants db) (object_tombstones db) (chunk_gc_queue db).
Definition with_reachability_epochs (t : gmap Uuid EpochRow) (db : Db) : Db :=
  mkDb (repositories db) (objects db) (chunks db) (object_chunks db) (upload_sessions db)
    (upload_session_chunks db) (lfs_locks db) t
    (reachable_objects db) (repository_grants db) (object_tombstones db) (chunk_gc_queue db).
Definition with_reachable_objects (t : gset (Uuid * bytes)) (db : Db) : Db :=
  mkDb (repositories db) (objects db) (chunks db) (object_chunks db) (upload_sessions db)
    (upload_session_chunks db) (lfs_locks db) (reachability_epochs db)
    t (repository_grants db) (object_tombstones db) (chunk_gc_queue db).
Definition with_object_tombstones (t : gmap (Uuid * bytes) TombstoneRow) (db : Db) : Db :=
  mkDb (repositories db) (objects db) (chunks db) (object_chunks db) (upload_sessions db)
    (upload_session_chunks db) (lfs_locks db) (reachability_epochs db)
    (reachable_objects db) (repository_grants db) t (chunk_gc_queue db).
Definition with_chunk_gc_queue (t : gmap (Uuid * bytes) Z) (db : Db) : Db :=
  mkDb (repositories db) (objects db) (chunks db) (object_chunks db) (upload_sessions db)
    (upload_session_chunks db) (lfs_locks db) (reachability_epochs db)
    (reachable_objects db) (repository_grants db) (object_tombstones db) t.

End Tables.
Arguments ObjectRow : clear implicits.
Arguments SessionRow : clear implicits.
Arguments Db : clear implicits.

(** ** [sqlx::Error] *)

(** A database error carries its SQLSTATE code; [Io] is any failure to reach
    or use the server; [Protocol] is constructed by the code itself. *)
Inductive SqlxError :=
| Database (code : string)
| Io
| SqlxProtocol (message : string).

#[global] Instance SqlxError_eq_dec : EqDecision SqlxError.
Proof. solve_decision. Defined.

Definition UNIQUE_VIOLATION : string := "23505".
Definition FOREIGN_KEY_VIOLATION : string := "23503".
Definition CHECK_VIOLATION : string := "23514".
Definition NUMERIC_OUT_OF_RANGE : string := "22003".

(** [error.as_database_error().is_some_and(|db| db.code() == "23505")]. *)
Definition is_unique_violation (e : SqlxError) : bool :=
  match e with Database c => bool_decide (c = UNIQUE_VIOLATION) | _ => false end.

(** ** Constraint checks *)

Definition octets32 (b : bytes) : bool := bool_decide (length b = 32%nat).
Definition fits_bigint (z : Z) : bool :=
  ((-9223372036854775808 <=? z) && (z <=? 9223372036854775807))%Z.

(** [require b code k]: a violated constraint aborts the statement. *)
Definition require {A} (ok : bool) (code : string) (k : result SqlxError A) : result SqlxError A :=
  if ok then k else Err (Database code).

Lemma require_ok {A} ok code (k : result SqlxError A) a :
  require ok code k = Ok a ↔ ok = true ∧ k = Ok a.
Proof. destruct ok; cbn; split; [done|tauto|done|by intros [? _]]. Qed.

(** ** JSON manifests *)

(** [serde_json::to_value] and [from_value] on [ObjectManifest], an error
    being its text. *)
Class ManifestJson (Json : Type) := {
  manifest_to_value : ObjectManifest → result string Json;
  manifest_from_value : Json → result string ObjectManifest;
}.

Class ManifestJsonLaws (Json : Type) `{!ManifestJson Json} := {
  manifest_value_roundtrip m j :
    manifest_to_value m = Ok j → manifest_from_value j = Ok m;
}.

(** The identity encoding. *)
#[global] Instance direct_json : ManifestJson ObjectManifest := {|
  manifest_to_value m := Ok m;
  manifest_from_value m := Ok m;
|}.

#[global] Instance direct_json_laws : ManifestJsonLaws ObjectManifest.
Proof. split. by intros m j [= ->]. Qed.

(** ** The state invariant of the metadata *)

Section Invariant.
  Context {Json : Type} {json : ManifestJson Json}.
  Implicit Types (db : Db Json).

(** Number of object positions of a repository that use a chunk. *)
Definition refs db (r : Uuid) (c : bytes) : nat :=
  size (filter (λ kv : Uuid * bytes * Z * ObjectChunkRow,
    kv.1.1.1 = r ∧ oc_chunk_id kv.2 = c) (object_chunks db)).

(** The row [object_chunks] holds for a descriptor. *)
Definition descriptor_row (d : ChunkDescriptor) : ObjectChunkRow :=
  {| oc_chunk_id := ChunkId_as_bytes (cd_id d);
     oc_byte_offset := Z.of_N (cd_offset d);
     oc_byte_length := Z.of_N (cd_length d) |}.

(** A published object: its row decodes to a valid manifest for its OID, and
    [object_chunks] lists exactly the manifest's descriptors. *)
Definition published db (r : Uuid) (o : bytes) (m : ObjectManifest) : Prop :=
  (∃ row, objects db !! (r, o) = Some row ∧ manifest_from_value (ob_manifest row) = Ok m ∧
          ob_size row = Z.of_N (om_object_size m)) ∧
  ObjectOid_as_bytes (om_object_oid m) = o ∧
  ObjectManifest_validate m = Ok tt ∧
  ∀ z, object_chunks db !! (r, o, z) =
       if (z <? 0)%Z then None else descriptor_row <$> om_chunks m !! Z.to_nat z.

(** Everything but the objects' manifests; [extra] is how far the counter of
    a chunk is ahead of its references (in the middle of a transaction). *)
Record core_upto (extra : Uuid → bytes → nat) db : Prop := {
  ok_refs r c row :
    chunks db !! (r, c) = Some row →
    ck_reference_count row = Z.of_nat (extra r c + refs db r c);
  ok_oc_chunk r o z row :
    object_chunks db !! (r, o, z) = Some row → is_Some (chunks db !! (r, oc_chunk_id row));
  ok_oc_object r o z row :
    object_chunks db !! (r, o, z) = Some row → is_Some (objects db !! (r, o));
  ok_tombstones k row :
    object_tombstones db !! k = Some row → is_Some (objects db !! k);
  ok_usc s c r :
    upload_session_chunks db !! (s, c) = Some r →
    (∃ srow, upload_sessions db !! s = Some srow ∧ us_repository_id srow = r) ∧
    is_Some (chunks db !! (r, c));
  ok_one_open s s' row row' :
    upload_sessions db !! s = Some row → upload_sessions db !! s' = Some row' →
    us_state row = Open → us_state row' = Open →
    us_repository_id row = us_repository_id row' → us_object_oid row = us_object_oid row' →
    s = s';
  ok_sessions s row :
    upload_sessions db !! s = Some row →
    ∃ m, manifest_from_value (us_manifest row) = Ok m ∧
         ObjectOid_as_bytes (om_object_oid m) = us_object_oid row;
  ok_chunk_ids r c row : chunks db !! (r, c) = Some row → length c = 32%nat;
  ok_queue_ids r c t : chunk_gc_queue db !! (r, c) = Some t → length c = 32%nat;
  ok_locks l l' row row' :
    lfs_locks db !! l = Some row → lfs_locks db !! l' = Some row' →
    lr_repository_id row = lr_repository_id row' → lr_path row = lr_path row' → l = l';
}.

Definition core_ok : Db Json → Prop := core_upto (λ _ _, 0%nat).

Definition objects_ok (except : Uuid → bytes → Prop) db : Prop :=
  ∀ r o row, objects db !! (r, o) = Some row → except r o ∨ ∃ m, published db r o m.

Definition db_ok db : Prop := core_ok db ∧ objects_ok (λ _ _, False) db.

Lemma empty_db_ok : db_ok empty_db.
Proof. split; [split|]; cbn; intros; intros; simplify_map_eq. intros ? ? ? H. simplify_map_eq. Qed.

Lemma db_ok_published db r o row :
  db_ok db → objects db !! (r, o) = Some row → ∃ m, published db r o m.
Proof. intros [_ H] Hr. by destruct (H _ _ _ Hr). Qed.

(** [published] reads two tables at one key. *)
Lemma published_frame db db' r o m :
  objects db' !! (r, o) = objects db !! (r, o) →
  (∀ z, object_chunks db' !! (r, o, z) = object_chunks db !! (r, o, z)) →
  published db r o m → published db' r o m.
Proof.
  intros Ho Hc ((row & H1 & H2 & H3) & H4 & H5 & H6).
  split_and!; [exists row; by rewrite Ho|done|done|].
  intros z. by rewrite Hc.
Qed.

Lemma published_fun db r o m m' : published db r o m → published db r o m' → m = m'.
Proof.
  intros ((row & Hr & Hm & _) & _) ((row' & Hr' & Hm' & _) & _).
  rewrite Hr in Hr'. injection Hr' as <-. congruence.
Qed.

Lemma published_tables db db' r o m :
  objects db' = objects db → object_chunks db' = object_chunks db →
  published db' r o m → published db r o m.
Proof. intros Ho Hc. apply published_frame; [by rewrite Ho|intros z; by rewrite Hc]. Qed.

Lemma objects_ok_frame except db db' :
  objects db' = objects db → object_chunks db' = object_chunks db →
  objects_ok except db → objects_ok except db'.
Proof.
  intros Ho Hc H r o row Hr. rewrite Ho in Hr.
  destruct (H r o row Hr) as [|[m Hm]]; [by left|right]. exists m.
  eapply published_frame; [by rewrite Ho|intros z; by rewrite Hc|done].
Qed.

(** *** Reference counting *)

Lemma refs_frame db db' r c :
  object_chunks db' = object_chunks db → refs db' r c = refs db r c.
Proof. intros H. unfold refs. by rewrite H. Qed.


Lemma refs_insert db r o z row r' c :
  object_chunks db !! (r, o, z) = None →
  refs (with_object_chunks (<[(r, o, z) := row]> (object_chunks db)) db) r' c =
    ((if decide (r = r' ∧ oc_chunk_id row = c) then 1 else 0) + refs db r' c)%nat.
Proof.
  intros Hn. unfold refs. cbn [object_chunks with_object_chunks].
  destruct (decide (r = r' ∧ oc_chunk_id row = c)) as [H|H].
  - rewrite map_filter_insert_True by done.
    rewrite map_size_insert_None; [done|].
    apply map_lookup_filter_None. by left.
  - rewrite map_filter_insert_False by done.
    by rewrite delete_id by done.
Qed.

Lemma refs_pos db r o z row :
  object_chunks db !! (r, o, z) = Some row → (0 < refs db r (oc_chunk_id row))%nat.
Proof.
  intros H. unfold refs. apply Nat.neq_0_lt_0. intros Hz.
  apply map_size_empty_inv in Hz.
  by apply (map_filter_empty_not_lookup _ _ (r, o, z) row) in Hz.
Qed.

Lemma refs_zero db r c :
  refs db r c = 0%nat ↔ ∀ o z row, object_chunks db !! (r, o, z) = Some row → oc_chunk_id row ≠ c.
Proof.
  split.
  - intros Hz o z row H <-. pose proof (refs_pos _ _ _ _ _ H). lia.
  - intros H. unfold refs. apply map_size_empty_iff. apply map_empty.
    intros [[r' o] z]. apply map_lookup_filter_None. right.
    intros row Hrow [H1 H2]. cbn in H1, H2. subst r'. by eapply H.
Qed.

End Invariant.
