(* ===== verification/Effects.v ===== *)
(** * Effects: the world of the service and its programs

    A handler is a program: a tree of atomic actions on the shared world.  An
    action is one PostgreSQL transaction (atomic and rolled back on any error),
    one object-store call, or one access to the process state.  Programs run
    sequentially ([run]) or interleaved with others ([step]), with any
    statement or file operation failing when the environment says so. *)
From S2P Require Import Prelude Digest Manifest Protocol Storage Database.
From stdpp Require Import relations.

(** ** The shared state *)

(** [ServiceMetrics]. *)
Record ServiceMetrics := mkServiceMetrics {
  logical_uploaded : N;
  logical_downloaded : N;
  chunks_received : N;
  auth_cache_hits : N;
  auth_cache_misses : N;
  forgejo_requests : N;
  http_requests : N;
  http_failures : N;
  in_flight : N;
}.

Definition metrics_default : ServiceMetrics := mkServiceMetrics 0 0 0 0 0 0 0 0 0.

(** [fetch_add] on the counters the modelled handlers use. *)
Definition add_logical_uploaded (n : N) (m : ServiceMetrics) : ServiceMetrics :=
  mkServiceMetrics (wrapping_add_u64 (logical_uploaded m) n) (logical_downloaded m)
    (chunks_received m) (auth_cache_hits m) (auth_cache_misses m) (forgejo_requests m)
    (http_requests m) (http_failures m) (in_flight m).
Definition add_logical_downloaded (n : N) (m : ServiceMetrics) : ServiceMetrics :=
  mkServiceMetrics (logical_uploaded m) (wrapping_add_u64 (logical_downloaded m) n)
    (chunks_received m) (auth_cache_hits m) (auth_cache_misses m) (forgejo_requests m)
    (http_requests m) (http_failures m) (in_flight m).
Definition add_chunks_received (n : N) (m : ServiceMetrics) : ServiceMetrics :=
  mkServiceMetrics (logical_uploaded m) (logical_downloaded m)
    (wrapping_add_u64 (chunks_received m) n) (auth_cache_hits m) (auth_cache_misses m)
    (forgejo_requests m) (http_requests m) (http_failures m) (in_flight m).
Definition add_auth_cache_hits (n : N) (m : ServiceMetrics) : ServiceMetrics :=
  mkServiceMetrics (logical_uploaded m) (logical_downloaded m) (chunks_received m)
    (wrapping_add_u64 (auth_cache_hits m) n) (auth_cache_misses m) (forgejo_requests m)
    (http_requests m) (http_failures m) (in_flight m).
Definition add_auth_cache_misses (n : N) (m : ServiceMetrics) : ServiceMetrics :=
  mkServiceMetrics (logical_uploaded m) (logical_downloaded m) (chunks_received m)
    (auth_cache_hits m) (wrapping_add_u64 (auth_cache_misses m) n) (forgejo_requests m)
    (http_requests m) (http_failures m) (in_flight m).
Definition add_forgejo_requests (n : N) (m : ServiceMetrics) : ServiceMetrics :=
  mkServiceMetrics (logical_uploaded m) (logical_downloaded m) (chunks_received m)
    (auth_cache_hits m) (auth_cache_misses m) (wrapping_add_u64 (forgejo_requests m) n)
    (http_requests m) (http_failures m) (in_flight m).

(** [CachedForgejoIdentity]. *)
Record CachedForgejoIdentity := mkCachedForgejoIdentity {
  ci_subject : string;
  ci_administrator : bool;
  ci_expires_at : Z;
}.

Section World.
  Context {St Json : Type}.

(** The database, the object store, the database clock, the process clock,
    the stream [Uuid::new_v4] draws from, which coming database statements and
    file operations fail, and the process state of [AppState]. *)
Record World := mkWorld {
  w_db : Db Json;
  w_store : St;
  w_now : Z;
  w_instant : Z;
  w_uuids : nat → Uuid;
  w_drawn : nat;
  w_faults : list bool;
  w_io_faults : list bool;
  w_metrics : ServiceMetrics;
  w_auth_cache : gmap bytes CachedForgejoIdentity;
  w_storage_ready_until : option Z;
  w_closed : bool;
}.

Definition set_db (db : Db Json) (w : World) : World :=
  mkWorld db (w_store w) (w_now w) (w_instant w) (w_uuids w) (w_drawn w) (w_faults w)
    (w_io_faults w) (w_metrics w) (w_auth_cache w) (w_storage_ready_until w) (w_closed w).
Definition set_store (st : St) (w : World) : World :=
  mkWorld (w_db w) st (w_now w) (w_instant w) (w_uuids w) (w_drawn w) (w_faults w)
    (w_io_faults w) (w_metrics w) (w_auth_cache w) (w_storage_ready_until w) (w_closed w).
Definition set_env (now instant : Z) (faults io_faults : list bool) (closed : bool) (w : World) : World :=
  mkWorld (w_db w) (w_store w) now instant (w_uuids w) (w_drawn w) faults
    io_faults (w_metrics w) (w_auth_cache w) (w_storage_ready_until w) closed.
Definition set_drawn (n : nat) (w : World) : World :=
  mkWorld (w_db w) (w_store w) (w_now w) (w_instant w) (w_uuids w) n (w_faults w)
    (w_io_faults w) (w_metrics w) (w_auth_cache w) (w_storage_ready_until w) (w_closed w).
Definition set_faults (fs : list bool) (w : World) : World :=
  set_env (w_now w) (w_instant w) fs (w_io_faults w) (w_closed w) w.
Definition set_io_faults (fs : list bool) (w : World) : World :=
  set_env (w_now w) (w_instant w) (w_faults w) fs (w_closed w) w.
Definition set_metrics (m : ServiceMetrics) (w : World) : World :=
  mkWorld (w_db w) (w_store w) (w_now w) (w_instant w) (w_uuids w) (w_drawn w) (w_faults w)
    (w_io_faults w) m (w_auth_cache w) (w_storage_ready_until w) (w_closed w).
Definition set_auth_cache (c : gmap bytes CachedForgejoIdentity) (w : World) : World :=
  mkWorld (w_db w) (w_store w) (w_now w) (w_instant w) (w_uuids w) (w_drawn w) (w_faults w)
    (w_io_faults w) (w_metrics w) c (w_storage_ready_until w) (w_closed w).
Definition set_storage_ready_until (t : option Z) (w : World) : World :=
  mkWorld (w_db w) (w_store w) (w_now w) (w_instant w) (w_uuids w) (w_drawn w) (w_faults w)
    (w_io_faults w) (w_metrics w) (w_auth_cache w) t (w_closed w).

(** ** Statements and transactions *)

(** The body of a transaction: statements and store calls, stopping at the
    first error. *)
Definition TX (E A : Type) : Type := World → result E A * World.

#[export] Instance tx_ret E : MRet (TX E) := λ A a w, (Ok a, w).
#[export] Instance tx_bind E : MBind (TX E) := λ A B f m w,
  match m w with
  | (Ok a, w) => f a w
  | (Err e, w) => (Err e, w)
  end.

Definition tx_fail {E A} (e : E) : TX E A := λ w, (Err e, w).
Definition tx_result {E A} (r : result E A) : TX E A := λ w, (r, w).
Definition tx_map_err {E F A} (f : E → F) (m : TX E A) : TX F A :=
  λ w, let '(r, w) := m w in (map_err f r, w).

(** One SQL statement: it fails without effect when the environment says so;
    otherwise it sees [now()] and the tables. *)
Definition stmt {A} (q : Z → Db Json → result SqlxError (A * Db Json)) : TX SqlxError A :=
  λ w,
    let fault := hd false (w_faults w) in
    let w := set_faults (tl (w_faults w)) w in
    if fault then (Err Io, w)
    else match q (w_now w) (w_db w) with
         | Ok (a, db) => (Ok a, set_db db w)
         | Err e => (Err e, w)
         end.

(** A store call inside a transaction body is not undone by a rollback. *)
Definition tx_store {E A} (f : St → result E A * St) : TX E A :=
  λ w, let '(r, st) := f (w_store w) in (r, set_store st w).

(** [pool.begin()], the body, [commit()]; dropping the transaction on an error
    restores the tables. *)
Definition atomically {E A} (lift : SqlxError → E) (body : TX E A) : TX E A :=
  λ w,
    let tx : TX E A :=
      let! _ := tx_map_err lift (stmt (λ _ db, Ok (tt, db))) in
      let! a := body in
      let! _ := tx_map_err lift (stmt (λ _ db, Ok (tt, db))) in
      mret a in
    match tx w with
    | (Ok a, w') => (Ok a, w')
    | (Err e, w') => (Err e, set_db (w_db w) w')
    end.

(** ** Programs *)

Inductive prog (E A : Type) : Type :=
| Ret (r : result E A)
| Act {X : Type} (f : World → X * World) (k : X → prog E A).

End World.
Arguments World : clear implicits.
Arguments TX : clear implicits.
Arguments prog : clear implicits.
Arguments Ret {St Json E A} r.
Arguments Act {St Json E A X} f k.

Section Programs.
  Context {St Json : Type}.

#[export] Instance prog_ret E : MRet (prog St Json E) := λ A a, Ret (Ok a).

Fixpoint prog_bind_def {E A B} (f : A → prog St Json E B) (m : prog St Json E A)
  : prog St Json E B :=
  match m with
  | Ret (Ok a) => f a
  | Ret (Err e) => Ret (Err e)
  | Act g k => Act g (λ x, prog_bind_def f (k x))
  end.
#[export] Instance prog_bind E : MBind (prog St Json E) := λ A B f m, prog_bind_def f m.

Definition fail {E A} (e : E) : prog St Json E A := Ret (Err e).
Definition lift {E A} (r : result E A) : prog St Json E A := Ret r.

(** An access to the process state. *)
Definition act {E A} (f : World St Json → A * World St Json) : prog St Json E A :=
  Act f (λ a, Ret (Ok a)).

(** A fallible atomic action. *)
Definition atomic {E A} (body : TX St Json E A) : prog St Json E A :=
  Act body (λ r, Ret r).

(** An explicit transaction. *)
Definition transaction {E A} (l : SqlxError → E) (body : TX St Json E A) : prog St Json E A :=
  atomic (atomically l body).

(** A single statement on the pool (its own transaction). *)
Definition query {E A} (l : SqlxError → E)
    (q : Z → Db Json → result SqlxError (A * Db Json)) : prog St Json E A :=
  atomic (tx_map_err l (stmt q)).

(** One object-store call. *)
Definition store_call {E F A} (l : F → E) (f : St → result F A * St) : prog St Json E A :=
  atomic (tx_map_err l (tx_store f)).

(** [Uuid::new_v4()]. *)
Definition new_v4 {E} : prog St Json E Uuid :=
  act (λ w, (w_uuids w (w_drawn w), set_drawn (S (w_drawn w)) w)).

(** A counter update. *)
Definition count {E} (f : ServiceMetrics → ServiceMetrics) : prog St Json E unit :=
  act (λ w, (tt, set_metrics (f (w_metrics w)) w)).

(** A file operation on the staging directory. *)
Definition io {E} (e : E) : prog St Json E unit :=
  atomic (λ w, (if hd false (w_io_faults w) then Err e else Ok tt,
                set_io_faults (tl (w_io_faults w)) w)).

(** [semaphore.acquire().await]: fails only once the semaphore is closed. *)
Definition acquire {E} (e : E) : prog St Json E unit :=
  atomic (λ w, (if w_closed w then Err e else Ok tt, w)).

(** ** Sequential execution *)

Fixpoint run {E A} (p : prog St Json E A) (w : World St Json) : result E A * World St Json :=
  match p with
  | Ret r => (r, w)
  | Act f k => let '(x, w) := f w in run (k x) w
  end.

Lemma run_bind {E A B} (m : prog St Json E A) (f : A → prog St Json E B) w :
  run (let! a := m in f a) w =
    match run m w with
    | (Ok a, w) => run (f a) w
    | (Err e, w) => (Err e, w)
    end.
Proof.
  revert w. induction m as [[a|e]|X g k IH]; intros w; [done..|].
  cbn. destruct (g w) as [x w']. apply IH.
Qed.

(** ** Interleaved execution *)

Inductive thread : Type :=
| Thread {E A : Type} (p : prog St Json E A).

(** What the environment may change between two actions: both clocks advance,
    the failures to come are arbitrary, and the service may shut down. *)
Definition env_step (w w' : World St Json) : Prop :=
  ∃ dn di fs ios c, (0 ≤ dn)%Z ∧ (0 ≤ di)%Z ∧
    w' = set_env (w_now w + dn) (w_instant w + di) fs ios c w.

(** Any thread performs its next action, the environment moves, or a new
    program of the service starts. *)
Inductive step (service : thread → Prop)
  : list thread * World St Json → list thread * World St Json → Prop :=
| step_act {E A X} pre post (f : World St Json → X * World St Json)
    (k : X → prog St Json E A) w x w' :
    f w = (x, w') →
    step service (pre ++ Thread (Act f k) :: post, w) (pre ++ Thread (k x) :: post, w')
| step_env ts w w' : env_step w w' → step service (ts, w) (ts, w')
| step_spawn ts t w : service t → step service (ts, w) (ts ++ [t], w).

(** An executable schedule: the thread at each listed position moves. *)
Definition step_thread (t : thread) (w : World St Json) : thread * World St Json :=
  match t with
  | Thread (Ret r) => (Thread (Ret r), w)
  | Thread (Act f k) => let '(x, w) := f w in (Thread (k x), w)
  end.

Fixpoint exec (schedule : list nat) (ts : list thread) (w : World St Json)
  : list thread * World St Json :=
  match schedule with
  | [] => (ts, w)
  | i :: schedule =>
      match ts !! i with
      | None => exec schedule ts w
      | Some t => let '(t, w) := step_thread t w in exec schedule (<[i := t]> ts) w
      end
  end.

Lemma exec_sound service schedule ts w :
  rtc (step service) (ts, w) (exec schedule ts w).
Proof.
  revert ts w. induction schedule as [|i schedule IH]; intros ts w; [done|].
  cbn [exec]. destruct (ts !! i) as [t|] eqn:Hi; [|apply IH].
  destruct t as [E A [r|X f k]]; cbn [step_thread].
  - rewrite list_insert_id by done. apply IH.
  - destruct (f w) as [x w'] eqn:Hf.
    eapply rtc_l; [|apply IH].
    apply list_elem_of_split_length in Hi as (pre & post & -> & ->).
    rewrite insert_app_r_alt, Nat.sub_diag by lia. by apply step_act.
Qed.

(** ** Invariants

    [safe R I Q p w0]: whatever the other programs do between the actions of
    [p], as long as they respect the rely relation [R] and the invariant [I],
    every action of [p] started after [w0] stays within [R] and preserves [I];
    a result satisfies [Q] in the world of the last action. *)
Fixpoint safe {E A} (R : relation (World St Json)) (I : World St Json → Prop)
    (Q : A → World St Json → Prop) (p : prog St Json E A) (w0 : World St Json) : Prop :=
  match p with
  | Ret (Ok a) => Q a w0
  | Ret (Err _) => True
  | Act f k => ∀ w, R w0 w → I w → R w (f w).2 ∧ I (f w).2 ∧ safe R I Q (k (f w).1) (f w).2
  end.

Definition any {A} : A → World St Json → Prop := λ _ _, True.

(** The other programs may do anything to the world. *)
Definition anything : relation (World St Json) := λ _ _, True.

#[export] Instance anything_preorder : PreOrder anything.
Proof. split; [by intros w|by intros w1 w2 w3 _ _]. Qed.

(** A thread that has been safe since a world [w0] in the past. *)
Definition thread_safe R I (w : World St Json) (t : thread) : Prop :=
  match t with Thread p => ∃ w0, R w0 w ∧ safe R I any p w0 end.

(** A program that is safe among all interference is so among some. *)
Lemma safe_weaken {E A} (R R' : relation (World St Json)) (I I' : World St Json → Prop)
    (Q Q' Q2 : A → World St Json → Prop) (p : prog St Json E A) w0 :
  subrelation R R' → (∀ w, I w → I' w) → (∀ a w, Q a w → Q' a w → Q2 a w) →
  safe R I Q p w0 → safe R' I' Q' p w0 → safe R I Q2 p w0.
Proof.
  intros HR HI HQ. revert w0. induction p as [[a|e]|X f k IH]; intros w0 Hp Hp'; cbn in *; [by apply HQ|done|].
  intros w Hr Hw. destruct (Hp w Hr Hw) as (H1 & H2 & H3).
  destruct (Hp' w (HR _ _ Hr) (HI _ Hw)) as (_ & _ & H4). split_and!; [done..|]. by apply IH.
Qed.

Section Safe.
  Context (R : relation (World St Json)) (I : World St Json → Prop) {R_pre : PreOrder R}.

Lemma safe_mono {E A} (Q Q' : A → World St Json → Prop) (p : prog St Json E A) w0 :
  safe R I Q p w0 → (∀ a w, R w0 w → Q a w → Q' a w) → safe R I Q' p w0.
Proof.
  revert w0. induction p as [[a|e]|X f k IH]; intros w0 Hp HQ; cbn in *; [by apply HQ|done|].
  intros w Hr Hw. destruct (Hp w Hr Hw) as (H1 & H2 & H3). split_and!; [done..|].
  eapply IH; [done|]. intros a w' Hr'. apply HQ. by do 2 (etrans; [done|]).
Qed.

Lemma safe_any {E A} (Q : A → World St Json → Prop) (p : prog St Json E A) w0 :
  safe R I Q p w0 → safe R I any p w0.
Proof. intros H. by eapply safe_mono. Qed.

Lemma safe_bind {E A B} (Q : A → World St Json → Prop) (Q' : B → World St Json → Prop)
    (m : prog St Json E A) (f : A → prog St Json E B) w0 :
  safe R I Q m w0 → (∀ a w, R w0 w → Q a w → safe R I Q' (f a) w) →
  safe R I Q' (let! a := m in f a) w0.
Proof.
  unfold mbind, prog_bind. revert w0.
  induction m as [[a|e]|X g k IH]; intros w0 Hm Hf; cbn in *; [by apply Hf|done|].
  intros w Hr Hw. destruct (Hm w Hr Hw) as (H1 & H2 & H3). split_and!; [done..|].
  apply IH; [done|]. intros a w' Hr'. apply Hf. by do 2 (etrans; [done|]).
Qed.

Lemma safe_ret {E A} (Q : A → World St Json → Prop) a w0 :
  Q a w0 → safe R I Q (mret (M:=prog St Json E) a) w0.
Proof. done. Qed.

Lemma safe_fail {E A} (Q : A → World St Json → Prop) (e : E) w0 : safe R I Q (fail e) w0.
Proof. done. Qed.

Lemma safe_lift {E A} (Q : A → World St Json → Prop) (r : result E A) w0 :
  (∀ a, r = Ok a → Q a w0) → safe R I Q (lift r) w0.
Proof. destruct r; cbn; auto. Qed.

Lemma safe_act {E A} (Q : A → World St Json → Prop) (f : World St Json → A * World St Json) w0 :
  (∀ w, R w0 w → I w → R w (f w).2 ∧ I (f w).2 ∧ Q (f w).1 (f w).2) →
  safe R I Q (act (E:=E) f) w0.
Proof. done. Qed.

Lemma safe_atomic {E A} (Q : A → World St Json → Prop) (body : TX St Json E A) w0 :
  (∀ w r w', R w0 w → I w → body w = (r, w') →
     R w w' ∧ I w' ∧ ∀ a, r = Ok a → Q a w') →
  safe R I Q (atomic body) w0.
Proof.
  intros H w Hr Hw. cbn. destruct (body w) as [r w'] eqn:Hb.
  destruct (H _ _ _ Hr Hw Hb) as (H1 & H2 & HQ). split_and!; [done..|].
  destruct r; cbn; auto.
Qed.

Lemma for_each_safe {E A} (l : list A) (f : A → prog St Json E unit) w0 :
  (∀ x w, x ∈ l → R w0 w → safe R I any (f x) w) → safe R I any (for_each l f) w0.
Proof.
  revert w0. induction l as [|x l IH]; intros w0 H; cbn [for_each]; [done|].
  apply (safe_bind any); [apply H; [set_solver|done]|]. intros _ w Hr _.
  apply IH. intros y w' Hy Hr'. apply H; [set_solver|]. by etrans.
Qed.

Lemma safe_run {E A} (Q : A → World St Json → Prop) (p : prog St Json E A) w r w' :
  safe R I Q p w → I w → run p w = (r, w') → R w w' ∧ I w' ∧ ∀ a, r = Ok a → Q a w'.
Proof.
  revert w. induction p as [r0|X f k IH]; intros w Hp Hw; cbn in *.
  - intros [= <- <-]. split_and!; [done..|]. intros a ->. done.
  - destruct (Hp w ltac:(done) Hw) as (Hr & Hw' & Hk). destruct (f w) as [x w1].
    intros Hrun. destruct (IH _ _ Hk Hw' Hrun) as (? & ? & ?). split_and!; [by etrans|done..].
Qed.

Lemma thread_safe_run {E A} (p : prog St Json E A) w r w' :
  thread_safe R I w (Thread p) → I w → run p w = (r, w') → R w w' ∧ I w'.
Proof.
  intros (w0 & Hr & Hp). revert w w0 Hr Hp.
  induction p as [r0|X f k IH]; intros w w0 Hr Hp Hw; cbn in *; [by intros [= <- <-]|].
  destruct (Hp w Hr Hw) as (Hr' & Hw' & Hk). destruct (f w) as [x w1].
  intros Hrun. destruct (IH x w1 w1 ltac:(done) Hk Hw' Hrun) as [??]. split; [by etrans|done].
Qed.

(** Invariance under any interleaving of safe programs. *)
Lemma steps_invariant (service : thread → Prop) c c' :
  (∀ w w', env_step w w' → R w w' ∧ (I w → I w')) →
  (∀ t w, service t → I w → thread_safe R I w t) →
  rtc (step service) c c' →
  Forall (thread_safe R I c.2) c.1 → I c.2 →
  Forall (thread_safe R I c'.2) c'.1 ∧ I c'.2 ∧ R c.2 c'.2.
Proof.
  intros Henv Hserv.
  assert (Hlater : ∀ ts w w', R w w' → Forall (thread_safe R I w) ts → Forall (thread_safe R I w') ts).
  { intros ts w w' Hr Hts. eapply Forall_impl; [exact Hts|].
    intros [E A p] (w0 & Hr0 & Hp). exists w0. split; [by etrans|done]. }
  induction 1 as [c|c1 c2 c3 Hstep Hsteps IH]; [done|]. intros Hts Hw.
  enough (Forall (thread_safe R I c2.2) c2.1 ∧ I c2.2 ∧ R c1.2 c2.2) as (H1 & H2 & H3).
  { destruct (IH H1 H2) as (? & ? & ?). split_and!; [done..|by etrans]. }
  clear IH Hsteps. destruct Hstep as [E A X pre post f k w x w' Hf|ts w w' Hstep|ts t w Ht];
    cbn in *.
  - apply Forall_app in Hts as [Hpre [(w0 & Hr0 & Ht) Hpost]%Forall_cons].
    destruct (Ht w Hr0 Hw) as (Hr & Hw' & Hk). rewrite Hf in *. cbn in *.
    split_and!; [|done..]. apply Forall_app_2; [by eapply Hlater|].
    apply Forall_cons_2; [|by eapply Hlater]. by exists w'.
  - destruct (Henv _ _ Hstep) as [Hr Hi]. split_and!; [by eapply Hlater|by apply Hi|done].
  - split_and!; [|done..]. apply Forall_app_2; [done|]. apply Forall_singleton. by apply Hserv.
Qed.

End Safe.

(** A sequential run is one of the interleavings. *)
Lemma run_steps service {E A} (p : prog St Json E A) pre post w r w' :
  run p w = (r, w') →
  rtc (step service) (pre ++ Thread p :: post, w) (pre ++ Thread (@Ret St Json E A r) :: post, w').
Proof.
  revert w. induction p as [r0|X f k IH]; intros w; cbn.
  - by intros [= <- <-].
  - destruct (f w) as [x w1] eqn:Hf. intros Hr.
    eapply rtc_l; [by apply step_act|]. by apply IH.
Qed.

(** ** Transactions *)

Lemma atomically_err {E A} (l : SqlxError → E) (body : TX St Json E A) w e w' :
  atomically l body w = (Err e, w') → w_db w' = w_db w.
Proof.
  unfold atomically.
  match goal with |- context [match ?m with _ => _ end] => destruct m as [[a|e'] w1] end;
    [done|]. by intros [= <- <-].
Qed.

Lemma stmt_spec {A} (q : Z → Db Json → result SqlxError (A * Db Json)) (w : World St Json) r w' :
  stmt q w = (r, w') →
  w_store w' = w_store w ∧ w_now w' = w_now w ∧
  match r with
  | Ok a => q (w_now w) (w_db w) = Ok (a, w_db w')
  | Err _ => w_db w' = w_db w
  end.
Proof.
  unfold stmt. destruct (hd false (w_faults w)); [by intros [= <- <-]|].
  cbn. destruct (q (w_now w) (w_db w)) as [[a db]|e] eqn:Hq; by intros [= <- <-].
Qed.

Lemma run_store_call {E F A} (l : F → E) (f : St → result F A * St) (w : World St Json) :
  tx_map_err l (tx_store f) w = (map_err l (f (w_store w)).1, set_store (f (w_store w)).2 w).
Proof. unfold tx_map_err, tx_store. by destruct (f (w_store w)). Qed.

(** ** A Hoare logic for transaction bodies

    A body that returns [Ok] takes tables satisfying [P] to tables satisfying
    [Q]; it never changes the store or the clock.  (After an error the tables
    are rolled back, so nothing is said of them.) *)
Definition tx_triple {E A} (now : Z) (P : Db Json → Prop) (m : TX St Json E A)
    (Q : A → Db Json → Prop) : Prop :=
  ∀ w r w', w_now w = now → P (w_db w) → m w = (r, w') →
  w_store w' = w_store w ∧ w_now w' = now ∧ ∀ a, r = Ok a → Q a (w_db w').

Lemma triple_ret {E A} now P (a : A) Q :
  (∀ db, P db → Q a db) → tx_triple (E:=E) now P (mret a) Q.
Proof. intros HQ w r w' Hn HP [= <- <-]. split_and!; [done|done|]. intros ? [= <-]. auto. Qed.

Lemma triple_fail {E A} now P (e : E) (Q : A → Db Json → Prop) : tx_triple now P (tx_fail e) Q.
Proof. intros w r w' Hn HP [= <- <-]. split_and!; done. Qed.

Lemma triple_result {E A} now P (r : result E A) Q :
  (∀ a db, P db → r = Ok a → Q a db) → tx_triple now P (tx_result r) Q.
Proof. intros HQ w r' w' Hn HP [= <- <-]. split_and!; [done|done|]. auto. Qed.

Lemma triple_bind {E A B} now P R Q (m : TX St Json E A) (f : A → TX St Json E B) :
  tx_triple now P m R → (∀ a, tx_triple now (R a) (f a) Q) →
  tx_triple now P (let! a := m in f a) Q.
Proof.
  intros Hm Hf w r w' Hn HP. unfold mbind, tx_bind.
  destruct (m w) as [[a|e] w1] eqn:Hmw.
  - intros Hr. destruct (Hm _ _ _ Hn HP Hmw) as (Hs1 & Hn1 & HR).
    destruct (Hf a _ _ _ Hn1 (HR a eq_refl) Hr) as (Hs2 & Hn2 & HQ).
    split_and!; [congruence|done|done].
  - intros [= <- <-]. destruct (Hm _ _ _ Hn HP Hmw) as (Hs1 & Hn1 & _). done.
Qed.

Lemma triple_conseq {E A} now (P P' : Db Json → Prop) (Q Q' : A → Db Json → Prop)
    (m : TX St Json E A) :
  tx_triple now P' m Q' → (∀ db, P db → P' db) → (∀ a db, Q' a db → Q a db) →
  tx_triple now P m Q.
Proof.
  intros H HP HQ w r w' Hn Hw Hm.
  destruct (H w r w' Hn (HP _ Hw) Hm) as (? & ? & ?). split_and!; auto.
Qed.

Lemma triple_stmt {E A} now P (l : SqlxError → E)
    (q : Z → Db Json → result SqlxError (A * Db Json)) Q :
  (∀ db a db', P db → q now db = Ok (a, db') → Q a db') →
  tx_triple now P (tx_map_err l (stmt q)) Q.
Proof.
  intros HQ w r w' Hn HP. unfold tx_map_err.
  destruct (stmt q w) as [r0 w0] eqn:Hs. intros [= <- <-].
  apply stmt_spec in Hs as (Hst & Hnow & Hr). split_and!; [done|congruence|].
  intros a Ha%map_err_ok. subst r0. eapply HQ; [done|]. by rewrite <- Hn.
Qed.

Lemma triple_for_each {E A} now (I : list A → Db Json → Prop) (l : list A)
    (f : A → TX St Json E unit) :
  (∀ pre x post, l = pre ++ x :: post →
     tx_triple now (I pre) (f x) (λ _, I (pre ++ [x]))) →
  tx_triple now (I []) (for_each l f) (λ _, I l).
Proof.
  intros H.
  enough (∀ post pre, l = pre ++ post →
    tx_triple now (I pre) (for_each post f) (λ _, I l)) as Hg by (by apply Hg).
  induction post as [|x post IH]; intros pre Hl; cbn [for_each].
  - rewrite app_nil_r in Hl. rewrite <- Hl. by apply triple_ret.
  - apply (triple_bind _ _ (λ _, I (pre ++ [x]))); [by apply (H pre x post)|]. intros ?.
    apply IH. by rewrite <- app_assoc.
Qed.

Lemma triple_atomically {E A} now (l : SqlxError → E) P (m : TX St Json E A) Q w r w' :
  tx_triple now P m Q → w_now w = now → P (w_db w) → atomically l m w = (r, w') →
  w_store w' = w_store w ∧ w_now w' = now ∧
  match r with Ok a => Q a (w_db w') | Err _ => w_db w' = w_db w end.
Proof.
  intros Hm Hn HP Ha.
  assert (Hb : tx_triple now P
    (let! _ := tx_map_err l (stmt (λ _ db, Ok (tt, db))) in
     let! a := m in
     let! _ := tx_map_err l (stmt (λ _ db, Ok (tt, db))) in mret a) Q).
  { eapply triple_bind; [apply (triple_stmt _ P _ _ (λ _, P)); by intros ? ? ? ? [= <- <-]|].
    intros ?. eapply triple_bind; [exact Hm|]. intros b.
    eapply triple_bind; [apply (triple_stmt _ (Q b) _ _ (λ _, Q b)); by intros ? ? ? ? [= <- <-]|].
    intros ?. apply triple_ret; auto. }
  unfold atomically in Ha.
  match type of Ha with context [match ?m with _ => _ end] =>
    destruct m as [[a|e] w1] eqn:Hmw end;
  destruct (Hb _ _ _ Hn HP Hmw) as (Hs1 & Hn1 & HQ); injection Ha as <- <-; auto.
Qed.

(** A transaction preserves the invariant when its body, run on tables [db0],
    only ends in tables [db] with [Post now db0 a db]. *)
Lemma safe_transaction {E A} (R : relation (World St Json)) (I : World St Json → Prop) `{!PreOrder R}
    (Post : Z → Db Json → A → Db Json → Prop) (Q : A → World St Json → Prop)
    (l : SqlxError → E) (m : TX St Json E A) w0 :
  (∀ w w', w_db w' = w_db w → w_store w' = w_store w → w_now w' = w_now w →
     R w w' ∧ (I w → I w')) →
  (∀ w, R w0 w → I w → tx_triple (w_now w) (eq (w_db w)) m (Post (w_now w) (w_db w))) →
  (∀ w a w', R w0 w → I w → w_store w' = w_store w → w_now w' = w_now w →
     Post (w_now w) (w_db w) a (w_db w') → R w w' ∧ I w' ∧ Q a w') →
  safe R I Q (transaction l m) w0.
Proof.
  intros Hstable Hm Hpost. apply (safe_atomic R I). intros w r w' Hr Hw Ha.
  eapply triple_atomically in Ha as (Hs & Hn & Hres);
    [|by apply Hm|done|done].
  destruct r as [a|e].
  - destruct (Hpost w a w') as (? & ? & ?); [done..|]. split_and!; [done..|].
    by intros b [= <-].
  - destruct (Hstable w w') as [? Hi]; [done..|]. split_and!; [done|by apply Hi|].
    by intros b [=].
Qed.

End Programs.
