(* ===== verification/Actions.v ===== *)
(** * Actions: what every single action of a program does

    [each T p]: whatever runs between the actions of [p], every one of them
    takes the world to a [T]-related one.  Unlike the rely relations of [safe],
    [T] need not be transitive: it describes one atomic action. *)
From S2P Require Import Prelude Digest Storage Database Effects.

(** A handler's outcome, which axum turns into a response. *)
Fixpoint outcome_of {St Json E F A} (p : prog St Json E A) : prog St Json F (result E A) :=
  match p with
  | Ret r => Ret (Ok r)
  | Act f k => Act f (λ x, outcome_of (k x))
  end.

Section Actions.
  Context {St Json : Type} (T : relation (World St Json)).
  Implicit Types (w : World St Json).

(** A transaction body or a single action. *)
Definition each_tx {E A} (m : TX St Json E A) : Prop := ∀ w, T w (m w).2.

Fixpoint each {E A} (p : prog St Json E A) : Prop :=
  match p with
  | Ret _ => True
  | Act f k => ∀ w, T w (f w).2 ∧ each (k (f w).1)
  end.

(** ** Programs *)

Lemma each_bind {E A B} (m : prog St Json E A) (f : A → prog St Json E B) :
  each m → (∀ a, each (f a)) → each (let! a := m in f a).
Proof.
  unfold mbind, prog_bind. intros Hm Hf. induction m as [[a|e]|X g k IH]; cbn in *; [done|done|].
  intros w. destruct (Hm w) as [? ?]. split; [done|by apply IH].
Qed.

(** A computed value is known to be the one that was computed. *)
Lemma each_given {E A B} (r : result E A) (f : A → prog St Json E B) :
  (∀ a, r = Ok a → each (f a)) → each (let! a := lift r in f a).
Proof. intros Hf. destruct r as [a|e]; [by apply Hf|done]. Qed.

Lemma each_outcome_of {E F A} (p : prog St Json E A) : each p → each (outcome_of (F:=F) p).
Proof.
  induction p as [r|X f k IH]; intros Hp; [done|]. intros w. destruct (Hp w) as [Hw Hk].
  split; [done|by apply IH].
Qed.

Lemma each_for_each {E A} (l : list A) (f : A → prog St Json E unit) :
  (∀ x, each (f x)) → each (for_each l f).
Proof. intros Hf. induction l as [|x l IH]; cbn [for_each]; [done|]. by apply each_bind. Qed.

Lemma each_ret {E A} (a : A) : each (mret (M:=prog St Json E) a).
Proof. done. Qed.
Lemma each_fail {E A} (e : E) : each (fail (A:=A) e).
Proof. done. Qed.
Lemma each_lift {E A} (r : result E A) : each (lift r).
Proof. done. Qed.
Lemma each_act {E A} (f : World St Json → A * World St Json) :
  (∀ w, T w (f w).2) → each (act (E:=E) f).
Proof. by intros Hf w. Qed.
Lemma each_atomic {E A} (m : TX St Json E A) : each_tx m → each (atomic m).
Proof. by intros Hm w. Qed.

(** ** Transaction bodies *)

Lemma each_tx_map_err {E F A} (f : E → F) (m : TX St Json E A) : each_tx m → each_tx (tx_map_err f m).
Proof. intros Hm w. unfold tx_map_err. specialize (Hm w). by destruct (m w). Qed.

Section Transitive.
  Context {T_pre : PreOrder T}.

Lemma each_tx_ret {E A} (a : A) : each_tx (E:=E) (mret a).
Proof. by intros w. Qed.
Lemma each_tx_fail {E A} (e : E) : each_tx (A:=A) (tx_fail e).
Proof. by intros w. Qed.
Lemma each_tx_result {E A} (r : result E A) : each_tx (tx_result r).
Proof. by intros w. Qed.
Lemma each_tx_bind {E A B} (m : TX St Json E A) (f : A → TX St Json E B) :
  each_tx m → (∀ a, each_tx (f a)) → each_tx (let! a := m in f a).
Proof.
  intros Hm Hf w. unfold mbind, tx_bind. specialize (Hm w). destruct (m w) as [[a|e] w1]; cbn in *; [|done].
  etrans; [exact Hm|apply Hf].
Qed.
Lemma each_tx_for_each {E A} (l : list A) (f : A → TX St Json E unit) :
  (∀ x, each_tx (f x)) → each_tx (for_each l f).
Proof. intros Hf. induction l as [|x l IH]; cbn [for_each]; [apply each_tx_ret|]. by apply each_tx_bind. Qed.

End Transitive.

End Actions.
