(* ===== verification/Api.v ===== *)
(** * Api: errors, configuration and authentication of the service
    ([git-lfs-delta-server/src/lib.rs])

    [ApiError], [AppState], the three authentication adapters and the lookup
    of a repository.  Forgejo's HTTP API and the [jsonwebtoken] crate are
    interfaces. *)
From S2P Require Import Prelude Digest Manifest Protocol Storage Database Effects.

(** ** [ApiError] *)

Record ApiError := mkApiError { ae_status : N; ae_message : string }.

#[global] Instance ApiError_eq_dec : EqDecision ApiError.
Proof. solve_decision. Defined.

Definition BAD_REQUEST : N := 400.
Definition UNAUTHORIZED : N := 401.
Definition FORBIDDEN : N := 403.
Definition NOT_FOUND : N := 404.
Definition NOT_ACCEPTABLE : N := 406.
Definition CONFLICT : N := 409.
Definition PAYLOAD_TOO_LARGE : N := 413.
Definition UNPROCESSABLE_ENTITY : N := 422.
Definition INTERNAL_SERVER_ERROR : N := 500.
Definition BAD_GATEWAY : N := 502.
Definition SERVICE_UNAVAILABLE : N := 503.
Definition OK_STATUS : N := 200.
Definition CREATED : N := 201.
Definition NO_CONTENT : N := 204.

Definition ApiError_unauthorized : ApiError := mkApiError UNAUTHORIZED "authentication required".
Definition ApiError_authentication : ApiError :=
  mkApiError BAD_GATEWAY "authentication provider unavailable".
Definition ApiError_database (_ : SqlxError) : ApiError :=
  mkApiError INTERNAL_SERVER_ERROR "internal service error".
Definition ApiError_io : ApiError := mkApiError INTERNAL_SERVER_ERROR "internal I/O error".
Definition ApiError_join : ApiError := mkApiError INTERNAL_SERVER_ERROR "chunk producer failed".
Definition ApiError_integrity : ApiError :=
  mkApiError INTERNAL_SERVER_ERROR "stored object failed integrity validation".
Definition ApiError_shutdown : ApiError :=
  mkApiError SERVICE_UNAVAILABLE "server is shutting down".

Definition ApiError_storage {hex : HexCodec} (error : StorageError) : ApiError :=
  match error with
  | DigestMismatch _ _ => mkApiError UNPROCESSABLE_ENTITY (StorageError_display error)
  | _ => mkApiError INTERNAL_SERVER_ERROR "object storage error"
  end.

(** ** Requests and identities *)

(** The header values the handlers read, as [to_str] yields them. *)
Record HeaderMap := { h_authorization : option string; h_content_length : option string }.

Inductive Access := Read | Write.

Record Identity := mkIdentity {
  id_authorization : string;
  id_subject : string;
  id_administrator : bool;
}.

(** ** The Forgejo and JWT interfaces *)

Record ForgejoUser := { fu_login : string }.
Record ForgejoPermissions := { fp_pull : bool; fp_push : bool; fp_admin : bool }.
Record ForgejoRepository := { fr_permissions : ForgejoPermissions }.

(** [send()] and [json()]: no response, or a status with a body. *)
Inductive HttpOutcome (A : Type) :=
| HttpTransport
| HttpResponse (status : N) (body : option A).
Arguments HttpTransport {A}.
Arguments HttpResponse {A} status body.

(** Forgejo's answers to a GET with an [Authorization] header, at a time. *)
Class ForgejoApi {url_lib : UrlLib} := {
  forgejo_get_user : Url → string → Z → HttpOutcome ForgejoUser;
  forgejo_get_repository : Url → string → Z → HttpOutcome ForgejoRepository;
}.

Record JwtHeader := { jh_kid : option string; jh_alg : string }.
Record JwtValidation := { jv_alg : string; jv_issuer : string; jv_audience : string }.
Record OidcClaims := { oc_sub : string }.

Class JwtLib := {
  Jwk : Type;
  DecodingKey : Type;
  jwt_decode_header : string → option JwtHeader;
  jwt_from_jwk : Jwk → option DecodingKey;
  (** Signature, issuer, audience and expiry checks, at a time. *)
  jwt_decode : string → DecodingKey → JwtValidation → Z → option OidcClaims;
}.

(** ** Configuration *)

Section Config.
  Context {url_lib : UrlLib} {jwt : JwtLib}.

Inductive Authentication :=
| DevelopmentToken (hash : digest32)
| Forgejo (base_url : Url) (ttl : Z) (capacity : N)
| Oidc (issuer audience : string) (keys : gmap string Jwk).

(** The immutable part of [AppState]; pool, store, cache, counters and
    semaphores are in the [World]. *)
Record AppState := mkAppState {
  as_base_url : Url;
  as_authentication : Authentication;
}.

Definition AppState_new {hashes : Hashes} (base_url : Url) (dev_token : string) : AppState :=
  mkAppState base_url (DevelopmentToken (sha256_digest (as_bytes dev_token))).

(** Cache lifetimes are in microseconds: 30 seconds, 10,000 entries. *)
Definition AppState_new_forgejo (base_url forgejo_url : Url) : AppState :=
  mkAppState base_url (Forgejo forgejo_url 30000000 10000).

Definition AppState_with_forgejo_cache (self : AppState) (ttl : Z) (capacity : N) : AppState :=
  match as_authentication self with
  | Forgejo u _ _ => mkAppState (as_base_url self) (Forgejo u ttl (N.max capacity 1))
  | _ => self
  end.

End Config.

Section Authenticate.
  Context {St Json : Type} {url_lib : UrlLib} {jwt : JwtLib} {hashes : Hashes}
          {forgejo : ForgejoApi}.
  Local Abbreviation prog := (prog St Json ApiError).

(** ** The Forgejo authorization cache *)

Definition access_byte (access : Access) : Byte.byte :=
  match access with Read => x00 | Write => x01 end.

(** The bytes fed to the SHA-256 of the cache key. *)
Definition cache_key_preimage (authorization owner repository : string) (access : Access) : bytes :=
  as_bytes authorization ++ [x00] ++ as_bytes owner ++ [x00] ++ as_bytes repository ++
  [access_byte access].

Definition cache_key (authorization owner repository : string) (access : Access) : bytes :=
  digest_bytes (sha256_digest (cache_key_preimage authorization owner repository access)).

(** The lookup under the lock: a live entry is a hit, an expired one is
    removed. *)
Definition cache_lookup (key : bytes) (w : World St Json)
  : option CachedForgejoIdentity * World St Json :=
  match w_auth_cache w !! key with
  | None => (None, w)
  | Some cached =>
      if (w_instant w <? ci_expires_at cached)%Z then (Some cached, w)
      else (None, set_auth_cache (delete key (w_auth_cache w)) w)
  end.

(** [entries.iter().min_by_key(expires_at)]. *)
Definition older (a b : bytes * CachedForgejoIdentity) : bytes * CachedForgejoIdentity :=
  if (ci_expires_at b.2 <? ci_expires_at a.2)%Z then b else a.
Definition oldest_entry (m : gmap bytes CachedForgejoIdentity) : option bytes :=
  match map_to_list m with
  | [] => None
  | e :: l => Some (foldl older e l).1
  end.

(** The update under the lock: drop expired entries, evict the oldest when
    full, insert. *)
Definition cache_store (ttl : Z) (capacity : N) (key : bytes) (subject : string)
    (administrator : bool) (w : World St Json) : unit * World St Json :=
  let entries := filter (λ kv : bytes * CachedForgejoIdentity,
    (w_instant w < ci_expires_at kv.2)%Z) (w_auth_cache w) in
  let entries :=
    if capacity <=? N.of_nat (size entries)
    then match oldest_entry entries with
         | Some k => delete k entries
         | None => entries
         end
    else entries in
  (tt, set_auth_cache (<[key := mkCachedForgejoIdentity subject administrator
                                   (w_instant w + ttl)]> entries) w).

(** ** [authenticate_forgejo] *)

Definition access_allowed (access : Access) (p : ForgejoPermissions) : bool :=
  match access with
  | Read => fp_pull p || fp_push p || fp_admin p
  | Write => fp_push p || fp_admin p
  end.

Definition is_success (status : N) : bool := (200 <=? status) && (status <=? 299).

Definition user_of_response (response : HttpOutcome ForgejoUser) : result ApiError ForgejoUser :=
  match response with
  | HttpTransport => Err ApiError_authentication
  | HttpResponse status body =>
      if negb (is_success status) then Err ApiError_unauthorized
      else ok_or ApiError_authentication body
  end.

Definition repository_of_response (response : HttpOutcome ForgejoRepository)
  : result ApiError ForgejoRepository :=
  match response with
  | HttpTransport => Err ApiError_authentication
  | HttpResponse status body =>
      if status =? UNAUTHORIZED then Err ApiError_unauthorized
      else if status =? NOT_FOUND then Err (mkApiError NOT_FOUND "repository not found")
      else if 400 <=? status then Err ApiError_authentication
      else ok_or ApiError_authentication body
  end.

Definition authenticate_forgejo (base_url : Url) (ttl : Z) (capacity : N)
    (authorization owner repository_name : string) (access : Access) : prog Identity :=
  let key := cache_key authorization owner repository_name access in
  let! cached := act (cache_lookup key) in
  match cached with
  | Some cached =>
      let! _ := count (add_auth_cache_hits 1) in
      mret (mkIdentity authorization (ci_subject cached) (ci_administrator cached))
  | None =>
      let! _ := count (add_auth_cache_misses 1) in
      let! user_url := lift (map_err (λ _, ApiError_authentication)
                               (url_join base_url "api/v1/user")) in
      let! repo_url := lift (if url_has_segments base_url
        then Ok (url_extend base_url ["api"; "v1"; "repos"; owner; repository_name]%string)
        else Err ApiError_authentication) in
      let! _ := count (add_forgejo_requests 1) in
      let! user := atomic (λ w,
        (user_of_response (forgejo_get_user user_url authorization (w_instant w)), w)) in
      let! _ := count (add_forgejo_requests 1) in
      let! repository := atomic (λ w,
        (repository_of_response (forgejo_get_repository repo_url authorization (w_instant w)), w)) in
      if negb (access_allowed access (fr_permissions repository))
      then fail (mkApiError FORBIDDEN "repository access denied")
      else
        let identity :=
          mkIdentity authorization (fu_login user) (fp_admin (fr_permissions repository)) in
        let! _ := act (cache_store ttl capacity key (id_subject identity)
                         (id_administrator identity)) in
        mret identity
  end.

(** ** [authenticate_oidc] *)

(** [SELECT ... FROM repository_grants g JOIN repositories r ...]. *)
Definition select_grants (owner repository subject : string) (db : Db Json) : list GrantRow :=
  snd <$> filter (λ kv : Uuid * string * GrantRow,
    kv.1.2 = subject ∧
    (λ r, (rp_owner r, rp_name r)) <$> repositories db !! kv.1.1 = Some (owner, repository))
    (map_to_list (repository_grants db)).

Definition authenticate_oidc (issuer audience : string) (keys : gmap string Jwk)
    (authorization owner repository : string) (access : Access) : prog Identity :=
  let! token := lift (ok_or ApiError_unauthorized (strip_prefix "Bearer " authorization)) in
  let! token_header := lift (ok_or ApiError_unauthorized (jwt_decode_header token)) in
  let! key_id := lift (ok_or ApiError_unauthorized (jh_kid token_header)) in
  let! jwk := lift (ok_or ApiError_unauthorized (keys !! key_id)) in
  let! key := lift (ok_or ApiError_unauthorized (jwt_from_jwk jwk)) in
  let validation :=
    {| jv_alg := jh_alg token_header; jv_issuer := issuer; jv_audience := audience |} in
  let! claims := atomic (λ w,
    (ok_or ApiError_unauthorized (jwt_decode token key validation (w_instant w)), w)) in
  let! grants := query ApiError_database
    (λ _ db, Ok (select_grants owner repository (oc_sub claims) db, db)) in
  let! grant := lift (ok_or (mkApiError FORBIDDEN "repository access denied") (head grants)) in
  let allowed := match access with Read => gr_can_read grant | Write => gr_can_write grant end in
  if negb allowed then fail (mkApiError FORBIDDEN "repository access denied")
  else mret (mkIdentity authorization (oc_sub claims) (gr_can_admin grant)).

(** ** [authenticate] *)

Definition authenticate (state : AppState) (headers : HeaderMap) (owner repository : string)
    (access : Access) : prog Identity :=
  let! value := lift (ok_or ApiError_unauthorized (h_authorization headers)) in
  match as_authentication state with
  | DevelopmentToken hash =>
      let! token := lift (ok_or ApiError_unauthorized (strip_prefix "Bearer " value)) in
      let candidate := sha256_digest (as_bytes token) in
      if bool_decide (digest_bytes candidate = digest_bytes hash)
      then mret (mkIdentity value "development-user" true)
      else fail ApiError_unauthorized
  | Forgejo base_url ttl capacity =>
      authenticate_forgejo base_url ttl capacity value owner repository access
  | Oidc issuer audience keys =>
      authenticate_oidc issuer audience keys value owner repository access
  end.

(** ** [parse_oid] and [repository_id] *)

Definition parse_oid {hex : HexCodec} (value : string) : result ApiError ObjectOid :=
  map_err (λ e, mkApiError BAD_REQUEST (DigestParseError_display e)) (ObjectOid_from_str value).

Definition select_repository_id (owner name : string) (db : Db Json) : option Uuid :=
  fst <$> head (filter (λ kv : Uuid * RepositoryRow,
    rp_owner kv.2 = owner ∧ rp_name kv.2 = name) (map_to_list (repositories db))).

Definition repository_id (owner repository : string) : prog Uuid :=
  let! row := query ApiError_database
    (λ _ db, Ok (select_repository_id owner repository db, db)) in
  lift (ok_or (mkApiError NOT_FOUND "repository not found") row).

(** ** Authentication does not touch the database or the store *)

(** [I] and the rely relation [R] read the tables, the store and the database
    clock only. *)
Definition stable (R : relation (World St Json)) (I : World St Json → Prop) : Prop :=
  ∀ w w', w_db w' = w_db w → w_store w' = w_store w → w_now w' = w_now w →
  R w w' ∧ (I w → I w').

Section Stable.
  Context (R : relation (World St Json)) (I : World St Json → Prop) {R_pre : PreOrder R}
          (HRI : stable R I).

Lemma safe_stable_act {E A} (Q : A → World St Json → Prop)
    (f : World St Json → A * World St Json) w0 :
  (∀ w, w_db (f w).2 = w_db w ∧ w_store (f w).2 = w_store w ∧ w_now (f w).2 = w_now w) →
  (∀ w, R w0 w → I w → Q (f w).1 (f w).2) →
  safe R I Q (act (E:=E) f) w0.
Proof.
  intros Hf HQ. apply (safe_act R I). intros w Hr Hw. destruct (Hf w) as (? & ? & ?).
  destruct (HRI w (f w).2) as [? Hi]; [done..|]. split_and!; [done|by apply Hi|by apply HQ].
Qed.

Lemma safe_stable {E A} (Q : A → World St Json → Prop) (f : TX St Json E A) w0 :
  (∀ w, w_db (f w).2 = w_db w ∧ w_store (f w).2 = w_store w ∧ w_now (f w).2 = w_now w) →
  (∀ w a, R w0 w → I w → (f w).1 = Ok a → Q a (f w).2) →
  safe R I Q (atomic f) w0.
Proof.
  intros Hf HQ. apply (safe_atomic R I). intros w r w' Hr Hw Hfw.
  destruct (Hf w) as (? & ? & ?). specialize (HQ w). rewrite Hfw in *. cbn in *.
  destruct (HRI w w') as [? Hi]; [done..|]. split_and!; [done|by apply Hi|].
  intros a ->. by apply HQ.
Qed.

Lemma safe_query_read {E A} (l : SqlxError → E) (f : Z → Db Json → A)
    (Q : A → World St Json → Prop) w0 :
  (∀ w w', R w0 w → I w → w_db w' = w_db w → w_store w' = w_store w → w_now w' = w_now w →
     Q (f (w_now w) (w_db w)) w') →
  safe R I Q (query (St:=St) l (λ now db, Ok (f now db, db))) w0.
Proof.
  intros HQ. apply (safe_stable).
  - intros w. unfold tx_map_err, stmt. by destruct (hd false (w_faults w)).
  - intros w a Hr Hw. unfold tx_map_err, stmt. destruct (hd false (w_faults w)); cbn; [done|].
    intros [= <-]. by apply HQ.
Qed.

Lemma cache_lookup_frame key (w : World St Json) :
  w_db (cache_lookup key w).2 = w_db w ∧ w_store (cache_lookup key w).2 = w_store w ∧
  w_now (cache_lookup key w).2 = w_now w.
Proof. unfold cache_lookup. repeat case_match; done. Qed.

Lemma count_safe {E} f w0 : safe R I any (count (E:=E) f) w0.
Proof. by apply safe_stable_act. Qed.

Lemma lift_safe {E A} (r : result E A) w0 : safe R I any (lift r) w0.
Proof. by apply safe_lift. Qed.

Lemma authenticate_safe state headers owner repository access w0 :
  safe R I any (authenticate state headers owner repository access) w0.
Proof.
  unfold authenticate. apply (safe_bind _ _ any); [apply lift_safe|intros value w1 _ _].
  destruct (as_authentication state).
  - apply (safe_bind _ _ any); [apply lift_safe|intros token w2 _ _]. by case_bool_decide.
  - unfold authenticate_forgejo.
    apply (safe_bind _ _ any); [by apply safe_stable_act; [apply cache_lookup_frame|]|].
    intros [cached|] w2 _ _; (apply (safe_bind _ _ any); [apply count_safe|intros ? ? _ _]); [done|].
    do 2 (apply (safe_bind _ _ any); [apply lift_safe|intros ? ? _ _]).
    apply (safe_bind _ _ any); [apply count_safe|intros ? ? _ _].
    apply (safe_bind _ _ any); [by apply safe_stable|intros user ? _ _].
    apply (safe_bind _ _ any); [apply count_safe|intros ? ? _ _].
    apply (safe_bind _ _ any); [by apply safe_stable|intros repo ? _ _].
    destruct (negb _); [done|].
    by apply (safe_bind _ _ any); [by apply safe_stable_act|].
  - unfold authenticate_oidc.
    do 5 (apply (safe_bind _ _ any); [apply lift_safe|intros ? ? _ _]).
    apply (safe_bind _ _ any); [by apply safe_stable|intros claims ? _ _].
    apply (safe_bind _ _ any); [by apply (safe_query_read _ (λ _, select_grants _ _ _))|intros ? ? _ _].
    apply (safe_bind _ _ any); [apply lift_safe|intros grant ? _ _].
    by destruct (negb _).
Qed.

Lemma repository_id_safe owner repository w0 : safe R I any (repository_id owner repository) w0.
Proof.
  apply (safe_bind _ _ any); [by apply (safe_query_read _ (λ _, select_repository_id owner repository))|].
  intros row w _ _. apply lift_safe.
Qed.

Lemma io_safe {E} (e : E) w0 : safe R I any (io e) w0.
Proof. by apply safe_stable. Qed.

Lemma acquire_safe {E} (e : E) w0 : safe R I any (acquire e) w0.
Proof. by apply safe_stable. Qed.

Lemma new_v4_safe {E} w0 : safe R I any (new_v4 (E:=E)) w0.
Proof. by apply safe_stable_act. Qed.

Lemma act_safe {E A} (f : World St Json → A * World St Json) w0 :
  (∀ w, w_db (f w).2 = w_db w ∧ w_store (f w).2 = w_store w ∧ w_now (f w).2 = w_now w) →
  safe R I any (act (E:=E) f) w0.
Proof. intros Hf. by apply safe_stable_act. Qed.

Lemma query_read_safe {E A} (l : SqlxError → E) (f : Z → Db Json → A) w0 :
  safe R I any (query (St:=St) l (λ now db, Ok (f now db, db))) w0.
Proof. by apply safe_query_read. Qed.

End Stable.
End Authenticate.

(** Steps that cannot affect the tables or the store. *)
Create HintDb safe discriminated.
#[export] Hint Resolve lift_safe count_safe io_safe acquire_safe new_v4_safe act_safe
  query_read_safe authenticate_safe repository_id_safe safe_fail : safe.

(** One step of a handler about whose result nothing is recorded. *)
Ltac safe_call :=
  first [ solve [eauto with safe typeclass_instances]
        | eapply query_read_safe; [by apply _|eassumption] ].
Ltac safe_skip :=
  match goal with
  | |- safe ?R ?I _ (mbind _ _) _ =>
      apply (safe_bind R I any); [safe_call|intros ? ? ? _]
  end.
Ltac safe_skips := repeat safe_skip.
