(* ===== verification/Startup.v ===== *)
(** * Startup: configuration and schema compatibility of the server

    [schema_status], [schema_check] and [new_oidc] of [lib.rs], and the
    configuration that [main.rs] reads before it serves.  The embedded migrations ([sqlx::migrate!]) are a parameter, as are
    the [_sqlx_migrations] rows and the answers of the OIDC provider. *)
From S2P Require Import Prelude Digest Manifest Protocol Storage Database Effects Text Api.

(** ** Schema compatibility *)

Record Migration := mkMigration { mg_version : Z; mg_down : bool; mg_checksum : bytes }.

(** A row of [_sqlx_migrations]. *)
Record AppliedMigration := mkApplied { am_version : Z; am_checksum : bytes; am_success : bool }.

Record SchemaStatus := mkSchemaStatus {
  ss_target_version : Z;
  ss_applied_version : Z;
  ss_pending : N;
  ss_newer : N;
}.

Inductive SchemaError :=
| SchemaDatabase (error : SqlxError)
| SchemaMigration (error : string)
| SchemaDirty (version : Z)
| SchemaChecksum (version : Z)
| SchemaPending (pending : N).

Definition SchemaError_display (sqlx_display : SqlxError → string) (e : SchemaError) : string :=
  match e with
  | SchemaDatabase error => "database schema operation failed: " +:+ sqlx_display error
  | SchemaMigration error => "database migration failed: " +:+ error
  | SchemaDirty v => "database has an incomplete migration at version " +:+ pretty v
  | SchemaChecksum v =>
      "database migration " +:+ pretty v +:+ " does not match this binary's checksum"
  | SchemaPending n =>
      "database schema is " +:+ pretty n
      +:+ " migration(s) behind this binary; run git-lfs-delta-admin migrate"
  end.

(** [iter.max().unwrap_or(0)]. *)
Definition max_or_zero (l : list Z) : Z :=
  match l with [] => 0%Z | x :: l => foldl Z.max x l end.

Section Schema.
  Context (MIGRATOR : list Migration).

Definition up_migrations : list Migration := filter (λ m, mg_down m = false) MIGRATOR.

Definition find_applied (version : Z) (applied : list AppliedMigration) : option AppliedMigration :=
  head (filter (λ row, am_version row = version) applied).

(** The loop over the embedded migrations. *)
Fixpoint count_pending (migrations : list Migration) (applied : list AppliedMigration) (pending : N)
  : result SchemaError N :=
  match migrations with
  | [] => Ok pending
  | migration :: rest =>
      match find_applied (mg_version migration) applied with
      | Some row =>
          if negb (am_success row) then Err (SchemaDirty (am_version row))
          else if bool_decide (am_checksum row ≠ mg_checksum migration)
          then Err (SchemaChecksum (am_version row))
          else count_pending rest applied pending
      | None => count_pending rest applied (pending + 1)
      end
  end.

(** [schema_status]: whether the history table exists, and its rows in order
    of their versions. *)
Definition schema_status (history_exists : result SqlxError bool)
    (history : result SqlxError (list AppliedMigration)) : result SchemaError SchemaStatus :=
  let target_version := max_or_zero (map mg_version up_migrations) in
  let! history_exists := map_err SchemaDatabase history_exists in
  if negb history_exists
  then Ok (mkSchemaStatus target_version 0 (lenN up_migrations) 0)
  else
    let! applied := map_err SchemaDatabase history in
    let! pending := count_pending up_migrations applied 0 in
    match head (filter (λ row, am_success row = false) applied) with
    | Some row => Err (SchemaDirty (am_version row))
    | None =>
        let successes := filter (λ row, am_success row = true) applied in
        Ok (mkSchemaStatus target_version (max_or_zero (map am_version successes)) pending
              (lenN (filter (λ row, (target_version < am_version row)%Z) successes)))
    end.

Definition schema_check (history_exists : result SqlxError bool)
    (history : result SqlxError (list AppliedMigration)) : result SchemaError SchemaStatus :=
  let! status := schema_status history_exists history in
  if 0 <? ss_pending status then Err (SchemaPending (ss_pending status)) else Ok status.

(** Every embedded migration was applied as it is, and nothing that was applied
    is incomplete. *)
Definition schema_current (applied : list AppliedMigration) : Prop :=
  (∀ m, m ∈ up_migrations → ∃ row, find_applied (mg_version m) applied = Some row ∧
                                   am_checksum row = mg_checksum m) ∧
  Forall (λ row, am_success row = true) applied.

Lemma find_applied_elem v applied row : find_applied v applied = Some row → row ∈ applied ∧ am_version row = v.
Proof.
  unfold find_applied. intros H. apply head_Some_elem_of in H.
  by apply list_elem_of_filter in H as [? ?].
Qed.

Lemma count_pending_spec migrations applied pending :
  match count_pending migrations applied pending with
  | Ok n =>
      n = pending + lenN (filter (λ m, find_applied (mg_version m) applied = None) migrations) ∧
      ∀ m row, m ∈ migrations → find_applied (mg_version m) applied = Some row →
        am_success row = true ∧ am_checksum row = mg_checksum m
  | Err (SchemaDirty v) => ∃ row, row ∈ applied ∧ am_version row = v ∧ am_success row = false
  | Err (SchemaChecksum v) =>
      ∃ m row, m ∈ migrations ∧ mg_version m = v ∧ find_applied v applied = Some row ∧
               am_checksum row ≠ mg_checksum m
  | Err _ => False
  end.
Proof.
  revert pending. induction migrations as [|m rest IH]; intros pending; cbn [count_pending].
  { unfold lenN. cbn. split; [lia|set_solver]. }
  destruct (find_applied (mg_version m) applied) as [row|] eqn:Hf.
  - apply find_applied_elem in Hf as Hin. destruct Hin as [Hin Hv].
    destruct (am_success row) eqn:Hs; cbn [negb]; [|by exists row].
    case_bool_decide as Hc.
    + exists m, row. rewrite Hv. split_and!; [set_solver|done|done|done].
    + specialize (IH pending). destruct (count_pending rest applied pending) as [n|[e|e|v|v|n]].
      * destruct IH as [-> IH]. split.
        -- rewrite filter_cons_False by congruence. done.
        -- intros m' row' [->|Hm']%elem_of_cons Hf'; [|by eapply IH].
           assert (row' = row) as -> by congruence. split; [done|]. done.
      * done.
      * done.
      * done.
      * destruct IH as (m' & row' & ? & ?). exists m', row'. set_solver.
      * done.
  - specialize (IH (pending + 1)). destruct (count_pending rest applied (pending + 1)) as [n|[e|e|v|v|n]].
    + destruct IH as [-> IH]. split.
      * rewrite filter_cons_True by done. rewrite lenN_cons. lia.
      * intros m' row' [->|Hm']%elem_of_cons Hf'; [congruence|by eapply IH].
    + done.
    + done.
    + done.
    + destruct IH as (m' & row' & ? & ?). exists m', row'. set_solver.
    + done.
Qed.

Lemma schema_status_spec applied :
  match schema_status (Ok true) (Ok applied) with
  | Ok status =>
      ss_pending status =
        lenN (filter (λ m, find_applied (mg_version m) applied = None) up_migrations) ∧
      Forall (λ row, am_success row = true) applied ∧
      ∀ m row, m ∈ up_migrations → find_applied (mg_version m) applied = Some row →
        am_checksum row = mg_checksum m
  | Err (SchemaPending _) => False
  | Err _ => ¬ schema_current applied
  end.
Proof.
  unfold schema_status, schema_current. cbn [map_err mbind result_bind negb].
  pose proof (count_pending_spec up_migrations applied 0) as Hc.
  destruct (count_pending up_migrations applied 0) as [n|[e|e|v|v|n]]; cbn [mbind result_bind].
  - destruct Hc as [-> Hrows].
    destruct (head (filter (λ row, am_success row = false) applied)) as [row|] eqn:Hd.
    + apply head_Some_elem_of, list_elem_of_filter in Hd as [Hf Hin].
      intros [_ Hall]. rewrite Forall_forall in Hall. apply Hall in Hin. congruence.
    + split_and!; [by rewrite N.add_0_l| |intros m row Hm Hf; by eapply Hrows].
      apply head_None, filter_nil_iff in Hd. eapply Forall_impl; [done|]. by intros row Hrow%not_false_iff_true.
  - done.
  - done.
  - destruct Hc as (row & Hin & _ & Hf). intros [_ Hall]. rewrite Forall_forall in Hall.
    apply Hall in Hin. congruence.
  - destruct Hc as (m & row & Hm & <- & Hrow & Hne). intros [Hcur _].
    destruct (Hcur m Hm) as (row' & Hrow' & Heq). congruence.
  - done.
Qed.

Lemma schema_check_ok exists_ applied :
  is_ok (schema_check (Ok exists_) (Ok applied)) = true ↔
  if exists_ then schema_current applied else up_migrations = [].
Proof.
  unfold schema_check. destruct exists_.
  - pose proof (schema_status_spec applied) as Hs.
    destruct (schema_status (Ok true) (Ok applied)) as [status|[e|e|v|v|n]];
      cbn [mbind result_bind]; try (by split).
    destruct Hs as (-> & Hall & Hrows).
    destruct (filter (λ m, find_applied (mg_version m) applied = None) up_migrations) as [|m rest] eqn:Hf.
    + cbn. split; [intros _|done]. split; [|done]. intros m Hm.
      apply filter_nil_iff in Hf. rewrite Forall_forall in Hf. specialize (Hf m Hm). cbn in Hf.
      destruct (find_applied (mg_version m) applied) as [row|] eqn:Hr; [|done].
      exists row. split; [done|]. by apply (Hrows m).
    + rewrite lenN_cons. destruct (N.ltb_spec 0 (1 + lenN rest)); [|lia]. cbn.
      split; [done|]. intros [Hcur _].
      assert (m ∈ up_migrations ∧ find_applied (mg_version m) applied = None) as [Hm Hn].
      { assert (m ∈ m :: rest) as Hin by set_solver. rewrite <- Hf in Hin.
        by apply list_elem_of_filter in Hin as [? ?]. }
      destruct (Hcur m Hm) as (row & Hrow & _). congruence.
  - unfold schema_status. cbn. destruct up_migrations as [|m rest]; cbn; [by split|].
    rewrite lenN_cons. destruct (N.ltb_spec 0 (1 + lenN rest)); [|lia]. done.
Qed.

(** The server starts on a compatible schema only.  [schema_check] succeeds
    exactly when the history table is missing and there is nothing to migrate,
    or every embedded migration was applied with the embedded checksum and no
    applied migration is incomplete; migrations newer than the binary are
    accepted. *)
Theorem schema_check_iff exists_ applied :
  is_ok (schema_check (Ok exists_) (Ok applied)) = true ↔
  if exists_ then schema_current applied else up_migrations = [].
Proof. apply schema_check_ok. Qed.

End Schema.

(** ** OIDC discovery *)

Record OidcDiscovery {url_lib : UrlLib} := mkOidcDiscovery {
  od_issuer : string;
  od_jwks_uri : Url;
}.
Arguments mkOidcDiscovery {url_lib} _ _.

(** The provider's answers: its discovery document and its key set, each key
    with its [kid]. *)
Class OidcProvider {url_lib : UrlLib} {jwt : JwtLib} := {
  oidc_discovery : Url → HttpOutcome OidcDiscovery;
  oidc_jwks : Url → HttpOutcome (list (option string * Jwk));
}.

Inductive OidcSetupError :=
| OidcProviderFailed
| OidcUrlInvalid (error : string)
| OidcIssuerMismatch.

(** [send().await?.error_for_status()?.json().await?]. *)
Definition provider_json {A} (outcome : HttpOutcome A) : result OidcSetupError A :=
  match outcome with
  | HttpTransport => Err OidcProviderFailed
  | HttpResponse status body =>
      if within 400 599 status then Err OidcProviderFailed else ok_or OidcProviderFailed body
  end.

(** [trim_end_matches('/')]. *)
Fixpoint trim_end_slashes (s : string) : string :=
  match s with
  | EmptyString => EmptyString
  | String c rest =>
      match trim_end_slashes rest with
      | EmptyString => if Ascii.eqb c (Ascii.ascii_of_N 47) then EmptyString else String c EmptyString
      | rest => String c rest
      end
  end.

(** ** The environment of the process *)

(** What [main] asks the operating system and the libraries for: the
    environment variables, addresses, the database, the object-store URL, an
    HTTP client, and the socket. *)
Class Host {url_lib : UrlLib} := {
  SocketAddr : Type;
  env_var : string → EnvVar;
  temp_dir : string;
  url_as_str : Url → string;
  socket_addr_parse : string → result string SocketAddr;
  is_loopback : SocketAddr → bool;
  pool_connect : string → N → result SqlxError unit;
  history_exists : result SqlxError bool;
  history : result SqlxError (list AppliedMigration);
  store_parse_url : Url → result string unit;
  client_build : result string unit;
  tcp_bind : SocketAddr → result string unit;
  (** [Semaphore::MAX_PERMITS]: more permits make [Semaphore::new] panic. *)
  max_permits : N;
}.

(** How [main] ends when it does not serve. *)
Inductive StartupError :=
| ConfigurationError (message : string)
| VariableError (error : string)
| UrlError (error : string)
| AddressError (error : string)
| ConnectionsError
| PoolError (error : SqlxError)
| SchemaFailed (error : SchemaError)
| StorageUrlError (error : string)
| HttpClientError (error : string)
| OidcSetupFailed (error : OidcSetupError)
| BindError (error : string)
| SemaphorePanic.

Section Configuration.
  Context {url_lib : UrlLib} {jwt : JwtLib} {hashes : Hashes} {provider : OidcProvider}
          {host : Host} (MIGRATOR : list Migration).

(** The name's value, unless it is blank. *)
Definition required (name : string) : result StartupError string :=
  let missing :=
    Err (ConfigurationError ("required environment variable " +:+ name +:+ " is missing or empty")) in
  match env_var name with
  | EnvValue value => if is_empty (trim value) then missing else Ok value
  | _ => missing
  end.

(** [usize] is 64 bits wide. *)
Definition optional_usize (name : string) (default : N) : result StartupError N :=
  match env_var name with
  | EnvValue value =>
      map_err (λ e, ConfigurationError ("invalid " +:+ name +:+ ": " +:+ ParseIntError_display e))
        (u64_parse value)
  | EnvNotPresent => Ok default
  | EnvNotUnicode e => Err (VariableError e)
  end.

(** [std::env::var(name).unwrap_or_else(|_| default)]. *)
Definition variable_or (name default : string) : string :=
  match env_var name with EnvValue value => value | _ => default end.

Definition parse_required_url (name : string) : result StartupError Url :=
  let! value := required name in map_err UrlError (url_parse value).

Definition AppState_new_oidc (base_url issuer_url : Url) (audience : string)
  : result OidcSetupError AppState :=
  let! _ := map_err (λ _, OidcProviderFailed) client_build in
  let! discovery_url := map_err OidcUrlInvalid
    (url_join issuer_url ".well-known/openid-configuration") in
  let! discovery := provider_json (oidc_discovery discovery_url) in
  if bool_decide (trim_end_slashes (od_issuer discovery) ≠ trim_end_slashes (url_as_str issuer_url))
  then Err OidcIssuerMismatch
  else
    let! set := provider_json (oidc_jwks (od_jwks_uri discovery)) in
    let keys := foldl (λ keys key, match key.1 with
                                   | Some id => <[id := key.2]> keys
                                   | None => keys
                                   end) ∅ set in
    Ok (mkAppState base_url (Oidc (od_issuer discovery) audience keys)).

(** The configured service: its state, the sizes of its pool and semaphores,
    the staging directory and the address. *)
Record Server := mkServer {
  sv_state : AppState;
  sv_bind : SocketAddr;
  sv_maximum_connections : N;
  sv_staging_root : string;
  sv_basic_transfers : N;
  sv_data_requests : N;
}.

Definition Semaphore_new (permits : N) : result StartupError N :=
  if permits <=? max_permits then Ok permits else Err SemaphorePanic.

(** The [match auth_mode.as_str()]. *)
Definition authentication_state (auth_mode : string) (base_url : Url) : result StartupError AppState :=
  if bool_decide (auth_mode = "forgejo") then
    let! forgejo_url := parse_required_url "GIT_LFS_DELTA_FORGEJO_URL" in
    let! _ := map_err HttpClientError client_build in
    Ok (AppState_new_forgejo base_url forgejo_url)
  else if bool_decide (auth_mode = "oidc") then
    let! issuer_url := parse_required_url "GIT_LFS_DELTA_OIDC_ISSUER" in
    let! audience := required "GIT_LFS_DELTA_OIDC_AUDIENCE" in
    map_err OidcSetupFailed (AppState_new_oidc base_url issuer_url audience)
  else if bool_decide (auth_mode = "development") then
    let! dev_token := required "GIT_LFS_DELTA_DEV_TOKEN" in
    Ok (AppState_new base_url dev_token)
  else Err (ConfigurationError ("unsupported GIT_LFS_DELTA_AUTH_MODE: " +:+ auth_mode)).

Definition REMOTE_DEVELOPMENT : string :=
  "development authentication may not bind remotely without GIT_LFS_DELTA_ALLOW_REMOTE_DEVELOPMENT_AUTH".

(** [var_os(name).is_none()]. *)
Definition var_is_none (name : string) : bool :=
  match env_var name with EnvNotPresent => true | _ => false end.

(** [main] up to the listening socket. *)
Definition startup : result StartupError Server :=
  let! database_url := required "GIT_LFS_DELTA_DATABASE_URL" in
  let! base_url := parse_required_url "GIT_LFS_DELTA_BASE_URL" in
  let! storage_url := parse_required_url "GIT_LFS_DELTA_STORAGE_URL" in
  let! auth_mode := required "GIT_LFS_DELTA_AUTH_MODE" in
  let! bind := map_err AddressError
    (socket_addr_parse (variable_or "GIT_LFS_DELTA_BIND" "127.0.0.1:8080")) in
  let! maximum_connections := optional_usize "GIT_LFS_DELTA_DATABASE_MAX_CONNECTIONS" 20 in
  let! maximum_basic_transfers := optional_usize "GIT_LFS_DELTA_MAX_BASIC_TRANSFERS" 2 in
  let! maximum_data_requests := optional_usize "GIT_LFS_DELTA_MAX_DATA_REQUESTS" 64 in
  let staging_root := variable_or "GIT_LFS_DELTA_STAGING_DIR" (to_string_lossy temp_dir) in
  if bool_decide (auth_mode = "development") && negb (is_loopback bind)
     && var_is_none "GIT_LFS_DELTA_ALLOW_REMOTE_DEVELOPMENT_AUTH"
  then Err (ConfigurationError REMOTE_DEVELOPMENT)
  else
    let! connections := ok_or ConnectionsError (u32_try_from maximum_connections) in
    let! _ := map_err PoolError (pool_connect database_url connections) in
    let! _ := map_err SchemaFailed (schema_check MIGRATOR history_exists history) in
    let! _ := map_err StorageUrlError (store_parse_url storage_url) in
    let! state := authentication_state auth_mode base_url in
    let! basic_transfers := Semaphore_new (N.max maximum_basic_transfers 1) in
    let! data_requests := Semaphore_new (N.max maximum_data_requests 1) in
    let! _ := map_err BindError (tcp_bind bind) in
    Ok (mkServer state bind connections staging_root basic_transfers data_requests).

(** ** What a server that serves was configured with *)

Definition configured (name value : string) : Prop :=
  env_var name = EnvValue value ∧ is_empty (trim value) = false.

Definition configured_url (name : string) (url : Url) : Prop :=
  ∃ value, configured name value ∧ url_parse value = Ok url.

(** The key set the provider published for the issuer. *)
Definition discovered (issuer_url : Url) (discovery : OidcDiscovery)
    (set : list (option string * Jwk)) : Prop :=
  (∃ discovery_url, url_join issuer_url ".well-known/openid-configuration" = Ok discovery_url ∧
     provider_json (oidc_discovery discovery_url) = Ok discovery) ∧
  trim_end_slashes (od_issuer discovery) = trim_end_slashes (url_as_str issuer_url) ∧
  provider_json (oidc_jwks (od_jwks_uri discovery)) = Ok set.

(** What each kind of authentication rests on. *)
Definition authentication_configured (bind : SocketAddr) (a : Authentication) : Prop :=
  match a with
  | DevelopmentToken hash =>
      configured "GIT_LFS_DELTA_AUTH_MODE" "development" ∧
      (is_loopback bind = true ∨
       env_var "GIT_LFS_DELTA_ALLOW_REMOTE_DEVELOPMENT_AUTH" ≠ EnvNotPresent) ∧
      ∃ token, configured "GIT_LFS_DELTA_DEV_TOKEN" token ∧ hash = sha256_digest (as_bytes token)
  | Forgejo url ttl capacity =>
      configured "GIT_LFS_DELTA_AUTH_MODE" "forgejo" ∧
      configured_url "GIT_LFS_DELTA_FORGEJO_URL" url ∧ ttl = 30000000%Z ∧ capacity = 10000
  | Oidc issuer audience keys =>
      configured "GIT_LFS_DELTA_AUTH_MODE" "oidc" ∧
      configured "GIT_LFS_DELTA_OIDC_AUDIENCE" audience ∧
      ∃ issuer_url discovery set, configured_url "GIT_LFS_DELTA_OIDC_ISSUER" issuer_url ∧
        discovered issuer_url discovery set ∧ issuer = od_issuer discovery ∧
        ∀ id key, keys !! id = Some key → (Some id, key) ∈ set
  end.

Lemma required_ok name value : required name = Ok value ↔ configured name value.
Proof.
  unfold required, configured. destruct (env_var name) as [v| |]; [|by split; [|intros []]..].
  destruct (is_empty (trim v)) eqn:Ht; split; [done| |by intros [= ->]|by intros [[= ->] _]].
  intros [[= ->] ?]. congruence.
Qed.

Lemma parse_required_url_ok name url :
  parse_required_url name = Ok url → configured_url name url.
Proof.
  unfold parse_required_url. destruct (required name) as [value|] eqn:Hr; [|done].
  apply required_ok in Hr. cbn. intros H%map_err_ok. by exists value.
Qed.

(** Collecting keys by their identifiers: every entry comes from the list. *)
Lemma collect_keys (set : list (option string * Jwk)) (keys : gmap string Jwk) id key :
  foldl (λ keys key, match key.1 with
                     | Some id => <[id := key.2]> keys
                     | None => keys
                     end) keys set !! id = Some key →
  keys !! id = Some key ∨ (Some id, key) ∈ set.
Proof.
  revert keys. induction set as [|[[i|] k] set IH]; intros keys; cbn [foldl fst snd]; [by left| |].
  - intros [Hk|?]%IH; [|right; set_solver].
    apply lookup_insert_Some in Hk as [[-> ->]|[_ ?]]; [right; set_solver|by left].
  - intros [?|?]%IH; [by left|right; set_solver].
Qed.

Lemma AppState_new_oidc_ok base_url issuer_url audience state :
  AppState_new_oidc base_url issuer_url audience = Ok state →
  ∃ discovery set keys, discovered issuer_url discovery set ∧
    state = mkAppState base_url (Oidc (od_issuer discovery) audience keys) ∧
    ∀ id key, keys !! id = Some key → (Some id, key) ∈ set.
Proof.
  unfold AppState_new_oidc. destruct client_build; [cbn|done].
  destruct (url_join _ _) as [discovery_url|] eqn:Hj; [cbn|done].
  destruct (provider_json (oidc_discovery discovery_url)) as [discovery|] eqn:Hd; [cbn|done].
  case_bool_decide as Hi; [done|]. 
  destruct (provider_json (oidc_jwks _)) as [set|] eqn:Hs; [cbn|done]. intros [= <-].
  eexists discovery, set, _. split_and!; [|done|].
  - split_and!; [by exists discovery_url|done|done].
  - intros id key [H|?]%collect_keys; [|done]. by rewrite lookup_empty in H.
Qed.

Lemma authentication_state_ok auth_mode base_url bind state :
  configured "GIT_LFS_DELTA_AUTH_MODE" auth_mode →
  (auth_mode = "development" → is_loopback bind = true ∨
     env_var "GIT_LFS_DELTA_ALLOW_REMOTE_DEVELOPMENT_AUTH" ≠ EnvNotPresent) →
  authentication_state auth_mode base_url = Ok state →
  as_base_url state = base_url ∧ authentication_configured bind (as_authentication state).
Proof.
  intros Hmode Hdev. unfold authentication_state.
  case_bool_decide as Hf; [subst auth_mode|case_bool_decide as Ho; [subst auth_mode|
    case_bool_decide as Hd; [subst auth_mode|done]]].
  - destruct (parse_required_url _) as [url|] eqn:Hu; [cbn|done]. destruct client_build; [cbn|done].
    intros [= <-]. split; [done|]. cbn. split_and!; [done|by apply parse_required_url_ok|done|done].
  - destruct (parse_required_url _) as [url|] eqn:Hu; [cbn|done].
    destruct (required _) as [audience|] eqn:Ha; [cbn|done].
    intros (discovery & set & keys & Hd & -> & Hk)%map_err_ok%AppState_new_oidc_ok.
    split; [done|]. cbn. apply required_ok in Ha. split_and!; [done|done|].
    exists url, discovery, set. split_and!; [by apply parse_required_url_ok|done|done|done].
  - destruct (required _) as [token|] eqn:Ht; [cbn|done]. intros [= <-]. split; [done|]. cbn.
    apply required_ok in Ht. split_and!; [done|by apply Hdev|by exists token].
Qed.

Lemma Semaphore_new_ok n permits : Semaphore_new (N.max n 1) = Ok permits → 1 ≤ permits ∧ permits ≤ max_permits.
Proof. unfold Semaphore_new. destruct (N.leb_spec (N.max n 1) max_permits); [|done]. intros [= <-]. lia. Qed.

(** C28: the server fails closed.  [main] listens only with a compatible schema,
    an authentication mode that was named and fully configured (a development
    token only on a loopback address or with the explicit override, OIDC keys
    only from the provider whose discovery document names the configured
    issuer), a pool size that fits its type, and room for at least one basic
    transfer and one data request at a time. *)
Theorem startup_fail_closed server :
  startup = Ok server →
  is_ok (schema_check MIGRATOR history_exists history) = true ∧
  configured_url "GIT_LFS_DELTA_BASE_URL" (as_base_url (sv_state server)) ∧
  authentication_configured (sv_bind server) (as_authentication (sv_state server)) ∧
  sv_maximum_connections server ≤ U32_MAX ∧
  1 ≤ sv_basic_transfers server ∧ 1 ≤ sv_data_requests server ∧
  tcp_bind (sv_bind server) = Ok tt.
Proof.
  unfold startup. intros (database_url & _ & H)%result_bind_ok.
  apply result_bind_ok in H as (base_url & Hbase%parse_required_url_ok & H).
  apply result_bind_ok in H as (storage_url & _ & H).
  apply result_bind_ok in H as (auth_mode & Hmode%required_ok & H).
  apply result_bind_ok in H as (bind & _ & H).
  do 3 (apply result_bind_ok in H as (? & _ & H)).
  destruct (_ && _ && _) eqn:Hdev in H; [done|].
  apply result_bind_ok in H as (connections & Hconn%ok_or_ok & H).
  apply result_bind_ok in H as (_ & _ & H).
  apply result_bind_ok in H as (status & Hschema%map_err_ok & H).
  apply result_bind_ok in H as (_ & _ & H).
  apply result_bind_ok in H as (state & Hstate & H).
  apply result_bind_ok in H as (basic & [Hbasic _]%Semaphore_new_ok & H).
  apply result_bind_ok in H as (data & [Hdata _]%Semaphore_new_ok & H).
  apply result_bind_ok in H as ([] & Hbind%map_err_ok & [= <-]).
  apply (authentication_state_ok _ _ bind) in Hstate as [<- Hauth]; [|done|].
  - split_and!; cbn; [by rewrite Hschema|done|done| |done|done|done].
    unfold u32_try_from in Hconn. destruct (N.leb_spec x U32_MAX); [|done]. by injection Hconn as <-.
  - intros ->. rewrite bool_decide_eq_true_2 in Hdev by done. unfold var_is_none in Hdev.
    destruct (is_loopback bind); [by left|right]. intros Hn. by rewrite Hn in Hdev.
Qed.

End Configuration.
