(* ===== verification/Shutdown.v ===== *)
(** * Shutdown: serving until a signal ([git-lfs-delta-server/src/main.rs])

    The end of [main]: the task that waits for a signal, the watch channel, the
    graceful end of [axum::serve] and the grace period of 30 seconds.  A state
    holds the channel, the position of both tasks, the connections in flight
    and the clock; an [Action] is one step of a task or of the surroundings.
    Time passes, second by second, only while every task waits.

    The promises of tokio and axum are part of the model: a watch channel
    without receivers rejects a value, a receiver that awaits a change sees it, a
    server that shuts down gracefully accepts nothing more and ends with its
    last connection. *)
From S2P Require Import Prelude.
From stdpp Require Import relations.
#[local] Open Scope N_scope.

(** ** [tokio::sync::watch] *)

Record Watch := mkWatch { wt_value : bool; wt_version : N; wt_receivers : N }.

(** [let (sender, _) = channel(false)]: the receiver is dropped at once. *)
Definition watch_channel : Watch := mkWatch false 0 0.

(** A receiver remembers the version it has seen. *)
Definition watch_subscribe (w : Watch) : N * Watch :=
  (wt_version w, mkWatch (wt_value w) (wt_version w) (wt_receivers w + 1)).

(** Without receivers [send] fails and the value stays. *)
Definition watch_send (value : bool) (w : Watch) : Watch :=
  if wt_receivers w =? 0 then w else mkWatch value (wt_version w + 1) (wt_receivers w).

(** [if !*receiver.borrow() { let _ = receiver.changed().await; }] goes on. *)
Definition noticed (seen : N) (w : Watch) : bool :=
  wt_value w || negb (wt_version w =? seen).

(** ** The tasks *)

(** What [shutdown_signal] waits for, once SIGTERM has a handler; [ctrl_c] may
    fail to install its own. *)
Inductive Event := CtrlC (installed : bool) | Terminate.

(** The spawned task: the handler, the signal, and [send(true)]. *)
Inductive SignalTask := Installing | Listening | Requested | Finished.

(** [main]: the two subscriptions, the [select!], and how it ended. *)
Inductive MainTask :=
| Starting
| Subscribed (graceful : N)
| Serving (graceful deadline : N)
| Exited (expired : bool).

Record Run := mkRun {
  run_watch : Watch;
  run_task : SignalTask;
  run_main : MainTask;
  run_accepting : bool;
  run_in_flight : N;
  run_sleep : option N;       (** when the grace period ends *)
  run_now : N;                (** seconds *)
  run_requested : option N;   (** when the shutdown was requested *)
}.

(** The listener is bound, the task spawned. *)
Definition started : Run := mkRun watch_channel Installing Starting false 0 None 0 None.

Definition GRACE : N := 30.

Inductive Action :=
| Install (ok : bool) | Arrive (e : Event) | Send
| Advance
| Connect | Complete | Drain | Served
| Alarm | Expire
| Tick.

Definition with_task (task : SignalTask) (requested : option N) (s : Run) : Run :=
  mkRun (run_watch s) task (run_main s) (run_accepting s) (run_in_flight s) (run_sleep s) (run_now s)
    requested.
Definition with_main (w : Watch) (main : MainTask) (accepting : bool) (s : Run) : Run :=
  mkRun w (run_task s) main accepting (run_in_flight s) (run_sleep s) (run_now s) (run_requested s).
Definition with_in_flight (n : N) (s : Run) : Run :=
  mkRun (run_watch s) (run_task s) (run_main s) (run_accepting s) n (run_sleep s) (run_now s)
    (run_requested s).
Definition with_clock (sleep : option N) (now : N) (s : Run) : Run :=
  mkRun (run_watch s) (run_task s) (run_main s) (run_accepting s) (run_in_flight s) sleep now
    (run_requested s).

(** [shutdown_signal]: a handler that cannot be installed ends it like a signal
    does. *)
Definition shutdown_signal (a : Action) (s : Run) : option Run :=
  match run_task s, a with
  | Installing, Install true => Some (with_task Listening (run_requested s) s)
  | Installing, Install false => Some (with_task Requested (Some (run_now s)) s)
  | Listening, Arrive (CtrlC _) | Listening, Arrive Terminate =>
      Some (with_task Requested (Some (run_now s)) s)
  | _, _ => None
  end.

(** [axum::serve(..).with_graceful_shutdown(..)]. *)
Definition serve_turn (graceful : N) (a : Action) (s : Run) : option Run :=
  match a with
  | Connect => if run_accepting s then Some (with_in_flight (run_in_flight s + 1) s) else None
  | Complete =>
      if run_in_flight s =? 0 then None else Some (with_in_flight (run_in_flight s - 1) s)
  | Drain =>
      if run_accepting s && noticed graceful (run_watch s)
      then Some (with_main (run_watch s) (run_main s) false s) else None
  | Served =>
      if negb (run_accepting s) && (run_in_flight s =? 0)
      then Some (with_main (run_watch s) (Exited false) false s) else None
  | _ => None
  end.

(** The other branch of the [select!]. *)
Definition deadline_turn (deadline : N) (a : Action) (s : Run) : option Run :=
  match a, run_sleep s with
  | Alarm, None =>
      if noticed deadline (run_watch s)
      then Some (with_clock (Some (run_now s + GRACE)) (run_now s) s) else None
  | Expire, Some at_ =>
      if at_ <=? run_now s then Some (with_main (run_watch s) (Exited true) (run_accepting s) s) else None
  | _, _ => None
  end.

(** No task can go on. *)
Definition idle (s : Run) : bool :=
  match run_task s, run_main s with
  | (Listening | Finished), Serving graceful deadline =>
      negb (run_accepting s && noticed graceful (run_watch s)) &&
      negb (negb (run_accepting s) && (run_in_flight s =? 0)) &&
      match run_sleep s with
      | None => negb (noticed deadline (run_watch s))
      | Some at_ => run_now s <? at_
      end
  | _, _ => false
  end.

Definition act (a : Action) (s : Run) : option Run :=
  match a with
  | Install _ | Arrive _ => shutdown_signal a s
  | Send =>
      match run_task s with
      | Requested =>
          Some (mkRun (watch_send true (run_watch s)) Finished (run_main s) (run_accepting s)
                  (run_in_flight s) (run_sleep s) (run_now s) (run_requested s))
      | _ => None
      end
  | Advance =>
      let '(seen, w) := watch_subscribe (run_watch s) in
      match run_main s with
      | Starting => Some (with_main w (Subscribed seen) false s)
      | Subscribed graceful => Some (with_main w (Serving graceful seen) true s)
      | _ => None
      end
  | Connect | Complete | Drain | Served =>
      match run_main s with Serving graceful _ => serve_turn graceful a s | _ => None end
  | Alarm | Expire =>
      match run_main s with Serving _ deadline => deadline_turn deadline a s | _ => None end
  | Tick => if idle s then Some (with_clock (run_sleep s) (run_now s + 1) s) else None
  end.

Definition step (s s' : Run) : Prop := ∃ a, act a s = Some s'.

Fixpoint acts (l : list Action) (s : Run) : option Run :=
  match l with
  | [] => Some s
  | a :: l => s ← act a s; acts l s
  end.

Lemma acts_steps l s s' : acts l s = Some s' → rtc step s s'.
Proof.
  revert s. induction l as [|a l IH]; intros s; cbn; [by intros [= ->]|].
  destruct (act a s) as [s1|] eqn:Ha; [|done]. intros Hl. eapply rtc_l; [by exists a|by apply IH].
Qed.

(** ** The invariant *)

(** A position of [main] agrees with the rest of the state; [sent] says that the
    request is in the channel. *)
Definition main_ok (s : Run) (t : N) (sent : bool) : Prop :=
  match run_main s with
  | Starting => wt_receivers (run_watch s) = 0 ∧ run_sleep s = None ∧ sent = false
  | Subscribed _ => wt_receivers (run_watch s) ≠ 0 ∧ run_sleep s = None ∧ (sent = true → run_now s = t)
  | Serving _ _ =>
      wt_receivers (run_watch s) ≠ 0 ∧ (run_accepting s = false → sent = true) ∧
      match run_sleep s with
      | None => sent = true → run_now s = t
      | Some at_ => sent = true ∧ at_ = t + GRACE ∧ t ≤ run_now s ∧ run_now s ≤ at_
      end
  | Exited expired =>
      sent = true ∧
      if expired then run_now s = t + GRACE
      else run_accepting s = false ∧ run_in_flight s = 0 ∧ run_now s ≤ t + GRACE
  end.

(** Before the request is in the channel every receiver has seen its version. *)
Definition unseen (s : Run) : Prop :=
  wt_version (run_watch s) = 0 ∧
  match run_main s with
  | Subscribed graceful => graceful = 0
  | Serving graceful deadline => graceful = 0 ∧ deadline = 0
  | _ => True
  end.

Definition run_ok (s : Run) : Prop :=
  (wt_value (run_watch s) = false → unseen s) ∧
  match run_task s, run_requested s with
  | (Installing | Listening), None => main_ok s 0 (wt_value (run_watch s)) ∧ wt_value (run_watch s) = false
  | Requested, Some t =>
      main_ok s t (wt_value (run_watch s)) ∧ wt_value (run_watch s) = false ∧ t = run_now s
  | Finished, Some t => main_ok s t (wt_value (run_watch s))
  | _, _ => False
  end.

Lemma started_ok : run_ok started.
Proof. done. Qed.

(** The cases of an action on an explicit state. *)
Ltac act_cases H :=
  unfold act, shutdown_signal, serve_turn, deadline_turn, idle, watch_send in H; cbn in H;
  repeat match type of H with
  | context [match ?x with _ => _ end] => destruct x eqn:?; cbn in H; try discriminate H
  end;
  injection H as <-; bool_hyps; cbn in *; subst.

Ltac run_cases :=
  repeat match goal with
  | b : bool |- _ => destruct b
  | o : option N |- _ => destruct o
  end; cbn in *; try done; intros; destruct_and?; bool_hyps;
  repeat match goal with H : ?x = ?x → _ |- _ => specialize (H eq_refl) end;
  destruct_and?; simplify_eq/=; split_and!; intros; try done; try lia.

Lemma act_ok a s s' : act a s = Some s' → run_ok s → run_ok s'.
Proof.
  destruct s as [[value version receivers] task main accepting in_flight sleep now requested].
  unfold run_ok, main_ok, unseen, noticed in *.
  destruct a, task, main; intros Ha; try done; act_cases Ha; run_cases.
Qed.

Lemma started_reaches_ok s : rtc step started s → run_ok s.
Proof.
  intros Hs. assert (H : ∀ s0, run_ok s0 → rtc step s0 s → run_ok s).
  { intros s0 H0 Hr. induction Hr as [|s1 s2 s3 [a Ha] _ IH]; [done|]. by eapply IH, act_ok. }
  by apply (H started).
Qed.

(** ** Ending *)

(** Something always goes on until [main] has ended. *)
Lemma never_stuck s : (∀ expired, run_main s ≠ Exited expired) → ∃ s', step s s'.
Proof.
  destruct s as [w task main accepting in_flight sleep now requested]. cbn. intros Hm.
  destruct (idle (mkRun w task main accepting in_flight sleep now requested)) eqn:Hidle.
  { eexists _, Tick. cbn. by rewrite Hidle. }
  destruct main as [|g|g d|expired]; [by eexists _, Advance|by eexists _, Advance| |by destruct (Hm expired)].
  assert (Hwait : task = Listening ∨ task = Finished ∨ task = Installing ∨ task = Requested)
    by (destruct task; tauto).
  assert (Hserving : (task = Listening ∨ task = Finished) →
    ∃ s', step (mkRun w task (Serving g d) accepting in_flight sleep now requested) s').
  { intros Ht. assert (Hi : negb (accepting && noticed g w) && negb (negb accepting && (in_flight =? 0)) &&
      match sleep with None => negb (noticed d w) | Some at_ => now <? at_ end = false).
    { rewrite <- Hidle. by destruct Ht as [-> | ->]. }
    destruct (accepting && noticed g w) eqn:Hdrain; [eexists _, Drain; cbn; by rewrite Hdrain|].
    destruct (negb accepting && (in_flight =? 0)) eqn:Hserved; [eexists _, Served; cbn; by rewrite Hserved|].
    destruct sleep as [at_|]; cbn in Hi.
    - apply N.ltb_ge, N.leb_le in Hi. eexists _, Expire. cbn. by rewrite Hi.
    - apply negb_false_iff in Hi. eexists _, Alarm. cbn. by rewrite Hi. }
  destruct Hwait as [H|[H|[-> | ->]]]; [by apply Hserving; left|by apply Hserving; right|
    by eexists _, (Install true)|by eexists _, Send].
Qed.

(** What is left to do once nothing more is accepted. *)
Definition remaining (s : Run) : N :=
  match run_main s with
  | Exited _ => 0
  | _ => 1 + run_in_flight s +
         match run_sleep s with None => GRACE + 1 | Some at_ => at_ - run_now s end
  end.

Definition draining (s : Run) : Prop :=
  run_task s = Finished ∧ wt_value (run_watch s) = true ∧ run_accepting s = false ∧
  match run_main s with Serving _ _ | Exited _ => True | _ => False end.

Lemma draining_step a s s' :
  act a s = Some s' → draining s → draining s' ∧ remaining s' < remaining s.
Proof.
  destruct s as [[value version receivers] task main accepting in_flight sleep now requested].
  intros Ha (Ht & Hv & Hacc & Hm). cbn in *. subst. unfold draining, remaining. cbn.
  destruct a, main; try done; act_cases Ha; split_and?; try done; try lia.
  destruct sleep; bool_hyps; [lia|done].
Qed.

Lemma draining_ends n s s' : nsteps step n s s' → draining s → N.of_nat n + remaining s' ≤ remaining s.
Proof.
  induction 1 as [|n s1 s2 s3 [a Ha] _ IH]; intros Hd; [lia|].
  destruct (draining_step _ _ _ Ha Hd) as [Hd2 Hlt]. specialize (IH Hd2). lia.
Qed.

(** A request that finds a receiver gets into the channel. *)
Definition heard (s : Run) : Prop :=
  run_main s ≠ Starting ∧ (run_task s = Finished → wt_value (run_watch s) = true).

Lemma heard_step a s s' : act a s = Some s' → run_ok s → heard s → heard s'.
Proof.
  destruct s as [[value version receivers] task main accepting in_flight sleep now requested].
  intros Ha Hok [Hm Hf]. unfold run_ok, main_ok in Hok. unfold heard in *. cbn in *.
  destruct a, main; try done; act_cases Ha; try (by split);
    destruct requested; naive_solver.
Qed.

(** The server stops in order: it ends only after a shutdown was requested,
    and then either nothing is accepted any more and every connection was
    served, or exactly 30 seconds have passed since the request. *)
Theorem shutdown_in_order s expired :
  rtc step started s → run_main s = Exited expired → ∃ t, run_requested s = Some t ∧
  if expired then run_now s = t + 30
  else run_accepting s = false ∧ run_in_flight s = 0 ∧ run_now s ≤ t + 30.
Proof.
  intros Hs Hm. apply started_reaches_ok in Hs as [_ Hok]. unfold main_ok in Hok. rewrite Hm in Hok.
  destruct (run_task s), (run_requested s) as [t|]; try done;
    try (destruct Hok as [[Hv _] ?]; destruct_and?; congruence).
  destruct Hok as [_ Hok]. exists t. split; [done|]. by destruct expired.
Qed.

(** C29: a shutdown that is requested once [main] has subscribed to the channel
    is served within 30 seconds: until [main] ends, the clock never passes the
    end of the grace period, something can always go on, and from when nothing
    more is accepted only as many steps are left as there are connections and
    seconds. *)
Theorem shutdown_in_time s0 s t :
  rtc step started s0 → run_main s0 ≠ Starting → run_requested s0 = None →
  rtc step s0 s → run_requested s = Some t →
  run_now s ≤ t + 30 ∧
  ((∀ expired, run_main s ≠ Exited expired) → ∃ s', step s s') ∧
  (∀ graceful deadline, run_main s = Serving graceful deadline → run_accepting s = false →
     ∀ n s', nsteps step n s s' → N.of_nat n ≤ run_in_flight s + 32).
Proof.
  intros Hs0 Hm0 Hr0 Hs Ht. apply started_reaches_ok in Hs0 as Hok0.
  assert (Hheard0 : heard s0).
  { split; [done|]. intros Hf. destruct Hok0 as [_ Hok0]. by rewrite Hf, Hr0 in Hok0. }
  assert (run_ok s ∧ heard s) as [Hok Hheard].
  { clear - Hs Hok0 Hheard0. induction Hs as [|s1 s2 s3 [a Ha] _ IH]; [done|].
    apply IH; [by eapply act_ok|by eapply heard_step]. }
  split_and!; [|apply never_stuck|].
  - destruct Hok as [_ Hok], Hheard as [Hm Hf]. unfold main_ok, GRACE in Hok. rewrite Ht in Hok.
    destruct (run_task s); try done; [lia|]. rewrite (Hf eq_refl) in Hok.
    destruct (run_main s) as [|g|g d|[]]; [done|..].
    + destruct Hok as (_ & _ & Hok). rewrite Hok by done. lia.
    + destruct Hok as (_ & _ & Hok). destruct (run_sleep s); [lia|]. rewrite Hok by done. lia.
    + lia.
    + lia.
  - intros g d Hmain Hacc n s' Hn. destruct Hok as [_ Hok], Hheard as [_ Hf].
    assert (Hsent : wt_value (run_watch s) = true).
    { unfold main_ok in Hok. rewrite Hmain, Ht in Hok.
      destruct (run_task s); try done; destruct_and?; naive_solver. }
    assert (Hd : draining s).
    { unfold draining. rewrite Hmain. rewrite Ht in Hok. split_and!; try done.
      destruct (run_task s); try done. destruct_and?. congruence. }
    pose proof (draining_ends _ _ _ Hn Hd) as Hle. unfold remaining in Hle at 2. rewrite Hmain in Hle.
    destruct (run_sleep s) as [at_|] eqn:Hsleep; [|unfold GRACE in Hle; lia].
    assert (at_ = t + GRACE ∧ t ≤ run_now s) as [-> Hnow]; [|unfold GRACE in Hle; lia].
    unfold main_ok in Hok. rewrite (proj1 Hd), Hmain, Ht, Hsleep in Hok. by destruct_and?.
Qed.

(** The channel keeps its value, and nobody will send again. *)
Definition lost (s : Run) : Prop :=
  run_watch s = mkWatch false 0 2 ∧ run_task s = Finished ∧ run_main s = Serving 0 0 ∧
  run_accepting s = true ∧ run_sleep s = None.

Lemma lost_step a s s' : act a s = Some s' → lost s → lost s'.
Proof.
  destruct s as [w task main accepting in_flight sleep now requested].
  unfold lost. cbn. intros Ha (-> & -> & -> & -> & ->). destruct a; try done; act_cases Ha; done.
Qed.

Lemma lost_forever s s' : rtc step s s' → lost s → lost s'.
Proof. induction 1 as [|s1 s2 s3 [a Ha] _ IH]; [done|]. intros Hl. by eapply IH, lost_step. Qed.

(** A signal may be lost.  The channel's first receiver is dropped where it
    is made, so a shutdown requested before [main] subscribes is not sent: the
    server then accepts connections for ever. *)
Theorem shutdown_signal_lost :
  ∃ s, rtc step started s ∧ run_requested s = Some 0 ∧ run_task s = Finished ∧
    ∀ s', rtc step s s' → run_accepting s' = true ∧ ∃ graceful deadline, run_main s' = Serving graceful deadline.
Proof.
  assert (H : acts [Install true; Arrive Terminate; Send; Advance; Advance] started =
    Some (mkRun (mkWatch false 0 2) Finished (Serving 0 0) true 0 None 0 (Some 0))) by reflexivity.
  eexists. split; [apply (acts_steps _ _ _ H)|]. split_and!; [done|done|].
  intros s' Hs. apply lost_forever in Hs as (_ & _ & Hm & Ha & _); [|done]. eauto.
Qed.
