(* ===== verification/Migrate.v ===== *)
(** * Migrate: schema migration ([git-lfs-delta-server/src/lib.rs])

    [migrate] and the [migrate] command of [git-lfs-delta-admin].  [sqlx]'s
    [Migrator::run] is an interface with the behaviour it documents: it refuses
    an incomplete or changed history, then applies what is missing. *)
From S2P Require Import Prelude Digest Manifest Protocol Storage Database Effects Text Api Startup.

(** The table [_sqlx_migrations]: [None] while it does not exist. *)
Definition History : Type := option (list AppliedMigration).
Definition rows (h : History) : list AppliedMigration := default [] h.

Class Migrator := { migrator_run : list Migration → History → result string unit * History }.

(** The row of a migration that was applied now. *)
Definition applied_now (m : Migration) : AppliedMigration :=
  mkApplied (mg_version m) (mg_checksum m) true.

Section Migrate.
  Context {migrator : Migrator} (MIGRATOR : list Migration).
  Local Abbreviation up_migrations := (up_migrations MIGRATOR).

(** Every run keeps the rows there were, in order; a run that succeeds found no
    incomplete row and no changed checksum, and added a row for each migration
    that had none. *)
Class MigratorLaws := {
  run_keeps h : rows h `prefix_of` rows (migrator_run MIGRATOR h).2;
  run_applies h h' : migrator_run MIGRATOR h = (Ok tt, h') →
    Forall (λ row, am_success row = true) (rows h) ∧
    (∀ m row, m ∈ up_migrations → row ∈ rows h → am_version row = mg_version m →
       am_checksum row = mg_checksum m) ∧
    h' = Some (rows h ++ (applied_now <$>
           filter (λ m, find_applied (mg_version m) (rows h) = None) up_migrations));
}.

(** [migrate]: a connection, its two timeouts, and the migrator. *)
Definition migrate (acquired lock_timeout statement_timeout : result SqlxError unit) (h : History)
  : result SchemaError unit * History :=
  match (let! _ := acquired in let! _ := lock_timeout in statement_timeout) with
  | Err e => (Err (SchemaDatabase e), h)
  | Ok _ => let '(r, h) := migrator_run MIGRATOR h in (map_err SchemaMigration r, h)
  end.

(** [schema_check] on a history that can be read. *)
Definition history_check (h : History) : result SchemaError SchemaStatus :=
  schema_check MIGRATOR (Ok (bool_decide (is_Some h))) (Ok (rows h)).

(** [Commands::Migrate]. *)
Definition migrate_command (acquired lock_timeout statement_timeout : result SqlxError unit)
    (h : History) : result SchemaError SchemaStatus * History :=
  let '(migrated, h) := migrate acquired lock_timeout statement_timeout h in
  match migrated with
  | Err e => (Err e, h)
  | Ok _ => (history_check h, h)
  end.

(** ** A migrated schema is current *)

Context {laws : MigratorLaws}.
Hypothesis versions_distinct : NoDup (mg_version <$> up_migrations).

Lemma find_applied_app v l l' :
  find_applied v (l ++ l') = match find_applied v l with Some row => Some row | None => find_applied v l' end.
Proof. unfold find_applied. rewrite filter_app. by destruct (filter _ l). Qed.

Lemma find_applied_now m l :
  m ∈ l → NoDup (mg_version <$> l) → find_applied (mg_version m) (applied_now <$> l) = Some (applied_now m).
Proof.
  induction l as [|x l IH]; [by intros ?%elem_of_nil|].
  rewrite !fmap_cons. intros [-> |Hm]%elem_of_cons [Hx Hnd]%NoDup_cons; unfold find_applied.
  - by rewrite filter_cons_True.
  - rewrite filter_cons_False; [by apply IH|]. cbn. intros Heq. apply Hx. rewrite Heq.
    by apply list_elem_of_fmap_2.
Qed.

Lemma NoDup_fmap_filter {A B} (f : A → B) (P : A → Prop) `{!∀ x, Decision (P x)} l :
  NoDup (f <$> l) → NoDup (f <$> filter P l).
Proof.
  induction l as [|x l IH]; [done|]. rewrite fmap_cons. intros [Hx Hnd]%NoDup_cons.
  rewrite filter_cons. case_decide; [|by apply IH]. rewrite fmap_cons. apply NoDup_cons.
  split; [|by apply IH]. intros (y & Hy' & [_ Hy]%list_elem_of_filter)%list_elem_of_fmap.
  apply Hx. rewrite Hy'. by apply list_elem_of_fmap_2.
Qed.

(** The history after a successful run. *)
Lemma run_current h h' :
  migrator_run MIGRATOR h = (Ok tt, h') → schema_current MIGRATOR (rows h') ∧ is_Some h'.
Proof.
  intros (Hdone & Hsums & ->)%run_applies. split; [|by eexists]. split.
  - intros m Hm. cbn. rewrite find_applied_app.
    destruct (find_applied (mg_version m) (rows h)) as [row|] eqn:Hrow.
    + exists row. split; [done|]. apply find_applied_elem in Hrow as [Hin Hv].
      by apply (Hsums m).
    + exists (applied_now m). split; [|done]. apply find_applied_now.
      * apply list_elem_of_filter. by split.
      * by apply NoDup_fmap_filter.
  - cbn. apply Forall_app. split; [done|]. apply Forall_fmap, Forall_true. done.
Qed.

(** Migrating makes the schema current.  When the migrator succeeds, the
    [migrate] command succeeds too: its check of the new history passes, so that
    the server, which makes the same check, starts on it; no row of the history
    was changed or removed, and migrating once more changes nothing. *)
Theorem migrate_makes_current acquired lock_timeout statement_timeout h h' :
  migrate acquired lock_timeout statement_timeout h = (Ok tt, h') →
  is_ok (migrate_command acquired lock_timeout statement_timeout h).1 = true ∧
  is_ok (history_check h') = true ∧
  rows h `prefix_of` rows h' ∧
  ∀ a l s r h'', migrate a l s h' = (r, h'') → r = Ok tt → h'' = h'.
Proof.
  intros Hm. pose proof Hm as Hrun. unfold migrate in Hrun.
  destruct (let! _ := acquired in _) as [[]|e]; [|done].
  pose proof (run_keeps h) as Hkeeps.
  destruct (migrator_run MIGRATOR h) as [[[]|e] h1] eqn:Hr; [|done]. injection Hrun as ->.
  destruct (run_current h h' Hr) as [Hcur [rs Hsome]].
  assert (Hcheck : is_ok (history_check h') = true).
  { unfold history_check. apply schema_check_ok. rewrite bool_decide_eq_true_2; [done|]. by eexists. }
  split_and!; [|done|exact Hkeeps|].
  - unfold migrate_command. by rewrite Hm.
  - intros a l s r h'' Hagain ->. unfold migrate in Hagain.
    destruct (let! _ := a in _) as [[]|e]; [|done].
    destruct (migrator_run MIGRATOR h') as [[[]|e] h2] eqn:Hr2; [|done]. injection Hagain as ->.
    apply run_applies in Hr2 as (_ & _ & ->).
    assert (filter (λ m, find_applied (mg_version m) (rows h') = None) up_migrations = []) as ->.
    { apply filter_nil_iff, Forall_forall. intros m Hin Hnone.
      destruct (proj1 Hcur m Hin) as (row & Hrow & _). congruence. }
    cbn. rewrite app_nil_r. by rewrite Hsome.
Qed.

End Migrate.
