(* ===== verification/Sessions.v ===== *)
(** * Sessions: the SQL statements and transactions of the upload path
    ([git-lfs-delta-server/src/lib.rs])

    Upload sessions, chunk registration and the publication transaction, and
    that each of them preserves the metadata invariant [db_ok]. *)
From S2P Require Import Prelude Digest Manifest Protocol Storage Database Effects Api.

(** [to_char(timestamp AT TIME ZONE 'UTC', format)] with second and with
    microsecond precision. *)
Class PgText := {
  to_char_seconds : Z → string;
  to_char_micros : Z → string;
}.

#[global] Instance plain_pg_text : PgText := {|
  to_char_seconds t := pretty (t / 1000000)%Z;
  to_char_micros t := pretty t;
|}.

(** [interval '24 hours'] in microseconds. *)
Definition HOURS_24 : Z := 86400000000.

Section Statements.
  Context {Json : Type}.
  Implicit Types (db : Db Json).

Definition with_state (s : SessionState) (row : SessionRow Json) : SessionRow Json :=
  mkSessionRow (us_repository_id row) (us_object_oid row) (us_object_size row)
    (us_manifest row) s (us_expires_at row).
Definition with_expires_at (t : Z) (row : SessionRow Json) : SessionRow Json :=
  mkSessionRow (us_repository_id row) (us_object_oid row) (us_object_size row)
    (us_manifest row) (us_state row) t.

(** [UPDATE upload_sessions SET state = 'expired' WHERE repository_id = $1
    AND object_oid = $2 AND state = 'open' AND expires_at <= now()]. *)
Definition expire_row (now : Z) (r : Uuid) (oid : bytes) (row : SessionRow Json)
  : SessionRow Json :=
  if bool_decide (us_repository_id row = r) && bool_decide (us_object_oid row = oid) &&
     bool_decide (us_state row = Open) && (us_expires_at row <=? now)%Z
  then with_state Expired row else row.

Definition expire_open_sessions (r : Uuid) (oid : bytes) (now : Z) db
  : result SqlxError (unit * Db Json) :=
  Ok (tt, with_upload_sessions (expire_row now r oid <$> upload_sessions db) db).

(** The row the partial unique index [one_open_upload_per_object] finds. *)
Definition find_open (r : Uuid) (oid : bytes) db : option (Uuid * SessionRow Json) :=
  head (filter (λ kv : Uuid * SessionRow Json,
    us_repository_id kv.2 = r ∧ us_object_oid kv.2 = oid ∧ us_state kv.2 = Open)
    (map_to_list (upload_sessions db))).

Definition repository_exists (r : Uuid) db : bool :=
  bool_decide (is_Some (repositories db !! r)).

(** [INSERT INTO upload_sessions ... ON CONFLICT (repository_id, object_oid)
    WHERE state = 'open' DO UPDATE SET expires_at = now() + interval '24 hours'
    RETURNING id, expires_at, manifest]. *)
Definition upsert_open_session (id r : Uuid) (oid : bytes) (size : Z) (manifest : Json)
    (now : Z) db : result SqlxError (Uuid * Z * Json * Db Json) :=
  match find_open r oid db with
  | Some (sid, row) =>
      let row := with_expires_at (now + HOURS_24) row in
      Ok ((sid, us_expires_at row, us_manifest row),
          with_upload_sessions (<[sid := row]> (upload_sessions db)) db)
  | None =>
      require (octets32 oid) CHECK_VIOLATION
        (require (0 <=? size)%Z CHECK_VIOLATION
          (require (bool_decide (upload_sessions db !! id = None)) UNIQUE_VIOLATION
            (require (repository_exists r db) FOREIGN_KEY_VIOLATION
              (let row := mkSessionRow r oid size manifest Open (now + HOURS_24) in
               Ok ((id, us_expires_at row, us_manifest row),
                   with_upload_sessions (<[id := row]> (upload_sessions db)) db)))))
  end.

(** The sessions a request may act on. *)
Definition session_matches (id r : Uuid) (oid : bytes) (states : SessionState → bool) db
  : option (SessionRow Json) :=
  match upload_sessions db !! id with
  | Some row =>
      if bool_decide (us_repository_id row = r) && bool_decide (us_object_oid row = oid) &&
         states (us_state row)
      then Some row else None
  | None => None
  end.

(** [... AND state = 'open' AND expires_at > now()]. *)
Definition select_open_session (id r : Uuid) (oid : bytes) (now : Z) db : option (SessionRow Json) :=
  match session_matches id r oid (λ s, bool_decide (s = Open)) db with
  | Some row => if (now <? us_expires_at row)%Z then Some row else None
  | None => None
  end.

(** [... AND ((state = 'open' AND expires_at > now()) OR state = 'finalized')]. *)
Definition select_finalizable_session (id r : Uuid) (oid : bytes) (now : Z) db
  : option (SessionRow Json) :=
  match session_matches id r oid (λ _, true) db with
  | Some row =>
      if (bool_decide (us_state row = Open) && (now <? us_expires_at row)%Z) ||
         bool_decide (us_state row = Finalized)
      then Some row else None
  | None => None
  end.

(** [INSERT INTO chunks ... ON CONFLICT (repository_id, chunk_id) DO UPDATE SET
    size = chunks.size WHERE chunks.size = EXCLUDED.size RETURNING size]. *)
Definition register_chunk (r : Uuid) (c : bytes) (size : Z) (_ : Z) db
  : result SqlxError (option Z * Db Json) :=
  match chunks db !! (r, c) with
  | Some row =>
      if (ck_size row =? size)%Z then Ok (Some (ck_size row), db) else Ok (None, db)
  | None =>
      require (octets32 c) CHECK_VIOLATION
        (require (0 <? size)%Z CHECK_VIOLATION
          (require (repository_exists r db) FOREIGN_KEY_VIOLATION
            (Ok (Some size, with_chunks (<[(r, c) := mkChunkRow size 0]> (chunks db)) db))))
  end.

(** [INSERT INTO upload_session_chunks ... ON CONFLICT DO NOTHING], with the
    composite foreign keys of the migrations. *)
Definition insert_session_chunk (session r : Uuid) (c : bytes) (_ : Z) db
  : result SqlxError (unit * Db Json) :=
  match upload_session_chunks db !! (session, c) with
  | Some _ => Ok (tt, db)
  | None =>
      require (octets32 c) CHECK_VIOLATION
        (require (bool_decide (us_repository_id <$> upload_sessions db !! session = Some r) &&
                  bool_decide (is_Some (chunks db !! (r, c)))) FOREIGN_KEY_VIOLATION
          (Ok (tt, with_upload_session_chunks
                     (<[(session, c) := r]> (upload_session_chunks db)) db)))
  end.

(** [INSERT INTO chunks ... ON CONFLICT (repository_id, chunk_id) DO NOTHING]. *)
Definition insert_chunk (r : Uuid) (c : bytes) (size : Z) (_ : Z) db
  : result SqlxError (unit * Db Json) :=
  match chunks db !! (r, c) with
  | Some _ => Ok (tt, db)
  | None =>
      require (octets32 c) CHECK_VIOLATION
        (require (0 <? size)%Z CHECK_VIOLATION
          (require (repository_exists r db) FOREIGN_KEY_VIOLATION
            (Ok (tt, with_chunks (<[(r, c) := mkChunkRow size 0]> (chunks db)) db))))
  end.

(** [INSERT INTO objects ... ON CONFLICT (repository_id, oid) DO NOTHING]; the
    result is [rows_affected]. *)
Definition insert_object (r : Uuid) (oid : bytes) (size : Z) (manifest : Json) (_ : Z) db
  : result SqlxError (N * Db Json) :=
  match objects db !! (r, oid) with
  | Some _ => Ok (0, db)
  | None =>
      require (octets32 oid) CHECK_VIOLATION
        (require (0 <=? size)%Z CHECK_VIOLATION
          (require (repository_exists r db) FOREIGN_KEY_VIOLATION
            (Ok (1, with_objects (<[(r, oid) := mkObjectRow size manifest]> (objects db)) db))))
  end.

(** [INSERT INTO object_chunks ...]. *)
Definition insert_object_chunk (r : Uuid) (oid : bytes) (ordinal : Z) (row : ObjectChunkRow)
    (_ : Z) db : result SqlxError (unit * Db Json) :=
  require ((0 <=? ordinal)%Z && (0 <=? oc_byte_offset row)%Z && (0 <? oc_byte_length row)%Z)
    CHECK_VIOLATION
    (require (bool_decide (object_chunks db !! (r, oid, ordinal) = None)) UNIQUE_VIOLATION
      (require (bool_decide (is_Some (objects db !! (r, oid))) &&
                bool_decide (is_Some (chunks db !! (r, oc_chunk_id row)))) FOREIGN_KEY_VIOLATION
        (Ok (tt, with_object_chunks (<[(r, oid, ordinal) := row]> (object_chunks db)) db)))).

(** [UPDATE chunks SET reference_count = reference_count + delta
    WHERE repository_id = $1 AND chunk_id = $2], with the column's checks. *)
Definition add_reference (r : Uuid) (c : bytes) (delta : Z) (_ : Z) db
  : result SqlxError (unit * Db Json) :=
  match chunks db !! (r, c) with
  | None => Ok (tt, db)
  | Some row =>
      let n := (ck_reference_count row + delta)%Z in
      require (fits_bigint n) NUMERIC_OUT_OF_RANGE
        (require (0 <=? n)%Z CHECK_VIOLATION
          (Ok (tt, with_chunks (<[(r, c) := mkChunkRow (ck_size row) n]> (chunks db)) db)))
  end.

(** [UPDATE upload_sessions SET state = 'finalized' WHERE id = $1]. *)
Definition finalize_session (id : Uuid) (_ : Z) db : result SqlxError (unit * Db Json) :=
  Ok (tt, with_upload_sessions (alter (with_state Finalized) id (upload_sessions db)) db).

End Statements.

Section Transactions.
  Context {St Json : Type} {json : ManifestJson Json} {pg : PgText}.
  Local Abbreviation TX := (TX St Json ApiError).

(** [query.execute(&mut *transaction).await.map_err(ApiError::database)?]. *)
Definition sql {A} (q : Z → Db Json → result SqlxError (A * Db Json)) : TX A :=
  tx_map_err ApiError_database (stmt q).

Definition tx_new_v4 {E} : Effects.TX St Json E Uuid :=
  λ w, (Ok (w_uuids w (w_drawn w)), set_drawn (S (w_drawn w)) w).

Definition different_manifest : ApiError :=
  mkApiError CONFLICT "an open upload for this OID uses a different manifest".

(** The transaction body that [begin_cdc] and [ensure_upload_session] share:
    expire, insert or extend, and compare the stored manifest; [value] is the
    outcome of [serde_json::to_value]. *)
Definition open_session (r : Uuid) (manifest : ObjectManifest) (value : result ApiError Json)
    (too_large : ApiError) : TX (Uuid * string * ObjectManifest) :=
  let oid := ObjectOid_as_bytes (om_object_oid manifest) in
  let! _ := sql (expire_open_sessions r oid) in
  let! id := tx_new_v4 in
  let! size := tx_result (ok_or too_large (i64_try_from (om_object_size manifest))) in
  let! value := tx_result value in
  let! row := sql (upsert_open_session id r oid size value) in
  let '(upload_id, expires_at, stored) := row in
  let! stored := tx_result (map_err (λ _, ApiError_integrity) (manifest_from_value stored)) in
  if bool_decide (stored = manifest)
  then mret (upload_id, to_char_seconds expires_at, stored)
  else tx_fail different_manifest.

(** The transaction of [register_and_store_chunk]. *)
Definition register_session_chunk (r upload_id : Uuid) (descriptor : ChunkDescriptor) : TX unit :=
  let c := ChunkId_as_bytes (cd_id descriptor) in
  let! registered := sql (register_chunk r c (Z.of_N (cd_length descriptor))) in
  match registered with
  | None => tx_fail ApiError_integrity
  | Some _ => sql (insert_session_chunk upload_id r c)
  end.

(** One turn of the [object_chunks] loop of [publish_manifest]. *)
Definition publish_descriptor (r : Uuid) (oid : bytes) (p : N * ChunkDescriptor) : TX unit :=
  let '(ordinal, d) := p in
  let c := ChunkId_as_bytes (cd_id d) in
  let! ordinal := tx_result (ok_or ApiError_integrity (i32_try_from ordinal)) in
  let! offset := tx_result (ok_or ApiError_integrity (i64_try_from (cd_offset d))) in
  let! length := tx_result (ok_or ApiError_integrity (i32_try_from (cd_length d))) in
  let! _ := sql (insert_object_chunk r oid ordinal (mkObjectChunkRow c offset length)) in
  sql (add_reference r c 1).

Definition session_not_found : ApiError := mkApiError NOT_FOUND "upload session not found".

(** The object row and, when it is new, its descriptors; the result is
    [inserted == 1]. *)
Definition write_object (r : Uuid) (manifest : ObjectManifest) : TX bool :=
  let oid := ObjectOid_as_bytes (om_object_oid manifest) in
  let! size := tx_result (ok_or ApiError_integrity (i64_try_from (om_object_size manifest))) in
  let! value := tx_result (map_err (λ _, ApiError_integrity) (manifest_to_value manifest)) in
  let! inserted := sql (insert_object r oid size value) in
  let! _ :=
    if inserted =? 1
    then for_each (enumerate (om_chunks manifest)) (publish_descriptor r oid)
    else mret tt in
  mret (inserted =? 1).

(** The transaction of [publish_manifest]. *)
Definition publish_tx (r upload_id : Uuid) (manifest : ObjectManifest) : TX bool :=
  let oid := ObjectOid_as_bytes (om_object_oid manifest) in
  let! row := sql (λ now db, Ok (select_finalizable_session upload_id r oid now db, db)) in
  let! session := tx_result (ok_or session_not_found row) in
  match us_state session with
  | Finalized => mret false
  | Expired => tx_fail (mkApiError NOT_FOUND "open upload session not found")
  | Open =>
      let! _ := for_each (om_chunks manifest) (λ d,
        sql (insert_chunk r (ChunkId_as_bytes (cd_id d)) (Z.of_N (cd_length d)))) in
      let! created := write_object r manifest in
      let! _ := sql (finalize_session upload_id) in
      mret created
  end.

End Transactions.

(** ** Each statement preserves the invariant *)

Section StatementFacts.
  Context {Json : Type} {json : ManifestJson Json}.
  Implicit Types (db : Db Json).

(** Session updates that keep repository and OID and open nothing. *)
Lemma sessions_update_ok (f : Uuid → SessionRow Json → SessionRow Json)
    (t : gmap Uuid (SessionRow Json)) db :
  (∀ s, t !! s = f s <$> upload_sessions db !! s) →
  (∀ s row, upload_sessions db !! s = Some row →
            us_repository_id (f s row) = us_repository_id row ∧
            us_object_oid (f s row) = us_object_oid row ∧
            us_manifest (f s row) = us_manifest row ∧
            (us_state (f s row) = Open → us_state row = Open)) →
  db_ok db → db_ok (with_upload_sessions t db).
Proof.
  intros Ht Hf [[] Hobj]. split; [|by eapply objects_ok_frame].
  split; cbn; try done.
  - intros s c r Hs. destruct (ok_usc _ _ _ Hs) as [(srow & Hsr & Hr) Hc].
    split; [|done]. exists (f s srow). rewrite Ht, Hsr.
    by destruct (Hf s srow Hsr) as (-> & _).
  - intros s s' row row'. rewrite !Ht, !fmap_Some.
    intros (x & Hx & ->) (y & Hy & ->) Ho Ho' Hr Hoid.
    destruct (Hf s x Hx) as (Hx1 & Hx2 & _ & Hx3), (Hf s' y Hy) as (Hy1 & Hy2 & _ & Hy3).
    rewrite Hx1, Hy1 in Hr. rewrite Hx2, Hy2 in Hoid. eapply ok_one_open; eauto.
  - intros s row. rewrite Ht, fmap_Some. intros (x & Hx & ->).
    destruct (Hf s x Hx) as (_ & -> & -> & _). by eapply ok_sessions.
Qed.

Lemma expire_open_sessions_ok r oid now db : db_ok db →
  db_ok (with_upload_sessions (expire_row now r oid <$> upload_sessions db) db).
Proof.
  apply (sessions_update_ok (λ _, expire_row now r oid)).
  - intros s. by rewrite lookup_fmap.
  - intros _ row _. unfold expire_row. by destruct (_ && _ && _ && _).
Qed.

Lemma finalize_session_ok id db : db_ok db →
  db_ok (with_upload_sessions (alter (with_state Finalized) id (upload_sessions db)) db).
Proof.
  apply (sessions_update_ok (λ s row, if decide (id = s) then with_state Finalized row else row)).
  - intros s. rewrite lookup_alter.
    destruct (upload_sessions db !! s) eqn:Hs; cbn; repeat case_decide; subst; rewrite ?Hs; done.
  - intros s row _. case_decide; [split_and!; [done..|]|done]. by intros ?.
Qed.

Lemma find_open_Some r oid db sid row :
  find_open r oid db = Some (sid, row) →
  upload_sessions db !! sid = Some row ∧ us_repository_id row = r ∧
  us_object_oid row = oid ∧ us_state row = Open.
Proof.
  unfold find_open. intros H%head_Some_elem_of.
  apply list_elem_of_filter in H as [H Hin]. by apply elem_of_map_to_list in Hin.
Qed.

Lemma find_open_None r oid db :
  find_open r oid db = None →
  ∀ sid row, upload_sessions db !! sid = Some row → us_repository_id row = r →
  us_object_oid row = oid → us_state row ≠ Open.
Proof.
  unfold find_open. intros H sid row Hrow Hr Hoid Hst.
  match type of H with head ?l = None => assert (l = []) as Hnil by (by destruct l) end.
  assert ((sid, row) ∈ ([] : list (Uuid * SessionRow Json))) as Hin; [|by apply elem_of_nil in Hin].
  rewrite <- Hnil. apply list_elem_of_filter. split; [done|]. by apply elem_of_map_to_list.
Qed.

(** A new open session is fine when the object has none. *)
Lemma new_session_ok id row db :
  upload_sessions db !! id = None →
  (∀ sid row', upload_sessions db !! sid = Some row' →
     us_repository_id row' = us_repository_id row → us_object_oid row' = us_object_oid row →
     us_state row' ≠ Open) →
  (∃ m, manifest_from_value (us_manifest row) = Ok m ∧
        ObjectOid_as_bytes (om_object_oid m) = us_object_oid row) →
  db_ok db → db_ok (with_upload_sessions (<[id := row]> (upload_sessions db)) db).
Proof.
  intros Hfresh Hno Hm [[] Hobj]. split; [|by eapply objects_ok_frame].
  split; cbn; try done.
  - intros s c r' Hs. destruct (ok_usc _ _ _ Hs) as [(srow & Hsr & Hr') Hc].
    split; [|done]. exists srow. rewrite lookup_insert_ne; [done|]. congruence.
  - intros s s' row1 row2. rewrite !lookup_insert_Some.
    intros [[<- <-]|[Hne Hrow]] [[<- <-]|[Hne' Hrow']]; cbn; intros Ho Ho' Hr Hoid; [done| | |].
    + by destruct (Hno s' row2).
    + by destruct (Hno s row1).
    + by eapply ok_one_open.
  - intros s row'. rewrite lookup_insert_Some. intros [[<- <-]|[Hne Hrow]]; [done|].
    by eapply ok_sessions.
Qed.

(** What the upsert returns: the only open session of the object, extended or
    new, and the manifest it stores. *)
Lemma upsert_open_session_spec id r oid size value now db sid t j db' :
  upsert_open_session id r oid size value now db = Ok ((sid, t, j), db') → db_ok db →
  (∃ m, manifest_from_value value = Ok m ∧ ObjectOid_as_bytes (om_object_oid m) = oid) →
  db_ok db' ∧ t = (now + HOURS_24)%Z ∧ (∃ row, db' = with_upload_sessions
    (<[sid := row]> (upload_sessions db)) db ∧ us_repository_id row = r ∧
    us_object_oid row = oid ∧ us_state row = Open ∧ us_manifest row = j ∧ us_expires_at row = t) ∧
  (j = value ∨ ∃ row, upload_sessions db !! sid = Some row ∧ us_state row = Open ∧
                      us_manifest row = j).
Proof.
  unfold upsert_open_session. intros H Hok Hm.
  destruct (find_open r oid db) as [[sid0 row]|] eqn:Hfind.
  - injection H as <- <- <- <-. apply find_open_Some in Hfind as (Hrow & Hr & Ho & Hs).
    split_and!; [|done| |right; by exists row].
    + revert Hok. apply (sessions_update_ok
        (λ s x, if decide (sid0 = s) then with_expires_at (now + HOURS_24) row else x)).
      * intros s. rewrite lookup_insert. case_decide as Hd; [subst s; by rewrite Hrow|].
        by destruct (upload_sessions db !! s).
      * intros s x Hx. case_decide; [simplify_map_eq|]; done.
    + by exists (with_expires_at (now + HOURS_24) row).
  - rewrite !require_ok in H.
    destruct H as (Hlen & Hsz & Hfresh & Hrepo & [= <- <- <- <-]). bool_hyps.
    split_and!; [|done|by eexists|by left].
    apply new_session_ok; [done| |done|done]. by apply find_open_None.
Qed.

Lemma session_matches_Some id r oid states db row :
  session_matches id r oid states db = Some row →
  upload_sessions db !! id = Some row ∧ us_repository_id row = r ∧ us_object_oid row = oid ∧
  states (us_state row) = true.
Proof.
  unfold session_matches. destruct (upload_sessions db !! id) as [x|]; [|done].
  destruct (_ && _ && _) eqn:H; [|done]. intros [= ->]. by bool_hyps.
Qed.

Lemma select_finalizable_session_Some id r oid now db row :
  select_finalizable_session id r oid now db = Some row →
  upload_sessions db !! id = Some row ∧ us_repository_id row = r ∧ us_object_oid row = oid ∧
  (us_state row = Open ∧ (now < us_expires_at row)%Z ∨ us_state row = Finalized).
Proof.
  unfold select_finalizable_session. destruct (session_matches _ _ _ _ _) as [x|] eqn:H; [|done].
  apply session_matches_Some in H as (H & Hr & Ho & _).
  destruct (_ || _) eqn:Hc; [|done]. intros [= <-]. split_and!; [done..|].
  apply orb_true_iff in Hc as [Hc|Hc]; bool_hyps; auto.
Qed.

Lemma select_open_session_Some id r oid now db row :
  select_open_session id r oid now db = Some row →
  upload_sessions db !! id = Some row ∧ us_repository_id row = r ∧ us_object_oid row = oid ∧
  us_state row = Open ∧ (now < us_expires_at row)%Z.
Proof.
  unfold select_open_session. destruct (session_matches _ _ _ _ _) as [x|] eqn:H; [|done].
  apply session_matches_Some in H as (H & Hr & Ho & Hs).
  destruct (_ <? _)%Z eqn:Hc; [|done]. intros [= <-]. by bool_hyps.
Qed.

(** A new chunk row has no references yet. *)
Lemma new_chunk_core r c size db :
  chunks db !! (r, c) = None → length c = 32%nat → core_ok db →
  core_ok (with_chunks (<[(r, c) := mkChunkRow size 0]> (chunks db)) db).
Proof.
  intros Hn Hlen [].
  assert (Hmono : ∀ k, is_Some (chunks db !! k) →
    is_Some (<[(r, c) := mkChunkRow size 0]> (chunks db) !! k)).
  { intros k Hk. rewrite lookup_insert. by case_decide. }
  split; cbn; try done.
  - intros r' c' row. rewrite lookup_insert_Some.
    intros [[[= <- <-] <-]|[Hne Hrow]]; [|by apply ok_refs].
    cbn. rewrite (refs_frame db) by done. enough (refs db r c = 0%nat) as -> by done.
    apply refs_zero. intros o z row Hrow <-. apply ok_oc_chunk in Hrow. rewrite Hn in Hrow.
    by destruct Hrow.
  - intros r' o z row Hrow. by eapply Hmono, ok_oc_chunk.
  - intros s c' r' Hs. destruct (ok_usc _ _ _ Hs) as [? Hc]. auto.
  - intros r' c' row. rewrite lookup_insert_Some.
    intros [[[= <- <-] <-]|[Hne Hrow]]; [done|]. by eapply ok_chunk_ids.
Qed.

Lemma new_chunk_ok r c size db :
  chunks db !! (r, c) = None → length c = 32%nat → db_ok db →
  db_ok (with_chunks (<[(r, c) := mkChunkRow size 0]> (chunks db)) db).
Proof.
  intros Hn Hl [Hc Ho]. split; [by apply new_chunk_core|by eapply objects_ok_frame].
Qed.

(** Both chunk inserts: nothing but [chunks] changes, and the row exists. *)
Definition chunk_added (r : Uuid) (c : bytes) db db' : Prop :=
  db_ok db' ∧ is_Some (chunks db' !! (r, c)) ∧
  ∃ t, db' = with_chunks t db ∧ (∀ k, is_Some (chunks db !! k) → t !! k = chunks db !! k).

Lemma register_chunk_spec r c size now db o db' :
  register_chunk r c size now db = Ok (Some o, db') → db_ok db →
  chunk_added r c db db' ∧ (ck_size <$> chunks db' !! (r, c)) = Some size.
Proof.
  unfold register_chunk, chunk_added. intros H Hok. destruct (chunks db !! (r, c)) as [row|] eqn:Hr.
  - destruct (Z.eqb_spec (ck_size row) size) as [Hs|]; [|done].
    injection H as _ <-. rewrite Hr. split_and!; [done|done| |by cbn; rewrite Hs].
    exists (chunks db). by destruct db.
  - rewrite !require_ok in H. unfold octets32 in H; destruct H as (Hl & Hs & Hrepo & [= _ <-]). bool_hyps.
    split_and!; [by apply new_chunk_ok| | |]; cbn; rewrite ?lookup_insert_eq; [done| |done].
    eexists. split; [done|]. intros k [x Hk]. rewrite lookup_insert_ne; [done|].
    intros <-. by rewrite Hr in Hk.
Qed.

Lemma insert_chunk_spec r c size now db db' :
  insert_chunk r c size now db = Ok (tt, db') → db_ok db → chunk_added r c db db'.
Proof.
  unfold insert_chunk, chunk_added. intros H Hok. destruct (chunks db !! (r, c)) as [row|] eqn:Hr.
  - injection H as <-. rewrite Hr. split_and!; [done|done|]. exists (chunks db). by destruct db.
  - rewrite !require_ok in H. unfold octets32 in H; destruct H as (Hl & Hs & Hrepo & [= <-]). bool_hyps.
    split_and!; [by apply new_chunk_ok| |]; cbn; rewrite ?lookup_insert_eq; [done|].
    eexists. split; [done|]. intros k [x Hk]. rewrite lookup_insert_ne; [done|].
    intros <-. by rewrite Hr in Hk.
Qed.

Lemma insert_session_chunk_spec s r c now db db' :
  insert_session_chunk s r c now db = Ok (tt, db') → db_ok db →
  db_ok db' ∧ (∃ t, db' = with_upload_session_chunks t db) ∧
  is_Some (upload_session_chunks db' !! (s, c)).
Proof.
  unfold insert_session_chunk. intros H Hok.
  destruct (upload_session_chunks db !! (s, c)) as [x|] eqn:Hs.
  { injection H as <-. rewrite Hs. split_and!; [done| |done].
    exists (upload_session_chunks db). by destruct db. }
  rewrite !require_ok in H. destruct H as (Hl & Hfk & [= <-]). bool_hyps.
  split_and!; [|by eexists|cbn; by rewrite lookup_insert_eq].
  match goal with H : _ <$> _ = Some r |- _ => apply fmap_Some in H as (srow & Hsr & Hr) end.
  destruct Hok as [[] Hobj]. split; [|by eapply objects_ok_frame].
  split; cbn; try done. intros s' c' r'. rewrite lookup_insert_Some.
  intros [[[= <- <-] <-]|[Hne Hrow]]; [|by apply ok_usc]. split; [by eexists|done].
Qed.

End StatementFacts.
(** ** The transactions *)

Section TransactionFacts.
  Context {St Json : Type} {json : ManifestJson Json} {pg : PgText}.
  Implicit Types (db : Db Json).

Lemma triple_sql {A} now (P : Db Json → Prop)
    (q : Z → Db Json → result SqlxError (A * Db Json)) Q :
  (∀ db a db', P db → q now db = Ok (a, db') → Q a db') →
  tx_triple (St:=St) now P (sql q) Q.
Proof. apply triple_stmt. Qed.

Lemma triple_new_v4 {E} now (P : Db Json → Prop) :
  tx_triple (St:=St) now P (tx_new_v4 (E:=E)) (λ _, P).
Proof. intros w r w' Hn HP [= <- <-]. split_and!; [done..|]. by intros. Qed.

(** An open session of an object after [open_session]. *)
Definition opened (now : Z) (r : Uuid) (m : ObjectManifest) db0 (id : Uuid) db : Prop :=
  db_ok db ∧ ∃ row, db = with_upload_sessions (<[id := row]> (upload_sessions db)) db0 ∧
    upload_sessions db !! id = Some row ∧ us_repository_id row = r ∧
    us_object_oid row = ObjectOid_as_bytes (om_object_oid m) ∧ us_state row = Open ∧
    manifest_from_value (us_manifest row) = Ok m ∧ us_expires_at row = (now + HOURS_24)%Z.

Lemma open_session_triple now r m value too_large db0 :
  (∀ v, value = Ok v → manifest_from_value v = Ok m) → db_ok db0 →
  tx_triple (St:=St) now (eq db0) (open_session r m value too_large)
    (λ res db, res.2 = m ∧ opened now r m db0 res.1.1 db).
Proof.
  intros Hval Hok. unfold open_session.
  eapply (triple_bind _ _ (λ _ db, db_ok db ∧ ∃ t, db = with_upload_sessions t db0)).
  { apply triple_sql. intros db [] db' <- [= <-].
    split; [by apply expire_open_sessions_ok|by eexists]. }
  intros ?. eapply triple_bind; [apply triple_new_v4|]. intros id.
  eapply triple_bind.
  { apply (triple_result _ _ _ (λ _ db, db_ok db ∧ ∃ t, db = with_upload_sessions t db0)); auto. }
  intros size. eapply triple_bind.
  { apply (triple_result _ _ _ (λ v db, manifest_from_value v = Ok m ∧ db_ok db ∧
      ∃ t, db = with_upload_sessions t db0)). intros v db HP ->. by auto. }
  intros v. eapply (triple_bind _ _ (λ p db, db_ok db ∧ ∃ row, db =
    with_upload_sessions (<[p.1.1 := row]> (upload_sessions db)) db0 ∧
    upload_sessions db !! p.1.1 = Some row ∧ us_repository_id row = r ∧
    us_object_oid row = ObjectOid_as_bytes (om_object_oid m) ∧ us_state row = Open ∧
    us_manifest row = p.2 ∧ us_expires_at row = (now + HOURS_24)%Z)).
  { apply triple_sql. intros db [[sid t] j] db' (Hv & Hdb & tbl & ->) Hup.
    apply upsert_open_session_spec in Hup as (Hok' & -> & (row & -> & Hr & Ho & Hs & Hj & He) & _);
      [|done|by exists m]. split; [done|]. exists row. cbn. rewrite lookup_insert_eq, insert_insert_eq.
    by split_and!. }
  intros [[sid t] j]. cbn [fst snd]. eapply triple_bind.
  { apply (triple_result _ _ _ (λ stored db, manifest_from_value j = Ok stored ∧ db_ok db ∧ ∃ row, db =
      with_upload_sessions (<[sid := row]> (upload_sessions db)) db0 ∧
      upload_sessions db !! sid = Some row ∧ us_repository_id row = r ∧
      us_object_oid row = ObjectOid_as_bytes (om_object_oid m) ∧ us_state row = Open ∧
      us_manifest row = j ∧ us_expires_at row = (now + HOURS_24)%Z)).
    intros j0 db HP Ha%map_err_ok. by split. }
  intros stored. case_bool_decide as Hm; [|apply triple_fail]. subst stored.
  apply triple_ret. intros db (Hj & Hdb & row & H1 & H2 & H3 & H4 & H5 & H6 & H7).
  split; [done|]. split; [done|]. exists row. rewrite H6. by split_and!.
Qed.

Lemma register_session_chunk_triple now r id d db0 :
  db_ok db0 →
  tx_triple (St:=St) now (eq db0) (register_session_chunk r id d)
    (λ _ db, db_ok db ∧
       (∃ t u, db = with_upload_session_chunks u (with_chunks t db0)) ∧
       is_Some (chunks db !! (r, ChunkId_as_bytes (cd_id d))) ∧
       is_Some (upload_session_chunks db !! (id, ChunkId_as_bytes (cd_id d)))).
Proof.
  intros Hok. unfold register_session_chunk.
  eapply (triple_bind _ _ (λ o db, is_Some o → chunk_added r (ChunkId_as_bytes (cd_id d)) db0 db)).
  { apply triple_sql. intros db [o|] db' <- H [x [= <-]].
    by apply register_chunk_spec in H as [? _]. }
  intros [o|]; [|apply triple_fail]. apply triple_sql.
  intros db [] db' Hadd H. destruct (Hadd ltac:(done)) as (Hdb & Hc & t & -> & _).
  apply insert_session_chunk_spec in H as (Hdb' & [u ->] & Hu); [|done].
  split_and!; [done| |done|done]. by exists t, u.
Qed.

(** *** Publication *)

(** Inserting an object position and counting it. *)
Lemma count_reference_core r o z row cr db :
  chunks db !! (r, oc_chunk_id row) = Some cr → is_Some (objects db !! (r, o)) →
  object_chunks db !! (r, o, z) = None → core_ok db →
  core_ok (with_chunks (<[(r, oc_chunk_id row) :=
             mkChunkRow (ck_size cr) (ck_reference_count cr + 1)]> (chunks db))
           (with_object_chunks (<[(r, o, z) := row]> (object_chunks db)) db)).
Proof.
  intros Hcr Hob Hn [].
  assert (Hmono : ∀ k v, is_Some (chunks db !! k) →
    is_Some (<[(r, oc_chunk_id row) := v]> (chunks db) !! k)).
  { intros k v Hk. rewrite lookup_insert. by case_decide. }
  split; cbn; try done.
  - intros r' c' row'. rewrite (refs_frame (with_object_chunks
      (<[(r, o, z) := row]> (object_chunks db)) db)) by done. rewrite refs_insert by done.
    rewrite lookup_insert_Some. intros [[[= <- <-] <-]|[Hne Hrow]]; cbn.
    + rewrite decide_True by done. rewrite (ok_refs _ _ _ Hcr). lia.
    + rewrite decide_False; [|by intros [<- <-]]. by rewrite (ok_refs _ _ _ Hrow).
  - intros r' o' z' row'. rewrite lookup_insert_Some.
    intros [[[= <- <- <-] <-]|[Hne Hrow]]; [rewrite lookup_insert_eq; by eexists|].
    by eapply Hmono, ok_oc_chunk.
  - intros r' o' z' row'. rewrite lookup_insert_Some.
    intros [[[= <- <- <-] <-]|[Hne Hrow]]; [done|]. by eapply ok_oc_object.
  - intros s c' r' Hs. destruct (ok_usc _ _ _ Hs) as [? Hc]. auto.
  - intros r' c' row'. rewrite lookup_insert_Some.
    intros [[[= <- <-] <-]|[Hne Hrow]]; by eapply ok_chunk_ids.
Qed.

(** The tables while the first descriptors of an object are written. *)
Record publishing (db0 : Db Json) (r : Uuid) (oid : bytes) (row : ObjectRow Json)
    (written : list ChunkDescriptor) db : Prop := {
  pb_core : core_ok db;
  pb_objects_ok : objects_ok (λ r' o', (r', o') = (r, oid)) db;
  pb_objects : objects db = <[(r, oid) := row]> (objects db0);
  pb_written z : object_chunks db !! (r, oid, z) =
    if (z <? 0)%Z then None else descriptor_row <$> written !! Z.to_nat z;
  pb_others k : k.1 ≠ (r, oid) → object_chunks db !! k = object_chunks db0 !! k;
  pb_frame : ∃ t u, db = with_chunks t (with_object_chunks u
                          (with_objects (<[(r, oid) := row]> (objects db0)) db0));
}.

Lemma lookup_snoc_Z (l : list ChunkDescriptor) d z :
  (if (z <? 0)%Z then None else descriptor_row <$> (l ++ [d]) !! Z.to_nat z) =
  if decide (z = Z.of_N (lenN l)) then Some (descriptor_row d)
  else if (z <? 0)%Z then None else descriptor_row <$> l !! Z.to_nat z.
Proof.
  unfold lenN. rewrite nat_N_Z. case_decide as Hz.
  - subst z. rewrite (proj2 (Z.ltb_ge _ 0)) by lia. rewrite Nat2Z.id.
    by rewrite list_lookup_middle.
  - destruct (Z.ltb_spec z 0); [done|]. f_equal.
    destruct (decide (Z.to_nat z < length l)%nat); [by apply lookup_app_l|].
    rewrite lookup_app_r, (lookup_ge_None_2 l) by lia.
    apply lookup_ge_None_2. cbn. lia.
Qed.

Lemma publish_descriptor_triple now db0 r oid row l d :
  tx_triple (St:=St) now (publishing db0 r oid row l) (publish_descriptor r oid (lenN l, d))
    (λ _, publishing db0 r oid row (l ++ [d])).
Proof.
  unfold publish_descriptor, i32_try_from, i64_try_from.
  destruct (lenN l <=? I32_MAX); [|apply (triple_bind _ _ (λ _ _, False));
    [by apply triple_result|intros ? ? ? ? ? []]].
  eapply (triple_bind _ _ (λ z db, z = Z.of_N (lenN l) ∧ publishing db0 r oid row l db)).
  { apply triple_result. cbn. by intros z db HP [= <-]. }
  intros z. eapply (triple_bind _ _ (λ off db, z = Z.of_N (lenN l) ∧ off = Z.of_N (cd_offset d) ∧
    publishing db0 r oid row l db)).
  { apply triple_result. intros off db [-> HP] Ho%ok_or_ok.
    by destruct (_ <=? _); [injection Ho as <-|]. }
  intros off. eapply (triple_bind _ _ (λ len db, z = Z.of_N (lenN l) ∧ off = Z.of_N (cd_offset d) ∧
    len = Z.of_N (cd_length d) ∧ publishing db0 r oid row l db)).
  { apply triple_result. intros len db (-> & -> & HP) Ho%ok_or_ok.
    by destruct (_ <=? _); [injection Ho as <-|]. }
  intros len. eapply (triple_bind _ _ (λ _ db, ∃ db1, publishing db0 r oid row l db1 ∧
    insert_object_chunk r oid (Z.of_N (lenN l)) (descriptor_row d) now db1 = Ok (tt, db))).
  { apply triple_sql. intros db [] db' (-> & -> & -> & HP) Hq. by exists db. }
  intros ?. apply triple_sql. intros db [] db' (db1 & HP & Hins) Hadd.
  unfold insert_object_chunk in Hins. rewrite !require_ok in Hins.
  destruct Hins as (_ & Hnone & Hfk & [= <-]). bool_hyps.
  match goal with H : is_Some (chunks _ !! _) |- _ => destruct H as [cr Hcr] end.
  unfold add_reference in Hadd. cbn in Hadd, Hcr. rewrite Hcr in Hadd.
  rewrite !require_ok in Hadd. destruct Hadd as (_ & _ & [= <-]).
  destruct HP as [Hcore Hobj Hobs Hwr Hoth (t & u & Hfr)].
  split.
  - by apply (count_reference_core r oid _ (descriptor_row d)).
  - intros r' o' row' Hrow. destruct (Hobj r' o' row' Hrow) as [|[m Hm]]; [by left|].
    destruct (decide ((r', o') = (r, oid))) as [|Hne]; [by left|right]. exists m.
    apply (published_frame db1); [done| |exact Hm]. intros z'. cbn. rewrite lookup_insert_ne; [done|].
    intros Heq. apply Hne. congruence.
  - done.
  - intros z'. rewrite lookup_snoc_Z. cbn. case_decide as Hz.
    + subst. by rewrite lookup_insert_eq.
    + rewrite lookup_insert_ne by congruence. apply Hwr.
  - intros [[r' o'] z'] Hk. cbn. rewrite lookup_insert_ne; [by apply Hoth|].
    intros Heq. apply Hk. cbn. congruence.
  - rewrite Hfr. by eexists _, _.
Qed.

(** The first loop of [publish_manifest] only adds chunk rows. *)
Lemma insert_chunks_triple now r l db0 :
  db_ok db0 →
  tx_triple (St:=St) now (eq db0)
    (for_each l (λ d, sql (insert_chunk r (ChunkId_as_bytes (cd_id d)) (Z.of_N (cd_length d)))))
    (λ _ db, db_ok db ∧ ∃ t, db = with_chunks t db0).
Proof.
  intros Hok. eapply triple_conseq;
    [apply (triple_for_each now (λ _ db, db_ok db ∧ ∃ t, db = with_chunks t db0))| |done].
  - intros pre d post _. apply triple_sql. intros db [] db' [Hdb [t ->]] H.
    apply insert_chunk_spec in H as (Hdb' & _ & u & -> & _); [|done]. split; [done|]. by exists u.
  - intros db <-. split; [done|]. exists (chunks db0). by destruct db0.
Qed.

(** A new object before its first descriptor. *)
Lemma insert_object_publishing r oid size value now db0 db :
  insert_object r oid size value now db0 = Ok (1, db) → db_ok db0 →
  objects db0 !! (r, oid) = None ∧
  publishing db0 r oid (mkObjectRow size value) [] db.
Proof.
  unfold insert_object. intros H [Hcore Hobj].
  destruct (objects db0 !! (r, oid)) eqn:Ho; [done|].
  rewrite !require_ok in H. destruct H as (_ & _ & _ & [= <-]). split; [done|].
  assert (Hnone : ∀ z, object_chunks db0 !! (r, oid, z) = None).
  { intros z. destruct (object_chunks db0 !! (r, oid, z)) eqn:Hz; [|done].
    apply (ok_oc_object _ _ Hcore) in Hz as [? Hz]. by rewrite Ho in Hz. }
  assert (Hmono : ∀ k, is_Some (objects db0 !! k) →
    is_Some (<[(r, oid) := mkObjectRow size value]> (objects db0) !! k)).
  { intros k Hk. rewrite lookup_insert. by case_decide. }
  split; [| |done| |done|].
  - destruct Hcore. split; cbn; try done.
    + intros r' o z row Hrow. by eapply Hmono, ok_oc_object.
    + intros k row Hrow. by eapply Hmono, ok_tombstones.
  - intros r' o row. cbn. rewrite lookup_insert_Some. intros [[Heq _]|[Hne Hrow]]; [by left|].
    destruct (Hobj _ _ _ Hrow) as [[]|[m Hm]]. right. exists m.
    apply (published_frame db0); [|done|done]. cbn. by rewrite lookup_insert_ne.
  - intros z. cbn. rewrite Hnone, lookup_nil. by destruct (z <? 0)%Z.
  - exists (chunks db0), (object_chunks db0). by destruct db0.
Qed.

(** The loop over [manifest.chunks.iter().enumerate()]. *)
Lemma publish_loop_triple now db0 r oid row l :
  tx_triple (St:=St) now (publishing db0 r oid row [])
    (for_each (enumerate l) (publish_descriptor r oid))
    (λ _, publishing db0 r oid row l).
Proof.
  eapply triple_conseq;
    [apply (triple_for_each now (λ pre, publishing db0 r oid row pre.*2))|done|].
  - intros pre [i d] post Heq.
    assert (i = lenN pre.*2) as ->.
    { pose proof (enumerate_from_lookup l 0 (length pre)) as Hi.
      rewrite Heq, list_lookup_middle in Hi by done.
      destruct (l !! length pre); [|done]. injection Hi as -> _.
      unfold lenN. by rewrite length_fmap. }
    rewrite fmap_app. apply publish_descriptor_triple.
  - intros ? db. by rewrite enumerate_from_snd.
Qed.

(** A valid manifest whose descriptors are all written is published. *)
Lemma publishing_done db0 r m value size db :
  ObjectManifest_validate m = Ok tt → manifest_from_value value = Ok m →
  size = Z.of_N (om_object_size m) →
  publishing db0 r (ObjectOid_as_bytes (om_object_oid m)) (mkObjectRow size value) (om_chunks m) db →
  db_ok db ∧ published db r (ObjectOid_as_bytes (om_object_oid m)) m.
Proof.
  intros Hv Hj Hs [Hcore Hobj Hobs Hwr Hoth _].
  assert (published db r (ObjectOid_as_bytes (om_object_oid m)) m) as Hp.
  { split_and!; [|done|done|done]. eexists. rewrite Hobs, lookup_insert_eq. by split_and!. }
  split; [|done]. split; [done|]. intros r' o' row' Hrow. right.
  destruct (Hobj r' o' row' Hrow) as [[= -> ->]|]; [by exists m|done].
Qed.

(** What [write_object] does to the tables [db0]. *)
Record object_written (r : Uuid) (m : ObjectManifest) db0 (b : bool) db : Prop := {
  ow_ok : db_ok db;
  ow_sessions : upload_sessions db = upload_sessions db0;
  ow_objects k : k ≠ (r, ObjectOid_as_bytes (om_object_oid m)) → objects db !! k = objects db0 !! k;
  ow_object_chunks k : k.1 ≠ (r, ObjectOid_as_bytes (om_object_oid m)) →
    object_chunks db !! k = object_chunks db0 !! k;
  ow_result :
    if b
    then objects db0 !! (r, ObjectOid_as_bytes (om_object_oid m)) = None ∧
         published db r (ObjectOid_as_bytes (om_object_oid m)) m
    else is_Some (objects db0 !! (r, ObjectOid_as_bytes (om_object_oid m))) ∧
         objects db = objects db0 ∧ object_chunks db = object_chunks db0;
}.

Lemma insert_object_existing r oid size value now db0 n db :
  insert_object r oid size value now db0 = Ok (n, db) → n ≠ 1 →
  is_Some (objects db0 !! (r, oid)) ∧ db = db0.
Proof.
  unfold insert_object. intros H Hn. destruct (objects db0 !! (r, oid)) eqn:Ho.
  - injection H as _ <-. by split.
  - rewrite !require_ok in H. naive_solver.
Qed.

Lemma write_object_triple {laws : ManifestJsonLaws Json} now r m db0 :
  db_ok db0 → ObjectManifest_validate m = Ok tt →
  tx_triple (St:=St) now (eq db0) (write_object r m) (object_written r m db0).
Proof.
  intros Hok Hv. unfold write_object. set (oid := ObjectOid_as_bytes (om_object_oid m)).
  eapply (triple_bind _ _ (λ size db, size = Z.of_N (om_object_size m) ∧ db = db0)).
  { apply triple_result. intros size db <- Hsz%ok_or_ok. unfold i64_try_from in Hsz.
    by destruct (_ <=? _); [injection Hsz as <-|]. }
  intros size. eapply (triple_bind _ _ (λ value db, manifest_from_value value = Ok m ∧
    size = Z.of_N (om_object_size m) ∧ db = db0)).
  { apply triple_result. intros value db HP Hj%map_err_ok.
    split; [by apply manifest_value_roundtrip|done]. }
  intros value. eapply (triple_bind _ _ (λ n db,
    if n =? 1
    then objects db0 !! (r, oid) = None ∧ size = Z.of_N (om_object_size m) ∧
         manifest_from_value value = Ok m ∧ publishing db0 r oid (mkObjectRow size value) [] db
    else is_Some (objects db0 !! (r, oid)) ∧ db = db0)).
  { apply triple_sql. intros db n db' (Hj & -> & ->) Hins.
    destruct (N.eqb_spec n 1) as [->|Hne]; [|by eapply insert_object_existing].
    apply insert_object_publishing in Hins as [? ?]; [|done]. by split_and!. }
  intros n. eapply (triple_bind _ _ (λ _, object_written r m db0 (n =? 1)));
    [|intros ?; by apply triple_ret].
  destruct (n =? 1).
  - intros w r' w' Hn (Hnone & Hsize & Hj & Hp) Hrun.
    destruct (publish_loop_triple now db0 r _ _ (om_chunks m) _ _ _ Hn Hp Hrun)
      as (? & ? & HQ). split_and!; [done..|]. intros a Ha. specialize (HQ a Ha).
    destruct (publishing_done _ _ _ _ _ _ Hv Hj Hsize HQ) as [Hdb Hpub].
    destruct HQ as [_ _ Hobs _ Hoth (t' & u' & Hfr)].
    split; [done|by rewrite Hfr| |done|done]. intros k Hk. rewrite Hobs. by rewrite lookup_insert_ne.
  - apply triple_ret. intros db (Ho & ->). by split.
Qed.

(** What the transaction of [publish_manifest] does when it commits. *)
Record publish_outcome (r id : Uuid) (m : ObjectManifest) db0 (b : bool) db : Prop := {
  po_ok : db_ok db;
  po_session : us_state <$> upload_sessions db !! id = Some Finalized;
  po_sessions s : s ≠ id → upload_sessions db !! s = upload_sessions db0 !! s;
  po_objects k : k ≠ (r, ObjectOid_as_bytes (om_object_oid m)) → objects db !! k = objects db0 !! k;
  po_object_chunks k : k.1 ≠ (r, ObjectOid_as_bytes (om_object_oid m)) →
    object_chunks db !! k = object_chunks db0 !! k;
  po_result :
    if b
    then objects db0 !! (r, ObjectOid_as_bytes (om_object_oid m)) = None ∧
         published db r (ObjectOid_as_bytes (om_object_oid m)) m
    else objects db = objects db0 ∧ object_chunks db = object_chunks db0 ∧
         (db = db0 ∨ is_Some (objects db0 !! (r, ObjectOid_as_bytes (om_object_oid m))));
}.

Lemma finalize_keeps_published id r o m db :
  published db r o m →
  published (with_upload_sessions (alter (with_state Finalized) id (upload_sessions db)) db) r o m.
Proof. by apply published_frame. Qed.

Lemma object_written_outcome r id m db0 t b db :
  object_written r m (with_chunks t db0) b db → is_Some (upload_sessions db0 !! id) →
  publish_outcome r id m db0 b
    (with_upload_sessions (alter (with_state Finalized) id (upload_sessions db)) db).
Proof.
  intros [Hok Hs Ho Hc Hres] [row Hid].
  split; cbn; [by apply finalize_session_ok| | |done|done|].
  - by rewrite Hs, lookup_alter_eq; cbn; rewrite Hid.
  - intros s' Hs'. by rewrite lookup_alter_ne, Hs.
  - destruct b; [destruct Hres; split; [done|by apply finalize_keeps_published]|].
    destruct Hres as (? & ? & ?). auto.
Qed.

Lemma publish_tx_triple {laws : ManifestJsonLaws Json} now r id m db0 :
  db_ok db0 → ObjectManifest_validate m = Ok tt →
  tx_triple (St:=St) now (eq db0) (publish_tx r id m) (publish_outcome r id m db0).
Proof.
  intros Hok Hv. unfold publish_tx.
  eapply (triple_bind _ _ (λ o db, db = db0 ∧
    o = select_finalizable_session id r (ObjectOid_as_bytes (om_object_oid m)) now db0)).
  { apply triple_sql. by intros db o db' <- [= <- <-]. }
  intros o. eapply (triple_bind _ _ (λ s db, db = db0 ∧
    select_finalizable_session id r (ObjectOid_as_bytes (om_object_oid m)) now db0 = Some s)).
  { apply triple_result. intros s db [-> ->] Hs%ok_or_ok. done. }
  intros s. destruct (us_state s) eqn:Hst; [| |apply triple_fail].
  - intros w r' w' Hn [Hd Hs] Hrun. subst db0. revert Hrun.
    apply select_finalizable_session_Some in Hs as (Hs & _).
    refine (triple_bind now (eq (w_db w)) (λ _ db, db_ok db ∧ ∃ t, db = with_chunks t (w_db w))
      (publish_outcome r id m (w_db w)) _ _ (insert_chunks_triple now r _ _ Hok) _ w r' w' Hn eq_refl).
    intros [] w1 r1 w1' Hn1 [Hdb [t Ht]].
    refine (triple_bind now (eq (w_db w1)) (object_written r m (w_db w1)) _ _ _
      (write_object_triple now r m _ Hdb Hv) _ w1 r1 w1' Hn1 eq_refl).
    intros b. eapply (triple_bind _ _ (λ _, publish_outcome r id m (w_db w) b));
      [|intros ?; by apply triple_ret].
    apply triple_sql. intros db [] db' Hwr [= <-].
    eapply (object_written_outcome _ _ _ _ t); [by rewrite <- Ht|by eexists].
  - apply triple_ret. intros db [-> Hs].
    apply select_finalizable_session_Some in Hs as (Hs & _).
    split; [done| |done|done|done|auto]. rewrite Hs. cbn. by rewrite Hst.
Qed.

End TransactionFacts.
