(* ===== verification/Uploads.v ===== *)
(** * Uploads: the object handlers of [git-lfs-delta-server/src/lib.rs]

    The CDC upload protocol (begin, chunk, finalize), the basic upload, and
    the downloads, as programs over the world of [Effects]; that they keep the
    metadata and content invariants whatever runs besides them; and that an
    object once published stays reconstructible as long as no chunk is
    deleted. *)
From S2P Require Import Prelude Digest Manifest Stream Protocol Storage Database Effects Api Sessions.

Section Uploads.
  Context {St Json : Type} {object_store : ObjectStore St} {json : ManifestJson Json}
          {pg : PgText} {hex : HexCodec} {hashes : Hashes} {fastcdc : FastCdc}
          {uuid_text : UuidText} {url_lib : UrlLib} {jwt : JwtLib} {forgejo : ForgejoApi}.
  Local Abbreviation prog := (prog St Json ApiError).

(** ** Shared steps *)

Definition unprocessable (message : string) : ApiError := mkApiError UNPROCESSABLE_ENTITY message.

Definition load_manifest (r : Uuid) (oid : ObjectOid) : prog ObjectManifest :=
  let! row := query ApiError_database (λ _ db, Ok (objects db !! (r, ObjectOid_as_bytes oid), db)) in
  let! row := lift (ok_or (mkApiError NOT_FOUND "object not found") row) in
  lift (map_err (λ _, ApiError_integrity) (manifest_from_value (ob_manifest row))).

Definition load_open_upload (r : Uuid) (oid : ObjectOid) (upload_id : Uuid) : prog ObjectManifest :=
  let! row := query ApiError_database (λ now db,
    Ok (select_open_session upload_id r (ObjectOid_as_bytes oid) now db, db)) in
  let! row := lift (ok_or (mkApiError NOT_FOUND "open upload session not found") row) in
  lift (map_err (λ _, ApiError_integrity) (manifest_from_value (us_manifest row))).

Definition load_finalizable_upload (r : Uuid) (oid : ObjectOid) (upload_id : Uuid)
  : prog (ObjectManifest * bool) :=
  let! row := query ApiError_database (λ now db,
    Ok (select_finalizable_session upload_id r (ObjectOid_as_bytes oid) now db, db)) in
  let! row := lift (ok_or session_not_found row) in
  let! manifest :=
    lift (map_err (λ _, ApiError_integrity) (manifest_from_value (us_manifest row))) in
  mret (manifest, bool_decide (us_state row = Finalized)).

Definition ensure_upload_session (r : Uuid) (manifest : ObjectManifest) : prog Uuid :=
  let! opened := transaction ApiError_database
    (open_session r manifest (map_err (λ _, ApiError_integrity) (manifest_to_value manifest))
       ApiError_integrity) in
  mret opened.1.1.

Definition register_and_store_chunk (r upload_id : Uuid) (descriptor : ChunkDescriptor) (b : bytes)
  : prog unit :=
  let! _ := transaction ApiError_database (register_session_chunk r upload_id descriptor) in
  store_call ApiError_storage (put_verified r (cd_id descriptor) b).

Definition publish_manifest (r upload_id : Uuid) (manifest : ObjectManifest) : prog bool :=
  let! _ := lift (map_err (λ _, ApiError_integrity) (ObjectManifest_validate manifest)) in
  transaction ApiError_database (publish_tx r upload_id manifest).

(** ** The CDC protocol *)

(** The loop of [begin_cdc] over [enumerate]: the indexes whose chunk the
    store does not have. *)
Fixpoint missing_indexes (r : Uuid) (chunks : list (N * ChunkDescriptor)) (missing : list N)
  : prog (list N) :=
  match chunks with
  | [] => mret missing
  | (index, descriptor) :: rest =>
      let! present := store_call ApiError_storage (exists_chunk r (cd_id descriptor)) in
      if negb present
      then
        let! index := lift (ok_or (unprocessable "manifest has too many chunks")
                              (u32_try_from index)) in
        missing_indexes r rest (missing ++ [index])
      else missing_indexes r rest missing
  end.

Definition begin_cdc (state : AppState) (owner repository oid : string) (headers : HeaderMap)
    (request : BeginUploadRequest) : prog BeginUploadResponse :=
  let! _ := authenticate state headers owner repository Write in
  let! oid := lift (parse_oid oid) in
  if negb (bu_protocol_version request =? 1)
  then fail (mkApiError BAD_REQUEST "unsupported CDC protocol version")
  else
    let manifest := bu_manifest request in
    let! _ := lift (map_err (λ e, unprocessable (ManifestError_display e))
                      (ObjectManifest_validate manifest)) in
    if negb (bool_decide (om_object_oid manifest = oid))
    then fail (unprocessable "manifest OID does not match the requested object OID")
    else
      let! r := repository_id owner repository in
      let! manifest_json :=
        lift (map_err (mkApiError BAD_REQUEST) (manifest_to_value manifest)) in
      let! opened := transaction ApiError_database
        (open_session r manifest (Ok manifest_json) (unprocessable "object is too large")) in
      let '(upload_id, expires_at, stored_manifest) := opened in
      let! missing := missing_indexes r (enumerate (om_chunks stored_manifest)) [] in
      mret {| bur_protocol_version := 1;
              bur_upload_id := upload_id;
              bur_missing_chunk_indexes := missing;
              bur_expires_at := expires_at |}.

Definition upload_cdc_chunk (state : AppState) (owner repository oid : string) (upload_id : Uuid)
    (index : N) (headers : HeaderMap) (b : bytes) : prog N :=
  let! _ := acquire ApiError_shutdown in
  let! _ := authenticate state headers owner repository Write in
  let! oid := lift (parse_oid oid) in
  let! r := repository_id owner repository in
  let! manifest := load_open_upload r oid upload_id in
  let! descriptor := lift (ok_or (mkApiError NOT_FOUND "chunk index is outside the manifest")
                             (get_N (om_chunks manifest) index)) in
  if negb (lenN b =? cd_length descriptor)
  then fail (unprocessable "chunk length mismatch")
  else
    let! _ := register_and_store_chunk r upload_id descriptor b in
    let! _ := count (add_chunks_received (lenN b)) in
    mret NO_CONTENT.

Definition finalize_storage_error (e : StorageError) : ApiError :=
  match e with
  | Provider OsNotFound => mkApiError CONFLICT "upload is missing chunks"
  | other => ApiError_storage other
  end.

(** The verification loop of [finalize_cdc]. *)
Fixpoint hash_chunks (r : Uuid) (chunks : list ChunkDescriptor) (hasher : Sha256) : prog Sha256 :=
  match chunks with
  | [] => mret hasher
  | descriptor :: rest =>
      let! b := store_call finalize_storage_error (get_verified r (cd_id descriptor)) in
      if negb (lenN b =? cd_length descriptor) then fail ApiError_integrity
      else hash_chunks r rest (Sha256_update hasher b)
  end.

Definition count_published (manifest : ObjectManifest) (published : bool) : prog unit :=
  if published then count (add_logical_uploaded (om_object_size manifest)) else mret tt.

Definition finalize_cdc (state : AppState) (owner repository oid : string) (upload_id : Uuid)
    (headers : HeaderMap) : prog N :=
  let! _ := acquire ApiError_shutdown in
  let! _ := authenticate state headers owner repository Write in
  let! oid := lift (parse_oid oid) in
  let! r := repository_id owner repository in
  let! upload := load_finalizable_upload r oid upload_id in
  let manifest := upload.1 in
  let already_finalized : bool := upload.2 in
  if already_finalized then (mret NO_CONTENT : prog N)
  else
    let! hasher := hash_chunks r (om_chunks manifest) Sha256_new in
    if negb (bool_decide (digest_bytes (Sha256_finalize hasher) = ObjectOid_as_bytes oid))
    then fail (unprocessable "object SHA-256 mismatch")
    else
      let! published := publish_manifest r upload_id manifest in
      let! _ := count_published manifest published in
      mret NO_CONTENT.

(** ** Downloads *)

Definition download_cdc_manifest (state : AppState) (owner repository oid : string)
    (headers : HeaderMap) : prog ObjectManifest :=
  let! _ := authenticate state headers owner repository Read in
  let! oid := lift (parse_oid oid) in
  let! r := repository_id owner repository in
  load_manifest r oid.

Definition download_cdc_chunk (state : AppState) (owner repository oid : string) (index : N)
    (headers : HeaderMap) : prog bytes :=
  let! _ := acquire ApiError_shutdown in
  let! _ := authenticate state headers owner repository Read in
  let! oid := lift (parse_oid oid) in
  let! r := repository_id owner repository in
  let! manifest := load_manifest r oid in
  let! descriptor := lift (ok_or (mkApiError NOT_FOUND "chunk index is outside the manifest")
                             (get_N (om_chunks manifest) index)) in
  let! b := store_call ApiError_storage (get_verified r (cd_id descriptor)) in
  if negb (lenN b =? cd_length descriptor) then fail ApiError_integrity else mret b.

(** The loop of [download_basic]: the hasher and the staged file. *)
Fixpoint reassemble (r : Uuid) (chunks : list ChunkDescriptor) (hasher : Sha256) (file : bytes)
  : prog (Sha256 * bytes) :=
  match chunks with
  | [] => mret (hasher, file)
  | descriptor :: rest =>
      let! b := store_call ApiError_storage (get_verified r (cd_id descriptor)) in
      if negb (lenN b =? cd_length descriptor) then fail ApiError_integrity
      else
        let! _ := io ApiError_io in
        reassemble r rest (Sha256_update hasher b) (file ++ b)
  end.

Definition download_basic (state : AppState) (owner repository oid : string) (headers : HeaderMap)
  : prog (N * bytes) :=
  let! _ := authenticate state headers owner repository Read in
  let! oid := lift (parse_oid oid) in
  let! r := repository_id owner repository in
  let! _ := acquire ApiError_shutdown in
  let! manifest := load_manifest r oid in
  let! _ := lift (map_err (λ _, ApiError_integrity) (ObjectManifest_validate manifest)) in
  let! _ := io ApiError_io in
  let! _ := io ApiError_io in
  let! done := reassemble r (om_chunks manifest) Sha256_new [] in
  let '(hasher, file) := done in
  if negb (bool_decide (digest_bytes (Sha256_finalize hasher) = ObjectOid_as_bytes oid))
  then fail ApiError_integrity
  else
    let! _ := io ApiError_io in
    let! _ := count (add_logical_downloaded (om_object_size manifest)) in
    mret (om_object_size manifest, file).

(** ** The basic upload *)

(** [tokio::io::copy] from [reader.take(limit)] into the staged file; the
    body is its frames, an [Err] being a transport failure. *)
Fixpoint copy_limited (limit : N) (body : list (result string bytes)) (copied : N) (file : bytes)
  : prog (N * bytes) :=
  match body with
  | [] => mret (copied, file)
  | frame :: rest =>
      if limit =? 0 then mret (copied, file)
      else match frame with
           | Err _ => fail ApiError_io
           | Ok b =>
               let part := take_N limit b in
               let! _ := io ApiError_io in
               copy_limited (limit - lenN part) rest (copied + lenN part) (file ++ part)
           end
  end.

(** Reading the staged file back may end in an I/O error. *)
Definition reopen_reader (content : bytes) : prog Reader :=
  act (λ w, (mkReader content (if hd false (w_io_faults w) then Some "read failed"%string else None),
             set_io_faults (tl (w_io_faults w)) w)).

(** The consumer loop: chunks in stream order until the producer ends, whose
    error is reported after the chunks before it. *)
Fixpoint store_stream (r upload_id : Uuid) (items : list (result string CdcChunk))
    (stream : ChunkStream) : prog unit :=
  match items with
  | [] => mret tt
  | item :: rest =>
      match ChunkStream_accept (set_inner stream rest) item with
      | Err e => fail (unprocessable (CoreError_display e))
      | Ok (chunk, stream) =>
          let! _ := register_and_store_chunk r upload_id (ch_descriptor chunk) (ch_data chunk) in
          store_stream r upload_id rest stream
      end
  end.

Definition too_large_object : ApiError :=
  mkApiError PAYLOAD_TOO_LARGE "object exceeds the 100 GiB production limit".

Definition upload_basic (state : AppState)
    (owner repository oid : string) (headers : HeaderMap) (body : list (result string bytes))
  : prog N :=
  let! _ := authenticate state headers owner repository Write in
  let! oid := lift (parse_oid oid) in
  let! r := repository_id owner repository in
  let declared := h_content_length headers ≫= u64_from_str in
  if match declared with Some n => MAX_OBJECT_SIZE <? n | None => false end
  then fail too_large_object
  else
    let! _ := acquire ApiError_shutdown in
    let! _ := io ApiError_io in
    let! _ := io ApiError_io in
    let! _ := io ApiError_io in
    let! received := copy_limited (MAX_OBJECT_SIZE + 1) body 0 [] in
    let '(copied, file) := received in
    if MAX_OBJECT_SIZE <? copied then fail too_large_object
    else
      let! _ := io ApiError_io in
      let! _ := io ApiError_io in
      let! source := reopen_reader file in
      let! manifest := lift (map_err (λ e, unprocessable (CoreError_display e))
        (ChunkStream_finish (ChunkStream_new source ChunkingProfile_beta_v1))) in
      if negb (bool_decide (om_object_oid manifest = oid))
      then fail (unprocessable "uploaded bytes do not match the requested object OID")
      else
        let! upload_id := ensure_upload_session r manifest in
        let! _ := io ApiError_io in
        let! source := reopen_reader file in
        let stream := ChunkStream_new source ChunkingProfile_beta_v1 in
        let! _ := store_stream r upload_id (cs_inner stream) stream in
        let! published := publish_manifest r upload_id manifest in
        let! _ := count_published manifest published in
        let! _ := count (add_chunks_received (om_object_size manifest)) in
        mret NO_CONTENT.

(** [readiness]: ten seconds are in microseconds. *)
Definition readiness : prog N :=
  let! _ := query ApiError_database (λ _ db, Ok (tt, db)) in
  let! fresh := act (λ w, (match w_storage_ready_until w with
                           | Some until => (w_instant w <? until)%Z
                           | None => false
                           end, w)) in
  if (fresh : bool) then (mret NO_CONTENT : prog N)
  else
    let! probe := new_v4 in
    let! _ := store_call ApiError_storage (healthcheck probe) in
    let! _ := act (λ w, (tt, set_storage_ready_until (Some (w_instant w + 10000000)%Z) w)) in
    mret NO_CONTENT.

End Uploads.

(** ** Invariants of the service *)

Section Invariants.
  Context {St Json : Type} {object_store : ObjectStore St} {store_laws : ObjectStoreLaws St}
          {json : ManifestJson Json} {json_laws : ManifestJsonLaws Json}
          {pg : PgText} {hex : HexCodec} {hex_laws : HexLaws} {hashes : Hashes}
          {uuid_text : UuidText} {uuid_laws : UuidTextLaws}.

(** Every chunk of a manifest is in the store. *)
Definition available (st : St) (r : Uuid) (chunks : list ChunkDescriptor) : Prop :=
  ∀ d, d ∈ chunks → is_Some (chunk_bytes st r (cd_id d)).

(** The bytes that a descriptor names. *)
Definition matches (d : ChunkDescriptor) (b : bytes) : Prop :=
  lenN b = cd_length d ∧ ChunkId_from_bytes (blake3_hash b) = cd_id d.

(** The chunks that a manifest names make up an object of its identity. *)
Definition authentic (m : ObjectManifest) : Prop :=
  ∃ datas, Forall2 matches (om_chunks m) datas ∧
    ObjectOid_from_bytes (sha256_digest (concat datas)) = om_object_oid m.

(** Stored chunks are never lost. *)
Definition keeps_chunks (st st' : St) : Prop :=
  ∀ r id b, chunk_bytes st r id = Some b → chunk_bytes st' r id = Some b.

(** With [gc = true] chunks may be deleted; with [gc = false] the programs
    considered do not delete any. *)
Definition rely (gc : bool) : relation (World St Json) := λ w w',
  gc = false → keeps_chunks (w_store w) (w_store w').

(** A published object: its manifest is authentic and, while nothing deletes
    chunks, it lacks none. *)
Definition intact (gc : bool) (st : St) (r : Uuid) (m : ObjectManifest) : Prop :=
  authentic m ∧ (gc = false → available st r (om_chunks m)).

(** The metadata are consistent, every stored chunk hashes to its identity and
    every published object is intact. *)
Definition service_ok (gc : bool) (w : World St Json) : Prop :=
  db_ok (w_db w) ∧ content_ok (w_store w) ∧
  ∀ r o m, published (w_db w) r o m → intact gc (w_store w) r m.

#[export] Instance rely_preorder gc : PreOrder (rely gc).
Proof.
  split; [by intros w H r id b|]. intros w1 w2 w3 H1 H2 H r id b Hb.
  apply (H2 H), (H1 H), Hb.
Qed.

Lemma available_mono st st' r l : keeps_chunks st st' → available st r l → available st' r l.
Proof. intros Hk Ha d Hd. destruct (Ha d Hd) as [b Hb]. exists b. by apply Hk. Qed.

Lemma intact_mono gc st st' r m : keeps_chunks st st' → intact gc st r m → intact gc st' r m.
Proof. intros Hk [Ha Hv]. split; [done|]. intros Hgc. eapply available_mono; [done|by apply Hv]. Qed.

Lemma service_ok_weaken w : service_ok false w → service_ok true w.
Proof. intros (H1 & H2 & H3). split_and!; [done..|]. intros r o m Hp. by destruct (H3 r o m Hp). Qed.

(** What a handler relies on when it acts on chunks it has seen. *)
Definition chunks_persist (gc : bool) (R : relation (World St Json)) : Prop :=
  gc = false → ∀ w w', R w w' → keeps_chunks (w_store w) (w_store w').

Lemma rely_persists gc : chunks_persist gc (rely gc).
Proof. intros Hgc w w' Hr. by apply Hr. Qed.

Lemma env_step_ok gc w w' :
  env_step w w' → keeps_chunks (w_store w) (w_store w') ∧ (service_ok gc w → service_ok gc w').
Proof. intros (dn & di & fs & ios & c & _ & _ & ->). split; [by intros r id b|done]. Qed.

(** A store that only gained correct chunks. *)
Lemma service_ok_store gc w st' (w' : World St Json) :
  w_db w' = w_db w → w_store w' = st' → content_ok st' → keeps_chunks (w_store w) st' →
  service_ok gc w → keeps_chunks (w_store w) (w_store w') ∧ service_ok gc w'.
Proof.
  intros Hdb Hst Hc Hk (H1 & H2 & H3). unfold service_ok. rewrite Hdb, Hst.
  split_and!; [done|done|done|]. intros r o m Hp. eapply intact_mono; [done|by eapply H3].
Qed.

(** Tables that publish nothing new. *)
Lemma service_ok_tables gc (w w' : World St Json) :
  w_store w' = w_store w → db_ok (w_db w') →
  (∀ r o m, published (w_db w') r o m → published (w_db w) r o m) →
  service_ok gc w → keeps_chunks (w_store w) (w_store w') ∧ service_ok gc w'.
Proof.
  intros Hst Hdb Hp (H1 & H2 & H3). unfold service_ok. rewrite Hst.
  split_and!; [by intros r id b|done|done|]. intros r o m Hm. by eapply H3, Hp.
Qed.

(** *** Store calls *)

Section Calls.
  Context (gc : bool) (R : relation (World St Json)) {R_pre : PreOrder R}
          (HR : ∀ w w' : World St Json, keeps_chunks (w_store w) (w_store w') → R w w').
  Local Abbreviation I := (service_ok gc).

Lemma service_stable : stable R I.
Proof.
  intros w w' Hdb Hst Hnow. split; [apply HR; rewrite Hst; by intros r id b|].
  unfold service_ok. by rewrite Hdb, Hst.
Qed.

Lemma get_verified_safe {E} (l : StorageError → E) r id w0 :
  safe R I (λ b w, stored (w_store w) r id b) (store_call l (get_verified r id)) w0.
Proof.
  apply (safe_atomic R I). intros w res w' Hr Hw. rewrite run_store_call. intros [= <- <-].
  destruct (get_verified r id (w_store w)) as [q st'] eqn:Hg. cbn.
  apply get_verified_spec in Hg as [Hsame Hq].
  destruct (service_ok_store gc w st' (set_store st' w)) as [HK%HR HI]; [done|done| | |done|].
  - intros r' id' b. rewrite Hsame. by apply Hw.
  - intros r' id' b. by rewrite Hsame.
  - split_and!; [done|done|]. intros b Hb%map_err_ok. subst q.
    unfold stored in *. cbn. by rewrite Hsame.
Qed.

Lemma exists_chunk_safe {E} (l : StorageError → E) r id w0 :
  safe R I (λ b w, b = true → is_Some (chunk_bytes (w_store w) r id))
    (store_call l (exists_chunk r id)) w0.
Proof.
  apply (safe_atomic R I). intros w res w' Hr Hw. rewrite run_store_call. intros [= <- <-].
  destruct (exists_chunk r id (w_store w)) as [q st'] eqn:Hg. cbn.
  apply exists_chunk_spec in Hg as [Hsame Hq].
  destruct (service_ok_store gc w st' (set_store st' w)) as [HK%HR HI]; [done|done| | |done|].
  - intros r' id' b. rewrite Hsame. by apply Hw.
  - intros r' id' b. by rewrite Hsame.
  - split_and!; [done|done|]. intros b Hb%map_err_ok. subst q. intros ->. cbn. by rewrite Hsame.
Qed.

Lemma put_verified_safe {E} (l : StorageError → E) r id b w0 :
  safe R I (λ _ w, is_Some (chunk_bytes (w_store w) r id)) (store_call l (put_verified r id b)) w0.
Proof.
  apply (safe_atomic R I). intros w res w' Hr Hw. rewrite run_store_call. intros [= <- <-].
  destruct (put_verified r id b (w_store w)) as [q st'] eqn:Hg. cbn.
  apply put_verified_spec in Hg as (Hother & Hsame & Hq).
  destruct (service_ok_store gc w st' (set_store st' w)) as [HK%HR HI]; [done|done| | |done|].
  - intros r' id' b'. destruct (decide ((r', id') = (r, id))) as [[= -> ->]|Hne].
    + destruct Hsame as [->|[_ [Hb Hh]]]; [apply Hw|]. rewrite Hb. by intros [= <-].
    + rewrite Hother by done. apply Hw.
  - intros r' id' b' Hb'. destruct (decide ((r', id') = (r, id))) as [[= -> ->]|Hne].
    + destruct Hsame as [->|[Hn _]]; [done|]. by rewrite Hn in Hb'.
    + by rewrite Hother.
  - split_and!; [done|done|]. intros [] Hb%map_err_ok. by destruct (Hq Hb).
Qed.

Lemma healthcheck_safe {E} (l : StorageError → E) probe w0 :
  safe R I any (store_call l (healthcheck probe)) w0.
Proof.
  apply (safe_atomic R I). intros w res w' Hr Hw. rewrite run_store_call. intros [= <- <-].
  pose proof (healthcheck_spec probe (w_store w)) as Hsame.
  destruct (service_ok_store gc w (healthcheck probe (w_store w)).2 (set_store (healthcheck probe (w_store w)).2 w))
    as [HK%HR HI]; [done|done| | |done|by split_and!].
  - intros r' id' b. rewrite Hsame. by apply Hw.
  - intros r' id' b. by rewrite Hsame.
Qed.

(** *** Transactions *)

Lemma open_session_safe r m value too_large w0 :
  (∀ v, value = Ok v → manifest_from_value v = Ok m) →
  safe R I (λ res _, res.2 = m)
    (transaction (St:=St) ApiError_database (open_session r m value too_large)) w0.
Proof.
  intros Hval. apply (safe_transaction R I
    (λ now db0 res db, res.2 = m ∧ opened now r m db0 res.1.1 db)); [apply service_stable| |].
  - intros w Hr Hw. apply open_session_triple; [done|apply Hw].
  - cbn. intros w res w' Hr Hw Hst Hn (Hres & Hdb & row & Heq & _).
    destruct (service_ok_tables gc w w') as [?%HR ?]; [done|done| |done|by split_and!].
    intros r' o m'. by apply published_tables; rewrite Heq.
Qed.

Lemma register_session_chunk_safe r id d w0 :
  safe R I any (transaction (St:=St) ApiError_database (register_session_chunk r id d)) w0.
Proof.
  apply (safe_transaction R I (λ _ db0 _ db, db_ok db ∧
    (∃ t u, db = with_upload_session_chunks u (with_chunks t db0)) ∧
    is_Some (chunks db !! (r, ChunkId_as_bytes (cd_id d))) ∧
    is_Some (upload_session_chunks db !! (id, ChunkId_as_bytes (cd_id d)))));
    [apply service_stable| |].
  - intros w Hr Hw. apply register_session_chunk_triple. apply Hw.
  - cbn. intros w res w' Hr Hw Hst Hn (Hdb & (t & u & Heq) & _).
    destruct (service_ok_tables gc w w') as [?%HR ?]; [done|done| |done|by split_and!].
    intros r' o m'. by apply published_tables; rewrite Heq.
Qed.

Lemma publish_manifest_safe r id m w0 :
  chunks_persist gc R → intact gc (w_store w0) r m →
  safe R I any (publish_manifest (St:=St) r id m) w0.
Proof.
  intros HP Hav. unfold publish_manifest.
  apply (safe_bind R I (λ _ _, ObjectManifest_validate m = Ok tt)).
  { apply (safe_lift R I). by intros [] H%map_err_ok. }
  intros _ w1 Hr1 Hv.
  apply (safe_transaction R I (λ _ db0 b db, publish_outcome r id m db0 b db));
    [apply service_stable| |].
  - intros w Hr Hw. apply publish_tx_triple; [apply Hw|done].
  - cbn. intros w b w' Hr Hw Hst Hn Hout.
    split; [apply HR; rewrite Hst; by intros r' id' b'|]. split; [|done].
    destruct Hw as (H1 & H2 & H3). split_and!; [by destruct Hout|by rewrite Hst|].
    intros r' o m' Hp. rewrite Hst.
    destruct Hout as [Hok _ _ Hobs Hocs Hres].
    destruct (decide ((r', o) = (r, ObjectOid_as_bytes (om_object_oid m)))) as [[= -> ->]|Hne].
    + destruct b; [|destruct Hres as (Ho & Hc & _); eapply H3, published_tables; eauto].
      destruct Hres as [_ Hpub]. rewrite (published_fun _ _ _ _ _ Hp Hpub).
      destruct Hav as [Ha Hav]. split; [done|]. intros Hgc.
      eapply available_mono; [|by apply Hav]. by apply (HP Hgc); etrans.
    + eapply H3, published_frame, Hp; [by rewrite Hobs|].
      intros z. by rewrite Hocs.
Qed.

(** *** Handlers *)

Context {fastcdc : FastCdc} {url_lib : UrlLib} {jwt : JwtLib} {forgejo : ForgejoApi}.
Implicit Types (w : World St Json).

Lemma load_manifest_safe r oid w0 :
  safe R I (λ m w, om_object_oid m = oid ∧ ObjectManifest_validate m = Ok tt ∧
     (gc = false → available (w_store w) r (om_chunks m))) (load_manifest r oid) w0.
Proof.
  apply (safe_bind R I (λ row w, ∀ m x, row = Some x → manifest_from_value (ob_manifest x) = Ok m →
    om_object_oid m = oid ∧ ObjectManifest_validate m = Ok tt ∧
    (gc = false → available (w_store w) r (om_chunks m)))).
  { apply (safe_query_read R I); [apply service_stable|].
    intros w w' Hr (Hdb & Hc & Hd) _ Hst _ m x Hrow Hm.
    destruct (db_ok_published _ _ _ _ Hdb Hrow) as [m' Hp].
    pose proof Hp as ((x' & Hx' & Hm' & _) & Ho & Hv & _).
    rewrite Hrow in Hx'. injection Hx' as <-. rewrite Hm in Hm'. injection Hm' as <-.
    split_and!; [by apply ObjectOid_as_bytes_inj|done|].
    intros Hgc. rewrite Hst. by eapply (Hd _ _ _ Hp). }
  intros row w1 _ Hrow. apply (safe_bind R I (λ x w, row = Some x ∧ w = w1)).
  { apply (safe_lift R I). by intros x Hx%ok_or_ok. }
  intros x w2 _ [Hx ->]. apply (safe_lift R I). intros m Hm%map_err_ok. by eapply Hrow.
Qed.

Lemma load_open_upload_safe r oid id w0 : safe R I any (load_open_upload r oid id) w0.
Proof. unfold load_open_upload. pose proof service_stable. safe_skips. safe_call. Qed.

Lemma load_finalizable_upload_safe r oid id w0 :
  safe R I (λ p _, om_object_oid p.1 = oid) (load_finalizable_upload r oid id) w0.
Proof.
  apply (safe_bind R I (λ row _, ∀ m x, row = Some x →
    manifest_from_value (us_manifest x) = Ok m → om_object_oid m = oid)).
  { apply (safe_query_read R I); [apply service_stable|].
    intros w w' Hr (Hdb & Hc & Hd) _ Hst _ m x Hrow Hm.
    apply select_finalizable_session_Some in Hrow as (Hrow & _ & Hoid & _).
    destruct Hdb as [[] _]. destruct (ok_sessions _ _ Hrow) as (m' & Hm' & Ho).
    rewrite Hm in Hm'. injection Hm' as <-. apply ObjectOid_as_bytes_inj. congruence. }
  intros row w1 _ Hrow. apply (safe_bind R I (λ x _, row = Some x)).
  { apply (safe_lift R I). by intros x Hx%ok_or_ok. }
  intros x w2 _ Hx. apply (safe_bind R I (λ m _, om_object_oid m = oid)).
  { apply (safe_lift R I). intros m Hm%map_err_ok. by eapply Hrow. }
  by intros m w3 _ Hm.
Qed.

Lemma ensure_upload_session_safe r m w0 : safe R I any (ensure_upload_session r m) w0.
Proof.
  apply (safe_bind R I (λ _ _, True)); [|done]. eapply safe_any; [apply _|].
  apply open_session_safe. intros v Hv%map_err_ok. by apply manifest_value_roundtrip.
Qed.

Lemma register_and_store_chunk_safe r id d b w0 :
  safe R I (λ _ w, is_Some (chunk_bytes (w_store w) r (cd_id d)))
    (register_and_store_chunk r id d b) w0.
Proof.
  apply (safe_bind R I any); [apply register_session_chunk_safe|].
  intros _ w1 _ _. apply put_verified_safe.
Qed.

Lemma missing_indexes_safe r l acc w0 : safe R I any (missing_indexes r l acc) w0.
Proof.
  pose proof service_stable. revert acc w0.
  induction l as [|[i d] l IH]; intros acc w0; cbn [missing_indexes]; [done|].
  apply (safe_bind R I any); [eapply safe_any, exists_chunk_safe; apply _|].
  intros b w1 _ _. destruct (negb b); [safe_skip|]; apply IH.
Qed.

Lemma begin_cdc_safe state owner repository oid headers request w0 :
  safe R I any (begin_cdc state owner repository oid headers request) w0.
Proof.
  pose proof service_stable. unfold begin_cdc. do 2 safe_skip.
  destruct (negb _); [done|]. safe_skip. destruct (negb _); [done|]. safe_skip.
  apply (safe_bind R I (λ v _, manifest_to_value (bu_manifest request) = Ok v)).
  { apply (safe_lift R I). by intros v Hv%map_err_ok. }
  intros v ? _ Hv. apply (safe_bind R I any).
  { eapply safe_any; [apply _|]. apply open_session_safe. intros ? [= <-].
    by apply manifest_value_roundtrip. }
  intros [[id t] m] ? _ _. apply (safe_bind R I any); [apply missing_indexes_safe|done].
Qed.

Lemma upload_cdc_chunk_safe state owner repository oid id index headers b w0 :
  safe R I any (upload_cdc_chunk state owner repository oid id index headers b) w0.
Proof.
  pose proof service_stable. unfold upload_cdc_chunk. do 4 safe_skip.
  apply (safe_bind R I any); [apply load_open_upload_safe|intros m ? _ _]. safe_skip.
  destruct (negb _); [done|]. apply (safe_bind R I any).
  { eapply safe_any, register_and_store_chunk_safe. apply _. }
  intros _ ? _ _. by safe_skip.
Qed.

Lemma hash_chunks_safe r l h w0 :
  chunks_persist gc R →
  safe R I (λ h' w, (∃ datas, h' = h ++ concat datas ∧ Forall2 matches l datas) ∧
      (gc = false → available (w_store w) r l)) (hash_chunks r l h) w0.
Proof.
  intros HP. revert h w0. induction l as [|d l IH]; intros h w0; cbn [hash_chunks].
  { apply (safe_ret R I). split; [exists []; by rewrite app_nil_r|].
    intros _ d Hd. by apply elem_of_nil in Hd. }
  apply (safe_bind R I (λ b w, stored (w_store w) r (cd_id d) b)); [apply get_verified_safe|].
  intros b w1 _ [Hb Hid]. destruct (N.eqb_spec (lenN b) (cd_length d)) as [Hl|]; [|done]. cbn [negb].
  eapply safe_mono; [apply _|apply IH|]. cbn. intros h' w Hr [(datas & -> & Hm) Hav]. split.
  { exists (b :: datas). unfold Sha256_update. cbn [concat]. by rewrite <- app_assoc; split; [|constructor]. }
  intros Hgc d' [->|Hd']%elem_of_cons; [exists b; by apply (HP Hgc _ _ Hr)|by apply Hav].
Qed.

Lemma count_published_safe m b w0 : safe R I any (count_published m b) w0.
Proof. destruct b; [apply count_safe; [apply _|apply service_stable]|done]. Qed.

Lemma finalize_cdc_safe state owner repository oid id headers w0 :
  chunks_persist gc R →
  safe R I any (finalize_cdc state owner repository oid id headers) w0.
Proof.
  intros HP. pose proof service_stable. unfold finalize_cdc. do 3 safe_skip.
  apply (safe_bind R I any); [safe_call|intros r ? _ _].
  eapply (safe_bind R I); [apply load_finalizable_upload_safe|].
  intros [m b] ? _ Hoid. cbn [fst snd] in *. destruct b; [done|].
  eapply (safe_bind R I); [by apply hash_chunks_safe|].
  intros h ? _ [(datas & -> & Hm) Hav]. case_bool_decide as Hsha; [|done]. cbn [negb].
  apply (safe_bind R I any); [apply publish_manifest_safe; [done|]|].
  { split; [|done]. exists datas. split; [done|]. rewrite Hoid. by apply ObjectOid_as_bytes_inj. }
  intros p ? _ _. apply (safe_bind R I any); [apply count_published_safe|done].
Qed.

Lemma download_cdc_manifest_safe state owner repository oid headers w0 :
  safe R I (λ m _, parse_oid oid = Ok (om_object_oid m) ∧ ObjectManifest_validate m = Ok tt)
    (download_cdc_manifest state owner repository oid headers) w0.
Proof.
  pose proof service_stable. unfold download_cdc_manifest. safe_skip.
  apply (safe_bind R I (λ o _, parse_oid oid = Ok o)); [by apply (safe_lift R I)|intros o ? _ Ho].
  safe_skip. eapply safe_mono; [apply _|apply load_manifest_safe|].
  intros m ? _ (<- & Hv & _). done.
Qed.

(** Bytes delivered for a manifest position. *)
Definition delivers (oid : ObjectOid) (index : N) (b : bytes) : Prop :=
  ∃ m d, om_object_oid m = oid ∧ ObjectManifest_validate m = Ok tt ∧
    get_N (om_chunks m) index = Some d ∧ lenN b = cd_length d ∧
    ChunkId_from_bytes (blake3_hash b) = cd_id d.

Lemma download_cdc_chunk_safe state owner repository oid index headers w0 :
  safe R I (λ b _, ∃ o, parse_oid oid = Ok o ∧ delivers o index b)
    (download_cdc_chunk state owner repository oid index headers) w0.
Proof.
  pose proof service_stable. unfold download_cdc_chunk. do 2 safe_skip.
  apply (safe_bind R I (λ o _, parse_oid oid = Ok o)); [by apply (safe_lift R I)|intros o ? _ Ho].
  apply (safe_bind R I any); [safe_call|intros r ? _ _].
  eapply (safe_bind R I); [apply load_manifest_safe|intros m ? _ (Hm & Hv & _)].
  apply (safe_bind R I (λ d _, get_N (om_chunks m) index = Some d)).
  { apply (safe_lift R I). by intros d Hd%ok_or_ok. }
  intros d ? _ Hd.
  apply (safe_bind R I (λ b w, stored (w_store w) r (cd_id d) b)); [apply get_verified_safe|].
  intros b ? _ [_ Hb]. destruct (N.eqb_spec (lenN b) (cd_length d)) as [Hl|]; [|done].
  apply (safe_ret R I). exists o. split; [done|]. by exists m, d.
Qed.

Lemma reassemble_safe r l h f w0 :
  safe R I (λ p _, ∃ b, p = (h ++ b, f ++ b) ∧ lenN b = described l) (reassemble r l h f) w0.
Proof.
  pose proof service_stable. revert h f w0.
  induction l as [|d l IH]; intros h f w0; cbn [reassemble].
  { apply (safe_ret R I). exists []. by rewrite !app_nil_r. }
  apply (safe_bind R I (λ b w, stored (w_store w) r (cd_id d) b)); [apply get_verified_safe|].
  intros b ? _ _. destruct (N.eqb_spec (lenN b) (cd_length d)) as [Hl|]; [|done]. cbn [negb].
  safe_skip. eapply safe_mono; [apply _|apply IH|]. cbn. intros p ? _ (b' & -> & Hb').
  exists (b ++ b'). unfold Sha256_update. rewrite <- !app_assoc. split; [done|].
  by rewrite lenN_app, Hl, Hb'.
Qed.

Lemma validate_total m : ObjectManifest_validate m = Ok tt → described (om_chunks m) = om_object_size m.
Proof. intros Hv. by apply validate_iff in Hv as []. Qed.

Lemma download_basic_safe state owner repository oid headers w0 :
  safe R I (λ p _, parse_oid oid = Ok (ObjectOid_from_bytes (sha256_digest p.2)) ∧
                   p.1 = lenN p.2)
    (download_basic state owner repository oid headers) w0.
Proof.
  pose proof service_stable. unfold download_basic. safe_skip.
  apply (safe_bind R I (λ o _, parse_oid oid = Ok o)); [by apply (safe_lift R I)|intros o ? _ Ho].
  apply (safe_bind R I any); [safe_call|intros r ? _ _]. safe_skip.
  eapply (safe_bind R I); [apply load_manifest_safe|intros m ? _ (Hm & Hv & _)].
  do 3 safe_skip. eapply (safe_bind R I); [apply reassemble_safe|].
  intros p ? _ (b & -> & Hb). cbn [app].
  case_bool_decide as Hsha; [|done]. cbn [negb]. do 2 safe_skip.
  apply (safe_ret R I). cbn. rewrite Hb, (validate_total m Hv). split; [|done].
  rewrite Ho. f_equal. by apply ObjectOid_as_bytes_inj.
Qed.

(** The stored stream was read to its end, and all its chunks are stored. *)
Lemma store_stream_safe r id items stream w0 :
  chunks_persist gc R →
  safe R I (λ _ w, ∃ chunks s, drain_items items stream = Ok (chunks, s) ∧
      (gc = false → available (w_store w) r (map ch_descriptor chunks)))
    (store_stream r id items stream) w0.
Proof.
  intros HP. revert stream w0.
  induction items as [|item items IH]; intros stream w0; cbn [store_stream].
  { apply (safe_ret R I). exists [], stream. split; [done|].
    intros _ d Hd. by apply elem_of_nil in Hd. }
  cbn [drain_items].
  destruct (ChunkStream_accept (set_inner stream items) item) as [[c s]|e]; [|done].
  apply (safe_bind R I (λ _ w, is_Some (chunk_bytes (w_store w) r (cd_id (ch_descriptor c)))));
    [apply register_and_store_chunk_safe|].
  intros _ w1 _ [b Hb]. eapply safe_mono; [apply _|apply IH|].
  cbn. intros _ w2 Hr (chunks & s' & Hd & Hav). exists (c :: chunks), s'. rewrite Hd.
  split; [done|]. intros Hgc d [->|Hin]%elem_of_cons; [exists b; by apply (HP Hgc _ _ Hr)|].
  by apply (Hav Hgc).
Qed.

(** What a complete pass over the staged file describes is the file. *)
Lemma first_pass {cdc_laws : FastCdcLaws} file e m :
  lenN file ≤ MAX_OBJECT_SIZE →
  ChunkStream_finish (ChunkStream_new (mkReader file e) ChunkingProfile_beta_v1) = Ok m → authentic m.
Proof.
  intros Hlen Hm. unfold ChunkStream_finish in Hm.
  apply result_bind_ok in Hm as (p & Hp & [= <-]).
  pose proof (drain_no_error _ _ _ Hp) as H1. cbn in H1. subst e.
  destruct (stream_describes file) as (chunks & s & Hd & Hcat & Hman & Hall).
  { unfold MAX_OBJECT_SIZE, U64_MAX in *. lia. }
  unfold file_reader in Hd. rewrite Hp in Hd. injection Hd as ->. cbn [snd].
  exists (map ch_data chunks). rewrite Hcat. destruct Hman as [-> ->]. split; [|done].
  clear -Hall. induction Hall as [|c l [Hl Hi] _ IH]; cbn; constructor; [by split|done].
Qed.

(** Two complete passes over the staged file describe the same chunks. *)
Lemma second_pass {cdc_laws : FastCdcLaws} file e1 e2 m chunks s :
  lenN file ≤ MAX_OBJECT_SIZE →
  ChunkStream_finish (ChunkStream_new (mkReader file e1) ChunkingProfile_beta_v1) = Ok m →
  ChunkStream_drain (ChunkStream_new (mkReader file e2) ChunkingProfile_beta_v1) = Ok (chunks, s) →
  om_chunks m = map ch_descriptor chunks.
Proof.
  intros Hlen Hm Hd. unfold ChunkStream_finish in Hm.
  apply result_bind_ok in Hm as (p & Hp & [= <-]).
  pose proof (drain_no_error _ _ _ Hp) as H1. pose proof (drain_no_error _ _ _ Hd) as H2.
  cbn in H1, H2. subst e1 e2. rewrite Hp in Hd. injection Hd as ->.
  destruct (drain_new file) as (cs & s' & Hd & _ & _ & Hman).
  { unfold MAX_OBJECT_SIZE, U64_MAX in *. lia. }
  unfold file_reader in Hd. rewrite Hp in Hd. injection Hd as -> ->. cbn [snd]. rewrite Hman.
  cbn. by rewrite map_map.
Qed.

Lemma copied_length limit body copied file w0 :
  copied = lenN file → copied + limit ≤ MAX_OBJECT_SIZE + 1 →
  safe R I (λ p _, p.1 = lenN p.2) (copy_limited limit body copied file) w0.
Proof.
  pose proof service_stable. revert limit copied file w0.
  induction body as [|[b|e] body IH]; intros limit copied file w0 Hc Hl; cbn [copy_limited];
    [done|..]; destruct (N.eqb_spec limit 0); try done.
  safe_skip. apply IH; [rewrite lenN_app; lia|]. pose proof (lenN_take_N limit b). lia.
Qed.

Lemma upload_basic_safe {cdc_laws : FastCdcLaws} state owner repository oid headers body w0 :
  chunks_persist gc R →
  safe R I any (upload_basic state owner repository oid headers body) w0.
Proof.
  intros HP. pose proof service_stable. unfold upload_basic. do 2 safe_skip.
  apply (safe_bind R I any); [safe_call|intros r ? _ _].
  destruct (match _ with Some _ => _ | None => _ end); [done|]. do 4 safe_skip.
  eapply (safe_bind R I); [by apply copied_length|intros [copied file] ? _ Hlen].
  cbn in Hlen. destruct (N.ltb_spec MAX_OBJECT_SIZE copied); [done|]. do 2 safe_skip.
  apply (safe_bind R I (λ rd _, ∃ e, rd = mkReader file e)).
  { apply (safe_stable_act R I); [done|done|]. intros. by eexists. }
  intros rd ? _ [e1 ->]. apply (safe_bind R I (λ m _,
    ChunkStream_finish (ChunkStream_new (mkReader file e1) ChunkingProfile_beta_v1) = Ok m)).
  { apply (safe_lift R I). by intros m Hm%map_err_ok. }
  intros m ? _ Hm. case_bool_decide; [|done]. cbn [negb].
  apply (safe_bind R I any); [apply ensure_upload_session_safe|intros id ? _ _]. safe_skip.
  apply (safe_bind R I (λ rd _, ∃ e, rd = mkReader file e)).
  { apply (safe_stable_act R I); [done|done|]. intros. by eexists. }
  intros rd ? _ [e2 ->]. eapply (safe_bind R I); [by apply store_stream_safe|].
  intros _ ? _ (chunks & s & Hd & Hav).
  assert (om_chunks m = map ch_descriptor chunks) as Hchunks
    by (eapply (second_pass file); [lia|done|exact Hd]).
  apply (safe_bind R I any); [apply publish_manifest_safe; [done|]|].
  { split; [eapply (first_pass file); [lia|exact Hm]|by rewrite Hchunks]. }
  intros b ? _ _. apply (safe_bind R I any); [apply count_published_safe|intros _ ? _ _].
  by safe_skip.
Qed.

Lemma readiness_safe w0 : safe R I any readiness w0.
Proof.
  pose proof service_stable. unfold readiness. do 2 safe_skip.
  match goal with |- safe _ _ _ (if ?b then _ else _) _ => destruct b; [done|] end.
  safe_skip. apply (safe_bind R I any); [apply healthcheck_safe|intros _ ? _ _].
  apply (safe_bind R I any); [by apply (act_safe R I)|done].
Qed.

End Calls.
End Invariants.
