(* ===== verification/UploadSpecs.v ===== *)
(** * UploadSpecs: what each upload and download handler does on its own

    Functional behaviour of the handlers of [Uploads] in a sequential run:
    the missing-chunk list of [begin_cdc], what [finalize_cdc] verifies before
    it publishes, and that an intact object is delivered. *)
From S2P Require Import Prelude Digest Manifest Stream Protocol Storage Database Effects Api Sessions Uploads.

Section Runs.
  Context {St Json : Type}.
  Implicit Types (w : World St Json).

(** A step of a successful sequential run. *)
Lemma run_bind_ok {E A B} (m : prog St Json E A) (f : A → prog St Json E B) w b w' :
  run (let! a := m in f a) w = (Ok b, w') ↔
  ∃ a w1, run m w = (Ok a, w1) ∧ run (f a) w1 = (Ok b, w').
Proof.
  rewrite run_bind. destruct (run m w) as [[a|e] w1]; split.
  - intros H. by exists a, w1.
  - by intros (? & ? & [= -> ->] & H).
  - done.
  - by intros (? & ? & ? & H).
Qed.

Lemma run_lift_ok {E A} (r : result E A) w a w' :
  run (lift r) w = (Ok a, w') ↔ r = Ok a ∧ w' = w.
Proof. cbn. split; [by intros [= -> ->]|by intros [-> ->]]. Qed.

(** The part of the world that uploads are about. *)
Definition same w w' : Prop :=
  w_db w' = w_db w ∧ w_store w' = w_store w ∧ w_now w' = w_now w.

#[export] Instance same_preorder : PreOrder same.
Proof.
  split; [done|]. intros w1 w2 w3 (H1 & H2 & H3) (H4 & H5 & H6).
  unfold same. rewrite H4, H5, H6. done.
Qed.

Lemma same_stable : stable same (λ _, True).
Proof. by intros w w' H1 H2 H3. Qed.

(** A program that is harmless in the sense of [safe] leaves them alone. *)
Lemma run_same {E A} (p : prog St Json E A) w r w' :
  safe same (λ _, True) any p w → run p w = (r, w') → same w w'.
Proof. intros Hp Hr. by destruct (safe_run same (λ _, True) any p w r w' Hp I Hr). Qed.

Lemma run_query_read {E A} (l : SqlxError → E) (f : Z → Db Json → A) w a w' :
  run (query (St:=St) l (λ now db, Ok (f now db, db))) w = (Ok a, w') →
  a = f (w_now w) (w_db w) ∧ same w w'.
Proof.
  intros Hr. split; [|eapply run_same, Hr; apply query_read_safe; [apply _|apply same_stable]].
  cbn in Hr. unfold tx_map_err, stmt in Hr. destruct (hd false (w_faults w)); [done|].
  by injection Hr as <- <-.
Qed.

Lemma run_transaction {E A} (l : SqlxError → E) (m : TX St Json E A) Q w a w' :
  tx_triple (w_now w) (eq (w_db w)) m Q → run (transaction l m) w = (Ok a, w') →
  w_store w' = w_store w ∧ w_now w' = w_now w ∧ Q a (w_db w').
Proof.
  intros Hm Hr. cbn in Hr. destruct (atomically l m w) as [r w1] eqn:Ha. injection Hr as -> ->.
  by eapply triple_atomically in Ha as (H1 & H2 & H3).
Qed.

Lemma run_store_call_ok {E F A} (l : F → E) (f : St → result F A * St) w a w' :
  run (store_call l f) w = (Ok a, w') → f (w_store w) = (Ok a, w_store w') ∧
  w_db w' = w_db w ∧ w_now w' = w_now w.
Proof.
  cbn. unfold tx_map_err, tx_store. destruct (f (w_store w)) as [[x|e] st]; cbn; [|done].
  by intros [= -> <-].
Qed.

End Runs.

Section Requests.
  Context {St Json : Type} {hashes : Hashes} {url_lib : UrlLib} {jwt : JwtLib}
          {forgejo : ForgejoApi}.
  Implicit Types (w : World St Json).

Lemma run_repository_id owner repository w r w' :
  run (repository_id owner repository) w = (Ok r, w') →
  select_repository_id owner repository (w_db w) = Some r ∧ same w w'.
Proof.
  unfold repository_id. intros (row & w1 & Hq & Hl)%run_bind_ok.
  apply (run_query_read _ (λ _, select_repository_id owner repository)) in Hq as [-> Hs].
  apply run_lift_ok in Hl as [H%ok_or_ok ->]. by split.
Qed.

Lemma run_authenticate state headers owner repository access w i w' :
  run (authenticate state headers owner repository access) w = (i, w') → same w w'.
Proof. apply run_same, authenticate_safe; [apply _|apply same_stable]. Qed.

End Requests.

Section Specs.
  Context {St Json : Type} {object_store : ObjectStore St} {store_laws : ObjectStoreLaws St}
          {json : ManifestJson Json} {json_laws : ManifestJsonLaws Json}
          {pg : PgText} {hex : HexCodec} {hex_laws : HexLaws} {hashes : Hashes}
          {uuid_text : UuidText} {uuid_laws : UuidTextLaws} {url_lib : UrlLib} {jwt : JwtLib}
          {forgejo : ForgejoApi}.
  Implicit Types (w : World St Json).

(** Reading does not change the chunks of any repository. *)
Definition same_chunks (st st' : St) : Prop :=
  ∀ r id, chunk_bytes st' r id = chunk_bytes st r id.

(** *** [begin_cdc] *)

(** The indexes of the descriptors whose chunk the store lacks. *)
Definition missing_of (st : St) (r : Uuid) (l : list (N * ChunkDescriptor)) : list N :=
  (filter (λ p : N * ChunkDescriptor, chunk_bytes st r (cd_id p.2) = None) l).*1.

Lemma run_missing_indexes r l acc w res w' :
  run (missing_indexes r l acc) w = (Ok res, w') →
  res = acc ++ missing_of (w_store w) r l ∧ same_chunks (w_store w) (w_store w') ∧
  w_db w' = w_db w ∧ w_now w' = w_now w.
Proof.
  revert acc w. induction l as [|[i d] l IH]; intros acc w; cbn [missing_indexes].
  { intros [= <- <-]. by rewrite app_nil_r. }
  intros (present & w1 & Hq & Hr)%run_bind_ok.
  apply run_store_call_ok in Hq as (Hq & Hdb & Hnow).
  apply exists_chunk_spec in Hq as [Hsame Hp].
  assert (Htail : missing_of (w_store w1) r l = missing_of (w_store w) r l).
  { unfold missing_of. f_equal. apply list_filter_iff. intros x. by rewrite Hsame. }
  assert (Hfin : ∀ acc', run (missing_indexes r l acc') w1 = (Ok res, w') →
    res = acc' ++ missing_of (w_store w) r l ∧ same_chunks (w_store w) (w_store w') ∧
    w_db w' = w_db w ∧ w_now w' = w_now w).
  { intros acc' H. apply IH in H as (-> & Hs & Hd & Hn). rewrite Htail, Hd, Hn.
    split_and!; [done| |done|done]. intros r' id. by rewrite Hs. }
  assert (Hhead : missing_of (w_store w) r ((i, d) :: l) =
    (if present then [] else [i]) ++ missing_of (w_store w) r l).
  { unfold missing_of. rewrite filter_cons. cbn [snd]. destruct present.
    - destruct Hp as [b Hb]. rewrite decide_False; [done|]. by rewrite Hb.
    - by rewrite decide_True. }
  rewrite Hhead. destruct present; cbn [negb] in Hr; [by apply Hfin|].
  apply run_bind_ok in Hr as (j & w2 & Hl & Hr). apply run_lift_ok in Hl as [Hj%ok_or_ok ->].
  unfold u32_try_from in Hj. destruct (i <=? U32_MAX); [|done]. injection Hj as <-.
  rewrite app_assoc. by apply Hfin.
Qed.

(** C15: [begin_cdc] answers with the open session of the object, which
    stores the requested manifest and lives for 24 hours, and with exactly the
    indexes, in order, of the chunks the store does not have; it changes
    nothing else. *)
Theorem begin_cdc_spec state owner repository oid headers request w resp w' :
  db_ok (w_db w) →
  run (begin_cdc state owner repository oid headers request) w = (Ok resp, w') →
  let m := bu_manifest request in
  ObjectManifest_validate m = Ok tt ∧ parse_oid oid = Ok (om_object_oid m) ∧
  bu_protocol_version request = 1 ∧
  ∃ r, select_repository_id owner repository (w_db w) = Some r ∧
    opened (w_now w) r m (w_db w) (bur_upload_id resp) (w_db w') ∧
    bur_missing_chunk_indexes resp = missing_of (w_store w) r (enumerate (om_chunks m)) ∧
    same_chunks (w_store w) (w_store w').
Proof.
  intros Hok Hrun m. unfold begin_cdc in Hrun.
  apply run_bind_ok in Hrun as (i & w1 & Ha & Hrun). apply run_authenticate in Ha.
  apply run_bind_ok in Hrun as (o & w2 & Hl & Hrun). apply run_lift_ok in Hl as [Ho ->].
  destruct (N.eqb_spec (bu_protocol_version request) 1) as [Hver|]; [|done]. cbn [negb] in Hrun.
  apply run_bind_ok in Hrun as ([] & w2 & Hl & Hrun).
  apply run_lift_ok in Hl as [Hv%map_err_ok ->].
  case_bool_decide as Hoid; [|done]. cbn [negb] in Hrun. subst o.
  apply run_bind_ok in Hrun as (r & w2 & Hr & Hrun). apply run_repository_id in Hr as [Hr Hs2].
  apply run_bind_ok in Hrun as (v & w3 & Hl & Hrun).
  apply run_lift_ok in Hl as [Hj%map_err_ok ->].
  apply run_bind_ok in Hrun as ([[id t] m'] & w3 & Htx & Hrun).
  assert (Hs : same w w2) by (by etrans). destruct Hs as (Hdb & Hst & Hnow).
  eapply run_transaction in Htx;
    [|apply open_session_triple; [intros ? [= <-]; by apply manifest_value_roundtrip|by rewrite Hdb]].
  destruct Htx as (Hst3 & Hn3 & Hm' & Hdb3 & row & Heq & Hop). cbn in Hm'. subst m'.
  apply run_bind_ok in Hrun as (missing & w4 & Hmi & Hrun). injection Hrun as <- <-.
  apply run_missing_indexes in Hmi as (-> & Hsame & Hdb4 & _). rewrite Hst3, Hst in *.
  split_and!; [done|done|done|]. exists r. destruct Ha as (Ha & _).
  rewrite Ha in Hr. cbn [bur_upload_id bur_missing_chunk_indexes app]. rewrite Hdb4.
  split_and!; [done| |done|done]. rewrite Hdb in Heq. rewrite Hnow in Hop.
  split; [done|by exists row].
Qed.

(** *** [finalize_cdc] *)

(** The chunks of a manifest, read back from a store. *)
Definition contents (st : St) (r : Uuid) (l : list ChunkDescriptor) (datas : list bytes) : Prop :=
  Forall2 (λ d b, stored st r (cd_id d) b ∧ lenN b = cd_length d) l datas.

Lemma contents_same st st' r l datas :
  same_chunks st st' → contents st' r l datas → contents st r l datas.
Proof.
  intros Hs Hc. eapply Forall2_impl; [exact Hc|]. intros d b [[Hb Hh] Hl].
  split; [|done]. split; [|done]. by rewrite <- Hs.
Qed.

Lemma run_hash_chunks r l h w h' w' :
  run (hash_chunks r l h) w = (Ok h', w') →
  ∃ datas, h' = h ++ concat datas ∧ contents (w_store w) r l datas ∧
    same_chunks (w_store w) (w_store w') ∧ w_db w' = w_db w ∧ w_now w' = w_now w.
Proof.
  revert h w. induction l as [|d l IH]; intros h w; cbn [hash_chunks].
  { intros [= <- <-]. exists []. rewrite app_nil_r. split_and!; [done|constructor|done..]. }
  intros (b & w1 & Hq & Hr)%run_bind_ok.
  apply run_store_call_ok in Hq as (Hq & Hdb & Hnow).
  apply get_verified_spec in Hq as [Hsame Hb].
  destruct (N.eqb_spec (lenN b) (cd_length d)) as [Hl|]; [|done]. cbn [negb] in Hr.
  apply IH in Hr as (datas & -> & Hc & Hs & Hd & Hn).
  exists (b :: datas). rewrite Hd, Hn. unfold Sha256_update. cbn [concat].
  rewrite <- app_assoc. split_and!; [done| | |done|done].
  - constructor; [done|]. by eapply contents_same.
  - intros r' id. by rewrite Hs.
Qed.

(** What [finalize_cdc] established when it answered 204. *)
Definition finalized w w' (r : Uuid) (o : ObjectOid) (id : Uuid) : Prop :=
  (∃ row, upload_sessions (w_db w) !! id = Some row ∧ us_state row = Finalized ∧ same w w') ∨
  (∃ m datas created, om_object_oid m = o ∧ contents (w_store w) r (om_chunks m) datas ∧
     ObjectOid_from_bytes (sha256_digest (concat datas)) = o ∧
     same_chunks (w_store w) (w_store w') ∧
     publish_outcome r id m (w_db w) created (w_db w')).

Lemma run_load_finalizable r o id w p w' :
  db_ok (w_db w) → run (load_finalizable_upload r o id) w = (Ok p, w') →
  same w w' ∧ om_object_oid p.1 = o ∧ ∃ row, upload_sessions (w_db w) !! id = Some row ∧
    p.2 = bool_decide (us_state row = Finalized).
Proof.
  intros [[] _] Hrun. unfold load_finalizable_upload in Hrun.
  apply run_bind_ok in Hrun as (row & w1 & Hq & Hrun).
  apply (run_query_read _ (λ now db, select_finalizable_session id r (ObjectOid_as_bytes o) now db))
    in Hq as [-> Hs].
  apply run_bind_ok in Hrun as (x & w2 & Hl & Hrun). apply run_lift_ok in Hl as [Hx%ok_or_ok ->].
  apply run_bind_ok in Hrun as (m & w2 & Hl & Hrun). apply run_lift_ok in Hl as [Hm%map_err_ok ->].
  injection Hrun as <- <-. apply select_finalizable_session_Some in Hx as (Hx & _ & Ho & _).
  split_and!; [done| |by exists x]. cbn.
  destruct (ok_sessions _ _ Hx) as (m' & Hm' & Hoid). rewrite Hm in Hm'. injection Hm' as <-.
  apply ObjectOid_as_bytes_inj. congruence.
Qed.

Lemma run_publish_manifest r id m w b w' :
  db_ok (w_db w) → run (publish_manifest r id m) w = (Ok b, w') →
  w_store w' = w_store w ∧ publish_outcome r id m (w_db w) b (w_db w').
Proof.
  intros Hok Hrun. unfold publish_manifest in Hrun.
  apply run_bind_ok in Hrun as ([] & w1 & Hl & Hrun).
  apply run_lift_ok in Hl as [Hv%map_err_ok ->].
  eapply run_transaction in Hrun; [|by apply publish_tx_triple].
  by destruct Hrun as (H1 & _ & H2).
Qed.

Lemma run_count_published (m : ObjectManifest) b w x w' :
  run (count_published (St:=St) m b) w = (Ok x, w') → same w w'.
Proof. destruct b; cbn; by intros [= <- <-]. Qed.

(** A successful [finalize_cdc]. *)
Lemma run_finalize_cdc state owner repository oid id headers w status w' :
  db_ok (w_db w) →
  run (finalize_cdc state owner repository oid id headers) w = (Ok status, w') →
  status = NO_CONTENT ∧
  ∃ o r, parse_oid oid = Ok o ∧ select_repository_id owner repository (w_db w) = Some r ∧
    finalized w w' r o id.
Proof.
  intros Hok Hrun. unfold finalize_cdc in Hrun.
  apply run_bind_ok in Hrun as (? & w1 & Hq & Hrun).
  apply (run_same (acquire ApiError_shutdown)) in Hq; [|by apply (acquire_safe same _ same_stable)].
  apply run_bind_ok in Hrun as (i & w2 & Ha & Hrun). apply run_authenticate in Ha.
  apply run_bind_ok in Hrun as (o & w3 & Hl & Hrun). apply run_lift_ok in Hl as [Ho ->].
  apply run_bind_ok in Hrun as (r & w3 & Hr & Hrun). apply run_repository_id in Hr as [Hr Hs3].
  assert (Hs : same w w3) by (etrans; [exact Hq|etrans; [exact Ha|exact Hs3]]).
  assert (Hs2 : same w w2) by (etrans; [exact Hq|exact Ha]). destruct Hs2 as (Hs2 & _). rewrite Hs2 in Hr.
  apply run_bind_ok in Hrun as ([m fin] & w4 & Hu & Hrun).
  apply run_load_finalizable in Hu as (Hs4 & Hm & row & Hrow & Hfin); [|by destruct Hs as [-> _]].
  assert (Hs5 : same w w4) by (etrans; [exact Hs|exact Hs4]). destruct Hs5 as (Hdb & Hst & Hnow).
  cbn [fst snd] in *. destruct fin.
  - injection Hrun as <- <-. split; [done|]. exists o, r. split_and!; [done|done|left].
    exists row. symmetry in Hfin. apply bool_decide_eq_true in Hfin. destruct Hs as [Hs _].
    rewrite Hs in Hrow. by split_and!.
  - apply run_bind_ok in Hrun as (h & w5 & Hh & Hrun).
    apply run_hash_chunks in Hh as (datas & -> & Hc & Hsame & Hdb5 & _).
    case_bool_decide as Hsha; [|done]. cbn [negb] in Hrun.
    apply run_bind_ok in Hrun as (b & w6 & Hp & Hrun).
    apply run_publish_manifest in Hp as [Hst6 Hout]; [|by rewrite Hdb5, Hdb].
    apply run_bind_ok in Hrun as (? & w7 & Hcp & Hrun). apply run_count_published in Hcp as (H7 & H8 & _).
    injection Hrun as <- <-. split; [done|]. exists o, r. split_and!; [done|done|right].
    exists m, datas, b. rewrite H7, H8, Hst6. rewrite Hdb5, Hdb in Hout. rewrite Hst in *.
    split_and!; [done|done|by apply ObjectOid_as_bytes_inj|done|done].
Qed.

(** C14: [finalize_cdc] publishes only what it verified: when it succeeds,
    either the session was finalized already and nothing changed, or every
    chunk of the session's manifest was in the store with the declared length
    and BLAKE3 identity, the SHA-256 of their concatenation is the requested
    OID, and the object is published, or existed, with its session finalized
    and every other object untouched. *)
Theorem finalize_cdc_verifies state owner repository oid id headers w status w' :
  db_ok (w_db w) →
  run (finalize_cdc state owner repository oid id headers) w = (Ok status, w') →
  status = NO_CONTENT ∧
  ∃ o r, parse_oid oid = Ok o ∧ select_repository_id owner repository (w_db w) = Some r ∧
    finalized w w' r o id.
Proof. apply run_finalize_cdc. Qed.

(** *** Delivery *)

(** Nothing fails: no database or file operation is scheduled to fail, the
    service is not shutting down and the provider answers. *)
Record healthy w : Prop := {
  hl_faults : w_faults w = [];
  hl_io_faults : w_io_faults w = [];
  hl_closed : w_closed w = false;
  hl_store : os_available (w_store w);
}.

Lemma run_read_healthy {E A} (l : SqlxError → E) (f : Z → Db Json → A) w :
  healthy w → ∃ w', run (query l (λ now db, Ok (f now db, db))) w = (Ok (f (w_now w) (w_db w)), w') ∧
    same w w' ∧ healthy w'.
Proof.
  intros [H1 H2 H3 H4]. cbn. unfold tx_map_err, stmt. rewrite H1. cbn.
  eexists. split; [done|]. by split.
Qed.

Lemma run_io_healthy {E} (e : E) w :
  healthy w → ∃ w', run (io e) w = (Ok tt, w') ∧ same w w' ∧ healthy w'.
Proof.
  intros [H1 H2 H3 H4]. cbn. rewrite H2. cbn. eexists. split; [done|]. by split.
Qed.

Lemma run_acquire_healthy {E} (e : E) w : healthy w → run (acquire e) w = (Ok tt, w).
Proof. intros [H1 H2 H3 H4]. cbn. by rewrite H3. Qed.

Lemma run_get_healthy {E} (l : StorageError → E) r id b w :
  healthy w → stored (w_store w) r id b →
  ∃ w', run (store_call l (get_verified r id)) w = (Ok b, w') ∧ healthy w' ∧
    w_db w' = w_db w ∧ same_chunks (w_store w) (w_store w').
Proof.
  intros [H1 H2 H3 H4] Hb. cbn. unfold tx_map_err, tx_store.
  destruct (get_verified_available r id b (w_store w) H4 Hb) as [Hq Ha].
  destruct (get_verified r id (w_store w)) as [q st'] eqn:Hg. cbn in Hq, Ha. subst q.
  apply get_verified_spec in Hg as [Hsame _]. eexists. split; [done|]. split; [by split|].
  by split.
Qed.

Lemma run_reassemble_healthy r l datas h f w :
  healthy w → contents (w_store w) r l datas →
  ∃ w', run (reassemble r l h f) w = (Ok (h ++ concat datas, f ++ concat datas), w') ∧
    healthy w' ∧ w_db w' = w_db w.
Proof.
  intros Hh Hc. revert h f w Hh Hc.
  induction l as [|d l IH] in datas |- *; intros h f w Hh Hc; inversion Hc as [|? b ? bs [Hb Hl] Hc'];
    subst; cbn [reassemble concat]; [exists w; by rewrite !app_nil_r|].
  destruct (run_get_healthy ApiError_storage r (cd_id d) b w Hh Hb) as (w1 & Hr1 & Hh1 & Hd1 & Hs1).
  rewrite run_bind, Hr1, Hl, N.eqb_refl. cbn [negb].
  destruct (run_io_healthy ApiError_io w1 Hh1) as (w2 & Hr2 & (Hd2 & Hs2 & _) & Hh2).
  rewrite run_bind, Hr2. unfold Sha256_update.
  destruct (IH bs (h ++ b) (f ++ b) w2 Hh2) as (w3 & Hr3 & Hh3 & Hd3).
  { rewrite Hs2. eapply contents_same; [|exact Hc']. intros r' id. by rewrite Hs1. }
  exists w3. rewrite Hr3, <- !app_assoc. split_and!; [done|done|congruence].
Qed.

(** C16: delivery: for an authenticated request in a healthy system, a
    published object whose chunks are stored as [finalize_cdc] verified them is
    downloaded completely: the answer is its size and the concatenation of its
    chunks, the bytes that were uploaded. *)
Theorem download_basic_delivers state owner repository oid headers w w1 identity r o m datas :
  run (authenticate state headers owner repository Read) w = (Ok identity, w1) →
  healthy w1 → parse_oid oid = Ok o →
  select_repository_id owner repository (w_db w) = Some r →
  published (w_db w) r (ObjectOid_as_bytes o) m →
  contents (w_store w) r (om_chunks m) datas →
  ObjectOid_from_bytes (sha256_digest (concat datas)) = o →
  ∃ w', run (download_basic state owner repository oid headers) w =
        (Ok (om_object_size m, concat datas), w').
Proof.
  intros Ha Hh Ho Hr ((row & Hrow & Hj & _) & _ & Hv & _) Hc Hsha.
  pose proof (run_authenticate _ _ _ _ _ _ _ _ Ha) as (Hd1 & Hs1 & _).
  unfold download_basic. rewrite run_bind, Ha, Ho, run_bind. cbn [run lift].
  unfold repository_id. rewrite run_bind, run_bind.
  destruct (run_read_healthy ApiError_database (λ _, select_repository_id owner repository) w1 Hh)
    as (w2 & -> & (Hd2 & Hs2 & _) & Hh2).
  rewrite Hd1, Hr. cbn [run lift ok_or]. rewrite run_bind, run_acquire_healthy by done.
  unfold load_manifest. rewrite run_bind, run_bind.
  destruct (run_read_healthy ApiError_database (λ _ db, objects db !! (r, ObjectOid_as_bytes o)) w2 Hh2)
    as (w3 & -> & (Hd3 & Hs3 & _) & Hh3).
  rewrite Hd2, Hd1, Hrow, run_bind. cbn [run lift ok_or]. rewrite Hj. cbn [map_err].
  rewrite run_bind, Hv. cbn [run lift map_err]. rewrite run_bind.
  destruct (run_io_healthy ApiError_io w3 Hh3) as (w4 & -> & (Hd4 & Hs4 & _) & Hh4). rewrite run_bind.
  destruct (run_io_healthy ApiError_io w4 Hh4) as (w5 & -> & (Hd5 & Hs5 & _) & Hh5). rewrite run_bind.
  destruct (run_reassemble_healthy r (om_chunks m) datas Sha256_new [] w5 Hh5)
    as (w6 & -> & Hh6 & Hd6); [by rewrite Hs5, Hs4, Hs3, Hs2, Hs1|].
  cbn [app]. rewrite bool_decide_eq_true_2 by (by rewrite <- Hsha). cbn [negb]. rewrite run_bind.
  destruct (run_io_healthy ApiError_io w6 Hh6) as (w7 & -> & _ & Hh7). cbn. by eexists.
Qed.

End Specs.
