(* ===== verification/Delivery.v ===== *)
(** * Delivery: what is uploaded is what is downloaded

    The basic upload stores and publishes exactly the bytes of the request
    body; whatever else runs, a download only ever returns bytes whose digest
    is the one asked for. *)
From S2P Require Import Prelude Digest Manifest Stream Protocol Storage Database Effects Api Sessions Uploads UploadSpecs.

Section Delivery.
  Context {St Json : Type} {object_store : ObjectStore St} {store_laws : ObjectStoreLaws St}
          {json : ManifestJson Json} {json_laws : ManifestJsonLaws Json}
          {pg : PgText} {hex : HexCodec} {hex_laws : HexLaws} {hashes : Hashes}
          {uuid_text : UuidText} {uuid_laws : UuidTextLaws} {fastcdc : FastCdc}
          {cdc_laws : FastCdcLaws} {url_lib : UrlLib} {jwt : JwtLib} {forgejo : ForgejoApi}.
  Implicit Types (w : World St Json).

(** ** The steps of the basic upload *)

Lemma run_io {E} (e : E) w x w' : run (io (St:=St) e) w = (Ok x, w') → same w w'.
Proof. apply run_same. by apply (io_safe same _ same_stable). Qed.

Lemma run_acquire {E} (e : E) w x w' : run (acquire (St:=St) e) w = (Ok x, w') → same w w'.
Proof. apply run_same. by apply (acquire_safe same _ same_stable). Qed.

Lemma run_count f w x w' : run (count (St:=St) (E:=ApiError) f) w = (Ok x, w') → same w w'.
Proof. cbn. by intros [= <- <-]. Qed.

Lemma run_reopen_reader content w rd w' :
  run (reopen_reader (St:=St) content) w = (Ok rd, w') → same w w' ∧ ∃ e, rd = mkReader content e.
Proof. cbn. intros [= <- <-]. split; [done|]. by eexists. Qed.

(** The whole body is copied unless the limit cuts it. *)
Lemma run_copy_limited limit body copied file w n f w' :
  run (copy_limited (St:=St) limit body copied file) w = (Ok (n, f), w') →
  copied = lenN file → n < copied + limit →
  same w w' ∧ n = lenN f ∧ ∃ frames, body = Ok <$> frames ∧ f = file ++ concat frames.
Proof.
  revert limit copied file w.
  induction body as [|[b|e] body IH]; intros limit copied file w; cbn [copy_limited].
  - intros [= <- <- <-] Hc _. split_and!; [done|done|]. exists []. by rewrite app_nil_r.
  - destruct (N.eqb_spec limit 0) as [->|Hl]; [intros [= <- <- <-]; lia|].
    intros (x & w1 & Hio & Hrun)%run_bind_ok Hc Hn. apply run_io in Hio.
    pose proof (lenN_take_N limit b) as Hlen.
    assert (lenN (take_N limit b) = lenN b ∨ lenN (take_N limit b) = limit) as [Hb|Hb] by lia.
    + assert (take_N limit b = b) as Htake by (apply take_N_all; lia). rewrite Htake in Hrun.
      apply IH in Hrun as (Hs & -> & frames & -> & ->); [|by rewrite lenN_app, Hc|lia].
      split_and!; [by etrans|done|]. exists (b :: frames). by rewrite <- app_assoc.
    + rewrite Hb, N.sub_diag in Hrun. exfalso.
      destruct body as [|fr body]; cbn in Hrun; injection Hrun as <- _ _; lia.
  - destruct (N.eqb_spec limit 0) as [->|Hl]; [intros [= <- <- <-]; lia|done].
Qed.

(** The tables that uploading chunks leaves alone. *)
Definition same_published (db db' : Db Json) : Prop :=
  objects db' = objects db ∧ object_chunks db' = object_chunks db ∧
  upload_sessions db' = upload_sessions db.

Lemma run_register_and_store_chunk r id d b w x w' :
  db_ok (w_db w) → run (register_and_store_chunk r id d b) w = (Ok x, w') →
  db_ok (w_db w') ∧ same_published (w_db w) (w_db w') ∧
  keeps_chunks (w_store w) (w_store w') ∧ is_Some (chunk_bytes (w_store w') r (cd_id d)).
Proof.
  intros Hok (? & w1 & Htx & Hput)%run_bind_ok.
  eapply run_transaction in Htx; [|by apply register_session_chunk_triple].
  destruct Htx as (Hst & _ & Hdb & (t & u & Heq) & _).
  apply run_store_call_ok in Hput as (Hput & Hd & _). apply put_verified_spec in Hput as (Hne & He & Hs).
  rewrite Hd, <- Hst. split_and!; [done|by rewrite Heq; split_and!| |by apply (Hs ltac:(by destruct x))].
  intros r' id' b' Hb. destruct (decide ((r', id') = (r, cd_id d))) as [[= -> ->]|Hn]; [|by rewrite Hne].
  destruct He as [He|[He _]]; congruence.
Qed.

Lemma run_store_stream r id items stream w x w' :
  db_ok (w_db w) → run (store_stream r id items stream) w = (Ok x, w') →
  db_ok (w_db w') ∧ same_published (w_db w) (w_db w') ∧ keeps_chunks (w_store w) (w_store w') ∧
  ∃ chunks s, drain_items items stream = Ok (chunks, s) ∧
    available (w_store w') r (map ch_descriptor chunks).
Proof.
  revert stream w. induction items as [|item items IH]; intros stream w Hok; cbn [store_stream drain_items].
  { intros [= <- <-]. split_and!; [done|by split_and!|by intros ???|]. exists [], stream. split; [done|].
    intros d Hd. by apply elem_of_nil in Hd. }
  destruct (ChunkStream_accept (set_inner stream items) item) as [[c s]|e]; [|done].
  intros (? & w1 & Hreg & Hrun)%run_bind_ok.
  apply run_register_and_store_chunk in Hreg as (Hok1 & (Ho1 & Hc1 & Hs1) & Hk1 & [b Hb]); [|done].
  apply IH in Hrun as (Hok2 & (Ho2 & Hc2 & Hs2) & Hk2 & chunks & s' & Hd & Hav); [|done].
  split_and!; [done|split_and!; congruence|intros r' id' b' H; by apply Hk2, Hk1|].
  exists (c :: chunks), s'. cbn. rewrite Hd. split; [done|].
  intros d [->|Hin]%elem_of_cons; [exists b; by apply Hk2|by apply Hav].
Qed.

Lemma run_ensure_upload_session r m w id w' :
  db_ok (w_db w) → run (ensure_upload_session r m) w = (Ok id, w') →
  w_store w' = w_store w ∧ opened (w_now w) r m (w_db w) id (w_db w').
Proof.
  intros Hok ([[i t] m'] & w1 & Htx & Hrun)%run_bind_ok. injection Hrun as <- <-.
  eapply run_transaction in Htx; [|apply open_session_triple; [|done]].
  - by destruct Htx as (H1 & _ & _ & H2).
  - intros v Hv%map_err_ok. by apply manifest_value_roundtrip.
Qed.

(** Publishing through an open session leaves the object in the table. *)
Lemma run_publish_open r id m w b w' row :
  db_ok (w_db w) → upload_sessions (w_db w) !! id = Some row → us_state row = Open →
  run (publish_manifest r id m) w = (Ok b, w') →
  w_store w' = w_store w ∧ db_ok (w_db w') ∧
  match objects (w_db w) !! (r, ObjectOid_as_bytes (om_object_oid m)) with
  | None => published (w_db w') r (ObjectOid_as_bytes (om_object_oid m)) m
  | Some _ => objects (w_db w') = objects (w_db w)
  end.
Proof.
  intros Hok Hid Hopen Hrun. apply run_publish_manifest in Hrun as [Hst Hout]; [|done].
  split; [done|]. destruct Hout as [Hdb Hfin _ _ _ Hres]. split; [done|].
  destruct b; [by destruct Hres as [-> Hp]|]. destruct Hres as (Ho & _ & [Heq|[row' ->]]); [|done].
  rewrite Heq, Hid in Hfin. cbn in Hfin. congruence.
Qed.

(** ** The basic upload *)

Lemma finish_describes file e m :
  lenN file ≤ MAX_OBJECT_SIZE →
  ChunkStream_finish (ChunkStream_new (mkReader file e) ChunkingProfile_beta_v1) = Ok m →
  e = None ∧ om_object_oid m = ObjectOid_from_bytes (sha256_digest file).
Proof.
  intros Hlen Hm. pose proof Hm as Hm'. unfold ChunkStream_finish in Hm.
  apply result_bind_ok in Hm as (p & Hp & [= <-]). apply drain_no_error in Hp as He.
  cbn in He. subst e. split; [done|].
  destruct (drain_new file) as (cs & s & Hd & _ & _ & Hman); [unfold MAX_OBJECT_SIZE, U64_MAX in *; lia|].
  unfold file_reader in Hd. rewrite Hp in Hd. injection Hd as ->. cbn [snd]. by rewrite Hman.
Qed.

(** The second half of the handler, after the body was staged and its manifest
    computed. *)
Lemma run_store_and_publish r m file w status w' :
  db_ok (w_db w) → lenN file ≤ MAX_OBJECT_SIZE →
  ChunkStream_finish (ChunkStream_new (file_reader file) ChunkingProfile_beta_v1) = Ok m →
  run (let! upload_id := ensure_upload_session r m in
       let! _ := io ApiError_io in
       let! source := reopen_reader file in
       let stream := ChunkStream_new source ChunkingProfile_beta_v1 in
       let! _ := store_stream r upload_id (cs_inner stream) stream in
       let! published := publish_manifest r upload_id m in
       let! _ := count_published m published in
       let! _ := count (add_chunks_received (om_object_size m)) in
       mret NO_CONTENT) w = (Ok status, w') →
  status = NO_CONTENT ∧ db_ok (w_db w') ∧ keeps_chunks (w_store w) (w_store w') ∧
  available (w_store w') r (om_chunks m) ∧
  match objects (w_db w) !! (r, ObjectOid_as_bytes (om_object_oid m)) with
  | None => published (w_db w') r (ObjectOid_as_bytes (om_object_oid m)) m
  | Some _ => objects (w_db w') = objects (w_db w)
  end.
Proof.
  intros Hok Hmax Hm Hrun.
  apply run_bind_ok in Hrun as (id & w1 & Hsess & Hrun).
  apply run_ensure_upload_session in Hsess as (Hst1 & Hok1 & row & Heq & Hid & _ & _ & Hopen & _);
    [|done].
  apply run_bind_ok in Hrun as (? & w2 & H2%run_io & Hrun).
  apply run_bind_ok in Hrun as (? & w3 & [H3 [e ->]]%run_reopen_reader & Hrun).
  assert (same w1 w3) as (Hdb3 & Hst3 & _) by (by etrans).
  apply run_bind_ok in Hrun as (? & w4 & Hstore & Hrun).
  apply run_store_stream in Hstore as (Hok4 & (Ho4 & _ & Hs4) & Hk & chunks & s & Hd & Hav);
    [|by rewrite Hdb3].
  assert (om_chunks m = map ch_descriptor chunks) as ->
    by (eapply second_pass; [exact Hmax|exact Hm|exact Hd]).
  apply run_bind_ok in Hrun as (b & w5 & Hpub & Hrun).
  eapply run_publish_open in Hpub as (Hst5 & Hok5 & Hobj); [|done|by rewrite Hs4, Hdb3|done].
  apply run_bind_ok in Hrun as (? & w6 & (Hdb6 & Hst6 & _)%run_count_published & Hrun).
  apply run_bind_ok in Hrun as (? & w7 & (Hdb7 & Hst7 & _)%run_count & Hrun).
  injection Hrun as <- <-. rewrite Hdb7, Hdb6, Hst7, Hst6, Hst5.
  assert (objects (w_db w4) = objects (w_db w)) as Hobjs by (by rewrite Ho4, Hdb3, Heq).
  rewrite Hobjs in Hobj.
  split_and!; [done|done|intros r' id' b'; rewrite <- Hst1, <- Hst3; apply Hk|done|done].
Qed.

Lemma run_upload_basic state owner repository oid headers body w status w' :
  db_ok (w_db w) →
  run (upload_basic state owner repository oid headers body) w = (Ok status, w') →
  status = NO_CONTENT ∧ db_ok (w_db w') ∧ keeps_chunks (w_store w) (w_store w') ∧
  ∃ frames content o r m, body = Ok <$> frames ∧ content = concat frames ∧
    o = ObjectOid_from_bytes (sha256_digest content) ∧
    lenN content ≤ MAX_OBJECT_SIZE ∧ parse_oid oid = Ok o ∧
    select_repository_id owner repository (w_db w) = Some r ∧
    ChunkStream_finish (ChunkStream_new (file_reader content) ChunkingProfile_beta_v1) = Ok m ∧
    available (w_store w') r (om_chunks m) ∧
    match objects (w_db w) !! (r, ObjectOid_as_bytes o) with
    | None => published (w_db w') r (ObjectOid_as_bytes o) m
    | Some _ => objects (w_db w') = objects (w_db w)
    end.
Proof.
  intros Hok Hrun. unfold upload_basic in Hrun.
  apply run_bind_ok in Hrun as (i & w1 & H1%run_authenticate & Hrun).
  apply run_bind_ok in Hrun as (o & ? & [Ho ->]%run_lift_ok & Hrun).
  apply run_bind_ok in Hrun as (r & w2 & [Hr H2]%run_repository_id & Hrun).
  destruct (match _ with Some _ => _ | None => _ end); [done|].
  apply run_bind_ok in Hrun as (? & w3 & H3%run_acquire & Hrun).
  apply run_bind_ok in Hrun as (? & w4 & H4%run_io & Hrun).
  apply run_bind_ok in Hrun as (? & w5 & H5%run_io & Hrun).
  apply run_bind_ok in Hrun as (? & w6 & H6%run_io & Hrun).
  apply run_bind_ok in Hrun as ([copied file] & w7 & H7 & Hrun).
  destruct (N.ltb_spec MAX_OBJECT_SIZE copied) as [|Hmax]; [done|].
  apply run_copy_limited in H7 as (H7 & -> & frames & -> & Hfile); [|done|lia].
  apply run_bind_ok in Hrun as (? & w8 & H8%run_io & Hrun).
  apply run_bind_ok in Hrun as (? & w9 & H9%run_io & Hrun).
  apply run_bind_ok in Hrun as (? & w10 & [H10 [e ->]]%run_reopen_reader & Hrun).
  apply run_bind_ok in Hrun as (m & ? & [Hm%map_err_ok ->]%run_lift_ok & Hrun).
  destruct (finish_describes _ _ _ Hmax Hm) as [-> Hsha].
  case_bool_decide as Hoid; [|done]. cbn [negb] in Hrun. cbn [app] in Hfile. subst o.
  assert (same w w10) as (Hdb & Hst & _) by (do 9 (etrans; [eassumption|]); done).
  destruct H1 as (Hdb1 & _). rewrite Hdb1 in Hr.
  eapply run_store_and_publish in Hrun as (-> & Hok' & Hk & Hav & Hobj);
    [|by rewrite Hdb|exact Hmax|exact Hm].
  rewrite Hdb, Hst in *. split_and!; [done|done|done|].
  by exists frames, file, (om_object_oid m), r, m.
Qed.

(** C12: a basic upload that is accepted received the complete body, at most
    100 GiB, whose SHA-256 is the requested OID; all chunks of its manifest are
    in the store, and the object is published with that manifest unless the
    OID was published already, in which case it is left as it was. *)
Theorem upload_basic_spec state owner repository oid headers body w status w' :
  db_ok (w_db w) →
  run (upload_basic state owner repository oid headers body) w = (Ok status, w') →
  status = NO_CONTENT ∧ db_ok (w_db w') ∧ keeps_chunks (w_store w) (w_store w') ∧
  ∃ frames content o r m, body = Ok <$> frames ∧ content = concat frames ∧
    o = ObjectOid_from_bytes (sha256_digest content) ∧
    lenN content ≤ MAX_OBJECT_SIZE ∧ parse_oid oid = Ok o ∧
    select_repository_id owner repository (w_db w) = Some r ∧
    ChunkStream_finish (ChunkStream_new (file_reader content) ChunkingProfile_beta_v1) = Ok m ∧
    available (w_store w') r (om_chunks m) ∧
    match objects (w_db w) !! (r, ObjectOid_as_bytes o) with
    | None => published (w_db w') r (ObjectOid_as_bytes o) m
    | Some _ => objects (w_db w') = objects (w_db w)
    end.
Proof. apply run_upload_basic. Qed.

(** ** Downloads *)

(** C13: a download is never corrupt: under any interference, with collection
    running and any failures, a whole-object download that succeeds returns
    bytes whose SHA-256 is the requested OID and announces their length. *)
Theorem download_basic_authentic state owner repository oid headers w0 :
  safe anything (service_ok true)
    (λ p _, parse_oid oid = Ok (ObjectOid_from_bytes (sha256_digest p.2)) ∧ p.1 = lenN p.2)
    (download_basic state owner repository oid headers) w0.
Proof. by apply download_basic_safe. Qed.

(** Under any interference, a chunk download that succeeds returns bytes
    with the length and the BLAKE3 identity of that position of a valid
    manifest for the requested OID. *)
Theorem download_cdc_chunk_authentic state owner repository oid index headers w0 :
  safe anything (service_ok true)
    (λ b _, ∃ o, parse_oid oid = Ok o ∧ delivers o index b)
    (download_cdc_chunk state owner repository oid index headers) w0.
Proof. by apply download_cdc_chunk_safe. Qed.

(** Round trip: bytes accepted by the basic upload and bytes delivered for
    the same OID at any later time, in any world that satisfies the service's
    invariant, have the same SHA-256. *)
Theorem upload_download_roundtrip state owner repository oid headers body w status w'
    state' owner' repository' headers' v size data v' :
  db_ok (w_db w) → service_ok true v →
  run (upload_basic state owner repository oid headers body) w = (Ok status, w') →
  run (download_basic state' owner' repository' oid headers') v = (Ok (size, data), v') →
  ∃ frames, body = Ok <$> frames ∧ sha256_digest data = sha256_digest (concat frames).
Proof.
  intros Hok Hv Hup Hdown.
  apply run_upload_basic in Hup as (_ & _ & _ & frames & content & o & r & m & -> & -> & -> & _ & Ho & _);
    [|done].
  eapply (safe_run anything (service_ok true)) in Hdown as (_ & _ & Hq);
    [|by apply download_basic_safe|done].
  destruct (Hq _ eq_refl) as [Ho' _]. rewrite Ho in Ho'. injection Ho' as Heq.
  by exists frames.
Qed.

End Delivery.
