(* ===== verification/Completion.v ===== *)
(** * Completion: an upload that nothing hinders succeeds

    Total correctness of the basic upload: when no statement, file operation or
    store call fails, a request with write access whose body hashes to the OID is
    accepted, provided the tables agree with it.  What may disagree is stated:
    an open upload of the same OID with another manifest, and recorded sizes
    of its chunks. *)
From S2P Require Import Prelude Digest Manifest Stream Protocol Storage Database Effects Api Sessions Uploads UploadSpecs Delivery.
#[local] Open Scope N_scope.

Section Total.
  Context {St Json : Type}.
  Implicit Types (w : World St Json).

(** A world that differs in the tables and the identifiers drawn only. *)
Record calm w w' : Prop := {
  cm_store : w_store w' = w_store w;
  cm_now : w_now w' = w_now w;
  cm_uuids : w_uuids w' = w_uuids w;
  cm_faults : w_faults w' = w_faults w;
  cm_io_faults : w_io_faults w' = w_io_faults w;
  cm_closed : w_closed w' = w_closed w;
}.

#[export] Instance calm_preorder : PreOrder calm.
Proof. split; [by intros w; split|]. intros a b c [] []. split; congruence. Qed.

(** A transaction body that succeeds from [P], when no statement fails. *)
Definition total {E A} (P : World St Json → Prop) (m : TX St Json E A)
    (Q : A → World St Json → Prop) : Prop :=
  ∀ w, w_faults w = [] → P w → ∃ a w', m w = (Ok a, w') ∧ calm w w' ∧ Q a w'.

Lemma total_ret {E A} (P : World St Json → Prop) (a : A) Q :
  (∀ w, P w → Q a w) → total (E:=E) P (mret a) Q.
Proof. intros HQ w Hf HP. exists a, w. split_and!; [done|done|by apply HQ]. Qed.

Lemma total_bind {E A B} P R Q (m : TX St Json E A) (f : A → TX St Json E B) :
  total P m R → (∀ a, total (R a) (f a) Q) → total P (let! a := m in f a) Q.
Proof.
  intros Hm Hf w Hw HP. destruct (Hm w Hw HP) as (a & w1 & H1 & Hc1 & HR).
  assert (w_faults w1 = []) as Hw1 by (by rewrite (cm_faults _ _ Hc1)).
  destruct (Hf a w1 Hw1 HR) as (b & w2 & H2 & Hc2 & HQ).
  exists b, w2. unfold mbind, tx_bind. rewrite H1, H2. split_and!; [done|by etrans|done].
Qed.

Lemma total_weaken {E A} P P' (m : TX St Json E A) (Q Q' : A → World St Json → Prop) :
  (∀ w, P' w → P w) → (∀ a w, Q a w → Q' a w) → total P m Q → total P' m Q'.
Proof.
  intros HP HQ Hm w Hf Hw. destruct (Hm w Hf (HP w Hw)) as (a & w' & ? & ? & ?).
  exists a, w'. eauto.
Qed.

Lemma total_given {E A B} P Q (r : result E A) a (f : A → TX St Json E B) :
  r = Ok a → total P (f a) Q → total P (let! a := tx_result r in f a) Q.
Proof. by intros ->. Qed.

Lemma total_stmt {E A} (P : World St Json → Prop) (l : SqlxError → E)
    (q : Z → Db Json → result SqlxError (A * Db Json)) (Q : A → World St Json → Prop) :
  (∀ w, P w → ∃ a db', q (w_now w) (w_db w) = Ok (a, db') ∧
     ∀ w', calm w w' → w_db w' = db' → w_drawn w' = w_drawn w → Q a w') →
  total P (tx_map_err l (stmt q)) Q.
Proof.
  intros HQ w Hf HP. destruct (HQ w HP) as (a & db' & Hq & Hw).
  unfold tx_map_err, stmt. rewrite Hf. cbn. rewrite Hq. exists a. eexists. split; [done|].
  assert (calm w (set_db db' (set_faults [] w))) by (by split).
  split; [done|]. by apply Hw.
Qed.

Lemma total_for_each {E A} (I : list A → World St Json → Prop) (l : list A) (f : A → TX St Json E unit) :
  (∀ x rest, total (I (x :: rest)) (f x) (λ _, I rest)) →
  total (I l) (for_each l f) (λ _, I []).
Proof.
  intros Hf. induction l as [|x l IH]; cbn [for_each]; [by apply total_ret|].
  eapply total_bind; [apply Hf|intros []; exact IH].
Qed.

(** A program that succeeds. *)
Definition succeeds {E A} (p : prog St Json E A) w (Q : A → World St Json → Prop) : Prop :=
  ∃ a w', run p w = (Ok a, w') ∧ Q a w'.

Lemma succeeds_bind {E A B} (m : prog St Json E A) (f : A → prog St Json E B) w R Q :
  succeeds m w R → (∀ a w', R a w' → succeeds (f a) w' Q) → succeeds (let! a := m in f a) w Q.
Proof.
  intros (a & w1 & H1 & HR) Hf. destruct (Hf a w1 HR) as (b & w2 & H2 & HQ).
  exists b, w2. by rewrite run_bind, H1.
Qed.

Lemma succeeds_run {E A} (p : prog St Json E A) w a w' :
  run p w = (Ok a, w') → succeeds p w (λ a' w2, a' = a ∧ w2 = w').
Proof. intros H. by exists a, w'. Qed.

Lemma succeeds_lift {E A} (r : result E A) a w (Q : A → World St Json → Prop) :
  r = Ok a → Q a w → succeeds (lift r) w Q.
Proof. intros -> HQ. by exists a, w. Qed.

Lemma succeeds_transaction {E A} (l : SqlxError → E) (m : TX St Json E A) w P Q :
  total P m Q → w_faults w = [] → (∀ w', calm w w' → w_db w' = w_db w → w_drawn w' = w_drawn w → P w') →
  (∀ a w1 w2, Q a w1 → w_db w2 = w_db w1 → Q a w2) →
  succeeds (transaction l m) w (λ a w', Q a w' ∧ calm w w').
Proof.
  intros Hm Hf HP HQ.
  assert (Hplain : ∀ P, total P (tx_map_err l (stmt (λ _ db, Ok (tt, db))))
    (λ _ w2, ∃ w1, P w1 ∧ calm w1 w2 ∧ w_db w2 = w_db w1 ∧ w_drawn w2 = w_drawn w1)).
  { intros P0. apply total_stmt. intros w0 H0. exists tt, (w_db w0). split; [done|]. eauto. }
  assert (Htx : total (λ w0, w0 = w) (let! _ := tx_map_err l (stmt (λ _ db, Ok (tt, db))) in
      let! a := m in let! _ := tx_map_err l (stmt (λ _ db, Ok (tt, db))) in mret a) Q).
  { eapply total_bind; [apply Hplain|intros []]. eapply total_bind.
    - intros w1 Hf1 (w0 & -> & Hc & Hd & Hu). apply Hm; [done|by apply HP].
    - intros a. eapply total_bind; [apply Hplain|intros []].
      apply total_ret. intros w2 (w1 & Hq & _ & Hd & _). by eapply HQ. }
  destruct (Htx w Hf eq_refl) as (a & w' & Hrun & Hc & Hq).
  exists a, w'. split; [|done]. cbn [run transaction atomic]. unfold atomically. cbv zeta.
  by rewrite Hrun.
Qed.

End Total.

Section Tables.
  Context {St Json : Type} {json : ManifestJson Json} {pg : PgText}.
  Implicit Types (w : World St Json) (db : Db Json).

(** ** The tables agree with an upload

    [l] are the chunks of the object, each of a length that its identity
    determines and the columns can hold. *)
Section Chunks.
  Context (r : Uuid) (l : list ChunkDescriptor)
          (lengths_agree : ∀ d d', d ∈ l → d' ∈ l → cd_id d = cd_id d' → cd_length d = cd_length d')
          (lengths_fit : ∀ d, d ∈ l → 0 < cd_length d ≤ I32_MAX ∧ cd_offset d ≤ I64_MAX).
  Local Abbreviation raw d := (ChunkId_as_bytes (cd_id d)).

(** The rows of the object's chunks have their lengths, and their counters have
    room for [n] more references. *)
Record agrees (n : nat) (id : Uuid) db : Prop := {
  ag_repository : repository_exists r db = true;
  ag_session : us_repository_id <$> upload_sessions db !! id = Some r;
  ag_rows d row : d ∈ l → chunks db !! (r, raw d) = Some row →
    ck_size row = Z.of_N (cd_length d) ∧ (0 <= ck_reference_count row)%Z ∧
    fits_bigint (ck_reference_count row + Z.of_nat n) = true;
}.

Lemma octets32_id d : octets32 (raw d) = true.
Proof. by apply bool_decide_eq_true_2, ChunkId_as_bytes_length. Qed.

(** A new row for one of the chunks. *)
Lemma agrees_insert n id d db :
  d ∈ l → (Z.of_nat n <= 9223372036854775807)%Z → agrees n id db →
  agrees n id (with_chunks (<[(r, raw d) := mkChunkRow (Z.of_N (cd_length d)) 0]> (chunks db)) db).
Proof.
  intros Hd Hn [H1 H2 H3]. split; [done|done|]. intros d' row Hd'. cbn.
  destruct (decide (raw d' = raw d)) as [He|Hne].
  - rewrite He, lookup_insert_eq. intros [= <-]. cbn. apply ChunkId_as_bytes_inj in He.
    rewrite (lengths_agree d' d) by done. split_and!; [done|done|]. unfold fits_bigint.
    apply andb_true_intro. split; apply Z.leb_le; lia.
  - rewrite lookup_insert_ne by congruence. by apply H3.
Qed.

Lemma register_total n id d :
  d ∈ l → (Z.of_nat n <= 9223372036854775807)%Z →
  total (St:=St) (λ w, agrees n id (w_db w)) (register_session_chunk r id d)
    (λ _ w, agrees n id (w_db w)).
Proof.
  intros Hd Hn. unfold register_session_chunk.
  eapply (total_bind _ (λ o w, is_Some o ∧ agrees n id (w_db w) ∧ is_Some (chunks (w_db w) !! (r, raw d)))).
  - apply total_stmt. intros w Hw. pose proof Hw as [H1 H2 H3]. unfold register_chunk.
    destruct (chunks (w_db w) !! (r, raw d)) as [row|] eqn:Hrow.
    + destruct (H3 _ _ Hd Hrow) as (-> & _). rewrite Z.eqb_refl. eexists _, _. split; [done|].
      intros w' _ -> _. split_and!; [done|done|by rewrite Hrow].
    + destruct (lengths_fit d Hd) as [[Hl _] _].
      rewrite octets32_id, H1, (proj2 (Z.ltb_lt _ _)) by lia. cbn [require].
      eexists _, _. split; [done|]. intros w' _ -> _.
      split_and!; [done|by apply agrees_insert|cbn; by rewrite lookup_insert_eq].
  - intros [z|].
    2:{ intros w _ [[x Hx] _]. done. }
    apply total_stmt. intros w (_ & [H1 H2 H3] & [row Hrow]). unfold insert_session_chunk.
    destruct (upload_session_chunks (w_db w) !! (id, raw d)).
    + eexists _, _. split; [done|]. by intros w' _ -> _.
    + rewrite octets32_id, H2, Hrow, !bool_decide_eq_true_2 by done. cbn [require andb].
      eexists _, _. split; [done|]. intros w' _ -> _. by split.
Qed.

Lemma agrees_less n n' id db : (n' <= n)%nat → agrees n id db → agrees n' id db.
Proof.
  intros Hn [H1 H2 H3]. split; [done|done|]. intros d row Hd Hrow.
  destruct (H3 d row Hd Hrow) as (? & ? & Hf). split_and!; [done|done|].
  unfold fits_bigint in *. apply andb_true_iff in Hf as [?%Z.leb_le ?%Z.leb_le].
  apply andb_true_intro. split; apply Z.leb_le; lia.
Qed.

(** All chunks of the object have rows. *)
Definition present db : Prop := ∀ d, d ∈ l → is_Some (chunks db !! (r, raw d)).

(** *** Publication *)

Context (oid : bytes) (Hoid : octets32 oid = true).

(** The positions of an object that is not there are free. *)
Definition vacant db : Prop :=
  objects db !! (r, oid) = None → ∀ z, object_chunks db !! (r, oid, z) = None.

(** The [chunks] loop of [publish_manifest]. *)
Definition inserting n id (rest : list ChunkDescriptor) db : Prop :=
  agrees n id db ∧ vacant db ∧ (∀ d, d ∈ rest → d ∈ l) ∧
  ∀ d, d ∈ l → d ∈ rest ∨ is_Some (chunks db !! (r, raw d)).

Lemma insert_chunks_total n id :
  (Z.of_nat n <= 9223372036854775807)%Z →
  total (E:=ApiError) (St:=St) (λ w, inserting n id l (w_db w))
    (for_each l (λ d, sql (insert_chunk r (raw d) (Z.of_N (cd_length d)))))
    (λ _ w, inserting n id [] (w_db w)).
Proof.
  intros Hn. apply (total_for_each (λ rest w, inserting n id rest (w_db w))).
  intros d rest. apply total_stmt. intros w (Hag & Hvac & Hsub & Hall). pose proof Hag as [H1 _ _].
  assert (d ∈ l) as Hd by (apply Hsub; set_solver). unfold insert_chunk.
  destruct (chunks (w_db w) !! (r, raw d)) as [row|] eqn:Hrow.
  - eexists _, _. split; [done|]. intros w' _ -> _. split_and!; [done|done|set_solver|].
    intros d' Hd'. destruct (Hall d' Hd') as [[->|Hin]%elem_of_cons|]; [|by left|by right].
    right. by rewrite Hrow.
  - destruct (lengths_fit d Hd) as [[Hl _] _].
    rewrite octets32_id, H1, (proj2 (Z.ltb_lt _ _)) by lia. cbn [require].
    eexists _, _. split; [done|]. intros w' _ -> _.
    split_and!; [by apply agrees_insert|done|set_solver|]. intros d' Hd'. cbn.
    destruct (decide ((r, raw d) = (r, raw d'))) as [He|Hne]; [right; by rewrite He, lookup_insert_eq|].
    rewrite lookup_insert_ne by done.
    destruct (Hall d' Hd') as [[->|Hin]%elem_of_cons|]; [done|by left|by right].
Qed.

(** The [object_chunks] loop of [publish_manifest]: [rest] is to be written from
    position [i]. *)
Definition describing id (i : N) (rest : list ChunkDescriptor) db : Prop :=
  agrees (length rest) id db ∧ present db ∧ is_Some (objects db !! (r, oid)) ∧
  (∀ d, d ∈ rest → d ∈ l) ∧ i + lenN rest ≤ MAX_CHUNK_DESCRIPTORS ∧
  ∀ z, (Z.of_N i <= z)%Z → object_chunks db !! (r, oid, z) = None.

Lemma descriptor_total id i d rest :
  total (St:=St) (λ w, describing id i (d :: rest) (w_db w))
    (publish_descriptor r oid (i, d)) (λ _ w, describing id (i + 1) rest (w_db w)).
Proof.
  intros w Hf Hw. pose proof Hw as (Hag & Hpres & Hobj & Hsub & Hmax & Hfree).
  rewrite lenN_cons in Hmax. assert (d ∈ l) as Hd by (apply Hsub; set_solver).
  destruct (lengths_fit d Hd) as [[Hl1 Hl2] Ho]. revert w Hf Hw Hag Hpres Hobj Hfree.
  enough (total (St:=St) (λ w, describing id i (d :: rest) (w_db w))
    (publish_descriptor r oid (i, d)) (λ _ w, describing id (i + 1) rest (w_db w))) as H
    by (intros w Hf Hw _ _ _ _; by apply H).
  unfold publish_descriptor. eapply (total_given _ _ _ (Z.of_N i)).
  { unfold i32_try_from. rewrite (proj2 (N.leb_le _ _)); [done|]. unfold MAX_CHUNK_DESCRIPTORS, I32_MAX in *. lia. }
  eapply (total_given _ _ _ (Z.of_N (cd_offset d))).
  { unfold i64_try_from. by rewrite (proj2 (N.leb_le _ _)). }
  eapply (total_given _ _ _ (Z.of_N (cd_length d))).
  { unfold i32_try_from. by rewrite (proj2 (N.leb_le _ _)). }
  eapply (total_bind _ (λ _ w, agrees (S (length rest)) id (w_db w) ∧ present (w_db w) ∧
     is_Some (objects (w_db w) !! (r, oid)) ∧
     ∀ z, (Z.of_N (i + 1) <= z)%Z → object_chunks (w_db w) !! (r, oid, z) = None)).
  - apply total_stmt. intros w ([H1 H2 H3] & Hpres & Hobj & _ & _ & Hfree).
    unfold insert_object_chunk. cbn [oc_byte_offset oc_byte_length oc_chunk_id].
    rewrite (proj2 (Z.leb_le 0 (Z.of_N i))), (proj2 (Z.leb_le 0 (Z.of_N (cd_offset d)))),
      (proj2 (Z.ltb_lt 0 (Z.of_N (cd_length d)))), Hfree, !bool_decide_eq_true_2
      by first [done|lia|by apply Hpres].
    cbn [require andb]. eexists _, _. split; [done|]. intros w' _ -> _. split_and!; [by split|done|done|].
    intros z Hz. cbn. rewrite lookup_insert_ne; [apply Hfree; lia|]. intros [= ?]. lia.
  - intros []. apply total_stmt. intros w ([H1 H2 H3] & Hpres & Hobj & Hfree).
    destruct (Hpres d Hd) as [row Hrow]. destruct (H3 d row Hd Hrow) as (Hsize & Hpos & Hroom).
    unfold add_reference. rewrite Hrow. cbv zeta.
    assert (fits_bigint (ck_reference_count row + 1) = true) as Hfit.
    { unfold fits_bigint in *. apply andb_true_iff in Hroom as [?%Z.leb_le ?%Z.leb_le].
      apply andb_true_intro. split; apply Z.leb_le; lia. }
    rewrite Hfit, (proj2 (Z.leb_le 0 _)) by lia. cbn [require]. eexists _, _. split; [done|].
    intros w' _ -> _. split_and!.
    + split; [done|done|]. intros d' row' Hd'. cbn. destruct (decide (raw d' = raw d)) as [He|Hne].
      * rewrite He, lookup_insert_eq. intros [= <-]. cbn. rewrite <- He in Hrow.
        destruct (H3 d' row Hd' Hrow) as (-> & _ & _). split_and!; [done|lia|].
        by rewrite <- Z.add_assoc, Z.add_1_l, <- Nat2Z.inj_succ.
      * rewrite lookup_insert_ne by congruence. intros Hrow'.
        assert (agrees (S (length rest)) id (w_db w)) as Hag by by split.
        apply (agrees_less _ (length rest)) in Hag as [_ _ H]; [|lia]. by apply (H d').
    + intros d' Hd'. cbn. destruct (decide (raw d' = raw d)) as [->|Hne]; [by rewrite lookup_insert_eq|].
      rewrite lookup_insert_ne by congruence. by apply Hpres.
    + done.
    + set_solver.
    + lia.
    + done.
Qed.


Lemma descriptors_total id i rest :
  total (St:=St) (λ w, describing id i rest (w_db w))
    (for_each (enumerate_from i rest) (publish_descriptor r oid)) (λ _ _, True).
Proof.
  revert i. induction rest as [|d rest IH]; intros i; cbn [enumerate_from for_each].
  - by apply total_ret.
  - eapply total_bind; [apply descriptor_total|intros []; apply IH].
Qed.

Lemma write_object_total id m v :
  om_chunks m = l → ObjectOid_as_bytes (om_object_oid m) = oid → om_object_size m ≤ I64_MAX →
  lenN l ≤ MAX_CHUNK_DESCRIPTORS → manifest_to_value m = Ok v →
  total (St:=St) (λ w, inserting (length l) id [] (w_db w)) (write_object r m) (λ _ _, True).
Proof.
  intros Hl Hid Hsize Hmax Hv. unfold write_object. rewrite Hl, Hid, Hv.
  eapply (total_given _ _ _ (Z.of_N (om_object_size m))).
  { unfold i64_try_from. by rewrite (proj2 (N.leb_le _ _)). }
  eapply (total_given _ _ _ v); [done|].
  eapply (total_bind _ (λ n w, n = 1 → describing id 0 l (w_db w))).
  - apply total_stmt. intros w ([H1 H2 H3] & Hvac & _ & Hall). unfold insert_object.
    destruct (objects (w_db w) !! (r, oid)) eqn:Hobj; [by eexists _, _|].
    rewrite Hoid, H1, (proj2 (Z.leb_le _ _)) by lia. cbn [require]. eexists _, _. split; [done|].
    intros w' _ -> _ _. split_and!; [by split| |cbn; by rewrite lookup_insert_eq|done|lia|].
    + intros d Hd. destruct (Hall d Hd) as [Hn|]; [by apply elem_of_nil in Hn|done].
    + intros z _. by apply Hvac.
  - intros n. eapply (total_bind _ (λ _ _, True)); [|intros []; by apply total_ret].
    destruct (N.eqb_spec n 1) as [->|]; [|by apply total_ret].
    eapply total_weaken; [..|apply descriptors_total]; [|done]. cbn. auto.
Qed.

Lemma publish_total id m v :
  om_chunks m = l → ObjectOid_as_bytes (om_object_oid m) = oid → om_object_size m ≤ I64_MAX →
  lenN l ≤ MAX_CHUNK_DESCRIPTORS → manifest_to_value m = Ok v →
  total (St:=St) (λ w, inserting (length l) id l (w_db w) ∧ ∃ row,
      upload_sessions (w_db w) !! id = Some row ∧ us_object_oid row = oid ∧ us_state row = Open ∧
      (w_now w < us_expires_at row)%Z)
    (publish_tx r id m) (λ _ _, True).
Proof.
  intros Hl Hid Hsize Hmax Hv. unfold publish_tx. rewrite Hid.
  eapply (total_bind _ (λ o w, inserting (length l) id l (w_db w) ∧ ∃ row, o = Some row ∧ us_state row = Open)).
  - apply total_stmt. intros w (Hins & row & Hrow & Ho & Hopen & Hexp). eexists _, _. split; [done|].
    intros w' _ -> _. split; [done|]. exists row. split; [|done]. destruct Hins as ([_ H2 _] & _).
    rewrite Hrow in H2. injection H2 as Hr. unfold select_finalizable_session, session_matches.
    rewrite Hrow. cbv beta iota. rewrite Hr, Ho, !bool_decide_eq_true_2 by done. cbn [andb].
    by rewrite Hopen, (proj2 (Z.ltb_lt _ _)).
  - intros o. eapply (total_bind _ (λ s w, inserting (length l) id l (w_db w) ∧ us_state s = Open)).
    { intros w Hf (Hins & row & -> & Hopen). by exists row, w. }
    intros s w Hf [Hins Hopen]. rewrite Hopen. revert w Hf Hins.
    fold (total (St:=St) (λ w, inserting (length l) id l (w_db w)) 
      (let! _ := for_each (om_chunks m) (λ d, sql (insert_chunk r (raw d) (Z.of_N (cd_length d)))) in
       let! created := write_object r m in
       let! _ := sql (finalize_session id) in mret created) (λ _ _, True)).
    rewrite Hl. eapply total_bind; [|intros []; eapply total_bind].
    + apply insert_chunks_total. unfold MAX_CHUNK_DESCRIPTORS, lenN in *. lia.
    + by eapply write_object_total.
    + intros created. eapply (total_bind _ (λ _ _, True)); [|intros []; by apply total_ret].
      apply total_stmt. intros w _. by eexists _, _.
Qed.


End Chunks.

(** ** The session of an upload *)

(** The open sessions of the object that have not expired carry its manifest,
    and the next identifier is not in use. *)
Record clear (r : Uuid) (m : ObjectManifest) w : Prop := {
  cl_repository : repository_exists r (w_db w) = true;
  cl_sessions id row : upload_sessions (w_db w) !! id = Some row →
    us_repository_id row = r → us_object_oid row = ObjectOid_as_bytes (om_object_oid m) →
    us_state row = Open → (w_now w < us_expires_at row)%Z → manifest_from_value (us_manifest row) = Ok m;
  cl_id : upload_sessions (w_db w) !! w_uuids w (w_drawn w) = None;
}.

Lemma clear_kept r m w w' :
  w_db w' = w_db w → w_now w' = w_now w → w_uuids w' = w_uuids w → w_drawn w' = w_drawn w →
  clear r m w → clear r m w'.
Proof. intros Hd Hn Hu Hdr [H1 H2 H3]. split; rewrite ?Hd, ?Hn, ?Hu, ?Hdr; done. Qed.

Lemma octets32_oid (o : ObjectOid) : octets32 (ObjectOid_as_bytes o) = true.
Proof. by apply bool_decide_eq_true_2, ObjectOid_as_bytes_length. Qed.

Lemma total_new_v4 {E} (P : World St Json → Prop) Q :
  (∀ w, P w → Q (w_uuids w (w_drawn w)) (set_drawn (S (w_drawn w)) w)) →
  total (E:=E) P tx_new_v4 Q.
Proof. intros HQ w _ Hw. eexists _, _. split; [done|]. split; [by split|by apply HQ]. Qed.

Lemma open_session_total {laws : ManifestJsonLaws Json} r m v too_large :
  om_object_size m ≤ I64_MAX → manifest_to_value m = Ok v →
  total (clear r m) (open_session r m (Ok v) too_large) (λ _ _, True).
Proof.
  intros Hsize Hv. unfold open_session. set (oid := ObjectOid_as_bytes (om_object_oid m)).
  set (agreed w := repository_exists r (w_db w) = true ∧ ∀ id row,
    upload_sessions (w_db w) !! id = Some row → us_repository_id row = r →
    us_object_oid row = oid → us_state row = Open → manifest_from_value (us_manifest row) = Ok m).
  eapply (total_bind _ (λ _ w, agreed w ∧ upload_sessions (w_db w) !! w_uuids w (w_drawn w) = None)).
  { apply total_stmt. intros w [H1 H2 H3]. eexists _, _. split; [done|]. intros w' Hc Hdb Hdrawn.
    rewrite Hdb, (cm_uuids _ _ Hc), Hdrawn. cbn. rewrite lookup_fmap, H3. split; [|done]. unfold agreed.
    rewrite Hdb. split; [done|]. intros id row. cbn. rewrite lookup_fmap, fmap_Some.
    intros (row0 & Hrow & ->). unfold expire_row. destruct (_ && _ && _ && _) eqn:He; [done|].
    intros Hr Ho Hs. rewrite !bool_decide_eq_true_2 in He by done. cbn [andb] in He.
    apply Z.leb_gt in He. by eapply H2. }
  intros []. eapply (total_bind _ (λ id w, agreed w ∧ upload_sessions (w_db w) !! id = None)).
  { by apply total_new_v4. }
  intros id. eapply (total_given _ _ _ (Z.of_N (om_object_size m))).
  { unfold i64_try_from. by rewrite (proj2 (N.leb_le _ _)). }
  eapply (total_given _ _ _ v); [done|].
  eapply (total_bind _ (λ p _, manifest_from_value p.2 = Ok m)).
  - apply total_stmt. intros w ([H1 H2] & H3). unfold upsert_open_session.
    destruct (find_open r oid (w_db w)) as [[sid row]|] eqn:Hfind.
    + apply find_open_Some in Hfind as (Hrow & Hr & Ho & Hs). eexists _, _. split; [done|].
      intros w' _ _ _. exact (H2 sid row Hrow Hr Ho Hs).
    + unfold oid. rewrite octets32_oid, H1, (proj2 (Z.leb_le _ _)), bool_decide_eq_true_2 by first [done|lia].
      cbn [require]. eexists _, _. split; [done|]. intros w' _ _ _. by apply manifest_value_roundtrip.
  - intros [[sid t] j]. cbn. intros w Hf Hj. rewrite Hj. cbn [map_err]. unfold mbind, tx_bind, tx_result.
    rewrite bool_decide_eq_true_2 by done.
    by eexists _, w.
Qed.

End Tables.

(** What the columns must hold of a valid manifest. *)
Lemma manifest_fits m :
  ObjectManifest_validate m = Ok tt →
  om_object_size m ≤ I64_MAX ∧ lenN (om_chunks m) ≤ MAX_CHUNK_DESCRIPTORS ∧
  ∀ d, d ∈ om_chunks m → 0 < cd_length d ≤ I32_MAX ∧ cd_offset d ≤ I64_MAX.
Proof.
  intros [Hsize Hcount Hcov Htotal]%validate_iff. unfold MAX_OBJECT_SIZE in Hsize.
  split_and!; [unfold I64_MAX; lia|done|]. intros d [i Hi]%list_elem_of_lookup.
  destruct (covers_lookup _ _ _ _ _ Hcov Hi) as [Hpos Hle].
  pose proof (covers_prefix_le _ _ _ _ _ Hcov Hi) as Hoff.
  rewrite <- (take_drop i (om_chunks m)), described_app in Htotal.
  destruct (om_profile m). change (profile_maximum FastCdcV1) with 8388608 in Hle.
  unfold I32_MAX, I64_MAX. lia.
Qed.

(** ** Programs *)

Section Handler.
  Context {St Json : Type} {object_store : ObjectStore St} {store_laws : ObjectStoreLaws St}
          {json : ManifestJson Json} {json_laws : ManifestJsonLaws Json}
          {pg : PgText} {hex : HexCodec} {hex_laws : HexLaws} {hashes : Hashes}
          {uuid_text : UuidText} {uuid_laws : UuidTextLaws} {fastcdc : FastCdc}
          {cdc_laws : FastCdcLaws} {url_lib : UrlLib} {jwt : JwtLib} {forgejo : ForgejoApi}.
  Implicit Types (w : World St Json).

(** A healthy world with the tables, the store, the clock and the identifiers
    of [w]. *)
Record steady w w' : Prop := {
  st_healthy : healthy w';
  st_db : w_db w' = w_db w;
  st_store : w_store w' = w_store w;
  st_now : w_now w' = w_now w;
  st_uuids : w_uuids w' = w_uuids w;
  st_drawn : w_drawn w' = w_drawn w;
}.

Lemma steady_trans w1 w2 w3 : steady w1 w2 → steady w2 w3 → steady w1 w3.
Proof. intros [] []. split; congruence. Qed.

Lemma calm_healthy w w' : calm w w' → healthy w → healthy w'.
Proof. intros [] []. split; congruence. Qed.

(** A step that leaves the world steady. *)
Lemma steady_bind {E A B} (m : prog St Json E A) (f : A → prog St Json E B) w0 w (R : A → Prop) Q :
  steady w0 w → (healthy w → succeeds m w (λ a w', R a ∧ steady w w')) →
  (∀ a w', R a → steady w0 w' → succeeds (f a) w' Q) → succeeds (let! a := m in f a) w Q.
Proof.
  intros Hw Hm Hf. eapply succeeds_bind; [apply Hm, Hw|].
  intros a w' [Ha Hs]. apply Hf; [done|by eapply steady_trans].
Qed.

Lemma succeeds_io {E} (e : E) w :
  healthy w → succeeds (io (St:=St) e) w (λ a w', a = tt ∧ steady w w').
Proof.
  intros [H1 H2 H3 H4]. eexists _, _. cbn. rewrite H2. split; [done|]. split; [done|]. by repeat split.
Qed.

Lemma succeeds_acquire {E} (e : E) w :
  healthy w → succeeds (acquire (St:=St) e) w (λ a w', a = tt ∧ steady w w').
Proof.
  intros Hw. exists tt, w. split; [by apply run_acquire_healthy|]. split; [done|]. by split.
Qed.

Lemma succeeds_reopen content w :
  healthy w → succeeds (reopen_reader (St:=St) content) w (λ rd w', rd = file_reader content ∧ steady w w').
Proof.
  intros [H1 H2 H3 H4]. eexists _, _. cbn. rewrite H2. split; [done|]. split; [done|]. by repeat split.
Qed.

Lemma succeeds_repository_id owner repository r w :
  healthy w → select_repository_id owner repository (w_db w) = Some r →
  succeeds (repository_id owner repository) w (λ r' w', r' = r ∧ steady w w').
Proof.
  intros [H1 H2 H3 H4] Hr. eexists _, _. cbn. unfold tx_map_err, stmt. rewrite H1. cbn. rewrite Hr.
  split; [done|]. split; [done|]. by repeat split.
Qed.

Lemma succeeds_count f w :
  healthy w → succeeds (count (St:=St) (E:=ApiError) f) w (λ a w', a = tt ∧ steady w w').
Proof. intros [H1 H2 H3 H4]. eexists _, _. split; [done|]. split; [done|]. by repeat split. Qed.

Lemma succeeds_count_published m b w :
  healthy w → succeeds (count_published (St:=St) m b) w (λ a w', a = tt ∧ steady w w').
Proof.
  intros Hw. unfold count_published. destruct b; [by apply succeeds_count|].
  exists tt, w. split; [done|]. split; [done|by split].
Qed.

(** The body of a request within the limit is copied completely. *)
Lemma succeeds_copy frames limit copied file w :
  healthy w → lenN (concat frames) < limit →
  succeeds (copy_limited (St:=St) limit (Ok <$> frames) copied file) w (λ p w',
    p = (copied + lenN (concat frames), file ++ concat frames) ∧ steady w w').
Proof.
  revert limit copied file w. induction frames as [|b frames IH]; intros limit copied file w Hw Hl.
  - exists (copied, file), w. rewrite N.add_0_r, app_nil_r. split; [done|]. split; [done|by split].
  - cbn [fmap list_fmap copy_limited concat] in *. rewrite lenN_app in *.
    destruct (N.eqb_spec limit 0); [lia|]. rewrite take_N_all by lia.
    eapply (steady_bind _ _ w); [by split|by apply succeeds_io|]. intros ? w1 _ Hs.
    destruct (IH (limit - lenN b) (copied + lenN b) (file ++ b) w1) as (p & w2 & Hrun & -> & Hs2);
      [apply Hs|lia|].
    exists (copied + lenN b + lenN (concat frames), (file ++ b) ++ concat frames), w2.
    split; [done|]. rewrite N.add_assoc, app_assoc. split; [done|by eapply steady_trans].
Qed.


(** ** The upload *)

Lemma succeeds_put r id b w :
  healthy w → ChunkId_from_bytes (blake3_hash b) = id →
  succeeds (store_call ApiError_storage (put_verified r id b)) w (λ _ w',
    healthy w' ∧ w_db w' = w_db w ∧ w_now w' = w_now w).
Proof.
  intros [H1 H2 H3 H4] Hid. unfold succeeds. cbn. unfold tx_map_err, tx_store, put_verified.
  rewrite (proj2 (verify_digest_ok _ _) Hid).
  destruct (os_available_put_create (chunk_path r id) b (w_store w) H4) as [Hres Hav].
  destruct (os_put_create _ b (w_store w)) as [q st]. cbn in Hres, Hav. subst q.
  exists tt, (set_store st w). split; [by destruct (os_lookup _ _)|]. by repeat split.
Qed.

(** A chunk of the object is registered and stored. *)
Lemma register_and_store_completes r l id d b w :
  (∀ d d', d ∈ l → d' ∈ l → cd_id d = cd_id d' → cd_length d = cd_length d') →
  (∀ d, d ∈ l → 0 < cd_length d ≤ I32_MAX ∧ cd_offset d ≤ I64_MAX) →
  lenN l ≤ MAX_CHUNK_DESCRIPTORS → d ∈ l → ChunkId_from_bytes (blake3_hash b) = cd_id d →
  healthy w → agrees r l (length l) id (w_db w) →
  succeeds (register_and_store_chunk r id d b) w (λ _ w',
    healthy w' ∧ agrees r l (length l) id (w_db w') ∧ w_now w' = w_now w).
Proof.
  intros Hlen Hfit Hn Hin Hid Hh Hag. unfold register_and_store_chunk. eapply succeeds_bind.
  - eapply (succeeds_transaction _ _ _ (λ w, agrees r l (length l) id (w_db w))).
    + apply (register_total _ _ Hlen Hfit); [done|]. unfold MAX_CHUNK_DESCRIPTORS, lenN in *. lia.
    + apply Hh.
    + by intros w' _ -> _.
    + cbn. by intros a w1 w2 ? ->.
  - intros [] w1 [Hag1 Hcalm]. eapply calm_healthy in Hh; [|done].
    destruct (succeeds_put r _ _ w1 Hh Hid) as ([] & w2 & Hrun & Hh2 & Hdb & Hnow).
    exists tt, w2. rewrite Hdb, Hnow. split; [done|]. split_and!; [done|done|apply Hcalm].
Qed.

(** The recorded chunks of the object have their lengths, which their
    identities determine, and room for its references. *)
Record compatible (r : Uuid) (m : ObjectManifest) (db : Db Json) : Prop := {
  cp_lengths d d' : d ∈ om_chunks m → d' ∈ om_chunks m → cd_id d = cd_id d' → cd_length d = cd_length d';
  cp_rows d row : d ∈ om_chunks m → chunks db !! (r, ChunkId_as_bytes (cd_id d)) = Some row →
    ck_size row = Z.of_N (cd_length d) ∧
    fits_bigint (ck_reference_count row + Z.of_nat (length (om_chunks m))) = true;
}.

(** The session of an upload and the chunks that were recorded before it. *)
Lemma opened_agrees r m id now db db' :
  db_ok db → repository_exists r db = true → compatible r m db → opened now r m db id db' →
  agrees r (om_chunks m) (length (om_chunks m)) id db'.
Proof.
  intros [Hcore _] Hr [_ Hrows] (_ & row & -> & _ & Hrepo & _). split; cbn.
  - done.
  - by rewrite lookup_insert_eq, <- Hrepo.
  - intros d crow Hd Hcrow. destruct (Hrows d crow Hd Hcrow). split_and!; [done| |done].
    rewrite (ok_refs _ _ Hcore _ _ _ Hcrow). lia.
Qed.

Section Valid.
  Context (r : Uuid) (m : ObjectManifest) (v : Json) (Hval : ObjectManifest_validate m = Ok tt)
          (Hv : manifest_to_value m = Ok v).
  Local Abbreviation l := (om_chunks m).

(** Publishing through the open session of the object. *)
Lemma publish_completes id row w :
  healthy w → db_ok (w_db w) → agrees r l (length l) id (w_db w) →
  (∀ d d', d ∈ l → d' ∈ l → cd_id d = cd_id d' → cd_length d = cd_length d') →
  upload_sessions (w_db w) !! id = Some row → us_object_oid row = ObjectOid_as_bytes (om_object_oid m) →
  us_state row = Open → (w_now w < us_expires_at row)%Z →
  succeeds (publish_manifest r id m) w (λ _ w', healthy w').
Proof.
  intros Hh Hok Hag Hlen Hid Ho Hopen Hexp. destruct (manifest_fits m Hval) as (Hsize & Hn & Hfit).
  unfold publish_manifest. rewrite Hval. eapply succeeds_bind; [by eapply (succeeds_lift _ tt _ (λ _ w', w' = w))|].
  intros ? ? ->.
  destruct (succeeds_transaction ApiError_database _ w _ _ (publish_total r l Hlen Hfit
    (ObjectOid_as_bytes (om_object_oid m)) (octets32_oid _) id m v eq_refl eq_refl Hsize Hn Hv))
    as (b & w' & Hrun & _ & Hc); [apply Hh| |done|].
  - intros w' Hc -> _. rewrite (cm_now _ _ Hc). split; [|by exists row]. split_and!; [done| |done|intros d Hd; by left].
    intros Hobj z. apply eq_None_not_Some. intros [x Hx]. destruct Hok as [Hcore _].
    destruct (ok_oc_object _ _ Hcore _ _ _ _ Hx). congruence.
  - exists b, w'. split; [done|by eapply calm_healthy].
Qed.

End Valid.

Section Object.
  Context (r : Uuid) (m : ObjectManifest) (v : Json) (file : bytes)
          (Hmax : lenN file ≤ MAX_OBJECT_SIZE)
          (Hm : ChunkStream_finish (ChunkStream_new (file_reader file) ChunkingProfile_beta_v1) = Ok m)
          (Hv : manifest_to_value m = Ok v).
  Local Abbreviation l := (om_chunks m).

Lemma manifest_limits :
  ObjectManifest_validate m = Ok tt ∧ om_object_size m ≤ I64_MAX ∧ lenN l ≤ MAX_CHUNK_DESCRIPTORS ∧
  ∀ d, d ∈ l → 0 < cd_length d ≤ I32_MAX ∧ cd_offset d ≤ I64_MAX.
Proof.
  destruct (finish_valid file Hmax) as (m' & Hm' & _ & _ & Hval).
  rewrite Hm in Hm'. injection Hm' as <-. split; [done|]. by apply manifest_fits.
Qed.

Lemma store_stream_completes id items stream chunks s w :
  (∀ d d', d ∈ l → d' ∈ l → cd_id d = cd_id d' → cd_length d = cd_length d') →
  healthy w → agrees r l (length l) id (w_db w) →
  drain_items items stream = Ok (chunks, s) →
  (∀ c, c ∈ chunks → ch_descriptor c ∈ l ∧
        ChunkId_from_bytes (blake3_hash (ch_data c)) = cd_id (ch_descriptor c)) →
  succeeds (store_stream r id items stream) w (λ _ w',
    healthy w' ∧ agrees r l (length l) id (w_db w') ∧ w_now w' = w_now w).
Proof.
  intros Hlen Hh Hag. destruct manifest_limits as (_ & _ & Hn & Hfit).
  revert stream chunks w Hh Hag.
  induction items as [|item items IH]; intros stream chunks w Hh Hag Hd Hc; cbn [store_stream drain_items] in *.
  { by exists tt, w. }
  apply result_bind_ok in Hd as ([c s1] & Ha & Hd). rewrite Ha.
  apply result_bind_ok in Hd as ([cs s2] & Hd & [= <- <-]). cbn [fst snd] in *.
  destruct (Hc c) as [Hin Hid]; [by left|].
  eapply succeeds_bind.
  - by apply (register_and_store_completes r l).
  - intros [] w1 (Hh1 & Hag1 & Hnow). eapply IH in Hd as (a & w2 & Hrun & H1 & H2 & H3); [|done..|].
    + exists a, w2. split; [done|]. split_and!; [done|done|congruence].
    + intros c' Hin'. apply Hc. by right.
Qed.

Lemma chunks_described : ∃ chunks s,
  ChunkStream_drain (ChunkStream_new (file_reader file) ChunkingProfile_beta_v1) = Ok (chunks, s) ∧
  ∀ c, c ∈ chunks → ch_descriptor c ∈ l ∧
    ChunkId_from_bytes (blake3_hash (ch_data c)) = cd_id (ch_descriptor c).
Proof.
  destruct (stream_describes file) as (chunks & s & Hd & _ & _ & Hall).
  { unfold MAX_OBJECT_SIZE, U64_MAX in *. lia. }
  exists chunks, s. split; [done|]. intros c Hc.
  rewrite (second_pass _ _ _ _ _ _ Hmax Hm Hd). rewrite Forall_forall in Hall.
  split; [by apply list_elem_of_fmap_2|by apply Hall].
Qed.

(** The session, the chunks and the publication. *)
Lemma store_and_publish_completes w :
  healthy w → db_ok (w_db w) → clear r m w → compatible r m (w_db w) →
  succeeds (let! upload_id := ensure_upload_session r m in
       let! _ := io ApiError_io in
       let! source := reopen_reader file in
       let stream := ChunkStream_new source ChunkingProfile_beta_v1 in
       let! _ := store_stream r upload_id (cs_inner stream) stream in
       let! published := publish_manifest r upload_id m in
       let! _ := count_published m published in
       let! _ := count (add_chunks_received (om_object_size m)) in
       mret NO_CONTENT) w (λ status _, status = NO_CONTENT).
Proof.
  intros Hh Hok Hclear [Hlen Hrows]. destruct manifest_limits as (Hval & Hsize & Hn & Hfit).
  set (oid := ObjectOid_as_bytes (om_object_oid m)).
  assert (∃ id w1, run (ensure_upload_session r m) w = (Ok id, w1) ∧ calm w w1)
    as (id & w1 & Hrun & Hcalm).
  { unfold ensure_upload_session. rewrite Hv. cbn [map_err].
    destruct (succeeds_transaction ApiError_database _ w _ _
      (open_session_total r m v ApiError_integrity Hsize Hv)) as ([[id t] m'] & w1 & Hrun & _ & Hc);
      [apply Hh| |done|].
    - intros w' Hc' Hdb Hdrawn. apply (clear_kept r m w); [done|apply Hc'..|done|done].
    - exists id, w1. by rewrite run_bind, Hrun. }
  apply (calm_healthy _ _ Hcalm) in Hh.
  pose proof (run_ensure_upload_session _ _ _ _ _ Hok Hrun) as [_ Hopened].
  assert (agrees r l (length l) id (w_db w1)) as Hag1
    by (eapply opened_agrees; [exact Hok|apply Hclear|by split|exact Hopened]).
  destruct Hopened as (Hok1 & row & Heq & Hid & Hr & Ho & Hopen & _ & Hexp).
  eapply succeeds_bind; [by eapply succeeds_run|]. intros ? ? [-> ->].
  eapply (steady_bind _ _ w1); [by split|by apply succeeds_io|intros ? w2 _ H2].
  eapply (steady_bind _ _ w1); [done|by apply succeeds_reopen|intros ? w3 -> H3]. cbv zeta.
  destruct chunks_described as (chunks & s & Hd & Hc).
  match goal with |- succeeds (let! _ := store_stream _ _ ?items ?stream in _) _ _ =>
    destruct (store_stream_completes id items stream chunks s w3 Hlen (st_healthy _ _ H3))
      as ([] & w4 & Hrun4 & Hh4 & Hag4 & Hnow4); [|exact Hd|exact Hc|] end.
  { by rewrite (st_db _ _ H3). }
  eapply succeeds_bind; [by eapply succeeds_run|]. intros ? ? [-> ->].
  apply run_store_stream in Hrun4 as (Hok4 & (_ & _ & Hs4) & _); [|by rewrite (st_db _ _ H3)].
  eapply succeeds_bind.
  { eapply (publish_completes r m v Hval Hv id row); [done..| | | |].
    - by rewrite Hs4, (st_db _ _ H3).
    - done.
    - done.
    - rewrite Hnow4, (st_now _ _ H3), (cm_now _ _ Hcalm), Hexp. unfold HOURS_24. lia. }
  intros b w5 Hh5. eapply (steady_bind _ _ w5); [by split|by apply succeeds_count_published|].
  intros ? w6 _ H6. eapply (steady_bind _ _ w5); [done|by apply succeeds_count|].
  intros ? w7 _ _. by exists NO_CONTENT, w7.
Qed.

End Object.
(** The handler, step by step. *)
Lemma upload_basic_succeeds state owner repository oid headers frames w w1 identity r m v :
  run (authenticate state headers owner repository Write) w = (Ok identity, w1) →
  healthy w1 → db_ok (w_db w1) →
  lenN (concat frames) ≤ MAX_OBJECT_SIZE →
  (∀ n, h_content_length headers ≫= u64_from_str = Some n → n ≤ MAX_OBJECT_SIZE) →
  parse_oid oid = Ok (ObjectOid_from_bytes (sha256_digest (concat frames))) →
  select_repository_id owner repository (w_db w1) = Some r →
  ChunkStream_finish (ChunkStream_new (file_reader (concat frames)) ChunkingProfile_beta_v1) = Ok m →
  manifest_to_value m = Ok v → clear r m w1 → compatible r m (w_db w1) →
  succeeds (upload_basic state owner repository oid headers (Ok <$> frames)) w
    (λ status _, status = NO_CONTENT).
Proof.
  intros Hauth Hh Hok Hmax Hdecl Hoid Hr Hm Hv Hclear Hcompat.
  set (file := concat frames) in *.
  assert (om_object_oid m = ObjectOid_from_bytes (sha256_digest file)) as Hsha
    by (by eapply finish_describes).
  unfold upload_basic. eapply succeeds_bind; [by eapply succeeds_run|]. intros ? ? [-> ->].
  rewrite Hoid. eapply (steady_bind _ _ w1 w1 (λ o, o = ObjectOid_from_bytes (sha256_digest file))); [by split| |].
  { intros _. eexists _, w1. split; [done|]. by split. }
  intros ? w2 -> H2. eapply (steady_bind _ _ w1); [done| |].
  { intros Hh2. apply succeeds_repository_id; [done|]. by rewrite (st_db _ _ H2). }
  intros ? w3 -> H3. cbv zeta.
  assert (match h_content_length headers ≫= u64_from_str with Some n => MAX_OBJECT_SIZE <? n | None => false end = false)
    as -> by (destruct (_ ≫= _) as [n|]; [apply N.ltb_ge, Hdecl|]; done).
  eapply (steady_bind _ _ w1); [done|by apply succeeds_acquire|intros ? w4 _ H4].
  do 3 (eapply (steady_bind _ _ w1); [done|by apply succeeds_io|clear H4; intros ? ? _ H4]).
  eapply (steady_bind _ _ w1); [done| |].
  { intros Hh4. apply (succeeds_copy frames); [done|]. fold file. lia. }
  intros ? w5 -> H5. fold file. rewrite N.add_0_l. cbn [app].
  rewrite (proj2 (N.ltb_ge _ _)) by done.
  do 2 (eapply (steady_bind _ _ w1); [done|by apply succeeds_io|clear H5; intros ? ? _ H5]).
  eapply (steady_bind _ _ w1); [done|by apply succeeds_reopen|intros ? w6 -> H6]. rewrite Hm.
  eapply (steady_bind _ _ w1 _ (λ m', m' = m)); [done| |].
  { intros Hh6. exists m, w6. split; [done|]. by split. }
  intros ? w7 -> H7. rewrite bool_decide_eq_true_2 by done. cbn [negb].
  eapply (store_and_publish_completes r m v file); [done..|apply H7| | |].
  - by rewrite (st_db _ _ H7).
  - by apply (clear_kept r m w1); try apply H7.
  - by rewrite (st_db _ _ H7).
Qed.

(** C11: an upload that nothing hinders succeeds: an authenticated request in a
    healthy system whose body hashes to the OID and is at most 100 GiB is
    accepted and leaves the object published, provided that no open session of
    the OID carries another manifest, the recorded chunks have their lengths and
    the next identifier is not in use. *)
Theorem upload_basic_completes state owner repository oid headers frames w w1 identity r m v :
  run (authenticate state headers owner repository Write) w = (Ok identity, w1) →
  healthy w1 → db_ok (w_db w1) →
  lenN (concat frames) ≤ MAX_OBJECT_SIZE →
  (∀ n, h_content_length headers ≫= u64_from_str = Some n → n ≤ MAX_OBJECT_SIZE) →
  parse_oid oid = Ok (ObjectOid_from_bytes (sha256_digest (concat frames))) →
  select_repository_id owner repository (w_db w1) = Some r →
  ChunkStream_finish (ChunkStream_new (file_reader (concat frames)) ChunkingProfile_beta_v1) = Ok m →
  manifest_to_value m = Ok v → clear r m w1 → compatible r m (w_db w1) →
  ∃ w', run (upload_basic state owner repository oid headers (Ok <$> frames)) w = (Ok NO_CONTENT, w') ∧
    ∃ m', published (w_db w') r (ObjectOid_as_bytes (om_object_oid m)) m' ∧ available (w_store w') r (om_chunks m).
Proof.
  intros Hauth Hh Hok Hmax Hdecl Hoid Hr Hm Hv Hclear Hcompat.
  destruct (upload_basic_succeeds state owner repository oid headers frames w w1 identity r m v)
    as (status & w' & Hrun & ->); [done..|].
  exists w'. split; [done|]. pose proof (run_authenticate _ _ _ _ _ _ _ _ Hauth) as (Hdb & _).
  apply run_upload_basic in Hrun as (_ & Hok' & _ & fs & content & o & r' & m' & Hfs & -> & -> & _ &
    _ & Hr' & Hm' & Hav & Hobj); [|by rewrite <- Hdb].
  assert (Inj eq eq (Ok : bytes → result string bytes)) as Hinj by (by intros ? ? [=]).
  apply list_fmap_eq_inj in Hfs as <-; [|done]. rewrite Hm in Hm'. injection Hm' as <-.
  rewrite Hdb, Hr' in Hr. injection Hr as ->. destruct (finish_describes _ _ _ Hmax Hm) as [_ ->].
  destruct (objects (w_db w) !! (r, _)) as [row|] eqn:Hrow; [|by exists m].
  rewrite <- Hobj in Hrow. apply db_ok_published in Hrow as [m' Hp]; [|done]. by exists m'.
Qed.

End Handler.
