(* ===== verification/CdcCompletion.v ===== *)
(** * CdcCompletion: the three requests of a chunked upload succeed

    Total correctness of the CDC protocol: when nothing fails, a writer who
    begins an upload, sends the chunks that the answer lists and finalises it
    has published the object.  Like [Completion], it says what may stand in the
    way: another open session of the OID, recorded lengths, and bytes in the store
    that collide with a chunk. *)
From S2P Require Import Prelude Digest Manifest Stream Protocol Storage Database Effects Api Sessions Uploads UploadSpecs Delivery Completion.
#[local] Open Scope N_scope.

Section Protocol.
  Context {St Json : Type} {object_store : ObjectStore St} {store_laws : ObjectStoreLaws St}
          {json : ManifestJson Json} {json_laws : ManifestJsonLaws Json}
          {pg : PgText} {hex : HexCodec} {hex_laws : HexLaws} {hashes : Hashes}
          {uuid_text : UuidText} {uuid_laws : UuidTextLaws} {fastcdc : FastCdc}
          {cdc_laws : FastCdcLaws} {url_lib : UrlLib} {jwt : JwtLib} {forgejo : ForgejoApi}.
  Implicit Types (w : World St Json).

(** The chunk uploads of a client: [content] holds the bytes of each chunk. *)
Definition upload_missing (state : AppState) (owner repository oid : string) (headers : HeaderMap)
    (m : ObjectManifest) (content : ChunkId → bytes) (id : Uuid) (missing : list N)
  : prog St Json ApiError unit :=
  for_each missing (λ i,
    match get_N (om_chunks m) i with
    | Some d =>
        let! _ := upload_cdc_chunk state owner repository oid id i headers (content (cd_id d)) in
        mret tt
    | None => mret tt
    end).

(** The protocol. *)
Definition cdc_upload (state : AppState) (owner repository oid : string) (headers : HeaderMap)
    (m : ObjectManifest) (content : ChunkId → bytes) : prog St Json ApiError N :=
  let! response := begin_cdc state owner repository oid headers
    {| bu_protocol_version := 1; bu_manifest := m |} in
  let! _ := upload_missing state owner repository oid headers m content
    (bur_upload_id response) (bur_missing_chunk_indexes response) in
  finalize_cdc state owner repository oid (bur_upload_id response) headers.

(** Authentication accepts the writer in every healthy world. *)
Definition writer (state : AppState) (headers : HeaderMap) (owner repository : string) : Prop :=
  ∀ w, healthy w → succeeds (authenticate state headers owner repository Write) w (λ _ w', steady w w').

(** What the repository has stored of the chunks is their content. *)
Definition agrees_store (r : Uuid) (l : list ChunkDescriptor) (content : ChunkId → bytes) w : Prop :=
  ∀ d b, d ∈ l → chunk_bytes (w_store w) r (cd_id d) = Some b → b = content (cd_id d).

Section Upload.
  Context (state : AppState) (owner repository oid : string) (headers : HeaderMap) (r : Uuid)
          (m : ObjectManifest) (v : Json) (content : ChunkId → bytes)
          (Hwriter : writer state headers owner repository)
          (Hoid : parse_oid oid = Ok (om_object_oid m))
          (Hval : ObjectManifest_validate m = Ok tt)
          (Hv : manifest_to_value m = Ok v)
          (Hcontent : ∀ d, d ∈ om_chunks m → matches d (content (cd_id d)))
          (Hsha : ObjectOid_from_bytes (sha256_digest (concat ((content ∘ cd_id) <$> om_chunks m))) =
                  om_object_oid m).
  Local Abbreviation l := (om_chunks m).

(** An upload under way. *)
Record uploading (id : Uuid) w : Prop := {
  up_healthy : healthy w;
  up_ok : db_ok (w_db w);
  up_repository : select_repository_id owner repository (w_db w) = Some r;
  up_agrees : agrees r l (length l) id (w_db w);
  up_session : ∃ row, upload_sessions (w_db w) !! id = Some row ∧ us_repository_id row = r ∧
    us_object_oid row = ObjectOid_as_bytes (om_object_oid m) ∧ us_state row = Open ∧
    (w_now w < us_expires_at row)%Z ∧ manifest_from_value (us_manifest row) = Ok m;
  up_store : agrees_store r l content w;
}.

(** The lengths of chunks with one identity agree. *)
Lemma lengths_agree d d' : d ∈ l → d' ∈ l → cd_id d = cd_id d' → cd_length d = cd_length d'.
Proof. intros [H1 _]%Hcontent [H2 _]%Hcontent He. rewrite <- H1, <- H2, He. done. Qed.

Lemma uploading_steady id w w' : uploading id w → steady w w' → uploading id w'.
Proof.
  intros [H1 H2 H3 H4 H5 H6] [S1 S2 S3 S4 S5 S6]. unfold agrees_store in *.
  split; rewrite ?S2, ?S4; try done. unfold agrees_store. by rewrite S3.
Qed.

(** *** Steps *)

Lemma succeeds_given {E A B} (q : result E A) a (f : A → prog St Json E B) w Q :
  q = Ok a → succeeds (f a) w Q → succeeds (let! a := lift q in f a) w Q.
Proof. by intros ->. Qed.

Lemma succeeds_exists id w :
  healthy w → succeeds (store_call ApiError_storage (exists_chunk r id)) w (λ b w',
    b = bool_decide (is_Some (chunk_bytes (w_store w) r id)) ∧ healthy w' ∧
    same_chunks (w_store w) (w_store w')).
Proof.
  intros [H1 H2 H3 H4]. unfold succeeds. cbn. unfold tx_map_err, tx_store.
  destruct (exists_chunk_available r id (w_store w) H4) as [Hres Hav].
  destruct (exists_chunk r id (w_store w)) as [q st] eqn:Hq. cbn in Hres, Hav. subst q.
  apply exists_chunk_spec in Hq as [Hsame _].
  exists (bool_decide (is_Some (chunk_bytes (w_store w) r id))), (set_store st w). by repeat split.
Qed.

Lemma missing_indexes_completes i rest acc w :
  healthy w → i + lenN rest ≤ U32_MAX →
  succeeds (missing_indexes r (enumerate_from i rest) acc) w (λ _ w', healthy w').
Proof.
  revert i acc w. induction rest as [|d rest IH]; intros i acc w Hh Hi; cbn [enumerate_from missing_indexes].
  { by eexists _, w. }
  rewrite lenN_cons in Hi. eapply succeeds_bind; [by apply succeeds_exists|].
  intros b w1 (_ & Hh1 & _). destruct b; cbn [negb]; [apply IH; [done|lia]|].
  eapply (succeeds_given _ i).
  { unfold u32_try_from. by rewrite (proj2 (N.leb_le _ _)) by lia. }
  apply IH; [done|lia].
Qed.

Lemma succeeds_read {E A} (e : SqlxError → E) (f : Z → Db Json → A) w :
  healthy w → succeeds (query (St:=St) e (λ now db, Ok (f now db, db))) w (λ a w',
    a = f (w_now w) (w_db w) ∧ steady w w').
Proof.
  intros [H1 H2 H3 H4]. eexists _, _. cbn. unfold tx_map_err, stmt. rewrite H1. cbn.
  split; [done|]. split; [done|]. by repeat split.
Qed.

(** The head of each handler. *)
Lemma succeeds_enter {A} (f : ObjectOid → Uuid → prog St Json ApiError A) w Q :
  healthy w → select_repository_id owner repository (w_db w) = Some r →
  (∀ w', steady w w' → succeeds (f (om_object_oid m) r) w' Q) →
  succeeds (let! _ := authenticate state headers owner repository Write in
            let! o := lift (parse_oid oid) in
            let! r := repository_id owner repository in f o r) w Q.
Proof.
  intros Hh Hr Hf.
  eapply (steady_bind _ _ w w (λ _, True)); [by split| |intros i w1 _ H1].
  { intros _. destruct (Hwriter w Hh) as (i & w' & Hrun & Hs). by exists i, w'. }
  rewrite Hoid. eapply succeeds_given; [done|].
  eapply (steady_bind _ _ w); [done| |].
  { intros Hh1. apply succeeds_repository_id; [done|]. by rewrite (st_db _ _ H1). }
  intros ? w2 -> H2. by apply Hf.
Qed.

(** Where an upload is looked up. *)
Lemma uploading_found id w : uploading id w → ∃ row,
  select_open_session id r (ObjectOid_as_bytes (om_object_oid m)) (w_now w) (w_db w) = Some row ∧
  select_finalizable_session id r (ObjectOid_as_bytes (om_object_oid m)) (w_now w) (w_db w) = Some row ∧
  us_state row = Open ∧ manifest_from_value (us_manifest row) = Ok m.
Proof.
  intros [_ _ _ _ (row & Hid & Hr & Ho & Hopen & Hexp & Hj) _]. exists row.
  unfold select_open_session, select_finalizable_session, session_matches. rewrite Hid. cbv beta iota.
  rewrite Hr, Ho, Hopen, !bool_decide_eq_true_2 by done. cbn [andb].
  rewrite Hopen, !bool_decide_eq_true_2, (proj2 (Z.ltb_lt _ _)) by done. done.
Qed.

(** Storing a chunk leaves the repositories and the other chunks alone. *)
Lemma run_register_and_store id d b w x w' :
  db_ok (w_db w) → run (register_and_store_chunk r id d b) w = (Ok x, w') →
  repositories (w_db w') = repositories (w_db w) ∧
  ∀ id' b', chunk_bytes (w_store w') r id' = Some b' →
    chunk_bytes (w_store w) r id' = Some b' ∨ id' = cd_id d ∧ b' = b.
Proof.
  intros Hok (? & w1 & Htx & Hput)%run_bind_ok.
  eapply run_transaction in Htx; [|by apply register_session_chunk_triple].
  destruct Htx as (Hst & _ & _ & (t & u & Heq) & _).
  apply run_store_call_ok in Hput as (Hput & Hd & _). apply put_verified_spec in Hput as (Hne & He & _).
  rewrite Hd, Heq, <- Hst. split; [done|]. intros id' b' Hb.
  destruct (decide (id' = cd_id d)) as [->|Hn]; [|left; rewrite <- Hne; [done|congruence]].
  destruct He as [He|[_ [He _]]]; [left; congruence|right]. split; [done|congruence].
Qed.

(** *** The requests *)

Lemma begin_completes w :
  healthy w → db_ok (w_db w) → select_repository_id owner repository (w_db w) = Some r →
  clear r m w → compatible r m (w_db w) → agrees_store r l content w →
  succeeds (begin_cdc state owner repository oid headers {| bu_protocol_version := 1; bu_manifest := m |}) w
    (λ response w', uploading (bur_upload_id response) w' ∧
       bur_missing_chunk_indexes response = missing_of (w_store w') r (enumerate l)).
Proof.
  intros Hh Hok Hr Hclear Hcompat Hstore. destruct (manifest_fits m Hval) as (Hsize & Hn & Hfit).
  unfold begin_cdc. eapply (steady_bind _ _ w w (λ _, True)); [by split| |intros i w1 _ H1].
  { intros _. destruct (Hwriter w Hh) as (i & w' & Hrun & Hs). by exists i, w'. }
  rewrite Hoid. eapply succeeds_given; [done|]. cbn [bu_protocol_version bu_manifest]. cbn [N.eqb Pos.eqb negb].
  cbv zeta. eapply (succeeds_given _ tt); [by rewrite Hval|]. rewrite bool_decide_eq_true_2 by done. cbn [negb].
  eapply (steady_bind _ _ w); [done| |].
  { intros Hh1. apply succeeds_repository_id; [done|]. by rewrite (st_db _ _ H1). }
  intros ? w2 -> H2. eapply (succeeds_given _ v); [by rewrite Hv|].
  set (tx := open_session r m (Ok v) (unprocessable "object is too large")).
  assert (clear r m w2) as Hclear2.
  { by apply (clear_kept r m w); try apply H2. }
  destruct (succeeds_transaction ApiError_database tx w2 _ _ (open_session_total r m v _ Hsize Hv))
    as ([[id t] m'] & w3 & Hrun & _ & Hc3); [apply H2| |done|].
  { intros w' Hc' Hdb Hdrawn. apply (clear_kept r m w2); [done|apply Hc'..|done|done]. }
  eapply succeeds_bind; [by eapply succeeds_run|]. intros ? ? [-> ->].
  eapply run_transaction in Hrun; [|apply (open_session_triple _ r m (Ok v)); [|by rewrite (st_db _ _ H2)]].
  2:{ intros v' [= <-]. by apply manifest_value_roundtrip. }
  destruct Hrun as (Hst3 & Hnow3 & Hm' & Hopened). cbn in Hm', Hopened. subst m'.
  assert (agrees r l (length l) id (w_db w3)) as Hag.
  { eapply opened_agrees; [| | |exact Hopened]; rewrite ?(st_db _ _ H2); [done|apply Hclear|done]. }
  destruct Hopened as (Hok3 & row & Heq & Hid & Hrow & Ho & Hopen & Hj & Hexp).
  assert (healthy w3) as Hh3 by (eapply calm_healthy; [exact Hc3|apply H2]).
  destruct (missing_indexes_completes 0 l [] w3 Hh3) as (missing & w4 & Hmi & Hh4).
  { unfold MAX_CHUNK_DESCRIPTORS, U32_MAX in *. lia. }
  eapply succeeds_bind; [by eapply succeeds_run|]. intros ? ? [-> ->].
  apply run_missing_indexes in Hmi as (-> & Hsame & Hdb4 & Hnow4).
  eexists _, w4. split; [done|]. cbn. split.
  - split; rewrite ?Hdb4; try done.
    + rewrite Heq. cbn. rewrite <- (st_db _ _ H2) in Hr. exact Hr.
    + exists row. rewrite Hnow4, Hnow3, Hexp. unfold HOURS_24. split_and!; try done. lia.
    + intros d b Hd. rewrite Hsame, Hst3, (st_store _ _ H2). by apply Hstore.
  - unfold missing_of. f_equal. apply list_filter_iff. intros p. by rewrite Hsame.
Qed.

Lemma chunk_completes id i d w :
  uploading id w → get_N l i = Some d →
  succeeds (upload_cdc_chunk state owner repository oid id i headers (content (cd_id d))) w (λ _ w',
    uploading id w' ∧ keeps_chunks (w_store w) (w_store w') ∧
    is_Some (chunk_bytes (w_store w') r (cd_id d))).
Proof.
  intros Hup Hi. pose proof Hup as [Hh Hok Hr Hag (row & Hid & Hrow & Ho & Hopen & Hexp & Hj) Hst].
  assert (d ∈ l) as Hd by (by eapply list_elem_of_lookup_2).
  destruct (manifest_fits m Hval) as (_ & Hn & Hfit). destruct (Hcontent d Hd) as [Hlen Hhash].
  unfold upload_cdc_chunk.
  eapply (steady_bind _ _ w); [by split|by apply succeeds_acquire|intros ? w1 _ H1].
  apply succeeds_enter; [apply H1|by rewrite (st_db _ _ H1)|intros w2 H2].
  assert (steady w w2) as H by (by eapply steady_trans). clear H1 H2.
  apply (uploading_steady id w) in H as Hup2; [|done].
  destruct (uploading_found id w2 Hup2) as (row2 & Hsel & _ & _ & Hj2).
  unfold load_open_upload. eapply (steady_bind _ _ w2 w2 (λ m', m' = m)); [split; done||apply Hup2| |intros ? w3 -> H3].
  { intros Hh2. eapply (steady_bind _ _ w2); [by split| |].
    - intros _. by apply (succeeds_read _ (λ now db, select_open_session id r _ now db)).
    - intros ? w3 -> H3. rewrite Hsel. eapply succeeds_given; [done|].
      exists m, w3. cbn. rewrite Hj2. split; [done|]. by split. }
  apply (uploading_steady id w2) in H3 as Hup3; [|done].
  eapply (succeeds_given _ d); [by rewrite Hi|]. rewrite Hlen, N.eqb_refl. cbn [negb].
  destruct (register_and_store_completes r l id d (content (cd_id d)) w3 lengths_agree Hfit Hn Hd Hhash)
    as (x & w4 & Hrun & Hh4 & Hag4 & Hnow4); [apply Hup3..|].
  eapply succeeds_bind; [by eapply succeeds_run|]. intros ? ? [-> ->].
  pose proof (run_register_and_store id d _ _ _ _ (up_ok _ _ Hup3) Hrun) as [Hrepo Hnew].
  apply run_register_and_store_chunk in Hrun as (Hok4 & (_ & _ & Hs4) & Hk4 & Hav4); [|apply Hup3].
  eapply (steady_bind _ _ w4); [by split|by apply succeeds_count|intros ? w5 _ H5].
  exists NO_CONTENT, w5. split; [done|].
  assert (uploading id w4) as Hup4.
  { destruct Hup3 as [_ _ R1 _ S1 T1]. split; [done|done| |done|by rewrite Hs4, Hnow4|].
    - revert R1. unfold select_repository_id. by rewrite Hrepo.
    - intros d' b' Hd' [Hb'|[-> ->]]%Hnew; [by apply T1|done]. }
  split; [by eapply uploading_steady|]. rewrite (st_store _ _ H5).
  rewrite <- (st_store _ _ H), <- (st_store _ _ H3). done.
Qed.

(** The loop over the missing chunks. *)
Lemma upload_missing_completes id missing w :
  uploading id w →
  succeeds (upload_missing state owner repository oid headers m content id missing) w (λ _ w',
    uploading id w' ∧ keeps_chunks (w_store w) (w_store w') ∧
    ∀ i d, i ∈ missing → get_N l i = Some d → is_Some (chunk_bytes (w_store w') r (cd_id d))).
Proof.
  unfold upload_missing. revert w. induction missing as [|i missing IH]; intros w Hup; cbn [for_each].
  { exists tt, w. split; [done|]. split_and!; [done|by intros ???|]. by intros i d Hi%elem_of_nil. }
  eapply (succeeds_bind _ _ _ (λ _ w1, uploading id w1 ∧ keeps_chunks (w_store w) (w_store w1) ∧
    ∀ d, get_N l i = Some d → is_Some (chunk_bytes (w_store w1) r (cd_id d)))).
  - destruct (get_N l i) as [d|] eqn:Hi; [|by exists tt, w; split; [|split_and!; [|intros ???|]]].
    eapply succeeds_bind; [by apply chunk_completes|]. intros _ w1 (H1 & H2 & H3).
    exists tt, w1. split; [done|]. split_and!; [done|done|]. by intros ? [= <-].
  - intros [] w1 (H1 & H2 & H3). destruct (IH w1 H1) as ([] & w2 & Hrun & H4 & H5 & H6).
    exists tt, w2. split; [done|]. split_and!; [done|intros r' id' b Hb; by apply H5, H2|].
    intros j d [->|Hj]%elem_of_cons Hget; [|by apply (H6 j)].
    destruct (H3 d Hget) as [b Hb]. exists b. by apply H5.
Qed.

(** The chunks are read back and hashed. *)
Lemma hash_chunks_completes rest h w :
  healthy w → (∀ d, d ∈ rest → d ∈ l) →
  (∀ d, d ∈ rest → chunk_bytes (w_store w) r (cd_id d) = Some (content (cd_id d))) →
  succeeds (hash_chunks r rest h) w (λ h' w',
    h' = h ++ concat ((content ∘ cd_id) <$> rest) ∧ healthy w' ∧ w_db w' = w_db w).
Proof.
  revert h w. induction rest as [|d rest IH]; intros h w Hh Hsub Hb; cbn [hash_chunks fmap list_fmap concat].
  { exists h, w. by rewrite app_nil_r. }
  destruct (Hcontent d) as [Hlen Hid]; [by apply Hsub; left|].
  destruct (run_get_healthy finalize_storage_error r (cd_id d) (content (cd_id d)) w Hh)
    as (w1 & Hrun & Hh1 & Hdb1 & Hsame); [split; [by apply Hb; left|done]|].
  eapply succeeds_bind; [by eapply succeeds_run|]. intros ? ? [-> ->]. rewrite Hlen, N.eqb_refl. cbn [negb].
  destruct (IH (Sha256_update h (content (cd_id d))) w1 Hh1) as (h' & w2 & Hrun2 & -> & Hh2 & Hdb2).
  - intros d' Hd'. apply Hsub. by right.
  - intros d' Hd'. rewrite Hsame. apply Hb. by right.
  - eexists _, w2. split; [exact Hrun2|]. unfold Sha256_update. rewrite <- app_assoc.
    split_and!; [done|done|congruence].
Qed.

Lemma finalize_completes id w :
  uploading id w → (∀ d, d ∈ l → is_Some (chunk_bytes (w_store w) r (cd_id d))) →
  succeeds (finalize_cdc state owner repository oid id headers) w (λ status w', status = NO_CONTENT ∧
    ∃ m', published (w_db w') r (ObjectOid_as_bytes (om_object_oid m)) m').
Proof.
  intros Hup Hall. unfold finalize_cdc.
  eapply (steady_bind _ _ w); [split; done||apply Hup|apply succeeds_acquire|intros ? w1 _ H1].
  apply succeeds_enter; [apply H1|rewrite (st_db _ _ H1); apply Hup|intros w2 H2].
  assert (steady w w2) as H by (by eapply steady_trans). clear H1 H2.
  apply (uploading_steady id w) in H as Hup2; [|done].
  destruct (uploading_found id w2 Hup2) as (row & _ & Hsel & Hopen & Hj).
  unfold load_finalizable_upload.
  eapply (steady_bind _ _ w2 w2 (λ p, p = (m, false))); [split; done||apply Hup2| |intros ? w3 -> H3].
  { intros Hh2. eapply (steady_bind _ _ w2); [by split| |].
    - intros _. by apply (succeeds_read _ (λ now db, select_finalizable_session id r _ now db)).
    - intros ? w3 -> H3. rewrite Hsel. eapply succeeds_given; [done|]. rewrite Hj.
      eapply succeeds_given; [done|]. exists (m, false), w3. cbn. by rewrite Hopen. }
  cbv zeta. cbn [fst snd].
  assert (steady w w3) as Hs3 by (by eapply steady_trans).
  apply (uploading_steady id w) in Hs3 as Hup3; [|done]. clear H H3 Hup2.
  destruct (hash_chunks_completes l Sha256_new w3) as (h & w4 & Hrun & -> & Hh4 & Hdb4); [apply Hup3|done| |].
  { intros d Hd. rewrite (st_store _ _ Hs3). destruct (Hall d Hd) as [b Hb].
    by rewrite Hb, (up_store _ _ Hup d b Hd Hb). }
  eapply succeeds_bind; [by eapply succeeds_run|]. intros ? ? [-> ->].
  apply run_hash_chunks in Hrun as (_ & _ & _ & _ & _ & Hnow4).
  rewrite bool_decide_eq_true_2 by (by rewrite <- Hsha). cbn [negb].
  destruct Hup3 as [_ Hok3 _ Hag3 (row3 & Hid3 & _ & Ho3 & Hopen3 & Hexp3 & _) _].
  destruct (publish_completes r m v Hval Hv id row3 w4) as (b & w5 & Hpub & Hh5);
    rewrite ?Hdb4, ?Hnow4; try done; [exact lengths_agree|].
  eapply succeeds_bind; [by eapply succeeds_run|]. intros ? ? [-> ->].
  apply (run_publish_open r id m w4 b w5 row3) in Hpub as (_ & Hok5 & Hobj); rewrite ?Hdb4; try done.
  eapply (steady_bind _ _ w5); [by split|by apply succeeds_count_published|intros ? w6 _ H6].
  exists NO_CONTENT, w6. split; [done|]. split; [done|]. rewrite (st_db _ _ H6).
  destruct (objects (w_db w4) !! _) as [orow|] eqn:Hrow; [|by exists m].
  rewrite <- Hobj in Hrow. by apply db_ok_published in Hrow.
Qed.

(** C10: a chunked upload that nothing hinders succeeds: in a healthy system a
    writer who begins an upload of a valid manifest, sends exactly the chunks
    that the answer lists as missing and finalises it is answered 204, and the
    object is published, provided that the chunks hash to the OID, what is stored
    of them is their content, no open session of the OID carries another manifest
    and the recorded chunks have their lengths. *)
Theorem upload_cdc_completes w :
  healthy w → db_ok (w_db w) → select_repository_id owner repository (w_db w) = Some r →
  clear r m w → compatible r m (w_db w) → agrees_store r l content w →
  ∃ w', run (cdc_upload state owner repository oid headers m content) w = (Ok NO_CONTENT, w') ∧
    ∃ m', published (w_db w') r (ObjectOid_as_bytes (om_object_oid m)) m'.
Proof.
  intros Hh Hok Hr Hclear Hcompat Hstore.
  enough (succeeds (cdc_upload state owner repository oid headers m content) w (λ status w', status = NO_CONTENT ∧
    ∃ m', published (w_db w') r (ObjectOid_as_bytes (om_object_oid m)) m')) as (s & w' & Hrun & -> & Hp) by (by exists w').
  eapply succeeds_bind; [by apply begin_completes|]. intros response w1 [Hup ->].
  eapply succeeds_bind; [by apply upload_missing_completes|]. intros _ w2 (Hup2 & Hkeeps & Hsent).
  apply finalize_completes; [done|]. intros d Hd.
  destruct (chunk_bytes (w_store w1) r (cd_id d)) as [b|] eqn:Hb; [exists b; by apply Hkeeps|].
  apply list_elem_of_lookup in Hd as [k Hk]. apply (Hsent (N.of_nat k)); [|by unfold get_N; rewrite Nat2N.id].
  unfold missing_of. apply list_elem_of_fmap. exists (N.of_nat k, d). split; [done|].
  apply list_elem_of_filter. split; [done|]. apply list_elem_of_lookup. exists k.
  by rewrite enumerate_from_lookup, Hk.
Qed.

End Upload.
End Protocol.
