(* ===== verification/Gc.v ===== *)
(** * Gc: reachability snapshots and garbage collection
    ([git-lfs-delta-server/src/gc.rs])

    The snapshot, staging and collection operations as programs, that they
    keep the metadata invariant, that proposals are exactly the provably
    unreachable objects, and that draining the deletion queue never removes a
    chunk of a published object. *)
From S2P Require Import Prelude Digest Manifest Protocol Storage Database Effects Api Sessions.

(** ** Data *)

Record ReachabilitySnapshot := {
  rs_repository_id : Uuid;
  rs_ref_fingerprint : string;
  rs_reachable_objects : list ObjectOid;
}.

Record GcCandidate := mkGcCandidate { gc_oid : ObjectOid; gc_size : N }.

Inductive GcError :=
| GcDatabase (error : SqlxError)
| GcStorage (error : StorageError)
| CorruptChunkId.

Definition DATETIME_OVERFLOW : string := "22008".

(** [u64::try_from(i64)]. *)
Definition u64_try_from (z : Z) : option N := if (z <? 0)%Z then None else Some (Z.to_N z).

(** [BYTEA] values compare as unsigned bytes. *)
Fixpoint bytes_leb (a b : bytes) : bool :=
  match a, b with
  | [], _ => true
  | _ :: _, [] => false
  | x :: a, y :: b =>
      if Byte.to_N x <? Byte.to_N y then true
      else if Byte.to_N y <? Byte.to_N x then false
      else bytes_leb a b
  end.

Section Statements.
  Context {Json : Type}.
  Implicit Types (db : Db Json).

(** *** [submit_snapshot] *)

Definition insert_epoch (id r : Uuid) (fingerprint : string) (_ : Z) db
  : result SqlxError (unit * Db Json) :=
  require (bool_decide (reachability_epochs db !! id = None)) UNIQUE_VIOLATION
    (require (repository_exists r db) FOREIGN_KEY_VIOLATION
      (let row := {| ep_repository_id := r; ep_ref_fingerprint := fingerprint;
                     ep_complete := false; ep_completed_at := None |} in
       Ok (tt, with_reachability_epochs (<[id := row]> (reachability_epochs db)) db))).

Definition insert_reachable (epoch : Uuid) (oid : bytes) (_ : Z) db
  : result SqlxError (unit * Db Json) :=
  require (octets32 oid) CHECK_VIOLATION
    (require (bool_decide ((epoch, oid) ∉ reachable_objects db)) UNIQUE_VIOLATION
      (require (bool_decide (is_Some (reachability_epochs db !! epoch))) FOREIGN_KEY_VIOLATION
        (Ok (tt, with_reachable_objects ({[(epoch, oid)]} ∪ reachable_objects db) db)))).

Definition complete_row (now : Z) (row : EpochRow) : EpochRow :=
  {| ep_repository_id := ep_repository_id row; ep_ref_fingerprint := ep_ref_fingerprint row;
     ep_complete := true; ep_completed_at := Some now |}.

Definition complete_epoch (id : Uuid) (now : Z) db : result SqlxError (unit * Db Json) :=
  Ok (tt, with_reachability_epochs (alter (complete_row now) id (reachability_epochs db)) db).

(** *** [dry_run] *)

(** [ORDER BY completed_at DESC, id DESC]: nulls come first in a descending
    order. *)
Definition epoch_first (a b : Uuid * EpochRow) : Prop :=
  match ep_completed_at a.2, ep_completed_at b.2 with
  | None, Some _ => True
  | Some _, None => False
  | None, None => uuid_value b.1 ≤ uuid_value a.1
  | Some x, Some y => (y < x)%Z ∨ x = y ∧ uuid_value b.1 ≤ uuid_value a.1
  end.

#[export] Instance epoch_first_dec a b : Decision (epoch_first a b).
Proof. unfold epoch_first. do 2 case_match; apply _. Defined.

(** The CTE [latest]. *)
Definition complete_epochs (r : Uuid) db : list (Uuid * EpochRow) :=
  filter (λ kv : Uuid * EpochRow, ep_repository_id kv.2 = r ∧ ep_complete kv.2 = true)
    (map_to_list (reachability_epochs db)).

Definition latest (r : Uuid) db : list Uuid :=
  take 2 (merge_sort epoch_first (complete_epochs r db)).*1.

Definition candidate_row (r : Uuid) db (kv : Uuid * bytes * ObjectRow Json) : Prop :=
  kv.1.1 = r ∧ length (latest r db) = 2%nat ∧
  Forall (λ e, (e, kv.1.2) ∉ reachable_objects db) (latest r db) ∧
  object_tombstones db !! kv.1 = None.

#[export] Instance candidate_row_dec r db kv : Decision (candidate_row r db kv).
Proof. unfold candidate_row. apply _. Defined.

(** The rows of the query, [ORDER BY o.oid]. *)
Definition oid_first (a b : bytes * Z) : Prop := bytes_leb a.1 b.1 = true.

#[export] Instance oid_first_dec a b : Decision (oid_first a b).
Proof. unfold oid_first. apply _. Defined.

Definition candidate_rows (r : Uuid) db : list (bytes * Z) :=
  merge_sort oid_first
    ((λ kv : Uuid * bytes * ObjectRow Json, (kv.1.2, ob_size kv.2)) <$>
     filter (candidate_row r db) (map_to_list (objects db))).

Definition candidate_of (row : bytes * Z) : result SqlxError GcCandidate :=
  let! oid := ok_or (SqlxProtocol "invalid object OID in database") (ObjectOid_of_slice row.1) in
  let! size := ok_or (SqlxProtocol "invalid object size in database") (u64_try_from row.2) in
  Ok (mkGcCandidate oid size).

(** [collect] into a [Result]. *)
Fixpoint collect_results {E A B} (f : A → result E B) (l : list A) : result E (list B) :=
  match l with
  | [] => Ok []
  | x :: l => let! y := f x in let! ys := collect_results f l in Ok (y :: ys)
  end.

(** *** [stage] *)

(** [now() + make_interval(secs => $1)], or minus. *)
Definition interval_fits (secs : Z) : bool := fits_bigint (secs * 1000000)%Z.

Definition insert_tombstone (r : Uuid) (oid : bytes) (secs : Z) (now : Z) db
  : result SqlxError (unit * Db Json) :=
  require (interval_fits secs && fits_bigint (now + secs * 1000000)%Z) DATETIME_OVERFLOW
    match object_tombstones db !! (r, oid) with
    | Some _ => Ok (tt, db)
    | None =>
        require (bool_decide (is_Some (objects db !! (r, oid)))) FOREIGN_KEY_VIOLATION
          (Ok (tt, with_object_tombstones
                     (<[(r, oid) := {| tb_delete_after := (now + secs * 1000000)%Z |}]>
                        (object_tombstones db)) db))
    end.

(** *** [collect_due] *)

Definition due (r : Uuid) (now : Z) db : list (Uuid * bytes * TombstoneRow) :=
  filter (λ kv : Uuid * bytes * TombstoneRow, kv.1.1 = r ∧ (tb_delete_after kv.2 <= now)%Z)
    (map_to_list (object_tombstones db)).

Definition due_first (a b : Uuid * bytes * TombstoneRow) : Prop :=
  (tb_delete_after a.2 <= tb_delete_after b.2)%Z.

#[export] Instance due_first_dec a b : Decision (due_first a b).
Proof. unfold due_first. apply _. Defined.

(** [... ORDER BY delete_after ... LIMIT 1]. *)
Definition select_due (r : Uuid) (now : Z) db : option bytes :=
  (λ kv : Uuid * bytes * TombstoneRow, kv.1.2) <$> head (merge_sort due_first (due r now db)).

Definition select_object_chunks (r : Uuid) (oid : bytes) db : list bytes :=
  (λ kv : Uuid * bytes * Z * ObjectChunkRow, oc_chunk_id kv.2) <$>
  filter (λ kv : Uuid * bytes * Z * ObjectChunkRow, kv.1.1 = (r, oid))
    (map_to_list (object_chunks db)).

(** [DELETE FROM objects ...] with its two cascades. *)
Definition delete_object (r : Uuid) (oid : bytes) (_ : Z) db : result SqlxError (unit * Db Json) :=
  Ok (tt, with_objects (delete (r, oid) (objects db))
           (with_object_chunks
             (filter (λ kv : Uuid * bytes * Z * ObjectChunkRow, kv.1.1 ≠ (r, oid)) (object_chunks db))
             (with_object_tombstones (delete (r, oid) (object_tombstones db)) db))).

(** [INSERT INTO chunk_gc_queue ... SELECT ... WHERE reference_count = 0 ON
    CONFLICT DO NOTHING]. *)
Definition enqueue_unreferenced (r : Uuid) (c : bytes) (now : Z) db
  : result SqlxError (unit * Db Json) :=
  match chunks db !! (r, c), chunk_gc_queue db !! (r, c) with
  | Some row, None =>
      if (ck_reference_count row =? 0)%Z
      then require (octets32 c) CHECK_VIOLATION
             (Ok (tt, with_chunk_gc_queue (<[(r, c) := now]> (chunk_gc_queue db)) db))
      else Ok (tt, db)
  | _, _ => Ok (tt, db)
  end.

(** *** [reclaim_expired_uploads] *)

Definition expire_repository_row (now : Z) (r : Uuid) (row : SessionRow Json) : SessionRow Json :=
  if bool_decide (us_repository_id row = r) && bool_decide (us_state row = Open) &&
     (us_expires_at row <=? now)%Z
  then with_state Expired row else row.

Definition expire_repository_sessions (r : Uuid) (now : Z) db : result SqlxError (unit * Db Json) :=
  Ok (tt, with_upload_sessions (expire_repository_row now r <$> upload_sessions db) db).

(** Sessions of a chunk, through [upload_session_chunks]. *)
Definition chunk_sessions (r : Uuid) (c : bytes) db : list (SessionRow Json) :=
  omap (λ kv : Uuid * bytes * Uuid, upload_sessions db !! kv.1.1)
    (filter (λ kv : Uuid * bytes * Uuid, kv.1.2 = c ∧ kv.2 = r)
       (map_to_list (upload_session_chunks db))).

Definition stale (r : Uuid) (limit : Z) (row : SessionRow Json) : bool :=
  bool_decide (us_state row = Expired) && (us_expires_at row <=? limit)%Z.

Definition abandoned (r : Uuid) (limit : Z) db (kv : Uuid * bytes * ChunkRow) : Prop :=
  kv.1.1 = r ∧ ck_reference_count kv.2 = 0%Z ∧
  existsb (stale r limit) (chunk_sessions r kv.1.2 db) = true ∧
  existsb (λ row, bool_decide (us_state row = Open)) (chunk_sessions r kv.1.2 db) = false.

#[export] Instance abandoned_dec r limit db kv : Decision (abandoned r limit db kv).
Proof. unfold abandoned. apply _. Defined.

Definition enqueue_abandoned (r : Uuid) (secs : Z) (now : Z) db : result SqlxError (unit * Db Json) :=
  require (interval_fits secs && fits_bigint (now - secs * 1000000)%Z) DATETIME_OVERFLOW
    (Ok (tt, with_chunk_gc_queue
               (chunk_gc_queue db ∪
                ((λ _, now) <$> filter (abandoned r (now - secs * 1000000)%Z db) (chunks db))) db)).

(** [DELETE FROM upload_sessions ...] with its cascade; the count is
    [rows_affected]. *)
Definition delete_stale_sessions (r : Uuid) (secs : Z) (now : Z) db
  : result SqlxError (N * Db Json) :=
  let limit := (now - secs * 1000000)%Z in
  let kept := filter (λ kv : Uuid * SessionRow Json,
    ¬ (us_repository_id kv.2 = r ∧ stale r limit kv.2 = true)) (upload_sessions db) in
  require (interval_fits secs && fits_bigint limit) DATETIME_OVERFLOW
    (Ok (N.of_nat (size (upload_sessions db)) - N.of_nat (size kept),
         with_upload_sessions kept
           (with_upload_session_chunks
              (filter (λ kv : Uuid * bytes * Uuid, is_Some (kept !! kv.1.1))
                 (upload_session_chunks db)) db))).

(** *** [drain_chunk_queue] *)

Definition queue_first (a b : Uuid * bytes * Z) : Prop := (a.2 <= b.2)%Z.

#[export] Instance queue_first_dec a b : Decision (queue_first a b).
Proof. unfold queue_first. apply _. Defined.

Definition select_queue (r : Uuid) db : list bytes :=
  (λ kv : Uuid * bytes * Z, kv.1.2) <$>
  merge_sort queue_first
    (filter (λ kv : Uuid * bytes * Z, kv.1.1 = r) (map_to_list (chunk_gc_queue db))).

Definition delete_queued (r : Uuid) (c : bytes) (_ : Z) db : result SqlxError (unit * Db Json) :=
  Ok (tt, with_chunk_gc_queue (delete (r, c) (chunk_gc_queue db)) db).

Definition chunk_active (r : Uuid) (c : bytes) db : bool :=
  existsb (λ row, bool_decide (us_state row = Open)) (chunk_sessions r c db).

(** Rows of other tables with a foreign key to a chunk. *)
Definition chunk_referenced (r : Uuid) (c : bytes) db : bool :=
  negb (Nat.eqb (refs db r c) 0) || negb (bool_decide (map_Forall
    (λ (k : Uuid * bytes) r', ¬ (k.2 = c ∧ r' = r)) (upload_session_chunks db))).

(** [DELETE FROM chunks ... AND reference_count = 0]. *)
Definition delete_chunk_row (r : Uuid) (c : bytes) (_ : Z) db : result SqlxError (unit * Db Json) :=
  match chunks db !! (r, c) with
  | Some row =>
      if (ck_reference_count row =? 0)%Z
      then require (negb (chunk_referenced r c db)) FOREIGN_KEY_VIOLATION
             (Ok (tt, with_chunks (delete (r, c) (chunks db)) db))
      else Ok (tt, db)
  | None => Ok (tt, db)
  end.

End Statements.

(** ** The operations *)

Section Operations.
  Context {St Json : Type} {object_store : ObjectStore St} {hex : HexCodec} {uuid_text : UuidText}
          {hashes : Hashes}.

Definition gsql {A} (q : Z → Db Json → result SqlxError (A * Db Json)) : TX St Json GcError A :=
  tx_map_err GcDatabase (stmt q).

Definition snapshot_tx (snapshot : ReachabilitySnapshot) : TX St Json SqlxError Uuid :=
  let! epoch := tx_new_v4 in
  let! _ := stmt (insert_epoch epoch (rs_repository_id snapshot) (rs_ref_fingerprint snapshot)) in
  let! _ := for_each (rs_reachable_objects snapshot) (λ oid,
    stmt (insert_reachable epoch (ObjectOid_as_bytes oid))) in
  let! _ := stmt (complete_epoch epoch) in
  mret epoch.

Definition submit_snapshot (snapshot : ReachabilitySnapshot) : prog St Json SqlxError Uuid :=
  transaction id (snapshot_tx snapshot).

Definition dry_run (r : Uuid) : prog St Json SqlxError (list GcCandidate) :=
  let! rows := query id (λ _ db, Ok (candidate_rows r db, db)) in
  lift (collect_results candidate_of rows).

Definition stage_tx (r : Uuid) (seconds : Z) (candidates : list GcCandidate)
  : TX St Json SqlxError unit :=
  for_each candidates (λ c, stmt (insert_tombstone r (ObjectOid_as_bytes (gc_oid c)) seconds)).

(** [grace] is [Duration::as_secs]. *)
Definition stage (r : Uuid) (grace : N) : prog St Json SqlxError (list GcCandidate) :=
  let! candidates := dry_run r in
  let! seconds := lift (ok_or (SqlxProtocol "GC grace period is too large") (i64_try_from grace)) in
  let! _ := transaction id (stage_tx r seconds candidates) in
  mret candidates.

Definition release_chunk (r : Uuid) (c : bytes) : TX St Json GcError unit :=
  let! _ := gsql (add_reference r c (-1)) in
  gsql (enqueue_unreferenced r c).

(** One turn of the loop of [collect_due]: [false] when nothing is due. *)
Definition collect_one (r : Uuid) : TX St Json GcError bool :=
  let! _ := gsql (λ _ db, Ok (tt, db)) in
  let! oid := gsql (λ now db, Ok (select_due r now db, db)) in
  match oid with
  | None => mret false
  | Some oid =>
      let! chunk_ids := gsql (λ _ db, Ok (select_object_chunks r oid db, db)) in
      let! _ := gsql (delete_object r oid) in
      let! _ := for_each chunk_ids (release_chunk r) in
      mret true
  end.

(** The loop, with fuel: [None] when it has not ended yet. *)
Fixpoint collect_loop (fuel : nat) (r : Uuid) (deleted : N) : prog St Json GcError (option N) :=
  match fuel with
  | O => mret None
  | S fuel =>
      let! more := transaction GcDatabase (collect_one r) in
      if (more : bool) then collect_loop fuel r (deleted + 1) else mret (Some deleted)
  end.

(** The transaction of [drain_chunk_queue] for one queued chunk. *)
Definition drain_one (r : Uuid) (raw : bytes) : TX St Json GcError unit :=
  let! row := gsql (λ _ db, Ok (chunks db !! (r, raw), db)) in
  match row with
  | None => gsql (delete_queued r raw)
  | Some row =>
      if (0 <? ck_reference_count row)%Z then gsql (delete_queued r raw)
      else
        let! active := gsql (λ _ db, Ok (chunk_active r raw db, db)) in
        if (active : bool) then mret tt
        else
          let! chunk_id := tx_result (ok_or CorruptChunkId (ChunkId_of_slice raw)) in
          let! _ := tx_map_err GcStorage (tx_store (delete_chunk r chunk_id)) in
          let! _ := gsql (delete_chunk_row r raw) in
          gsql (delete_queued r raw)
  end.

Definition drain_chunk_queue (r : Uuid) : prog St Json GcError unit :=
  let! queued := query GcDatabase (λ _ db, Ok (select_queue r db, db)) in
  for_each queued (λ raw, transaction GcDatabase (drain_one r raw)).

Definition collect_due (fuel : nat) (r : Uuid) : prog St Json GcError (option N) :=
  let! deleted := collect_loop fuel r 0 in
  match deleted with
  | None => mret None
  | Some deleted =>
      let! _ := drain_chunk_queue r in
      mret (Some deleted)
  end.

Definition reclaim_tx (r : Uuid) (seconds : Z) : TX St Json GcError N :=
  let! _ := gsql (expire_repository_sessions r) in
  let! _ := gsql (enqueue_abandoned r seconds) in
  gsql (delete_stale_sessions r seconds).

Definition reclaim_expired_uploads (r : Uuid) (grace : N) : prog St Json GcError N :=
  let! seconds := lift (ok_or (GcDatabase (SqlxProtocol "upload grace period is too large"))
                          (i64_try_from grace)) in
  let! removed := transaction GcDatabase (reclaim_tx r seconds) in
  let! _ := drain_chunk_queue r in
  mret removed.

End Operations.
