(* ===== verification/GcFacts.v ===== *)
(** * GcFacts: the garbage collector keeps the metadata and the chunks

    Every operation of [Gc] preserves the invariants; proposals are sound and
    complete; collection removes exactly the due object; draining never
    deletes a chunk that a published object uses. *)
From S2P Require Import Prelude Digest Manifest Protocol Storage Database Effects Api Sessions Uploads UploadSpecs Gc.

(** ** Statements *)

Section StatementFacts.
  Context {Json : Type} {json : ManifestJson Json}.
  Implicit Types (db : Db Json).

(** Entries of a map counted as a list. *)
Lemma size_filter_to_list `{Countable K} {V} (P : K * V → Prop) `{!∀ x, Decision (P x)}
    (m : gmap K V) :
  size (filter P m) = length (filter P (map_to_list m)).
Proof.
  induction m as [|k v m Hn IH] using map_ind.
  { by rewrite map_filter_empty, map_to_list_empty. }
  rewrite (map_to_list_insert m k v Hn), filter_cons.
  case_decide as HP.
  - rewrite map_filter_insert_True by done.
    rewrite map_size_insert_None by (apply map_lookup_filter_None; by left).
    cbn. by rewrite IH.
  - rewrite map_filter_insert_False by done. by rewrite delete_id.
Qed.

Lemma length_filter_split {A} (P P1 P2 : A → Prop) `{!∀ x, Decision (P x), !∀ x, Decision (P1 x),
    !∀ x, Decision (P2 x)} (l : list A) :
  (∀ x, P x ↔ P1 x ∨ P2 x) → (∀ x, P1 x → P2 x → False) →
  length (filter P l) = (length (filter P1 l) + length (filter P2 l))%nat.
Proof.
  intros Hor Hdis. induction l as [|x l IH]; [done|]. rewrite !filter_cons.
  specialize (Hor x). specialize (Hdis x).
  repeat case_decide; cbn; rewrite ?IH; try tauto; lia.
Qed.

Lemma length_filter_fmap {A B} (f : A → B) (Q : B → Prop) `{!∀ x, Decision (Q x)} (l : list A) :
  length (filter Q (f <$> l)) = length (filter (λ x, Q (f x)) l).
Proof.
  induction l as [|x l IH]; [done|]. cbn [fmap list_fmap]. rewrite !filter_cons.
  case_decide; cbn; by rewrite IH.
Qed.

(** Occurrences of a chunk in a list of chunk identities. *)
Definition occurrences (c : bytes) (l : list bytes) : nat := length (filter (λ x, x = c) l).

(** What counters are ahead by while the chunks [l] of [r] are released. *)
Definition pending (r : Uuid) (l : list bytes) (r' : Uuid) (c : bytes) : nat :=
  if decide (r' = r) then occurrences c l else 0.

Lemma pending_cons r c l r' c' :
  pending r (c :: l) r' c' = ((if decide ((r', c') = (r, c)) then 1 else 0) + pending r l r' c')%nat.
Proof.
  unfold pending, occurrences. rewrite filter_cons.
  repeat case_decide; simplify_eq; done.
Qed.

(** Deleting an object splits the references of its repository. *)
Lemma refs_delete_object r oid db r' c :
  refs db r' c =
    (pending r (select_object_chunks r oid db) r' c +
     size (filter (λ kv : Uuid * bytes * Z * ObjectChunkRow, kv.1.1.1 = r' ∧ oc_chunk_id kv.2 = c)
       (filter (λ kv : Uuid * bytes * Z * ObjectChunkRow, kv.1.1 ≠ (r, oid)) (object_chunks db))))%nat.
Proof.
  rewrite map_filter_filter. unfold refs, pending, occurrences, select_object_chunks.
  rewrite !size_filter_to_list. case_decide as Hr.
  - subst r'. rewrite length_filter_fmap, list_filter_filter.
    apply length_filter_split; intros [[[r1 o1] z] row]; cbn; [|tauto].
    destruct (decide ((r1, o1) = (r, oid))) as [[= -> ->]|Hne]; tauto.
  - cbn [Nat.add]. f_equal. apply list_filter_iff.
    intros [[[r1 o1] z] row]; cbn. split; [|tauto]. intros [-> ->].
    split; [done|]. congruence.
Qed.

(** Deleting an object leaves its chunks' counters ahead. *)
Lemma delete_object_core r oid now db db' :
  delete_object r oid now db = Ok (tt, db') → db_ok db →
  core_upto (pending r (select_object_chunks r oid db)) db' ∧ objects_ok (λ _ _, False) db'.
Proof.
  intros [= <-] [[] Hobj]. split.
  - split; cbn; try done.
    + intros r' c row Hrow. rewrite (ok_refs _ _ _ Hrow). f_equal. cbn [Nat.add].
      apply refs_delete_object.
    + intros r' o z row [Hrow _]%map_lookup_filter_Some. by eapply ok_oc_chunk.
    + intros r' o z row [Hrow Hne]%map_lookup_filter_Some.
      rewrite lookup_delete_ne; [by eapply ok_oc_object|]. cbn in Hne. congruence.
    + intros k row. rewrite lookup_delete_Some. intros [Hne Hrow].
      rewrite lookup_delete_ne by done. by eapply ok_tombstones.
  - intros r' o row. cbn. rewrite lookup_delete_Some. intros [Hne Hrow].
    destruct (Hobj _ _ _ Hrow) as [[]|[m Hm]]. right. exists m.
    apply (published_frame db); [cbn; by rewrite lookup_delete_ne| |done].
    intros z. cbn. destruct (object_chunks db !! (r', o, z)) as [x|] eqn:Hx.
    + apply map_lookup_filter_Some. split; [done|]. cbn. congruence.
    + apply map_lookup_filter_None. by left.
Qed.

(** Releasing one chunk settles its counter. *)
Lemma add_reference_release r c l now db db' :
  add_reference r c (-1) now db = Ok (tt, db') → core_upto (pending r (c :: l)) db →
  core_upto (pending r l) db' ∧ ∃ t, db' = with_chunks t db.
Proof.
  unfold add_reference. intros H []. destruct (chunks db !! (r, c)) as [row|] eqn:Hc.
  2:{ injection H as <-. split; [|exists (chunks db); by destruct db]. split; try done.
      intros r' c' row Hrow. rewrite (ok_refs _ _ _ Hrow), pending_cons, decide_False; [done|].
      intros [= -> ->]. by rewrite Hc in Hrow. }
  rewrite !require_ok in H. destruct H as (_ & _ & [= <-]). split; [|by eexists].
  assert (Hmono : ∀ k v, is_Some (chunks db !! k) → is_Some (<[(r, c) := v]> (chunks db) !! k)).
  { intros k v Hk. rewrite lookup_insert. by case_decide. }
  split; cbn; try done.
  - intros r' c' row'. rewrite (refs_frame db) by done. rewrite lookup_insert_Some.
    intros [[[= <- <-] <-]|[Hne Hrow]]; cbn.
    + rewrite (ok_refs _ _ _ Hc), pending_cons, decide_True by done. lia.
    + rewrite (ok_refs _ _ _ Hrow), pending_cons, decide_False; [done|congruence].
  - intros r' o z row' Hrow. by eapply Hmono, ok_oc_chunk.
  - intros s c' r' Hs. destruct (ok_usc _ _ _ Hs) as [? Hk]. auto.
  - intros r' c' row'. rewrite lookup_insert_Some.
    intros [[[= <- <-] <-]|[Hne Hrow]]; by eapply ok_chunk_ids.
Qed.

Lemma queue_core extra t db :
  (∀ r c x, t !! (r, c) = Some x → length c = 32%nat) →
  core_upto extra db → core_upto extra (with_chunk_gc_queue t db).
Proof. intros Ht []. by split. Qed.

Lemma enqueue_unreferenced_core extra r c now db db' :
  enqueue_unreferenced r c now db = Ok (tt, db') → core_upto extra db →
  core_upto extra db' ∧ ∃ t, db' = with_chunk_gc_queue t db.
Proof.
  assert (Hid : ∃ t, db = with_chunk_gc_queue t db) by (exists (chunk_gc_queue db); by destruct db).
  unfold enqueue_unreferenced. intros H Hok.
  destruct (chunks db !! (r, c)) as [row|] eqn:Hc; [|by injection H as <-].
  destruct (chunk_gc_queue db !! (r, c)) eqn:Hq; [by injection H as <-|].
  destruct (ck_reference_count row =? 0)%Z; [|by injection H as <-].
  rewrite require_ok in H. destruct H as (_ & [= <-]). split; [|by eexists].
  apply queue_core; [|done]. destruct Hok. intros r' c' x. rewrite lookup_insert_Some.
  intros [[[= <- <-] _]|[_ Hx]]; [by eapply ok_chunk_ids|by eapply ok_queue_ids].
Qed.

(** Changes that touch only the queue and the counters keep the objects. *)
Lemma objects_ok_chunks except t q db :
  objects_ok except db → objects_ok except (with_chunk_gc_queue q (with_chunks t db)).
Proof. by apply objects_ok_frame. Qed.

Lemma insert_tombstone_ok r oid secs now db db' :
  insert_tombstone r oid secs now db = Ok (tt, db') → db_ok db →
  db_ok db' ∧ db' = with_object_tombstones (object_tombstones db') db ∧
  object_tombstones db' !! (r, oid) = Some (default {| tb_delete_after := (now + secs * 1000000)%Z |}
                                             (object_tombstones db !! (r, oid))) ∧
  ∀ k, k ≠ (r, oid) → object_tombstones db' !! k = object_tombstones db !! k.
Proof.
  unfold insert_tombstone. rewrite require_ok. intros [_ H] Hok.
  destruct (object_tombstones db !! (r, oid)) as [x|] eqn:Hx.
  { injection H as <-. split_and!; [done|by destruct db|done|done]. }
  rewrite require_ok in H. destruct H as [Hfk [= <-]]. bool_hyps.
  split_and!; [|done|cbn; by rewrite lookup_insert_eq|intros k Hk; cbn; by rewrite lookup_insert_ne].
  destruct Hok as [[] Hobj]. split; [|by eapply objects_ok_frame]. split; cbn; try done.
  intros k row. rewrite lookup_insert_Some. intros [[<- _]|[_ Hrow]]; [done|by eapply ok_tombstones].
Qed.

(** *** Reclaiming *)

Lemma expire_repository_ok r now db : db_ok db →
  db_ok (with_upload_sessions (expire_repository_row now r <$> upload_sessions db) db).
Proof.
  apply (sessions_update_ok (λ _, expire_repository_row now r)).
  - intros s. by rewrite lookup_fmap.
  - intros _ row _. unfold expire_repository_row. by destruct (_ && _ && _).
Qed.

Lemma enqueue_abandoned_ok r secs now db db' :
  enqueue_abandoned r secs now db = Ok (tt, db') → db_ok db →
  db_ok db' ∧ ∃ q, db' = with_chunk_gc_queue q db.
Proof.
  unfold enqueue_abandoned. rewrite require_ok. intros [_ [= <-]] [Hcore Hobj].
  split; [|by eexists]. split; [|by eapply objects_ok_frame]. apply queue_core; [|done].
  destruct Hcore. intros r' c x. rewrite lookup_union_Some_raw, lookup_fmap.
  intros [Hx|[_ (row & Hrow & _)%fmap_Some]]; [by eapply ok_queue_ids|].
  apply map_lookup_filter_Some in Hrow as [Hrow _]. by eapply ok_chunk_ids.
Qed.

Lemma delete_stale_sessions_ok r secs now db n db' :
  delete_stale_sessions r secs now db = Ok (n, db') → db_ok db →
  db_ok db' ∧ (∃ t u, db' = with_upload_sessions t (with_upload_session_chunks u db)) ∧
  (∀ s, upload_sessions db' !! s = match upload_sessions db !! s with
     | Some row => if decide (us_repository_id row = r ∧ us_state row = Expired ∧
                              (us_expires_at row ≤ now - secs * 1000000)%Z)
                   then None else Some row
     | None => None end).
Proof.
  unfold delete_stale_sessions. rewrite require_ok. intros [_ [= <- <-]] Hok.
  split_and!; [|by eexists _, _|].
  - destruct Hok as [[] Hobj]. split; [|by eapply objects_ok_frame]. split; cbn; try done.
    + intros s c r' [Hs [srow Hk]]%map_lookup_filter_Some.
      destruct (ok_usc _ _ _ Hs) as [(srow' & Hsr & Hr) Hc]. split; [|done]. exists srow'.
      cbn in Hk. pose proof Hk as [Hk' _]%map_lookup_filter_Some. split; [congruence|done].
    + intros s s' row row' [Hs _]%map_lookup_filter_Some [Hs' _]%map_lookup_filter_Some.
      by eapply ok_one_open.
    + intros s row [Hs _]%map_lookup_filter_Some. by eapply ok_sessions.
  - intros s. cbn. rewrite map_lookup_filter.
    destruct (upload_sessions db !! s) as [row|]; [|done]. cbn.
    unfold stale. repeat case_guard; repeat case_decide; try done; exfalso;
      rewrite andb_true_iff, bool_decide_eq_true, Z.leb_le in *; tauto.
Qed.

(** *** Draining *)

Lemma delete_queued_ok r c now db db' :
  delete_queued r c now db = Ok (tt, db') → db_ok db →
  db_ok db' ∧ ∃ q, db' = with_chunk_gc_queue q db.
Proof.
  intros [= <-] [Hcore Hobj]. split; [|by eexists]. split; [|by eapply objects_ok_frame].
  apply queue_core; [|done]. destruct Hcore. intros r' c' x. rewrite lookup_delete_Some.
  intros [_ Hx]. by eapply ok_queue_ids.
Qed.

Lemma delete_chunk_row_ok r c now db db' :
  delete_chunk_row r c now db = Ok (tt, db') → db_ok db →
  db_ok db' ∧ ∃ t, db' = with_chunks t db.
Proof.
  assert (Hid : ∃ t, db = with_chunks t db) by (exists (chunks db); by destruct db).
  unfold delete_chunk_row. intros H Hok. destruct (chunks db !! (r, c)) as [row|] eqn:Hrow;
    [|by injection H as <-].
  destruct (ck_reference_count row =? 0)%Z; [|by injection H as <-].
  rewrite require_ok in H. destruct H as [Hfk [= <-]]. split; [|by eexists].
  unfold chunk_referenced in Hfk. bool_hyps.
  match goal with H : Nat.eqb _ _ = true |- _ => apply Nat.eqb_eq in H; rename H into Hz end.
  match goal with H : map_Forall _ _ |- _ => rename H into Husc end.
  rewrite refs_zero in Hz. destruct Hok as [[] Hobj]. split; [|by eapply objects_ok_frame].
  split; cbn; try done.
  - intros r' c' row'. rewrite (refs_frame db) by done. rewrite lookup_delete_Some.
    intros [_ Hr]. by apply ok_refs.
  - intros r' o z row' Hr. rewrite lookup_delete_ne; [by eapply ok_oc_chunk|].
    intros [= -> Hc]. by eapply Hz.
  - intros s c' r' Hs. destruct (ok_usc _ _ _ Hs) as [? Hk]. split; [done|].
    rewrite lookup_delete_ne; [done|]. intros [= -> ->]. by apply (Husc _ _ Hs).
  - intros r' c' row'. rewrite lookup_delete_Some. intros [_ Hr]. by eapply ok_chunk_ids.
Qed.

End StatementFacts.

(** ** Transactions *)

Section TransactionFacts.
  Context {St Json : Type} {object_store : ObjectStore St} {store_laws : ObjectStoreLaws St}
          {hex : HexCodec} {hex_laws : HexLaws} {uuid_text : UuidText} {uuid_laws : UuidTextLaws}
          {hashes : Hashes} {json : ManifestJson Json}.
  Implicit Types (db : Db Json) (w : World St Json).

Lemma triple_gsql {A} now (P : Db Json → Prop)
    (q : Z → Db Json → result SqlxError (A * Db Json)) Q :
  (∀ db a db', P db → q now db = Ok (a, db') → Q a db') →
  tx_triple (St:=St) now P (gsql q) Q.
Proof. apply triple_stmt. Qed.

Lemma triple_plain {A} now (P : Db Json → Prop)
    (q : Z → Db Json → result SqlxError (A * Db Json)) Q :
  (∀ db a db', P db → q now db = Ok (a, db') → Q a db') →
  tx_triple (St:=St) now P (stmt q) Q.
Proof.
  intros HQ w r w' Hn HP Hs. apply stmt_spec in Hs as (Hst & Hnow & Hr).
  split_and!; [done|congruence|]. intros a ->. eapply HQ; [done|]. by rewrite <- Hn.
Qed.

(** *** Collection *)

(** The tables after the object has been collected from [db0]. *)
Definition collected (r : Uuid) (oid : bytes) db0 db : Prop :=
  db_ok db ∧ ∃ t q, db = with_chunk_gc_queue q (with_chunks t
    (with_objects (delete (r, oid) (objects db0))
      (with_object_chunks
        (filter (λ kv : Uuid * bytes * Z * ObjectChunkRow, kv.1.1 ≠ (r, oid)) (object_chunks db0))
        (with_object_tombstones (delete (r, oid) (object_tombstones db0)) db0)))).

Lemma release_chunk_triple now r c l db1 :
  tx_triple (St:=St) now
    (λ db, core_upto (pending r (c :: l)) db ∧ ∃ t q, db = with_chunk_gc_queue q (with_chunks t db1))
    (release_chunk r c)
    (λ _ db, core_upto (pending r l) db ∧ ∃ t q, db = with_chunk_gc_queue q (with_chunks t db1)).
Proof.
  unfold release_chunk. eapply (triple_bind _ _ (λ _ db, core_upto (pending r l) db ∧
    ∃ t q, db = with_chunk_gc_queue q (with_chunks t db1))).
  - apply triple_gsql. intros db [] db' [Hc (t & q & ->)] H.
    apply (add_reference_release r c l) in H as [Hc' [u ->]]; [|done].
    split; [done|]. by exists u, q.
  - intros ?. apply triple_gsql. intros db [] db' [Hc (t & q & ->)] H.
    eapply enqueue_unreferenced_core in H as [Hc' [u ->]]; [|done].
    split; [done|]. by exists t, u.
Qed.

Lemma pending_nil_core r db : core_upto (pending r []) db → core_ok db.
Proof.
  intros []. split; try done. intros r' c row Hrow. rewrite (ok_refs _ _ _ Hrow).
  unfold pending. by case_decide.
Qed.

Lemma release_loop_triple now r l db1 :
  tx_triple (St:=St) now
    (λ db, core_upto (pending r l) db ∧ db = db1)
    (for_each l (release_chunk r))
    (λ _ db, core_ok db ∧ ∃ t q, db = with_chunk_gc_queue q (with_chunks t db1)).
Proof.
  eapply triple_conseq; [apply (triple_for_each now (λ pre db, ∃ rest, l = pre ++ rest ∧
    core_upto (pending r rest) db ∧ ∃ t q, db = with_chunk_gc_queue q (with_chunks t db1)))| |].
  - intros pre c post ->. intros w res w' Hn (rest & Heq & Hc & Hf) Hrun.
    apply app_inv_head in Heq as <-.
    destruct (release_chunk_triple now r c post db1 w res w' Hn (conj Hc Hf) Hrun) as (H1 & H2 & H3).
    split_and!; [done|done|]. intros a Ha. destruct (H3 a Ha). exists post.
    by rewrite <- app_assoc.
  - intros db [Hc ->]. exists l. split_and!; [done|done|].
    exists (chunks db1), (chunk_gc_queue db1). by destruct db1.
  - intros _ db (rest & Heq & Hc & Hf). rewrite <- (app_nil_r l) in Heq at 1.
    apply app_inv_head in Heq as <-. split; [by eapply pending_nil_core|done].
Qed.

Lemma collect_object_triple now r oid db0 :
  db_ok db0 →
  tx_triple (St:=St) now (eq db0)
    (let! _ := gsql (delete_object r oid) in
     let! _ := for_each (select_object_chunks r oid db0) (release_chunk r) in mret true)
    (λ more db, more = true ∧ collected r oid db0 db).
Proof.
  intros Hok. eapply (triple_bind _ _ (λ _ db, delete_object r oid now db0 = Ok (tt, db))).
  { apply triple_gsql. by intros ? [] ? <- H. }
  intros _ w res w' Hn Hdel.
  destruct (delete_object_core r oid now db0 (w_db w) Hdel Hok) as [Hcore Hobj].
  refine (triple_bind now (λ db, core_upto (pending r (select_object_chunks r oid db0)) db ∧ db = w_db w)
    (λ _ db, core_ok db ∧ ∃ t q, db = with_chunk_gc_queue q (with_chunks t (w_db w)))
    (λ more db, more = true ∧ collected r oid db0 db)
    _ _ (release_loop_triple now r _ (w_db w)) _ w res w' Hn (conj Hcore eq_refl)).
  intros _. apply triple_ret. intros db [Hc (t & q & ->)]. split; [done|].
  split; [split; [done|by apply objects_ok_chunks]|].
  exists t, q. by injection Hdel as <-.
Qed.

Lemma collect_one_triple now r db0 :
  db_ok db0 →
  tx_triple (St:=St) now (eq db0) (collect_one r) (λ more db,
    match select_due r now db0 with
    | None => more = false ∧ db = db0
    | Some oid => more = true ∧ collected r oid db0 db
    end).
Proof.
  intros Hok. unfold collect_one.
  eapply (triple_bind _ _ (λ _, eq db0)); [by apply triple_gsql; intros ? ? ? <- [= <-]|].
  intros ?. eapply (triple_bind _ _ (λ o db, db0 = db ∧ o = select_due r now db0)).
  { by apply triple_gsql; intros ? ? ? <- [= <- <-]. }
  intros [oid|].
  - eapply (triple_bind _ _ (λ l db, db0 = db ∧ Some oid = select_due r now db0 ∧
      l = select_object_chunks r oid db0)).
    { by apply triple_gsql; intros ? ? ? [<- ?] [= <- <-]. }
    intros l w res w' Hn (Hd & <- & ->). by apply collect_object_triple.
  - apply triple_ret. by intros db [-> <-].
Qed.

(** *** Staging *)

(** Only tombstones are added, and every candidate has one. *)
Definition staged (now : Z) (r : Uuid) (secs : Z) (l : list GcCandidate) db0 db : Prop :=
  db_ok db ∧ db = with_object_tombstones (object_tombstones db) db0 ∧
  (∀ c, c ∈ l → object_tombstones db0 !! (r, ObjectOid_as_bytes (gc_oid c)) = None →
     object_tombstones db !! (r, ObjectOid_as_bytes (gc_oid c)) =
       Some {| tb_delete_after := (now + secs * 1000000)%Z |}) ∧
  (∀ k, object_tombstones db !! k = object_tombstones db0 !! k ∨
     object_tombstones db0 !! k = None ∧ ∃ c, c ∈ l ∧ k = (r, ObjectOid_as_bytes (gc_oid c))).

Lemma stage_triple now r secs l db0 :
  db_ok db0 →
  tx_triple (St:=St) now (eq db0) (stage_tx r secs l) (λ _, staged now r secs l db0).
Proof.
  intros Hok. eapply triple_conseq;
    [apply (triple_for_each now (λ pre, staged now r secs pre db0))| |done].
  - intros pre c post _. apply triple_plain. intros db [] db' (Hdb & Heq & Hin & Hother) H.
    apply insert_tombstone_ok in H as (Hdb' & Heq' & Hhas & Hsame); [|done].
    split_and!; [done|by rewrite Heq', Heq| |].
    + intros d Hd Hn. destruct (decide ((r, ObjectOid_as_bytes (gc_oid d)) =
        (r, ObjectOid_as_bytes (gc_oid c)))) as [Heqd|Hne].
      * rewrite Heqd in *. rewrite Hhas. f_equal.
        destruct (Hother (r, ObjectOid_as_bytes (gc_oid c))) as [Ho|[_ (d' & Hd' & Hk)]];
          [by rewrite Ho, Hn|]. rewrite Hk in Hn |- *. by rewrite (Hin d' Hd' Hn).
      * rewrite Hsame by done. apply elem_of_app in Hd as [Hd|Hd%list_elem_of_singleton];
          [by apply Hin|congruence].
    + intros k. destruct (decide (k = (r, ObjectOid_as_bytes (gc_oid c)))) as [->|Hne].
      * destruct (Hother (r, ObjectOid_as_bytes (gc_oid c))) as [Ho|[Hn (d & Hd & Hk)]].
        -- destruct (object_tombstones db0 !! (r, ObjectOid_as_bytes (gc_oid c))) as [x|] eqn:Hx.
           ++ left. by rewrite Hhas, Ho.
           ++ right. split; [done|]. exists c. split; [|done]. apply elem_of_app. right. by left.
        -- right. split; [done|]. exists d. split; [|done]. apply elem_of_app. by left.
      * rewrite Hsame by done. destruct (Hother k) as [|[Hn (d & Hd & Hk)]]; [by left|right].
        split; [done|]. exists d. split; [|done]. apply elem_of_app. by left.
  - intros db <-. split_and!; [done|by destruct db0| |intros k; by left].
    intros c Hc. by apply elem_of_nil in Hc.
Qed.

(** *** Reclaiming expired uploads *)

Definition reclaimed (r : Uuid) (limit now : Z) db0 db : Prop :=
  db_ok db ∧ objects db = objects db0 ∧ object_chunks db = object_chunks db0 ∧
  chunks db = chunks db0 ∧ ∀ s, upload_sessions db !! s =
    match upload_sessions db0 !! s with
    | Some row =>
        let row := expire_repository_row now r row in
        if decide (us_repository_id row = r ∧ us_state row = Expired ∧
                   (us_expires_at row ≤ limit)%Z) then None else Some row
    | None => None
    end.

Lemma reclaim_triple now r secs db0 :
  db_ok db0 →
  tx_triple (St:=St) now (eq db0) (reclaim_tx r secs)
    (λ _, reclaimed r (now - secs * 1000000)%Z now db0).
Proof.
  intros Hok. unfold reclaim_tx.
  eapply (triple_bind _ _ (λ _ db, db_ok db ∧ db = with_upload_sessions
    (expire_repository_row now r <$> upload_sessions db0) db0)).
  { apply triple_gsql. intros db [] db' <- [= <-]. split; [by apply expire_repository_ok|done]. }
  intros ?. eapply (triple_bind _ _ (λ _ db, db_ok db ∧ ∃ q, db = with_chunk_gc_queue q
    (with_upload_sessions (expire_repository_row now r <$> upload_sessions db0) db0))).
  { apply triple_gsql. intros db [] db' [Hdb Heq] H.
    apply enqueue_abandoned_ok in H as [Hdb' [q ->]]; [|done].
    split; [done|]. exists q. by rewrite Heq. }
  intros ?. apply triple_gsql. intros db n db' [Hdb [q Heq]] H.
  apply delete_stale_sessions_ok in H as (Hdb' & (t & u & Hfr) & Hs); [|done].
  split_and!; [done|by rewrite Hfr, Heq..|].
  intros s. rewrite Hs, Heq. cbn. rewrite lookup_fmap. by destruct (upload_sessions db0 !! s).
Qed.

(** *** Snapshots *)

Lemma snapshot_frame e o db :
  db_ok db → db_ok (with_reachability_epochs e (with_reachable_objects o db)).
Proof. intros [[] Hobj]. split; [by split|by eapply objects_ok_frame]. Qed.

(** A recorded epoch: complete, at the time of the transaction, with exactly
    the submitted objects; everything else is as before. *)
Definition recorded (now : Z) (s : ReachabilitySnapshot) db0 (epoch : Uuid) db : Prop :=
  reachability_epochs db0 !! epoch = None ∧ NoDup (rs_reachable_objects s) ∧
  db = with_reachability_epochs
         (<[epoch := {| ep_repository_id := rs_repository_id s;
                        ep_ref_fingerprint := rs_ref_fingerprint s;
                        ep_complete := true; ep_completed_at := Some now |}]> (reachability_epochs db0))
         (with_reachable_objects (reachable_objects db) db0) ∧
  ∀ e o, (e, o) ∈ reachable_objects db ↔
    (e, o) ∈ reachable_objects db0 ∨ e = epoch ∧ o ∈ ObjectOid_as_bytes <$> rs_reachable_objects s.

Definition recording (now : Z) (s : ReachabilitySnapshot) db0 (epoch : Uuid)
    (l : list ObjectOid) db : Prop :=
  reachability_epochs db0 !! epoch = None ∧ NoDup l ∧
  db = with_reachability_epochs
         (<[epoch := {| ep_repository_id := rs_repository_id s;
                        ep_ref_fingerprint := rs_ref_fingerprint s;
                        ep_complete := false; ep_completed_at := None |}]> (reachability_epochs db0))
         (with_reachable_objects (reachable_objects db) db0) ∧
  ∀ e o, (e, o) ∈ reachable_objects db ↔
    (e, o) ∈ reachable_objects db0 ∨ e = epoch ∧ o ∈ ObjectOid_as_bytes <$> l.

Lemma snapshot_triple now s db0 :
  tx_triple (St:=St) now (eq db0) (snapshot_tx s) (recorded now s db0).
Proof.
  unfold snapshot_tx. eapply triple_bind; [apply triple_new_v4|]. intros epoch.
  eapply (triple_bind _ _ (λ _, recording now s db0 epoch [])).
  { apply triple_plain. intros db [] db' <- H. unfold insert_epoch in H.
    rewrite !require_ok in H. destruct H as (Hfresh & _ & [= <-]). bool_hyps.
    split_and!; [done|constructor|by destruct db0|].
    intros e o. cbn. split; [by left|]. by intros [|[_ Ho%elem_of_nil]]. }
  intros ?. eapply triple_bind.
  { apply (triple_for_each now (recording now s db0 epoch)). intros pre x post _.
    apply triple_plain. intros db [] db' (Hf & Hnd & Heq & Hin) H. unfold insert_reachable in H.
    rewrite !require_ok in H. destruct H as (_ & Hnew & _ & [= <-]). bool_hyps.
    split_and!; [done| | |].
    - apply NoDup_app. split_and!; [done| |apply NoDup_singleton].
      intros y Hy ->%list_elem_of_singleton. apply Hnew, Hin. right. split; [done|].
      by apply list_elem_of_fmap_2.
    - by rewrite Heq.
    - intros e o. cbn. rewrite elem_of_union, elem_of_singleton, Hin, fmap_app, elem_of_app.
      cbn. rewrite list_elem_of_singleton. naive_solver. }
  intros ?. eapply (triple_bind _ _ (λ _, recorded now s db0 epoch)).
  { apply triple_plain. intros db [] db' (Hf & Hnd & Heq & Hin) [= <-].
    split_and!; [done|done| |done]. rewrite Heq. cbn. by rewrite alter_insert_eq. }
  intros ?. by apply triple_ret.
Qed.

End TransactionFacts.
