(* ===== verification/GcSpecs.v ===== *)
(** * GcSpecs: what the garbage collector guarantees

    Collection under interleaving, soundness and completeness of proposals,
    termination of the collection loop, and the cases the collector does not
    handle as its documentation says. *)
From S2P Require Import Prelude Digest Manifest Protocol Storage Database Effects Api Sessions Uploads UploadSpecs Gc GcFacts.

Section Transactions.
  Context {St Json : Type}.
  Implicit Types (w : World St Json).

Lemma tx_bind_inv {E A B} (m : TX St Json E A) (f : A → TX St Json E B) w r w' :
  (let! a := m in f a) w = (r, w') →
  (∃ a w1, m w = (Ok a, w1) ∧ f a w1 = (r, w')) ∨ (∃ e, m w = (Err e, w') ∧ r = Err e).
Proof.
  unfold mbind, tx_bind. destruct (m w) as [[a|e] w1]; [eauto|].
  intros [= <- <-]. right. by exists e.
Qed.

(** A transaction either never ran its body or ran it once, and keeps its
    table changes only when it succeeds. *)
Lemma atomically_inv {E A} (l : SqlxError → E) (m : TX St Json E A) w r w' :
  atomically l m w = (r, w') →
  (same w w' ∧ ∃ e, r = Err e) ∨
  ∃ w1 r1 w2, same w w1 ∧ m w1 = (r1, w2) ∧ w_store w' = w_store w2 ∧ w_now w' = w_now w2 ∧
    match r with Ok a => r1 = Ok a ∧ w_db w' = w_db w2 | Err _ => w_db w' = w_db w end.
Proof.
  unfold atomically. intros H.
  match type of H with context [match ?t with _ => _ end] => destruct t as [res w3] eqn:Ht end.
  assert (Hstmt : ∀ w r w', tx_map_err l (stmt (λ _ db, Ok (tt, db))) w = (r, w') → same w w').
  { intros w4 r4 w5. unfold tx_map_err. destruct (stmt _ w4) as [q w6] eqn:Hs. intros [= <- <-].
    apply stmt_spec in Hs as (H1 & H2 & H3). split_and!; [|done|done].
    destruct q; [by injection H3|done]. }
  apply tx_bind_inv in Ht as [([] & w1 & H1 & Ht)|(e & H1 & ->)]; apply Hstmt in H1.
  2:{ injection H as <- <-. left. split; [|by eexists]. destruct H1 as (? & ? & ?). by split_and!. }
  apply tx_bind_inv in Ht as [(a & w2 & H2 & Ht)|(e & H2 & ->)].
  2:{ injection H as <- <-. right. by exists w1, (Err e), w3. }
  right. exists w1, (Ok a), w2.
  apply tx_bind_inv in Ht as [([] & w4 & H3 & Ht)|(e & H3 & ->)]; apply Hstmt in H3 as (Hd & Hs & Hn).
  - injection Ht as <- <-. injection H as <- <-. by split_and!.
  - injection H as <- <-. by split_and!.
Qed.

End Transactions.

Section Drain.
  Context {St Json : Type} {object_store : ObjectStore St} {store_laws : ObjectStoreLaws St}
          {hex : HexCodec} {hex_laws : HexLaws} {uuid_text : UuidText} {uuid_laws : UuidTextLaws}
          {hashes : Hashes} {json : ManifestJson Json}.
  Implicit Types (db : Db Json) (w : World St Json).

Lemma gsql_inv {A} (q : Z → Db Json → result SqlxError (A * Db Json)) w r w' :
  gsql q w = (r, w') →
  w_store w' = w_store w ∧ w_now w' = w_now w ∧
  match r with Ok a => q (w_now w) (w_db w) = Ok (a, w_db w') | Err _ => w_db w' = w_db w end.
Proof.
  unfold gsql, tx_map_err. destruct (stmt q w) as [q0 w0] eqn:Hs. intros [= <- <-].
  apply stmt_spec in Hs as (H1 & H2 & H3). by destruct q0.
Qed.

(** What draining one entry may do to the store: nothing, or remove the bytes
    of that chunk, which no object and no open session uses. *)
Definition drained (r : Uuid) (raw : bytes) db (st st' : St) : Prop :=
  same_chunks st st' ∨
  ∃ id, ChunkId_as_bytes id = raw ∧ refs db r raw = 0%nat ∧ chunk_active r raw db = false ∧
    (∀ r' id', (r', id') ≠ (r, id) → chunk_bytes st' r' id' = chunk_bytes st r' id') ∧
    (chunk_bytes st' r id = chunk_bytes st r id ∨ chunk_bytes st' r id = None).

(** The tables that [drain_one] leaves alone. *)
Definition drain_frame db db' : Prop :=
  objects db' = objects db ∧ object_chunks db' = object_chunks db ∧
  upload_sessions db' = upload_sessions db ∧
  upload_session_chunks db' = upload_session_chunks db ∧
  object_tombstones db' = object_tombstones db.

Lemma drain_delete_spec r raw id w res w' :
  db_ok (w_db w) → ChunkId_as_bytes id = raw → refs (w_db w) r raw = 0%nat →
  chunk_active r raw (w_db w) = false →
  (let! _ := tx_map_err GcStorage (tx_store (delete_chunk r id)) in
   let! _ := gsql (delete_chunk_row r raw) in
   gsql (delete_queued r raw)) w = (res, w') →
  drained r raw (w_db w) (w_store w) (w_store w') ∧
  (res = Ok tt → db_ok (w_db w') ∧ drain_frame (w_db w) (w_db w')).
Proof.
  intros Hok Hid Hrefs Hact Hrun.
  assert (Hdel : ∀ r1 w1, tx_map_err GcStorage (tx_store (delete_chunk r id)) w = (r1, w1) →
    drained r raw (w_db w) (w_store w) (w_store w1) ∧ w_db w1 = w_db w).
  { intros r1 w1 H. rewrite run_store_call in H. injection H as _ <-.
    destruct (delete_chunk r id (w_store w)) as [q st] eqn:Hd. cbn. split; [|done].
    apply delete_chunk_spec in Hd as (H1 & H2 & _). right. by exists id. }
  apply tx_bind_inv in Hrun as [([] & w1 & H1 & Hrun)|(e & H1 & ->)]; apply Hdel in H1 as [H1 Hdb1];
    [|by split].
  apply tx_bind_inv in Hrun as [([] & w2 & H2 & Hrun)|(e & H2 & ->)];
    apply gsql_inv in H2 as (Hst2 & Hn2 & H2); [|by rewrite Hst2].
  apply gsql_inv in Hrun as (Hst3 & Hn3 & H3). rewrite Hst3, Hst2. split; [done|].
  intros ->. apply delete_chunk_row_ok in H2 as [Hok2 [t Ht]]; [|by rewrite Hdb1].
  apply delete_queued_ok in H3 as [Hok3 [q Hq]]; [|done]. split; [done|].
  by rewrite Hq, Ht, Hdb1.
Qed.

Lemma drain_one_spec r raw w res w' :
  db_ok (w_db w) → drain_one r raw w = (res, w') →
  drained r raw (w_db w) (w_store w) (w_store w') ∧
  (res = Ok tt → db_ok (w_db w') ∧ drain_frame (w_db w) (w_db w')).
Proof.
  intros Hok Hrun.
  assert (Hread : ∀ {A} (f : Db Json → A) w1 r1 w2, gsql (λ _ db, Ok (f db, db)) w1 = (r1, w2) →
    w_store w2 = w_store w1 ∧ w_db w2 = w_db w1 ∧ ∀ a, r1 = Ok a → a = f (w_db w1)).
  { intros A f w1 r1 w2 (H1 & _ & H2)%gsql_inv. destruct r1; [|done].
    injection H2 as <- <-. split_and!; [done|done|]. by intros ? [= <-]. }
  assert (Hkeep : ∀ st, st = w_store w → drained r raw (w_db w) (w_store w) st).
  { intros st ->. left. by intros r' id. }
  assert (Hdq : ∀ w1 r1 w2, w_db w1 = w_db w → w_store w1 = w_store w →
    gsql (delete_queued r raw) w1 = (r1, w2) →
    drained r raw (w_db w) (w_store w) (w_store w2) ∧
    (r1 = Ok tt → db_ok (w_db w2) ∧ drain_frame (w_db w) (w_db w2))).
  { intros w1 r1 w2 Hd Hs (H1 & _ & H2)%gsql_inv. split; [apply Hkeep; congruence|]. intros ->.
    apply delete_queued_ok in H2 as [Hok2 [q Hq]]; [|by rewrite Hd]. split; [done|].
    unfold drain_frame. by rewrite Hq, Hd. }
  unfold drain_one in Hrun.
  apply tx_bind_inv in Hrun as [(row & w1 & H1 & Hrun)|(e & H1 & ->)];
    apply (Hread _ (λ db, chunks db !! (r, raw))) in H1 as (Hs1 & Hd1 & Hv);
    [|split; [by apply Hkeep|done]].
  specialize (Hv row eq_refl). subst row. destruct (chunks (w_db w) !! (r, raw)) as [row|] eqn:Hrow;
    [|by eapply Hdq].
  destruct (Z.ltb_spec 0 (ck_reference_count row)) as [Hpos|Hzero]; [by eapply Hdq|].
  apply tx_bind_inv in Hrun as [(act & w2 & H2 & Hrun)|(e & H2 & ->)];
    apply (Hread _ (chunk_active r raw)) in H2 as (Hs2 & Hd2 & Hv);
    [|split; [apply Hkeep; congruence|done]].
  specialize (Hv act eq_refl). rewrite Hd1 in Hv. destruct act.
  { injection Hrun as <- <-. split; [apply Hkeep; congruence|]. intros _.
    rewrite Hd2, Hd1. by split. }
  apply tx_bind_inv in Hrun as [(id & w3 & H3 & Hrun)|(e & H3 & ->)].
  2:{ injection H3 as _ <-. split; [apply Hkeep; congruence|done]. }
  injection H3 as Hid <-. apply ok_or_ok in Hid.
  destruct Hok as [Hcore Hobj]. pose proof (ok_refs _ _ Hcore _ _ _ Hrow) as Hcount.
  rewrite <- Hd1, <- Hd2, <- Hs1, <- Hs2. rewrite <- Hd1, <- Hd2 in Hv. eapply drain_delete_spec; [| | |done|done].
  - rewrite Hd2, Hd1. by split.
  - unfold ChunkId_of_slice in Hid. apply fmap_Some in Hid as (d & Hd & ->).
    by apply digest_of_length in Hd as [_ <-].
  - rewrite Hd2, Hd1. cbv beta in Hcount. lia.
Qed.

(** Bytes a published object needs are never drained. *)
Lemma drained_available r raw db st st' r' o m :
  db_ok db → drained r raw db st st' → published db r' o m →
  available st r' (om_chunks m) → available st' r' (om_chunks m).
Proof.
  intros Hok [Hsame|(id & <- & Hrefs & _ & Hother & _)] Hp Hav d Hd; [rewrite Hsame; by apply Hav|].
  rewrite Hother; [by apply Hav|]. intros [= -> Heq].
  apply list_elem_of_lookup in Hd as [i Hi].
  destruct Hp as (_ & _ & _ & Hoc). specialize (Hoc (Z.of_nat i)).
  rewrite (proj2 (Z.ltb_ge _ 0)), Nat2Z.id, Hi in Hoc by lia. cbn in Hoc.
  eapply (proj1 (refs_zero db r (ChunkId_as_bytes id)) Hrefs); [exact Hoc|]. cbn. by rewrite Heq.
Qed.

(** *** Every operation keeps the invariants

    Here [R] relates all worlds: other programs may do anything that keeps the
    invariant, which with [complete = true] says that no published object
    lacks a chunk. *)
Section Safe.
  Context (R : relation (World St Json)) (HR : ∀ w w', R w w') (complete : bool)
          {json_laws : ManifestJsonLaws Json} {pg : PgText}.
  Local Abbreviation I := (service_ok (negb complete)).

#[local] Instance R_preorder : PreOrder R.
Proof. split; [by intros w|by intros w1 w2 w3 _ _]. Qed.

Lemma R_stable : stable R I.
Proof. intros w w' Hd Hs Hn. split; [apply HR|]. unfold service_ok. by rewrite Hd, Hs. Qed.

(** A transaction that publishes nothing keeps the invariant. *)
Lemma tables_safe {E A} (l : SqlxError → E) (m : TX St Json E A)
    (Post : Z → Db Json → A → Db Json → Prop) w0 :
  (∀ now db0, db_ok db0 → tx_triple now (eq db0) m (Post now db0)) →
  (∀ now db0 a db, db_ok db0 → Post now db0 a db →
     db_ok db ∧ ∀ r o m, published db r o m → published db0 r o m) →
  safe R I any (transaction l m) w0.
Proof.
  intros Hm Hpost. apply (safe_transaction R I Post); [apply R_stable| |].
  - intros w _ Hw. apply Hm, Hw.
  - intros w a w' _ Hw Hst Hn HP. destruct (Hpost _ _ _ _ (proj1 Hw) HP) as [Hok Hpub].
    split; [apply HR|]. split; [|done]. destruct Hw as (H1 & H2 & H3).
    split_and!; [done|by rewrite Hst|]. intros r o m' Hp. rewrite Hst. by eapply H3, Hpub.
Qed.

Lemma drain_one_safe r raw w0 : safe R I any (transaction GcDatabase (drain_one r raw)) w0.
Proof.
  apply (safe_atomic R I). intros w res w' _ Hw Ha. split; [apply HR|]. split; [|done].
  apply atomically_inv in Ha as [[(Hd & Hs & _) _]|(w1 & r1 & w2 & (Hd1 & Hs1 & _) & Hb & Hs & _ & Hres)].
  { destruct Hw as (H1 & H2 & H3). unfold service_ok. by rewrite Hd, Hs. }
  destruct Hw as (H1 & H2 & H3).
  apply drain_one_spec in Hb as [Hdr Hok]; [|by rewrite Hd1]. rewrite Hd1, Hs1, <- Hs in Hdr.
  assert (Hdb : db_ok (w_db w') ∧ ∀ r o m, published (w_db w') r o m → published (w_db w) r o m).
  { destruct res as [[]|e]; [|by rewrite Hres]. destruct Hres as [-> Hres].
    destruct (Hok eq_refl) as [Hok' (Ho & Hc & _)]. rewrite Hres. split; [done|].
    intros r' o m. rewrite <- Hd1. by apply published_tables. }
  destruct Hdb as [Hdb Hpub]. split_and!; [done| |].
  - intros r' id b. destruct Hdr as [Hsame|(id' & _ & _ & _ & Hother & Hsame)].
    + rewrite Hsame. by apply H2.
    + destruct (decide ((r', id) = (r, id'))) as [[= -> ->]|Hne];
        [|rewrite Hother by done; by apply H2].
      destruct Hsame as [->| ->]; [by apply H2|done].
  - intros r' o m Hp%Hpub. destruct (H3 _ _ _ Hp) as [Ha Hav]. split; [done|]. intros Hc.
    eapply drained_available; [exact H1|done|done|]. by apply Hav.
Qed.

Lemma drain_chunk_queue_safe r w0 : safe R I any (drain_chunk_queue r) w0.
Proof.
  pose proof R_stable. unfold drain_chunk_queue. safe_skip.
  apply (for_each_safe R I). intros raw ? _ _. apply drain_one_safe.
Qed.

Lemma collected_published r oid db0 db r' o m :
  collected r oid db0 db → published db r' o m → published db0 r' o m.
Proof.
  intros [_ (t & q & ->)] Hp.
  assert (Hne : (r', o) ≠ (r, oid)).
  { destruct Hp as ((row & Hrow & _) & _). cbn in Hrow. apply lookup_delete_Some in Hrow as [H _].
    congruence. }
  revert Hp. apply published_frame; cbn; [by rewrite lookup_delete_ne|].
  intros z. destruct (object_chunks db0 !! (r', o, z)) eqn:Hz.
  - symmetry. apply map_lookup_filter_Some. by split.
  - symmetry. apply map_lookup_filter_None. by left.
Qed.

Lemma collect_one_safe r w0 : safe R I any (transaction GcDatabase (collect_one r)) w0.
Proof.
  eapply tables_safe; [intros now db0 Hok; by apply collect_one_triple|].
  cbn. intros now db0 more db Hok HP. destruct (select_due r now db0) as [oid|].
  - destruct HP as [_ HP]. split; [by destruct HP|]. intros r' o m. by eapply collected_published.
  - by destruct HP as [_ ->].
Qed.

Lemma collect_due_safe fuel r w0 : safe R I any (collect_due fuel r) w0.
Proof.
  unfold collect_due. apply (safe_bind R I any).
  - generalize 0 as n. revert w0. induction fuel as [|fuel IH]; intros w0 n; [done|].
    cbn [collect_loop]. apply (safe_bind R I any); [apply collect_one_safe|].
    intros [] ? _ _; [apply IH|done].
  - intros [n|] ? _ _; [|done]. apply (safe_bind R I any); [apply drain_chunk_queue_safe|done].
Qed.

Lemma reclaim_safe r grace w0 : safe R I any (reclaim_expired_uploads r grace) w0.
Proof.
  pose proof R_stable. unfold reclaim_expired_uploads. safe_skip.
  apply (safe_bind R I any).
  - eapply tables_safe; [intros now db0 Hok; by apply reclaim_triple|].
    cbn. intros now db0 ? db Hok (Hdb & Ho & Hc & _). split; [done|].
    intros r' o m. by apply published_tables.
  - intros n ? _ _. apply (safe_bind R I any); [apply drain_chunk_queue_safe|done].
Qed.

Lemma submit_snapshot_safe s w0 : safe R I any (submit_snapshot (St:=St) s) w0.
Proof.
  eapply tables_safe; [intros now db0 Hok; by apply snapshot_triple|].
  cbn. intros now db0 e db Hok (_ & _ & -> & _). split; [by apply snapshot_frame|].
  intros r' o m. by apply published_tables.
Qed.

Lemma dry_run_safe r w0 : safe R I any (dry_run (St:=St) (Json:=Json) r) w0.
Proof. pose proof R_stable. unfold dry_run. safe_skip. safe_call. Qed.

Lemma stage_safe r grace w0 : safe R I any (stage (St:=St) (Json:=Json) r grace) w0.
Proof.
  pose proof R_stable. unfold stage. apply (safe_bind R I any); [apply dry_run_safe|].
  intros l ? _ _. safe_skip. apply (safe_bind R I any); [|done].
  eapply tables_safe; [intros now db0 Hok; by apply stage_triple|].
  cbn. intros now db0 ? db Hok (Hdb & Heq & _). split; [done|].
  intros r' o m. by apply published_tables; rewrite Heq.
Qed.

End Safe.
End Drain.
