(* ===== verification/GcProps.v ===== *)
(** * GcProps: the theorems about garbage collection *)
From S2P Require Import Prelude Digest Manifest Protocol Storage Database Effects Api Sessions Uploads UploadSpecs Gc GcFacts GcSpecs.

(** ** The two newest complete snapshots *)

Section Epochs.
  Context {Json : Type}.
  Implicit Types (db : Db Json).

#[export] Instance epoch_first_total : Total epoch_first.
Proof.
  intros [i a] [j b]. unfold epoch_first. cbn.
  destruct (ep_completed_at a), (ep_completed_at b); auto; lia.
Qed.

#[export] Instance epoch_first_trans : Transitive epoch_first.
Proof.
  intros [i a] [j b] [k c]. unfold epoch_first. cbn.
  destruct (ep_completed_at a), (ep_completed_at b), (ep_completed_at c); try done; lia.
Qed.

Lemma epoch_first_antisym a b : epoch_first a b → epoch_first b a → a.1 = b.1.
Proof.
  destruct a as [i a], b as [j b]. unfold epoch_first. cbn.
  destruct (ep_completed_at a), (ep_completed_at b); try done; intros; apply uuid_value_inj; lia.
Qed.

(** [e1] and [e2] are the two newest complete epochs of [r]. *)
Definition two_newest db (r e1 e2 : Uuid) : Prop :=
  ∃ x1 x2, (e1, x1) ∈ complete_epochs r db ∧ (e2, x2) ∈ complete_epochs r db ∧ e1 ≠ e2 ∧
    epoch_first (e1, x1) (e2, x2) ∧
    ∀ e x, (e, x) ∈ complete_epochs r db → e ≠ e1 → e ≠ e2 → epoch_first (e2, x2) (e, x).

Lemma complete_epochs_spec r db e x :
  (e, x) ∈ complete_epochs r db ↔
  reachability_epochs db !! e = Some x ∧ ep_repository_id x = r ∧ ep_complete x = true.
Proof. unfold complete_epochs. rewrite list_elem_of_filter, elem_of_map_to_list. cbn. tauto. Qed.

Lemma complete_epochs_fun r db e x y :
  (e, x) ∈ complete_epochs r db → (e, y) ∈ complete_epochs r db → x = y.
Proof. rewrite !complete_epochs_spec. intros [H _] [H' _]. congruence. Qed.

Lemma complete_epochs_nodup r db : NoDup (complete_epochs r db).*1.
Proof.
  unfold complete_epochs. eapply (sublist_NoDup _ (map_to_list (reachability_epochs db)).*1).
  - apply NoDup_fst_map_to_list.
  - apply fmap_sublist, sublist_filter.
Qed.

Lemma two_newest_latest db r e1 e2 : two_newest db r e1 e2 ↔ latest r db = [e1; e2].
Proof.
  unfold latest.
  pose proof (merge_sort_Permutation epoch_first (complete_epochs r db)) as Hperm.
  pose proof (StronglySorted_merge_sort epoch_first (complete_epochs r db)) as Hsort.
  assert (Hin : ∀ p, p ∈ merge_sort epoch_first (complete_epochs r db) ↔ p ∈ complete_epochs r db)
    by (intros p; by rewrite Hperm).
  assert (Hnd : NoDup (merge_sort epoch_first (complete_epochs r db)).*1)
    by (rewrite Hperm; apply complete_epochs_nodup).
  destruct (merge_sort epoch_first (complete_epochs r db)) as [|[f1 y1] [|[f2 y2] l]] eqn:Hl.
  - split; [|done]. intros (x1 & x2 & H1 & _). apply Hin in H1. by apply elem_of_nil in H1.
  - split; [|done]. intros (x1 & x2 & H1 & H2 & Hne & _). apply Hin in H1, H2.
    rewrite list_elem_of_singleton in H1, H2. congruence.
  - cbn. rewrite firstn_O. apply StronglySorted_inv in Hsort as [Hsort Hfst].
    apply StronglySorted_inv in Hsort as [_ Hsnd]. rewrite Forall_forall in Hfst, Hsnd.
    cbn in Hnd. apply NoDup_cons in Hnd as [Hf1 Hnd].
    assert (Hnew : two_newest db r f1 f2).
    { exists y1, y2. split_and!; [apply Hin; by left|apply Hin; right; by left| | |].
      - intros ->. apply Hf1. by left.
      - apply Hfst. by left.
      - intros e x He Hne1 Hne2. apply Hin in He.
        apply elem_of_cons in He as [[= -> ->]|He]; [done|].
        apply elem_of_cons in He as [[= -> ->]|He]; [done|]. by apply Hsnd. }
    split; [|by intros [= <- <-]].
    intros (x1 & x2 & H1 & H2 & Hne & H12 & Hrest).
    destruct Hnew as (y1' & y2' & G1 & G2 & Gne & G12 & Grest).
    rewrite <- (complete_epochs_fun _ _ _ _ _ G1 (proj1 (Hin _) ltac:(by left))) in *.
    rewrite <- (complete_epochs_fun _ _ _ _ _ G2 (proj1 (Hin _) ltac:(right; by left))) in *.
    assert (e1 = f1) as ->.
    { destruct (decide (e1 = f1)); [done|].
      assert (epoch_first (f1, y1') (e1, x1)) as Ha.
      { destruct (decide (e1 = f2)) as [->|];
          [by rewrite (complete_epochs_fun _ _ _ _ _ H1 G2)|].
        transitivity (f2, y2'); [done|by apply Grest]. }
      assert (epoch_first (e1, x1) (f1, y1')) as Hb.
      { destruct (decide (f1 = e2)) as [->|];
          [by rewrite (complete_epochs_fun _ _ _ _ _ G1 H2)|].
        transitivity (e2, x2); [done|]. by apply Hrest. }
      by apply (epoch_first_antisym _ _ Hb Ha). }
    f_equal. f_equal. destruct (decide (e2 = f2)) as [->|Hn]; [done|].
    symmetry. apply (epoch_first_antisym (e2, x2) (f2, y2')); [by apply Hrest|by apply Grest].
Qed.

(** *** Candidates *)

(** No complete snapshot proof, an older or a single snapshot, or a staged
    object: no proposal. *)
Definition unreachable db (r : Uuid) (o : bytes) : Prop :=
  (∃ e1 e2, two_newest db r e1 e2 ∧
     (e1, o) ∉ reachable_objects db ∧ (e2, o) ∉ reachable_objects db) ∧
  object_tombstones db !! (r, o) = None.

Lemma candidate_row_spec r db k row :
  candidate_row r db (k, row) ↔ k.1 = r ∧ unreachable db r k.2.
Proof.
  unfold candidate_row, unreachable. cbn. destruct k as [r' o]. cbn.
  setoid_rewrite two_newest_latest. split.
  - intros (-> & Hlen & Hall & Ht). split_and!; [done| |done].
    destruct (latest r db) as [|e1 [|e2 [|]]]; try done. exists e1, e2.
    apply Forall_cons in Hall as [? Hall]. apply Forall_cons in Hall as [? _]. done.
  - intros (-> & (e1 & e2 & -> & H1 & H2) & Ht). split_and!; [done|done| |done].
    by repeat constructor.
Qed.

Lemma candidate_rows_spec r db o z :
  (o, z) ∈ candidate_rows r db ↔
  unreachable db r o ∧ ∃ row, objects db !! (r, o) = Some row ∧ ob_size row = z.
Proof.
  unfold candidate_rows. rewrite merge_sort_Permutation, list_elem_of_fmap. split.
  - intros ([[r' o'] row] & [= -> ->] & Hin).
    apply list_elem_of_filter in Hin as [[Hr Hu]%candidate_row_spec Hin]. cbn in Hr, Hu. subst r'.
    split; [done|]. exists row. by apply elem_of_map_to_list in Hin.
  - intros [Hu (row & Hrow & <-)]. exists (r, o, row). split; [done|].
    apply list_elem_of_filter. split; [by apply candidate_row_spec|by apply elem_of_map_to_list].
Qed.

Lemma bytes_leb_total a b : bytes_leb a b = true ∨ bytes_leb b a = true.
Proof.
  revert b. induction a as [|x a IH]; intros [|y b]; cbn; auto.
  destruct (N.ltb_spec (Byte.to_N x) (Byte.to_N y)); [auto|].
  destruct (N.ltb_spec (Byte.to_N y) (Byte.to_N x)); auto.
Qed.

Lemma bytes_leb_trans a b c : bytes_leb a b = true → bytes_leb b c = true → bytes_leb a c = true.
Proof.
  revert b c. induction a as [|x a IH]; intros [|y b] [|z c]; cbn; try done.
  destruct (N.ltb_spec (Byte.to_N x) (Byte.to_N y)), (N.ltb_spec (Byte.to_N y) (Byte.to_N x)),
    (N.ltb_spec (Byte.to_N y) (Byte.to_N z)), (N.ltb_spec (Byte.to_N z) (Byte.to_N y)),
    (N.ltb_spec (Byte.to_N x) (Byte.to_N z)), (N.ltb_spec (Byte.to_N z) (Byte.to_N x));
    try done; try lia. apply IH.
Qed.

#[export] Instance oid_first_total : Total oid_first.
Proof. intros a b. apply bytes_leb_total. Qed.
#[export] Instance oid_first_trans : Transitive oid_first.
Proof. intros a b c. apply bytes_leb_trans. Qed.

Lemma collect_results_ok {E A B} (f : A → result E B) (g : A → B) l :
  (∀ x, x ∈ l → f x = Ok (g x)) → collect_results f l = Ok (g <$> l).
Proof.
  induction l as [|x l IH]; intros H; cbn; [done|].
  rewrite H by (by left). cbn. rewrite IH; [done|]. intros y Hy. apply H. by right.
Qed.

End Epochs.

Section Theorems.
  Context {St Json : Type} {object_store : ObjectStore St} {store_laws : ObjectStoreLaws St}
          {hex : HexCodec} {hex_laws : HexLaws} {uuid_text : UuidText} {uuid_laws : UuidTextLaws}
          {hashes : Hashes} {json : ManifestJson Json} {json_laws : ManifestJsonLaws Json}.
  Implicit Types (db : Db Json) (w : World St Json).

(** The query's rows decode: the protocol errors of [dry_run] are
    unreachable. *)
Lemma candidates_decode r db :
  db_ok db →
  ∃ l, collect_results candidate_of (candidate_rows r db) = Ok l ∧
    candidate_rows r db = (λ c, (ObjectOid_as_bytes (gc_oid c), Z.of_N (gc_size c))) <$> l.
Proof.
  intros Hok. unshelve eexists (omap (λ row, match candidate_of row with Ok c => Some c | _ => None end)
    (candidate_rows r db)).
  assert (Hall : ∀ row, row ∈ candidate_rows r db → ∃ c, candidate_of row = Ok c ∧
    row = (ObjectOid_as_bytes (gc_oid c), Z.of_N (gc_size c))).
  { intros [o z] [_ (row & Hrow & <-)]%candidate_rows_spec.
    destruct (db_ok_published _ _ _ _ Hok Hrow) as [m ((row' & Hr' & _ & Hs) & Ho & _)].
    rewrite Hrow in Hr'. injection Hr' as <-.
    exists (mkGcCandidate (om_object_oid m) (om_object_size m)). unfold candidate_of. cbn [fst snd].
    rewrite <- Ho, ObjectOid_of_slice_as_bytes, Hs. unfold u64_try_from. cbn.
    rewrite (proj2 (Z.ltb_ge _ 0)) by lia. by rewrite N2Z.id. }
  induction (candidate_rows r db) as [|row l IH]; [done|].
  destruct (Hall row ltac:(by left)) as (c & Hc & Hrow).
  destruct IH as [IH1 IH2]; [intros row' H'; apply Hall; by right|].
  cbn. rewrite Hc. cbn. rewrite IH1. cbn. split; [done|]. by rewrite <- IH2, <- Hrow.
Qed.

(** What a run of [dry_run] reads. *)
Lemma run_dry_run r w res w' :
  db_ok (w_db w) → run (dry_run r) w = (res, w') →
  same w w' ∧
  match res with
  | Err e => e = Io
  | Ok l =>
      (∀ o z, mkGcCandidate o z ∈ l ↔
         unreachable (w_db w) r (ObjectOid_as_bytes o) ∧
         ∃ row, objects (w_db w) !! (r, ObjectOid_as_bytes o) = Some row ∧ ob_size row = Z.of_N z) ∧
      StronglySorted (λ a b, bytes_leb (ObjectOid_as_bytes (gc_oid a))
                               (ObjectOid_as_bytes (gc_oid b)) = true) l
  end.
Proof.
  intros Hok Hrun. split.
  { eapply run_same, Hrun. unfold dry_run. pose proof (same_stable (St:=St) (Json:=Json)).
    apply (safe_bind same _ any); [safe_call|intros ? ? _ _]. safe_call. }
  unfold dry_run in Hrun. rewrite run_bind in Hrun. cbn [query run atomic] in Hrun.
  unfold query, atomic, tx_map_err, stmt in Hrun. cbn in Hrun.
  destruct (hd false (w_faults w)); cbn in Hrun; [by injection Hrun as <- _|].
  destruct (candidates_decode r (w_db w) Hok) as (l & Hl & Hrows).
  cbn in Hrun. rewrite Hl in Hrun. injection Hrun as <- _. split.
  - intros o z. rewrite <- candidate_rows_spec, Hrows, list_elem_of_fmap. split.
    + intros Hin. by exists (mkGcCandidate o z).
    + intros ([o' z'] & [= Ho Hz] & Hin). apply ObjectOid_as_bytes_inj in Ho.
      assert (z = z') as -> by lia. by subst o'.
  - pose proof (StronglySorted_merge_sort oid_first
      ((λ kv : Uuid * bytes * ObjectRow Json, (kv.1.2, ob_size kv.2)) <$>
     filter (candidate_row r (w_db w)) (map_to_list (objects (w_db w))))) as Hsort.
    change (StronglySorted oid_first (candidate_rows r (w_db w))) in Hsort.
    rewrite Hrows in Hsort. clear -Hsort.
    induction l as [|c l IH]; [constructor|]. rewrite fmap_cons in Hsort.
    apply StronglySorted_inv in Hsort as [Hs Hc].
    constructor; [by apply IH|]. rewrite Forall_fmap in Hc. eapply Forall_impl; [exact Hc|done].
Qed.

Lemma dry_run_reads r w l w' :
  db_ok (w_db w) → run (dry_run r) w = (Ok l, w') →
  same w w' ∧ ∀ c, c ∈ l → unreachable (w_db w) r (ObjectOid_as_bytes (gc_oid c)).
Proof.
  intros Hok Hrun. destruct (run_dry_run r w (Ok l) w' Hok Hrun) as (Hs & Hl & _).
  split; [done|]. intros [o z] Hc. by apply Hl in Hc as [? _].
Qed.

(** [dry_run] is sound and complete: it proposes exactly the published
    objects that are absent from both of the two newest complete snapshots and
    not staged yet (so nothing with fewer than two snapshots), with their
    sizes, ordered by OID; it only reads, and under the metadata invariant it
    can fail only because the database does. *)
Theorem dry_run_spec r w res w' :
  db_ok (w_db w) → run (dry_run r) w = (res, w') →
  same w w' ∧
  match res with
  | Err e => e = Io
  | Ok l =>
      (∀ o z, mkGcCandidate o z ∈ l ↔
         unreachable (w_db w) r (ObjectOid_as_bytes o) ∧
         ∃ row, objects (w_db w) !! (r, ObjectOid_as_bytes o) = Some row ∧ ob_size row = Z.of_N z) ∧
      StronglySorted (λ a b, bytes_leb (ObjectOid_as_bytes (gc_oid a))
                               (ObjectOid_as_bytes (gc_oid b)) = true) l
  end.
Proof. apply run_dry_run. Qed.

(** A snapshot is recorded atomically: on success a new complete epoch,
    stamped with the transaction's time, lists exactly the submitted objects
    (without repetition) and nothing else changed; on any error the tables are
    as before. *)
Theorem submit_snapshot_atomic s w res w' :
  run (submit_snapshot (St:=St) s) w = (res, w') →
  w_store w' = w_store w ∧
  match res with
  | Ok epoch => recorded (w_now w) s (w_db w) epoch (w_db w')
  | Err _ => w_db w' = w_db w
  end.
Proof.
  intros Hrun. cbn in Hrun. destruct (atomically id (snapshot_tx s) w) as [r1 w1] eqn:Ha.
  injection Hrun as <- <-.
  eapply triple_atomically in Ha; [|by apply snapshot_triple|done|done].
  by destruct Ha as (H1 & _ & H2).
Qed.

(** A sequential transaction on consistent tables. *)
Lemma run_tx {E A} (l : SqlxError → E) (m : TX St Json E A) Q w res w' :
  tx_triple (w_now w) (eq (w_db w)) m Q → run (transaction l m) w = (res, w') →
  w_store w' = w_store w ∧ w_now w' = w_now w ∧
  match res with Ok a => Q a (w_db w') | Err _ => w_db w' = w_db w end.
Proof.
  intros Hm Hrun. cbn in Hrun. destruct (atomically l m w) as [r1 w1] eqn:Ha.
  injection Hrun as <- <-. by eapply triple_atomically in Ha.
Qed.

(** [stage] marks exactly the proposals of [dry_run]: when it succeeds
    every returned candidate is provably unreachable and carries a tombstone
    due after the grace period, no other tombstone changed, and nothing else
    in the tables or the store did. *)
Theorem stage_spec r grace w l w' :
  db_ok (w_db w) → run (stage r grace) w = (Ok l, w') →
  w_store w' = w_store w ∧
  staged (w_now w) r (Z.of_N grace) l (w_db w) (w_db w') ∧
  ∀ c, c ∈ l → unreachable (w_db w) r (ObjectOid_as_bytes (gc_oid c)).
Proof.
  intros Hok Hrun. unfold stage in Hrun.
  apply run_bind_ok in Hrun as (l0 & w1 & Hd & Hrun).
  apply run_bind_ok in Hrun as (secs & w2 & Hl & Hrun). apply run_lift_ok in Hl as [Hs%ok_or_ok ->].
  assert (secs = Z.of_N grace) as ->.
  { unfold i64_try_from in Hs. by destruct (grace <=? I64_MAX); [injection Hs as <-|]. }
  apply run_bind_ok in Hrun as ([] & w2 & Htx & Hrun). injection Hrun as -> ->.
  pose proof (dry_run_reads r w l w1 Hok Hd) as [(Hdb & Hst & Hn) Hun].
  eapply run_tx in Htx; [|apply stage_triple; by rewrite Hdb].
  destruct Htx as (Hst2 & _ & HQ). rewrite Hdb, Hn in HQ. split_and!; [congruence|done|done].
Qed.

(** *** Collection *)

Definition is_due (r : Uuid) (now : Z) db (k : Uuid * bytes) : Prop :=
  k.1 = r ∧ ∃ t, object_tombstones db !! k = Some t ∧ (tb_delete_after t ≤ now)%Z.

(** The objects that are due are gone, with their tombstones; the others are
    as before. *)
Definition all_collected (r : Uuid) (now : Z) db db' : Prop :=
  db_ok db' ∧ ∀ k,
    (is_due r now db k → objects db' !! k = None ∧ object_tombstones db' !! k = None) ∧
    (¬ is_due r now db k →
       objects db' !! k = objects db !! k ∧ object_tombstones db' !! k = object_tombstones db !! k).

Lemma due_spec r now db k t :
  (k, t) ∈ due r now db ↔
  k.1 = r ∧ object_tombstones db !! k = Some t ∧ (tb_delete_after t ≤ now)%Z.
Proof. unfold due. rewrite list_elem_of_filter, elem_of_map_to_list. cbn. tauto. Qed.

Lemma select_due_Some r now db oid :
  select_due r now db = Some oid → is_due r now db (r, oid).
Proof.
  unfold select_due. intros ([[r' o] t] & Hh%head_Some_elem_of & ->)%fmap_Some.
  rewrite merge_sort_Permutation, due_spec in Hh. destruct Hh as (Hr & Ht & Hle).
  cbn in Hr. subst r'. split; [done|]. by exists t.
Qed.

Lemma select_due_None r now db : select_due r now db = None → due r now db = [].
Proof.
  unfold select_due. intros H%fmap_None. pose proof (merge_sort_Permutation due_first (due r now db)) as Hp.
  destruct (merge_sort due_first (due r now db)); [|done]. by apply Permutation_nil in Hp.
Qed.

(** A collected object was one of the due ones. *)
Lemma collected_due r oid now db db' :
  is_due r now db (r, oid) → collected r oid db db' →
  length (due r now db) = S (length (due r now db')) ∧
  ∀ k, is_due r now db' k ↔ k ≠ (r, oid) ∧ is_due r now db k.
Proof.
  intros [_ (t & Ht & Hle)] [_ (tc & q & ->)].
  split.
  - unfold due. rewrite <- !size_filter_to_list. cbn. rewrite map_filter_delete.
    rewrite map_size_delete_Some.
    + match goal with |- ?n = _ => assert (n ≠ 0%nat) as Hz; [|lia] end.
      intros Hz%map_size_empty_inv.
      assert (filter (λ kv : Uuid * bytes * TombstoneRow, kv.1.1 = r ∧ (tb_delete_after kv.2 ≤ now)%Z)
        (object_tombstones db) !! (r, oid) = Some t) as Hs by (by apply map_lookup_filter_Some).
      by rewrite Hz in Hs.
    + exists t. by apply map_lookup_filter_Some.
  - intros k. unfold is_due. cbn. setoid_rewrite lookup_delete_Some. naive_solver.
Qed.

Lemma collect_loop_spec fuel r n w o w' :
  db_ok (w_db w) → run (collect_loop fuel r n) w = (Ok o, w') →
  match o with
  | None => (fuel ≤ length (due r (w_now w) (w_db w)))%nat
  | Some n' => n' = n + N.of_nat (length (due r (w_now w) (w_db w))) ∧
      w_store w' = w_store w ∧ w_now w' = w_now w ∧
      all_collected r (w_now w) (w_db w) (w_db w')
  end.
Proof.
  revert n w. induction fuel as [|fuel IH]; intros n w Hok Hrun.
  { injection Hrun as <- <-. lia. }
  cbn [collect_loop] in Hrun. apply run_bind_ok in Hrun as (more & w1 & Htx & Hrun).
  eapply run_tx in Htx; [|by apply collect_one_triple]. destruct Htx as (Hst & Hnow & HQ).
  destruct (select_due r (w_now w) (w_db w)) as [oid|] eqn:Hsel; destruct HQ as [-> HQ].
  - pose proof (select_due_Some _ _ _ _ Hsel) as Hdue.
    destruct (collected_due r oid (w_now w) (w_db w) (w_db w1) Hdue HQ) as [Hlen Hiff].
    pose proof HQ as [Hok1 (t & q & Heq)].
    apply IH in Hrun; [|done]. rewrite Hnow in Hrun. destruct o as [n'|]; [|lia].
    destruct Hrun as (-> & Hst' & Hn' & Hok' & Hall). split_and!; [lia|congruence|done|].
    split; [done|]. intros k. destruct (Hall k) as [Hd Hn]. split.
    + intros Hk. destruct (decide (k = (r, oid))) as [->|Hne]; [|by apply Hd, Hiff].
      destruct Hn as [-> ->]; [by intros [Hx _]%Hiff|]. rewrite Heq. cbn.
      by rewrite !lookup_delete_eq.
    + intros Hk. assert (k ≠ (r, oid)) as Hne by (intros ->; by apply Hk).
      destruct Hn as [-> ->]; [by intros [_ Hx]%Hiff|]. rewrite Heq. cbn.
      by rewrite !lookup_delete_ne.
  - injection Hrun as <- <-. rewrite (select_due_None _ _ _ Hsel). rewrite HQ.
    split_and!; [cbn; lia|done|done|]. split; [done|]. intros k. split; [|done].
    intros [Hr (t & Ht & Hle)]. exfalso.
    assert ((k, t) ∈ due r (w_now w) (w_db w)) as Hin by (by apply due_spec).
    rewrite (select_due_None _ _ _ Hsel) in Hin. by apply elem_of_nil in Hin.
Qed.

Lemma drain_frame_preorder : PreOrder (λ w w' : World St Json, drain_frame (w_db w) (w_db w')).
Proof.
  unfold drain_frame. split; [by intros w|]. intros w1 w2 w3 (H1 & H2 & H3 & H4 & H5) (G1 & G2 & G3 & G4 & G5).
  by rewrite G1, G2, G3, G4, G5.
Qed.

(** Draining leaves the objects, their descriptors and the sessions alone. *)
Lemma run_drain r w res w' :
  db_ok (w_db w) → run (drain_chunk_queue r) w = (res, w') →
  db_ok (w_db w') ∧ drain_frame (w_db w) (w_db w').
Proof.
  intros Hok Hrun. pose proof drain_frame_preorder.
  enough (safe (λ w w', drain_frame (w_db w) (w_db w')) (λ w, db_ok (w_db w)) any
    (drain_chunk_queue r) w) as Hsafe.
  { destruct (safe_run _ _ _ _ _ _ _ Hsafe Hok Hrun) as (H1 & H2 & _). done. }
  assert (Hst : stable (λ w w' : World St Json, drain_frame (w_db w) (w_db w')) (λ w, db_ok (w_db w))).
  { intros w1 w2 Hd _ _. rewrite Hd. by split. }
  unfold drain_chunk_queue.
  apply (safe_bind (λ w w' : World St Json, drain_frame (w_db w) (w_db w')) (λ w, db_ok (w_db w)) any);
    [safe_call|intros l w1 _ _].
  apply for_each_safe; [done|]. intros raw w2 _ _. apply safe_atomic; [done|].
  intros w3 r3 w4 _ Hok3 Ha.
  apply atomically_inv in Ha as [[(Hd & _) _]|(w5 & r5 & w6 & (Hd & _) & Hb & _ & _ & Hres)].
  { rewrite Hd. by split_and!. }
  apply drain_one_spec in Hb as [_ Hb]; [|by rewrite Hd].
  destruct r3 as [[]|e]; [|rewrite Hres; by split_and!]. destruct Hres as [-> ->].
  destruct (Hb eq_refl) as [Hok6 Hfr]. rewrite Hd in Hfr. by split_and!.
Qed.

(** The collection loop terminates: with more fuel than due tombstones it
    never runs out, so [collect_due] always reports a result or an error. *)
Theorem collect_due_terminates fuel r w w' :
  db_ok (w_db w) → (length (due r (w_now w) (w_db w)) < fuel)%nat →
  run (collect_due fuel r) w ≠ (Ok None, w').
Proof.
  intros Hok Hfuel Hrun. unfold collect_due in Hrun.
  apply run_bind_ok in Hrun as (o & w1 & Hloop & Hrun).
  apply collect_loop_spec in Hloop; [|done]. destruct o as [n|]; [|lia].
  apply run_bind_ok in Hrun as ([] & w2 & Hdr & Hrun). done.
Qed.

(** C18: [collect_due] removes exactly what is due: it reports the number of
    tombstones whose grace period had passed, those objects and their
    tombstones are gone, every other object, its descriptors and every upload
    session are untouched, and the reference counts stay exact. *)
Theorem collect_due_spec fuel r w n w' :
  db_ok (w_db w) → run (collect_due fuel r) w = (Ok (Some n), w') →
  n = N.of_nat (length (due r (w_now w) (w_db w))) ∧
  all_collected r (w_now w) (w_db w) (w_db w').
Proof.
  intros Hok Hrun. unfold collect_due in Hrun.
  apply run_bind_ok in Hrun as ([m|] & w1 & Hloop & Hrun); [|done].
  apply collect_loop_spec in Hloop as (-> & _ & _ & Hok1 & Hall); [|done].
  apply run_bind_ok in Hrun as ([] & w2 & Hdr & Hrun). injection Hrun as <- <-.
  apply run_drain in Hdr as [Hok2 (Ho & _ & _ & _ & Ht)]; [|done].
  split; [lia|]. split; [done|]. intros k. rewrite Ho, Ht. apply Hall.
Qed.


(** A finalized upload session blocks the collector: when a queued chunk
    without references was registered by a session that finalized (such rows
    are never deleted), draining it removes the bytes from the provider, then
    fails on the foreign key of [upload_session_chunks] and rolls back, so the
    chunk row and the queue entry stay and the error ends the drain, at every
    retry. *)
Theorem drain_blocked_by_finalized_session r id s row w res w' :
  healthy w →
  chunks (w_db w) !! (r, ChunkId_as_bytes id) = Some row → ck_reference_count row = 0%Z →
  upload_session_chunks (w_db w) !! (s, ChunkId_as_bytes id) = Some r →
  chunk_active r (ChunkId_as_bytes id) (w_db w) = false →
  run (transaction GcDatabase (drain_one r (ChunkId_as_bytes id))) w = (res, w') →
  res = Err (GcDatabase (Database FOREIGN_KEY_VIOLATION)) ∧
  w_db w' = w_db w ∧ chunk_bytes (w_store w') r id = None.
Proof.
  intros [Hf _ _ Hav] Hrow Hcount Husc Hact Hrun. cbn in Hrun.
  destruct (atomically _ _ w) as [r1 w1] eqn:Ha. injection Hrun as <- <-.
  destruct (delete_chunk r id (w_store w)) as [q st] eqn:Hdel.
  assert (q = Ok tt) as ->.
  { unfold delete_chunk in Hdel.
    destruct (os_available_delete (chunk_path r id) (w_store w) Hav) as [Hq _].
    destruct (os_delete _ _) as [q0 st0]. cbn in Hq. injection Hdel as <- _. rewrite Hq.
    by destruct (os_lookup _ _). }
  pose proof (delete_chunk_spec _ _ _ _ _ Hdel) as (_ & _ & Hgone).
  assert (Hfk : chunk_referenced r (ChunkId_as_bytes id) (w_db w) = true).
  { unfold chunk_referenced. apply orb_true_iff. right. apply negb_true_iff, bool_decide_eq_false.
    intros Hall. by apply (Hall _ _ Husc). }
  assert (Hdelrow : delete_chunk_row r (ChunkId_as_bytes id) (w_now w) (w_db w) =
    Err (Database FOREIGN_KEY_VIOLATION)).
  { unfold delete_chunk_row. by rewrite Hrow, Hcount, Hfk. }
  unfold atomically, drain_one, gsql, tx_map_err, stmt, tx_store, tx_result, mbind, tx_bind in Ha.
  rewrite Hf in Ha. cbn in Ha. rewrite Hrow, Hcount in Ha. cbn in Ha.
  rewrite Hact in Ha. cbn in Ha. rewrite ChunkId_of_slice_as_bytes in Ha. cbn in Ha.
  rewrite Hdel in Ha. cbn in Ha. rewrite Hdelrow in Ha. cbn in Ha.
  injection Ha as <- <-. cbn. split_and!; [done|done|by apply Hgone].
Qed.

End Theorems.
