(* ===== verification/Locks.v ===== *)
(** * Locks: the lock API of [git-lfs-delta-server/src/lib.rs]

    Creation, paged listing, verification and removal of path locks, with
    the uniqueness of paths, the authority rule of [unlock] and the
    completeness of pagination. *)
From S2P Require Import Prelude Digest Manifest Protocol Storage Database Effects Api Sessions Uploads UploadSpecs.

(** ** Requests *)

Record LockListQuery := {
  lq_path : option string;
  lq_id : option Uuid;
  lq_cursor : option Uuid;
  lq_limit : option N;
}.

Record LockVerifyRequest := { lvr_cursor : option Uuid; lvr_limit : option N }.

(** ** [validate_lock_path] *)

Definition slash : Ascii.ascii := Ascii.ascii_of_N 47.

(** [path.split('/')]. *)
Fixpoint split_slash (s : string) : list string :=
  match s with
  | EmptyString => [EmptyString]
  | String c s =>
      if Ascii.eqb c slash then EmptyString :: split_slash s
      else match split_slash s with
           | [] => [String c EmptyString]
           | x :: l => String c x :: l
           end
  end.

Definition starts_with_slash (s : string) : bool :=
  match s with String c _ => Ascii.eqb c slash | EmptyString => false end.

Definition validate_lock_path (path : string) : result ApiError unit :=
  if bool_decide (path = EmptyString) || starts_with_slash path ||
     existsb (λ component, bool_decide (component = ".."%string) ||
                           bool_decide (component = EmptyString)) (split_slash path)
  then Err (unprocessable "lock path must be a normalized repository-relative path")
  else Ok tt.

Section Statements.
  Context {Json : Type}.
  Implicit Types (db : Db Json).

(** [INSERT INTO lfs_locks ... RETURNING created_at]. *)
Definition insert_lock (id r : Uuid) (path subject : string) (now : Z) db
  : result SqlxError (Z * Db Json) :=
  require (bool_decide (lfs_locks db !! id = None) &&
           bool_decide (map_Forall (λ _ row, ¬ (lr_repository_id row = r ∧ lr_path row = path))
                          (lfs_locks db))) UNIQUE_VIOLATION
    (require (repository_exists r db) FOREIGN_KEY_VIOLATION
      (Ok (now, with_lfs_locks (<[id := {| lr_repository_id := r; lr_path := path;
                                           lr_owner_subject := subject; lr_created_at := now |}]>
                                  (lfs_locks db)) db))).

Definition lock_matches (r : Uuid) (path : option string) (id cursor : option Uuid)
    (kv : Uuid * LockRow) : Prop :=
  lr_repository_id kv.2 = r ∧
  match path with Some p => lr_path kv.2 = p | None => True end ∧
  match id with Some i => kv.1 = i | None => True end ∧
  match cursor with Some c => uuid_value c < uuid_value kv.1 | None => True end.

#[export] Instance lock_matches_dec r path id cursor kv : Decision (lock_matches r path id cursor kv).
Proof. unfold lock_matches. destruct path, id, cursor; apply _. Defined.

Definition lock_first (a b : Uuid * LockRow) : Prop := uuid_value a.1 ≤ uuid_value b.1.

#[export] Instance lock_first_dec a b : Decision (lock_first a b).
Proof. unfold lock_first. apply _. Defined.

(** [SELECT ... ORDER BY id LIMIT $5]. *)
Definition matching_locks (r : Uuid) (path : option string) (id cursor : option Uuid) db
  : list (Uuid * LockRow) :=
  merge_sort lock_first (filter (lock_matches r path id cursor) (map_to_list (lfs_locks db))).
Definition select_locks (r : Uuid) (path : option string) (id cursor : option Uuid) (limit : Z) db
  : list (Uuid * LockRow) :=
  take (Z.to_nat limit) (matching_locks r path id cursor db).

Definition lock_of_repository (id r : Uuid) db : option LockRow :=
  match lfs_locks db !! id with
  | Some row => if decide (lr_repository_id row = r) then Some row else None
  | None => None
  end.

(** [DELETE FROM lfs_locks ... RETURNING ...]. *)
Definition delete_lock (id r : Uuid) (_ : Z) db : result SqlxError (option LockRow * Db Json) :=
  match lock_of_repository id r db with
  | Some row => Ok (Some row, with_lfs_locks (delete id (lfs_locks db)) db)
  | None => Ok (None, db)
  end.

End Statements.

Section Handlers.
  Context {St Json : Type} {hashes : Hashes} {uuid_text : UuidText} {pg : PgText}
          {url_lib : UrlLib} {jwt : JwtLib} {forgejo : ForgejoApi}.
  Local Abbreviation prog := (prog St Json ApiError).

Definition lock_error (e : SqlxError) : ApiError :=
  if is_unique_violation e then mkApiError CONFLICT "path is already locked"
  else ApiError_database e.

Definition create_lock (state : AppState) (owner repository : string) (headers : HeaderMap)
    (request : LockRequest) : prog (N * LockResponse) :=
  let! identity := authenticate state headers owner repository Write in
  let! _ := lift (validate_lock_path (lreq_path request)) in
  let! r := repository_id owner repository in
  let! id := new_v4 in
  let! created := query lock_error
    (insert_lock id r (lreq_path request) (id_subject identity)) in
  mret (CREATED, {| lresp_lock :=
    mkLock (uuid_display id) (lreq_path request) (to_char_micros created)
      {| lo_name := id_subject identity |} |}).

Definition lock_of_row (kv : Uuid * LockRow) : Lock :=
  mkLock (uuid_display kv.1) (lr_path kv.2) (to_char_micros (lr_created_at kv.2))
    {| lo_name := lr_owner_subject kv.2 |}.

(** [requested_limit.unwrap_or(100).clamp(1, 100)]. *)
Definition page_limit (requested : option N) : N := N.min (N.max (default 100 requested) 1) 100.

(** The page and cursor made of the fetched rows. *)
Definition page_of_rows (limit : N) (rows : list (Uuid * LockRow)) : list Lock * option string :=
  let locks := lock_of_row <$> rows in
  let has_more := limit <? lenN locks in
  let locks := take (N.to_nat limit) locks in
  (locks, if has_more then lk_id <$> last locks else None).

Definition load_locks_page (r : Uuid) (path : option string) (id cursor : option Uuid)
    (requested_limit : option N) : prog (list Lock * option string) :=
  let limit := page_limit requested_limit in
  let! bound := lift (ok_or (mkApiError BAD_REQUEST "lock page limit is out of range")
                        (i64_try_from (limit + 1))) in
  let! rows := query ApiError_database
    (λ _ db, Ok (select_locks r path id cursor bound db, db)) in
  mret (page_of_rows limit rows).

Definition list_locks (state : AppState) (owner repository : string) (q : LockListQuery)
    (headers : HeaderMap) : prog LockList :=
  let! _ := authenticate state headers owner repository Read in
  let! r := repository_id owner repository in
  let! page := load_locks_page r (lq_path q) (lq_id q) (lq_cursor q) (lq_limit q) in
  mret {| ll_locks := page.1; ll_next_cursor := page.2 |}.

Definition verify_locks (state : AppState) (owner repository : string) (headers : HeaderMap)
    (request : LockVerifyRequest) : prog LockVerifyResponse :=
  let! identity := authenticate state headers owner repository Write in
  let! r := repository_id owner repository in
  let! page := load_locks_page r None None (lvr_cursor request) (lvr_limit request) in
  let mine lock := lo_name (lk_owner lock) = id_subject identity in
  mret {| lv_ours := filter mine page.1;
          lv_theirs := filter (λ lock, ¬ mine lock) page.1;
          lv_next_cursor := page.2 |}.

Definition lock_not_found : ApiError := mkApiError NOT_FOUND "lock not found".

Definition unlock (state : AppState) (owner repository : string) (lock_id : Uuid)
    (headers : HeaderMap) (request : UnlockRequest) : prog UnlockResponse :=
  let! identity := authenticate state headers owner repository Write in
  let! r := repository_id owner repository in
  let! row := query ApiError_database (λ _ db, Ok (lock_of_repository lock_id r db, db)) in
  let! row := lift (ok_or lock_not_found row) in
  if negb (bool_decide (lr_owner_subject row = id_subject identity)) &&
     (negb (ur_force request) || negb (id_administrator identity))
  then fail (mkApiError FORBIDDEN "only the lock owner or an administrator using force may unlock")
  else
    let! deleted := query ApiError_database (delete_lock lock_id r) in
    let! row := lift (ok_or lock_not_found deleted) in
    mret {| uresp_lock := lock_of_row (lock_id, row) |}.

End Handlers.

(** ** Paths *)

Lemma split_slash_nonempty s : split_slash s ≠ [].
Proof. destruct s; cbn; [done|]. repeat case_match; done. Qed.

(** An accepted lock path is a normalized relative path, and all such
    paths are accepted: no component is empty (so no leading, trailing or
    doubled slash) or "..". *)
Theorem validate_lock_path_spec path :
  validate_lock_path path = Ok tt ↔
  Forall (λ c, c ≠ EmptyString ∧ c ≠ ".."%string) (split_slash path).
Proof.
  unfold validate_lock_path.
  assert (Hex : existsb (λ component, bool_decide (component = ".."%string) ||
      bool_decide (component = EmptyString)) (split_slash path) = false ↔
    Forall (λ c, c ≠ EmptyString ∧ c ≠ ".."%string) (split_slash path)).
  { induction (split_slash path) as [|c l IH]; cbn; [by split|].
    rewrite Forall_cons, <- IH, orb_false_iff, orb_false_iff, !bool_decide_eq_false. tauto. }
  rewrite <- Hex. destruct (existsb _ _) eqn:He; rewrite ?orb_true_r; [done|].
  rewrite orb_false_r. split; [done|intros _]. pose proof (proj1 Hex eq_refl) as Hall.
  destruct path as [|c path]; [by inversion Hall as [|? ? []]|].
  cbn [starts_with_slash split_slash] in *. rewrite bool_decide_eq_false_2 by done. cbn [orb].
  destruct (Ascii.eqb c slash); [|done]. by inversion Hall as [|? ? []].
Qed.

(** ** Statements *)

Section StatementFacts.
  Context {Json : Type} {json : ManifestJson Json}.
  Implicit Types (db : Db Json).

Definition path_locked db (r : Uuid) (path : string) : Prop :=
  ∃ id row, lfs_locks db !! id = Some row ∧ lr_repository_id row = r ∧ lr_path row = path.

Lemma insert_lock_spec id r path subject now db t db' :
  insert_lock id r path subject now db = Ok (t, db') → db_ok db →
  db_ok db' ∧ t = now ∧ lfs_locks db !! id = None ∧ ¬ path_locked db r path ∧
  db' = with_lfs_locks (<[id := {| lr_repository_id := r; lr_path := path;
                                   lr_owner_subject := subject; lr_created_at := now |}]>
                          (lfs_locks db)) db.
Proof.
  unfold insert_lock. rewrite !require_ok. intros (Hu & _ & [= <- <-]) [[] Hobj]. bool_hyps.
  match goal with H : map_Forall _ _ |- _ => rename H into Hall end.
  split_and!; [|done|done| |done].
  - split; [|by eapply objects_ok_frame]. split; cbn; try done.
    intros l l' row row'. rewrite !lookup_insert_Some.
    intros [[<- <-]|[Hne Hl]] [[<- <-]|[Hne' Hl']]; cbn; intros Hr Hp; [done| | |].
    + by destruct (Hall _ _ Hl').
    + by destruct (Hall _ _ Hl).
    + by eapply ok_locks.
  - intros (i & row & Hi & Hr & Hp). by destruct (Hall _ _ Hi).
Qed.

Lemma delete_lock_ok id r now db o db' :
  delete_lock id r now db = Ok (o, db') → db_ok db →
  db_ok db' ∧ o = lock_of_repository id r db ∧
  ∃ t, db' = with_lfs_locks t db ∧ (∀ l, l ≠ id → t !! l = lfs_locks db !! l) ∧
       (is_Some o → t !! id = None).
Proof.
  unfold delete_lock. intros H [[] Hobj].
  destruct (lock_of_repository id r db) as [row|]; injection H as <- <-.
  - split_and!; [|done|].
    + split; [|by eapply objects_ok_frame]. split; cbn; try done.
      intros l l' row1 row2. rewrite !lookup_delete_Some. intros [_ H1] [_ H2]. by eapply ok_locks.
    + eexists. split_and!; [done| |by rewrite lookup_delete_eq].
      intros l Hl. by rewrite lookup_delete_ne.
  - split_and!; [by split|done|]. exists (lfs_locks db). split_and!; [by destruct db|done|].
    by intros [].
Qed.

(** *** Pages *)

#[export] Instance lock_first_total : Total lock_first.
Proof. intros a b. unfold lock_first. lia. Qed.
#[export] Instance lock_first_trans : Transitive lock_first.
Proof. intros a b c. unfold lock_first. lia. Qed.

Lemma matching_locks_In r path id cursor db k row :
  (k, row) ∈ matching_locks r path id cursor db ↔
  lfs_locks db !! k = Some row ∧ lock_matches r path id cursor (k, row).
Proof.
  unfold matching_locks. rewrite merge_sort_Permutation, list_elem_of_filter, elem_of_map_to_list.
  tauto.
Qed.

Lemma matching_locks_sorted r path id cursor db :
  StronglySorted lock_first (matching_locks r path id cursor db).
Proof. apply StronglySorted_merge_sort; apply _. Qed.

Lemma matching_locks_nodup r path id cursor db : NoDup (matching_locks r path id cursor db).
Proof.
  unfold matching_locks. rewrite merge_sort_Permutation. apply NoDup_filter, NoDup_map_to_list.
Qed.

(** Sorted lists of rows with the same members are equal. *)
Lemma sorted_locks_eq db (l k : list (Uuid * LockRow)) :
  (∀ p, p ∈ l → lfs_locks db !! p.1 = Some p.2) → NoDup l → NoDup k →
  StronglySorted lock_first l → StronglySorted lock_first k → (∀ p, p ∈ l ↔ p ∈ k) → l = k.
Proof.
  intros Hdb Hl Hk Sl Sk Heq.
  apply (StronglySorted_unique_strong lock_first); [|done|done|by apply NoDup_Permutation].
  intros [i x] [j y] Hx Hy%Heq H1 H2. unfold lock_first in *. cbn in *.
  assert (i = j) as -> by (apply uuid_value_inj; lia).
  apply Hdb in Hx, Hy. cbn in *. congruence.
Qed.

(** The rows after the last one of a page are the rest of the list. *)
Lemma matching_locks_after r cursor db pre u row post :
  matching_locks r None None cursor db = pre ++ (u, row) :: post →
  matching_locks r None None (Some u) db = post.
Proof.
  intros Heq.
  pose proof (matching_locks_sorted r None None cursor db) as Hs.
  pose proof (matching_locks_nodup r None None cursor db) as Hnd. rewrite Heq in Hs, Hnd.
  apply NoDup_app in Hnd as (_ & _ & [Hnew Hnd]%NoDup_cons).
  assert (Hin : ∀ p, p ∈ pre ++ (u, row) :: post ↔
    lfs_locks db !! p.1 = Some p.2 ∧ lock_matches r None None cursor p).
  { intros [k x]. rewrite <- Heq. apply matching_locks_In. }
  assert (Hparts : (∀ p, p ∈ pre → uuid_value p.1 ≤ uuid_value u) ∧
    (∀ p, p ∈ post → uuid_value u ≤ uuid_value p.1) ∧ StronglySorted lock_first post).
  { clear -Hs. induction pre as [|q pre IH]; cbn in Hs; apply StronglySorted_inv in Hs as [Hs Hq];
      rewrite Forall_forall in Hq.
    - split_and!; [by intros p Hp%elem_of_nil|intros p Hp; by apply (Hq p)|done].
    - destruct (IH Hs) as (H1 & H2 & H3). split_and!; [|done|done].
      intros p [->|Hp]%elem_of_cons; [|by apply H1].
      apply (Hq (u, row)). apply elem_of_app. right. by left. }
  destruct Hparts as (Hpre & Hpost & Sp).
  assert (Hu : lfs_locks db !! u = Some row ∧ lock_matches r None None cursor (u, row)).
  { apply (Hin (u, row)), elem_of_app. right. by left. }
  apply (sorted_locks_eq db); [|apply matching_locks_nodup|done|apply matching_locks_sorted|done|].
  { intros [k x] Hk. by apply matching_locks_In in Hk as [? _]. }
  intros [k x]. rewrite matching_locks_In. split.
  - intros [Hk (Hr & _ & _ & Hgt)]. cbn in Hr, Hgt.
    assert ((k, x) ∈ pre ++ (u, row) :: post) as Hp.
    { apply Hin. split; [done|]. destruct Hu as [_ (_ & _ & _ & Hc)]. split_and!; [done..|].
      destruct cursor as [c|]; [cbn in *; lia|done]. }
    apply elem_of_app in Hp as [Hp|[[= -> ->]|Hp]%elem_of_cons]; [|lia|done].
    apply Hpre in Hp. cbn in Hp. lia.
  - intros Hp. assert ((k, x) ∈ pre ++ (u, row) :: post) as Hp'.
    { apply elem_of_app. right. by right. }
    apply Hin in Hp' as [Hk (Hr & _)]. split; [done|]. split_and!; [done..|]. cbn.
    pose proof (Hpost _ Hp) as Hle. cbn in Hle. enough (uuid_value u ≠ uuid_value k) by lia.
    intros Hval%uuid_value_inj. subst k. apply Hnew. cbn in Hk. destruct Hu as [Hu _].
    rewrite Hu in Hk. by injection Hk as ->.
Qed.

End StatementFacts.

(** ** Handlers *)

Section HandlerFacts.
  Context {St Json : Type} {object_store : ObjectStore St}
          {json : ManifestJson Json} {hex : HexCodec} {hashes : Hashes}
          {uuid_text : UuidText} {uuid_laws : UuidTextLaws} {pg : PgText}
          {url_lib : UrlLib} {jwt : JwtLib} {forgejo : ForgejoApi}.
  Implicit Types (db : Db Json) (w : World St Json).

(** The page a request with a cursor gets from a table. *)
Definition lock_page (r : Uuid) (cursor : option Uuid) (requested : option N) db
  : list Lock * option string :=
  page_of_rows (page_limit requested)
    (select_locks r None None cursor (Z.of_N (page_limit requested + 1)) db).

Lemma page_limit_range requested : 1 ≤ page_limit requested ∧ page_limit requested ≤ 100.
Proof. unfold page_limit. lia. Qed.

Lemma run_load_locks_page r path id cursor requested w p w' :
  run (load_locks_page (St:=St) r path id cursor requested) w = (Ok p, w') →
  same w w' ∧ p = page_of_rows (page_limit requested)
    (select_locks r path id cursor (Z.of_N (page_limit requested + 1)) (w_db w)).
Proof.
  intros Hrun. unfold load_locks_page in Hrun.
  apply run_bind_ok in Hrun as (b & w1 & Hl & Hrun). apply run_lift_ok in Hl as [Hb%ok_or_ok ->].
  unfold i64_try_from in Hb. destruct (_ <=? _); [|done]. injection Hb as <-.
  apply run_bind_ok in Hrun as (rows & w2 & Hq & Hrun).
  apply (run_query_read _ (λ _, select_locks r path id cursor (Z.of_N (page_limit requested + 1))))
    in Hq as [-> Hs]. by injection Hrun as <- <-.
Qed.

(** Following [next_cursor] from page to page. *)
Inductive walk (r : Uuid) (requested : option N) db : option Uuid → list Lock → Prop :=
| walk_last cursor locks :
    lock_page r cursor requested db = (locks, None) → walk r requested db cursor locks
| walk_next cursor locks u rest :
    lock_page r cursor requested db = (locks, Some (uuid_display u)) →
    walk r requested db (Some u) rest →
    walk r requested db cursor (locks ++ rest).

Lemma lock_page_cases r cursor requested db :
  let all := matching_locks r None None cursor db in
  (lock_page r cursor requested db = (lock_of_row <$> all, None)) ∨
  ∃ pre u row post, all = pre ++ (u, row) :: post ∧ post ≠ [] ∧
    lock_page r cursor requested db = (lock_of_row <$> (pre ++ [(u, row)]), Some (uuid_display u)).
Proof.
  intros all. unfold lock_page, select_locks. fold all.
  pose proof (page_limit_range requested) as [Hlo _]. set (n := page_limit requested) in *.
  unfold page_of_rows.
  replace (Z.to_nat (Z.of_N (n + 1))) with (S (N.to_nat n)) by lia.
  unfold lenN. rewrite length_fmap, <- fmap_take, take_take, length_take.
  replace (N.to_nat n `min` S (N.to_nat n))%nat with (N.to_nat n) by lia.
  destruct (N.ltb_spec n (N.of_nat (S (N.to_nat n) `min` length all))) as [Hmore|Hless].
  - right. assert (N.to_nat n < length all)%nat as Hn by lia.
    destruct (lookup_lt_is_Some_2 all (N.to_nat n - 1)) as [[u row] Hu]; [lia|].
    exists (take (N.to_nat n - 1) all), u, row, (drop (N.to_nat n) all).
    assert (take (N.to_nat n) all = take (N.to_nat n - 1) all ++ [(u, row)]) as Htake.
    { replace (N.to_nat n) with (S (N.to_nat n - 1)) at 1 by lia. by apply take_S_r. }
    split_and!.
    + rewrite <- (take_drop (N.to_nat n) all) at 1. by rewrite Htake, <- app_assoc.
    + intros Hd. apply (f_equal length) in Hd. rewrite length_drop in Hd. cbn in Hd. lia.
    + rewrite Htake. f_equal. rewrite fmap_app. cbn [fmap list_fmap]. by rewrite last_snoc.
  - left. rewrite take_ge by lia. done.
Qed.

(** C39: pagination is complete and ends: following the cursors from the
    first request visits every lock of the repository exactly once, in the
    order of the lock identifiers, whatever page size (of at least one) the
    client asks for; every walk does so, and there is one. *)
Theorem lock_pages_complete r requested db :
  (∃ locks, walk r requested db None locks) ∧
  ∀ locks, walk r requested db None locks →
    locks = lock_of_row <$> matching_locks r None None None db.
Proof.
  assert (Hall : ∀ cursor locks, walk r requested db cursor locks →
    locks = lock_of_row <$> matching_locks r None None cursor db).
  { induction 1 as [cursor locks Hp|cursor locks u rest Hp _ IH];
      destruct (lock_page_cases r cursor requested db)
        as [Hc|(pre & u' & row & post & Heq & _ & Hc)]; rewrite Hc in Hp; [|done|done|].
    - by injection Hp as <-.
    - injection Hp as <- Hu%uuid_display_inj. subst u'. rewrite IH, Heq.
      rewrite (matching_locks_after _ _ _ _ _ _ _ Heq).
      by rewrite <- fmap_app, <- app_assoc. }
  split; [|by apply Hall].
  enough (∀ n cursor, (length (matching_locks r None None cursor db) ≤ n)%nat →
    ∃ locks, walk r requested db cursor locks) as H by by eapply H.
  induction n as [|n IH]; intros cursor Hn;
    destruct (lock_page_cases r cursor requested db)
      as [Hc|(pre & u & row & post & Heq & Hpost & Hc)];
    [by eexists; apply walk_last|rewrite Heq, length_app in Hn; cbn in Hn; lia|
     by eexists; apply walk_last|].
  destruct (IH (Some u)) as [rest Hrest].
  { rewrite (matching_locks_after _ _ _ _ _ _ _ Heq). rewrite Heq, length_app in Hn. cbn in Hn. lia. }
  eexists. by eapply walk_next.
Qed.

(** A path is locked at most once: [create_lock] succeeds only on a
    normalized path that nobody has locked in the repository, and then adds
    exactly the lock it reports, owned by the authenticated subject. *)
Theorem create_lock_spec state owner repository headers request w res w' :
  db_ok (w_db w) →
  run (create_lock state owner repository headers request) w = (Ok res, w') →
  res.1 = CREATED ∧ validate_lock_path (lreq_path request) = Ok tt ∧ db_ok (w_db w') ∧
  w_store w' = w_store w ∧
  ∃ r id subject, select_repository_id owner repository (w_db w) = Some r ∧
    ¬ path_locked (w_db w) r (lreq_path request) ∧ lfs_locks (w_db w) !! id = None ∧
    let row := {| lr_repository_id := r; lr_path := lreq_path request;
                  lr_owner_subject := subject; lr_created_at := w_now w |} in
    w_db w' = with_lfs_locks (<[id := row]> (lfs_locks (w_db w))) (w_db w) ∧
    lresp_lock res.2 = lock_of_row (id, row).
Proof.
  intros Hok Hrun. unfold create_lock in Hrun.
  apply run_bind_ok in Hrun as (i & w1 & Ha & Hrun). apply run_authenticate in Ha as (Hd1 & Hs1 & Hn1).
  apply run_bind_ok in Hrun as ([] & w2 & Hl & Hrun). apply run_lift_ok in Hl as [Hp ->].
  apply run_bind_ok in Hrun as (r & w2 & Hr & Hrun).
  apply run_repository_id in Hr as [Hr (Hd2 & Hs2 & Hn2)]. rewrite Hd1 in Hr.
  apply run_bind_ok in Hrun as (id & w3 & Hid & Hrun). injection Hid as Hid Hw3.
  apply run_bind_ok in Hrun as (t & w4 & Hq & Hrun). injection Hrun as <- <-.
  cbn in Hq. unfold tx_map_err in Hq. destruct (stmt _ w3) as [q w5] eqn:Hst.
  injection Hq as Hq ->. apply map_err_ok in Hq. subst q.
  apply stmt_spec in Hst as (Hs4 & Hn4 & Hins).
  assert (Heq : w_db w3 = w_db w ∧ w_store w3 = w_store w ∧ w_now w3 = w_now w).
  { rewrite <- Hw3. cbn. by rewrite Hd2, Hs2, Hn2. }
  destruct Heq as (Hd & Hs & Hn). rewrite Hd, Hn in Hins.
  apply insert_lock_spec in Hins as (Hok' & -> & Hfresh & Hfree & Heq); [|done].
  split_and!; [done|done|done|by rewrite Hs4|].
  exists r, id, (id_subject i). by split_and!.
Qed.


End HandlerFacts.
