(* ===== verification/AuthSpecs.v ===== *)
(** * AuthSpecs: the authentication adapters of [Api]

    The development token, the Forgejo authorization cache (bounded, fail
    closed, never older than its lifetime) and the OIDC grants. *)
From S2P Require Import Prelude Digest Manifest Protocol Storage Database Effects Api Sessions Uploads UploadSpecs.

Section Cache.
  Context {St Json : Type} {hashes : Hashes} {url_lib : UrlLib} {jwt : JwtLib}
          {forgejo : ForgejoApi}.
  Implicit Types (w : World St Json).

(** ** The cache key *)

Definition no_nul (s : string) : Prop := x00 ∉ as_bytes s.

Lemma app_nul_inj (a a' b b' : bytes) :
  x00 ∉ a → x00 ∉ a' → a ++ x00 :: b = a' ++ x00 :: b' → a = a' ∧ b = b'.
Proof.
  revert a'. induction a as [|x a IH]; intros [|x' a'] Ha Ha' Heq; cbn in Heq.
  - by injection Heq.
  - injection Heq as <- _. destruct Ha'. by left.
  - injection Heq as -> _. destruct Ha. by left.
  - injection Heq as -> Heq. destruct (IH a') as [-> ->];
      [intros Hin; apply Ha; by right|intros Hin; apply Ha'; by right|done|done].
Qed.

(** The key of the authorization cache identifies the request: for
    header values and owners without NUL bytes, two requests hash the same
    bytes only if credentials, owner, repository and access are the same, so a
    read grant can never answer for a write, nor one user's for another's. *)
Theorem cache_key_preimage_inj a o r acc a' o' r' acc' :
  no_nul a → no_nul a' → no_nul o → no_nul o' →
  cache_key_preimage a o r acc = cache_key_preimage a' o' r' acc' →
  a = a' ∧ o = o' ∧ r = r' ∧ acc = acc'.
Proof.
  unfold cache_key_preimage. intros Ha Ha' Ho Ho' Heq.
  apply app_nul_inj in Heq as [Hau Heq]; [|done|done].
  apply app_nul_inj in Heq as [How Heq]; [|done|done].
  apply app_inj_tail in Heq as [Hre Hac].
  apply as_bytes_inj in Hau, How, Hre. split_and!; [done|done|done|].
  by destruct acc, acc'.
Qed.

(** ** Size *)

Lemma foldl_older_elem e l : foldl older e l ∈ e :: l.
Proof.
  revert e. induction l as [|x l IH]; intros e; cbn; [by left|].
  unfold older at 2. destruct (ci_expires_at x.2 <? ci_expires_at e.2)%Z.
  - destruct (proj1 (elem_of_cons _ _ _) (IH x)) as [-> |H]; [right; by left|right; by right].
  - destruct (proj1 (elem_of_cons _ _ _) (IH e)) as [-> |H]; [by left|right; by right].
Qed.

Lemma oldest_entry_spec m :
  match oldest_entry m with Some k => is_Some (m !! k) | None => m = ∅ end.
Proof.
  unfold oldest_entry. destruct (map_to_list m) as [|e l] eqn:Hm.
  - by apply map_to_list_empty_iff.
  - pose proof (foldl_older_elem e l) as Hin. rewrite <- Hm in Hin.
    destruct (foldl older e l) as [k c]. apply elem_of_map_to_list in Hin. by exists c.
Qed.

(** The authorization cache is bounded: storing an answer never makes it
    larger than its capacity (of at least one), and the answer just stored is
    in it. *)
Theorem cache_store_bounded ttl capacity key subject administrator w :
  1 ≤ capacity → N.of_nat (size (w_auth_cache w)) ≤ capacity →
  let w' := (cache_store ttl capacity key subject administrator w).2 in
  N.of_nat (size (w_auth_cache w')) ≤ capacity ∧
  w_auth_cache w' !! key =
    Some (mkCachedForgejoIdentity subject administrator (w_instant w + ttl)).
Proof.
  intros Hcap Hsize w'. subst w'. unfold cache_store. cbn.
  set (live := filter (λ kv : bytes * CachedForgejoIdentity,
    (w_instant w < ci_expires_at kv.2)%Z) (w_auth_cache w)).
  assert (Hlive : N.of_nat (size live) ≤ capacity).
  { pose proof (map_size_filter (λ kv : bytes * CachedForgejoIdentity,
      (w_instant w < ci_expires_at kv.2)%Z) (w_auth_cache w)) as H. fold live in H. lia. }
  split; [|apply lookup_insert_eq].
  assert (Hins : ∀ (m : gmap bytes CachedForgejoIdentity) x, (size (<[key:=x]> m) ≤ S (size m))%nat).
  { intros m x. rewrite map_size_insert. by destruct (m !! key); cbn; lia. }
  match goal with |- context [insert key ?x ?m] => specialize (Hins m x) end.
  destruct (N.leb_spec capacity (N.of_nat (size live))) as [Hfull|Hfree]; [|lia].
  pose proof (oldest_entry_spec live) as Hold. destruct (oldest_entry live) as [k|].
  - destruct Hold as [c Hc]. rewrite map_size_delete_Some in Hins by (by eexists).
    assert (size live ≠ 0%nat) by (intros Hz%map_size_empty_inv; by rewrite Hz in Hc). lia.
  - rewrite Hold in Hfull. rewrite map_size_empty in Hfull. lia.
Qed.

(** ** Freshness *)

(** Forgejo granted an access at a time. *)
Definition granted (base : Url) (authorization owner repository : string) (access : Access)
    (t : Z) (subject : string) (administrator : bool) : Prop :=
  ∃ user_url user repo,
    url_join base "api/v1/user" = Ok user_url ∧
    user_of_response (forgejo_get_user user_url authorization t) = Ok user ∧
    repository_of_response (forgejo_get_repository
      (url_extend base ["api"; "v1"; "repos"; owner; repository]%string) authorization t) = Ok repo ∧
    access_allowed access (fr_permissions repo) = true ∧
    subject = fu_login user ∧ administrator = fp_admin (fr_permissions repo).

(** Every entry is an answer of Forgejo, stamped [ttl] after it was given. *)
Definition cache_sound (base : Url) (ttl : Z) w : Prop :=
  ∀ key c, w_auth_cache w !! key = Some c →
  ∃ a o r acc, key = cache_key a o r acc ∧ (ci_expires_at c - ttl ≤ w_instant w)%Z ∧
    granted base a o r acc (ci_expires_at c - ttl)%Z (ci_subject c) (ci_administrator c).

(** A hit is a live entry; after a miss the cache is still sound. *)
Lemma cache_lookup_sound base ttl key w cached w1 :
  cache_sound base ttl w → cache_lookup key w = (cached, w1) →
  match cached with
  | Some c => w_auth_cache w !! key = Some c ∧ (w_instant w < ci_expires_at c)%Z ∧ w1 = w
  | None => cache_sound base ttl w1 ∧ w_instant w1 = w_instant w
  end.
Proof.
  intros Hsound. unfold cache_lookup.
  destruct (w_auth_cache w !! key) as [c|] eqn:Hk; [|by intros [= <- <-]].
  destruct (Z.ltb_spec (w_instant w) (ci_expires_at c)); intros [= <- <-]; [done|].
  split; [|done]. intros k x Hx. cbn in Hx. apply lookup_delete_Some in Hx as [_ Hx]. by apply Hsound.
Qed.

(** Storing an answer given now keeps the cache sound. *)
Lemma cache_store_sound base ttl capacity authorization owner repository access subject admin w :
  cache_sound base ttl w →
  granted base authorization owner repository access (w_instant w) subject admin →
  cache_sound base ttl
    (cache_store ttl capacity (cache_key authorization owner repository access) subject admin w).2.
Proof.
  intros Hsound Hg k x Hx. cbn in Hx. apply lookup_insert_Some in Hx as [[<- <-]|[Hne Hx]].
  - exists authorization, owner, repository, access. cbn.
    replace (w_instant w + ttl - ttl)%Z with (w_instant w) by lia. done.
  - apply Hsound.
    destruct (capacity <=? _); [destruct (oldest_entry _)|];
      repeat (apply lookup_delete_Some in Hx as [_ Hx]);
      by apply map_lookup_filter_Some in Hx as [Hx _].
Qed.


(** ** The other adapters *)

(** The development token: a request is accepted exactly when its
    [Authorization] header is "Bearer " followed by a token with the configured
    SHA-256, and then acts as the administrator [development-user]. *)
Theorem authenticate_dev_token_spec base hash headers owner repository access w id w' :
  run (authenticate (mkAppState base (DevelopmentToken hash)) headers owner repository access) w =
    (Ok id, w') ↔
  ∃ token, h_authorization headers = Some ("Bearer " +:+ token) ∧
    digest_bytes (sha256_digest (as_bytes token)) = digest_bytes hash ∧
    id = mkIdentity ("Bearer " +:+ token) "development-user" true ∧ w' = w.
Proof.
  unfold authenticate. split.
  - intros (value & w1 & Hv & Hrun)%run_bind_ok. apply run_lift_ok in Hv as [Hv%ok_or_ok ->].
    cbn [as_authentication] in Hrun.
    apply run_bind_ok in Hrun as (token & w2 & Ht & Hrun).
    apply run_lift_ok in Ht as [Ht%ok_or_ok ->]. apply strip_prefix_Some in Ht. subst value.
    case_bool_decide as Hh; [|done]. injection Hrun as <- <-. by exists token.
  - intros (token & Hv & Hh & -> & ->). apply run_bind_ok. eexists _, w. split; [by rewrite Hv|].
    cbn [as_authentication]. apply run_bind_ok. exists token, w. split.
    + apply run_lift_ok. split; [|done]. apply ok_or_ok. by apply strip_prefix_Some.
    + by rewrite bool_decide_eq_true_2.
Qed.

(** C37: OIDC: an accepted request carries a token that the configured key of
    its [kid] validates for the configured issuer and audience, and its subject
    holds a grant on that repository which includes the requested access; the
    administrator flag is the grant's. *)
Theorem authenticate_oidc_sound base issuer audience keys headers owner repository access w id w' :
  run (authenticate (mkAppState base (Oidc issuer audience keys)) headers owner repository access) w =
    (Ok id, w') →
  ∃ token header kid jwk key claims grant,
    h_authorization headers = Some ("Bearer " +:+ token) ∧
    jwt_decode_header token = Some header ∧ jh_kid header = Some kid ∧ keys !! kid = Some jwk ∧
    jwt_from_jwk jwk = Some key ∧
    jwt_decode token key {| jv_alg := jh_alg header; jv_issuer := issuer; jv_audience := audience |}
      (w_instant w) = Some claims ∧
    grant ∈ select_grants owner repository (oc_sub claims) (w_db w) ∧
    match access with Read => gr_can_read grant | Write => gr_can_write grant end = true ∧
    id = mkIdentity ("Bearer " +:+ token) (oc_sub claims) (gr_can_admin grant).
Proof.
  unfold authenticate.
  intros (value & w1 & Hv & Hrun)%run_bind_ok. apply run_lift_ok in Hv as [Hv%ok_or_ok ->].
  cbn [as_authentication] in Hrun. unfold authenticate_oidc in Hrun.
  apply run_bind_ok in Hrun as (token & w2 & Ht & Hrun).
  apply run_lift_ok in Ht as [Ht%ok_or_ok ->]. apply strip_prefix_Some in Ht. subst value.
  apply run_bind_ok in Hrun as (header & w2 & Hl & Hrun). apply run_lift_ok in Hl as [Hh%ok_or_ok ->].
  apply run_bind_ok in Hrun as (kid & w2 & Hl & Hrun). apply run_lift_ok in Hl as [Hk%ok_or_ok ->].
  apply run_bind_ok in Hrun as (jwk & w2 & Hl & Hrun). apply run_lift_ok in Hl as [Hj%ok_or_ok ->].
  apply run_bind_ok in Hrun as (key & w2 & Hl & Hrun). apply run_lift_ok in Hl as [Hd%ok_or_ok ->].
  apply run_bind_ok in Hrun as (claims & w2 & Hl & Hrun). cbn in Hl. injection Hl as Hc <-.
  apply ok_or_ok in Hc.
  apply run_bind_ok in Hrun as (grants & w2 & Hq & Hrun).
  apply (run_query_read _ (λ _, select_grants owner repository (oc_sub claims))) in Hq as [-> _].
  apply run_bind_ok in Hrun as (grant & w3 & Hl & Hrun). apply run_lift_ok in Hl as [Hg%ok_or_ok ->].
  apply head_Some_elem_of in Hg.
  destruct (match access with Read => _ | Write => _ end) eqn:Hallow in Hrun; [|done].
  injection Hrun as <- <-. exists token, header, kid, jwk, key, claims, grant. by split_and!.
Qed.

End Cache.
