(* ===== verification/Batch.v ===== *)
(** * Batch: the Batch API of [git-lfs-delta-server/src/lib.rs] *)
From S2P Require Import Prelude Digest Manifest Protocol Storage Database Effects Api Sessions Uploads UploadSpecs.

Section Batch.
  Context {St Json : Type} {hex : HexCodec} {hashes : Hashes} {url_lib : UrlLib} {jwt : JwtLib}
          {forgejo : ForgejoApi}.
  Implicit Types (w : World St Json) (db : Db Json).
  Local Abbreviation prog := (prog St Json ApiError).

Definition action_url (base_url : Url) (owner repository : string) (oid : ObjectOid)
    (transfer : TransferKind) : result ApiError LfsAction :=
  if url_has_segments base_url
  then
    let url := url_extend (url_pop_if_empty base_url)
                 [owner; repository; "info"; "lfs"; "objects"]%string in
    let url := url_extend url [ObjectOid_display oid] in
    let url := if bool_decide (transfer = Cdc) then url_extend url ["cdc"%string] else url in
    Ok {| la_href := url; la_header := ∅; la_expires_at := None |}
  else Err (mkApiError INTERNAL_SERVER_ERROR "invalid base URL").

Definition with_authorization (identity : Identity) (action : LfsAction) : LfsAction :=
  {| la_href := la_href action;
     la_header := <["Authorization"%string := id_authorization identity]> (la_header action);
     la_expires_at := la_expires_at action |}.

Definition object_exists (r : Uuid) (oid : ObjectOid) db : bool :=
  bool_decide (is_Some (objects db !! (r, ObjectOid_as_bytes oid))).

(** One turn of the loop over [request.objects]. *)
Definition batch_object (state : AppState) (owner repository : string) (identity : Identity)
    (operation : Operation) (transfer : TransferKind) (r : Uuid) (object : BatchObject)
  : prog BatchObjectResponse :=
  let! present := query ApiError_database (λ _ db, Ok (object_exists r (bo_oid object) db, db)) in
  let respond actions error :=
    {| bor_oid := bo_oid object; bor_size := bo_size object; bor_actions := actions;
       bor_error := error |} in
  let action name :=
    let! action := lift (action_url (as_base_url state) owner repository (bo_oid object) transfer) in
    mret (respond {[name := with_authorization identity action]} None) in
  match operation, present with
  | Upload, false => action "upload"%string
  | Download, true => action "download"%string
  | Download, false =>
      mret (respond ∅ (Some {| boe_code := NOT_FOUND; boe_message := "object not found" |}))
  | Upload, true => mret (respond ∅ None)
  end.

Fixpoint map_prog {A B} (f : A → prog B) (l : list A) : prog (list B) :=
  match l with
  | [] => mret []
  | x :: l => let! y := f x in let! ys := map_prog f l in mret (y :: ys)
  end.

Definition access_of_operation (operation : Operation) : Access :=
  match operation with Upload => Write | Download => Read end.

Definition batch (state : AppState) (owner repository : string) (headers : HeaderMap)
    (request : BatchRequest) : prog BatchResponse :=
  if 1000 <? lenN (br_objects request)
  then fail (mkApiError PAYLOAD_TOO_LARGE "batch contains more than 1,000 objects")
  else
    let! identity :=
      authenticate state headers owner repository (access_of_operation (br_operation request)) in
    let! r := repository_id owner repository in
    let! transfer := lift (map_err (λ e, mkApiError NOT_ACCEPTABLE (TransferSelectionError_display e))
                             (select_transfer (br_transfers request))) in
    let! objects := map_prog
      (batch_object state owner repository identity (br_operation request) transfer r)
      (br_objects request) in
    mret {| bresp_transfer := transfer; bresp_objects := objects |}.

(** ** What each object is answered *)

(** The answer for one object, as a function of whether it is published. *)
Definition answers (state : AppState) (owner repository : string) (identity : Identity)
    (operation : Operation) (transfer : TransferKind) (present : bool) (object : BatchObject)
    (response : BatchObjectResponse) : Prop :=
  bor_oid response = bo_oid object ∧ bor_size response = bo_size object ∧
  match operation, present with
  | Upload, true => bor_actions response = ∅ ∧ bor_error response = None
  | Download, false => bor_actions response = ∅ ∧ boe_code <$> bor_error response = Some NOT_FOUND
  | _, _ =>
      bor_error response = None ∧
      ∃ name action, bor_actions response = {[name := action]} ∧
        name = match operation with Upload => "upload"%string | Download => "download"%string end ∧
        la_header action = {["Authorization"%string := id_authorization identity]} ∧
        ∃ plain, action_url (as_base_url state) owner repository (bo_oid object) transfer = Ok plain ∧
                 la_href action = la_href plain
  end.

Lemma run_batch_object state owner repository identity operation transfer r object w resp w' :
  run (batch_object state owner repository identity operation transfer r object) w = (Ok resp, w') →
  same w w' ∧ answers state owner repository identity operation transfer
                (object_exists r (bo_oid object) (w_db w)) object resp.
Proof.
  unfold batch_object. intros (present & w1 & Hq & Hrun)%run_bind_ok.
  apply (run_query_read _ (λ _, object_exists r (bo_oid object))) in Hq as [-> Hs].
  assert (Haction : ∀ name, run
    (let! action := lift (action_url (as_base_url state) owner repository (bo_oid object) transfer) in
     mret {| bor_oid := bo_oid object; bor_size := bo_size object;
             bor_actions := {[name := with_authorization identity action]}; bor_error := None |}) w1 =
      (Ok resp, w') →
    w' = w1 ∧ bor_oid resp = bo_oid object ∧ bor_size resp = bo_size object ∧ bor_error resp = None ∧
    ∃ plain, action_url (as_base_url state) owner repository (bo_oid object) transfer = Ok plain ∧
      bor_actions resp = {[name := with_authorization identity plain]}).
  { intros name (plain & w2 & Hl & Hr)%run_bind_ok. apply run_lift_ok in Hl as [Hp ->].
    injection Hr as <- <-. split_and!; [done..|]. by exists plain. }
  assert (Hheader : ∀ plain, action_url (as_base_url state) owner repository (bo_oid object) transfer
      = Ok plain → la_header (with_authorization identity plain) =
        {["Authorization"%string := id_authorization identity]}).
  { intros plain. unfold action_url. destruct (url_has_segments _); [|done]. by intros [= <-]. }
  unfold answers. destruct operation, (object_exists r (bo_oid object) (w_db w)).
  - by injection Hrun as <- <-.
  - apply Haction in Hrun as (-> & H1 & H2 & H3 & plain & Hp & H4).
    split_and!; [done..|]. exists "upload"%string, (with_authorization identity plain). eauto 10.
  - apply Haction in Hrun as (-> & H1 & H2 & H3 & plain & Hp & H4).
    split_and!; [done..|]. exists "download"%string, (with_authorization identity plain). eauto 10.
  - by injection Hrun as <- <-.
Qed.

Lemma run_map_prog {A B} (f : A → prog B) (P : Db Json → A → B → Prop) l w ys w' :
  (∀ x w y w', run (f x) w = (Ok y, w') → same w w' ∧ P (w_db w) x y) →
  run (map_prog f l) w = (Ok ys, w') →
  same w w' ∧ Forall2 (P (w_db w)) l ys.
Proof.
  intros Hf. revert w ys. induction l as [|x l IH]; intros w ys; cbn [map_prog].
  { intros [= <- <-]. split; [done|constructor]. }
  intros (y & w1 & Hx & Hrun)%run_bind_ok. apply Hf in Hx as [Hs Hy].
  apply run_bind_ok in Hrun as (ys' & w2 & Hl & Hrun). injection Hrun as <- <-.
  apply IH in Hl as [Hs2 Hall]. pose proof Hs as (Hd & _). rewrite Hd in Hall.
  split; [etrans; [exact Hs|exact Hs2]|by constructor].
Qed.

(** C40: the Batch API answers every object, in the order asked: an upload
    gets an upload action exactly when the object is not published yet, a
    download gets a download action exactly when it is and a 404 otherwise;
    actions carry the client's credentials and the URL of the negotiated
    transfer; nothing is changed and at most 1,000 objects are accepted. *)
Theorem batch_spec state owner repository headers request w resp w' :
  run (batch state owner repository headers request) w = (Ok resp, w') →
  same w w' ∧ lenN (br_objects request) ≤ 1000 ∧
  select_transfer (br_transfers request) = Ok (bresp_transfer resp) ∧
  ∃ identity w1 r,
    run (authenticate state headers owner repository
           (access_of_operation (br_operation request))) w = (Ok identity, w1) ∧
    select_repository_id owner repository (w_db w) = Some r ∧
    Forall2 (λ object response, answers state owner repository identity (br_operation request)
        (bresp_transfer resp) (object_exists r (bo_oid object) (w_db w)) object response)
      (br_objects request) (bresp_objects resp).
Proof.
  unfold batch. destruct (N.ltb_spec 1000 (lenN (br_objects request))); [done|].
  intros (i & w1 & Ha & Hrun)%run_bind_ok. pose proof (run_authenticate _ _ _ _ _ _ _ _ Ha) as Hs1.
  apply run_bind_ok in Hrun as (r & w2 & Hr & Hrun).
  apply run_repository_id in Hr as [Hr Hs2]. pose proof Hs1 as (Hd1 & _). rewrite Hd1 in Hr.
  apply run_bind_ok in Hrun as (t & w3 & Hl & Hrun). apply run_lift_ok in Hl as [Ht%map_err_ok ->].
  apply run_bind_ok in Hrun as (l & w3 & Hm & Hrun). injection Hrun as <- <-.
  apply (run_map_prog _ (λ db object response, answers state owner repository i
    (br_operation request) t (object_exists r (bo_oid object) db) object response)) in Hm
    as [Hs3 Hall]; [|intros x w4 y w5 Hx; by apply run_batch_object in Hx].
  pose proof Hs2 as (Hd2 & _). rewrite Hd2, Hd1 in Hall.
  split_and!; [etrans; [exact Hs1|etrans; [exact Hs2|exact Hs3]]|done|done|].
  exists i, w1, r. by split_and!.
Qed.

End Batch.
