(* ===== verification/Admin.v ===== *)
(** * Admin: the administrative binary, [git-lfs-delta-admin.rs]

    Repositories and OIDC grants are provisioned by two statements; the other
    commands check the schema and run an operation of [gc.rs].  The theorem
    about provisioning says what the OIDC adapter then reads. *)
From S2P Require Import Prelude Text Reconcile Startup Digest Manifest Stream Protocol Storage Database Effects Api Sessions Uploads UploadSpecs Gc.

(** ** The statements *)

Section Statements.
  Context {Json : Type}.
  Implicit Types (db : Db Json).

(** [INSERT ... ON CONFLICT (owner, name) DO UPDATE SET owner = EXCLUDED.owner
    RETURNING id]: the update writes what the row already holds. *)
Definition upsert_repository (id : Uuid) (owner name : string) (_ : Z) db
  : result SqlxError (Uuid * Db Json) :=
  match select_repository_id owner name db with
  | Some existing => Ok (existing, db)
  | None =>
      require (bool_decide (repositories db !! id = None)) UNIQUE_VIOLATION
        (Ok (id, with_repositories
                   (<[id := {| rp_owner := owner; rp_name := name |}]> (repositories db)) db))
  end.

(** The [CHECK] constraints of [repository_grants]. *)
Definition grant_checks (row : GrantRow) : bool :=
  (negb (gr_can_write row) || gr_can_read row) && (negb (gr_can_admin row) || gr_can_write row).

(** [INSERT ... ON CONFLICT (repository_id, subject) DO UPDATE]. *)
Definition upsert_grant (r : Uuid) (subject : string) (can_write can_admin : bool) (_ : Z) db
  : result SqlxError (unit * Db Json) :=
  let row := {| gr_can_read := true; gr_can_write := can_write; gr_can_admin := can_admin |} in
  require (grant_checks row) CHECK_VIOLATION
    (require (repository_exists r db) FOREIGN_KEY_VIOLATION
      (Ok (tt, with_repository_grants (<[(r, subject) := row]> (repository_grants db)) db))).

End Statements.

Section Provisioning.
  Context {St Json : Type}.

(** [Commands::RepositoryAdd]. *)
Definition repository_add (owner name : string) : prog St Json SqlxError Uuid :=
  let! id := new_v4 in
  query (λ e, e) (upsert_repository id owner name).

(** [Commands::Grant]. *)
Definition grant (r : Uuid) (subject : string) (write admin : bool) : prog St Json SqlxError unit :=
  query (λ e, e) (upsert_grant r subject (write || admin) admin).

End Provisioning.

(** ** Neither statement touches an object *)

Section Untouched.
  Context {Json : Type} {json : ManifestJson Json}.
  Implicit Types (db : Db Json).

Lemma upsert_repository_ok id owner name now db r db' :
  upsert_repository id owner name now db = Ok (r, db') → db_ok db →
  db_ok db' ∧ objects db' = objects db ∧ object_chunks db' = object_chunks db.
Proof.
  unfold upsert_repository. intros H [[] Hobj]. destruct (select_repository_id owner name db).
  - injection H as <- <-. done.
  - apply require_ok in H as [_ [= <- <-]]. split_and!; [|done|done].
    split; [by split|by eapply objects_ok_frame].
Qed.

Lemma upsert_grant_ok r subject can_write can_admin now db u db' :
  upsert_grant r subject can_write can_admin now db = Ok (u, db') → db_ok db →
  db_ok db' ∧ objects db' = objects db ∧ object_chunks db' = object_chunks db.
Proof.
  unfold upsert_grant. rewrite !require_ok. intros (_ & _ & [= <- <-]) [[] Hobj].
  split_and!; [|done|done]. split; [by split|by eapply objects_ok_frame].
Qed.

End Untouched.

(** ** The tables of the tenants *)

Section Tenants.
  Context {Json : Type}.
  Implicit Types (db : Db Json).

(** Repository names are unique; grants satisfy the checks and belong to a
    repository. *)
Record tenants_ok db : Prop := {
  tenants_unique r r' row :
    repositories db !! r = Some row → repositories db !! r' = Some row → r = r';
  tenants_checks k row : repository_grants db !! k = Some row → grant_checks row = true;
  tenants_exist r s row :
    repository_grants db !! (r, s) = Some row → is_Some (repositories db !! r);
}.

Lemma select_repository_Some owner name db r :
  select_repository_id owner name db = Some r →
  repositories db !! r = Some {| rp_owner := owner; rp_name := name |}.
Proof.
  unfold select_repository_id. intros H. apply fmap_Some in H as ([r' row] & Hh & ->).
  apply head_Some_elem_of, list_elem_of_filter in Hh as [[<- <-] Hin].
  apply elem_of_map_to_list in Hin. by destruct row.
Qed.

Lemma select_repository_None owner name db r :
  select_repository_id owner name db = None →
  repositories db !! r ≠ Some {| rp_owner := owner; rp_name := name |}.
Proof.
  unfold select_repository_id. intros Hn Hr. apply fmap_None, head_None, filter_nil_iff in Hn.
  rewrite Forall_forall in Hn. apply elem_of_map_to_list, Hn in Hr. by apply Hr.
Qed.

Lemma select_repository_iff owner name db r :
  tenants_ok db →
  select_repository_id owner name db = Some r ↔
  repositories db !! r = Some {| rp_owner := owner; rp_name := name |}.
Proof.
  intros Hok. split; [apply select_repository_Some|]. intros Hr.
  destruct (select_repository_id owner name db) as [r'|] eqn:Hs.
  - f_equal. eapply tenants_unique; [done|by apply select_repository_Some|done].
  - by eapply select_repository_None in Hs.
Qed.

(** The grants the OIDC adapter sees. *)
Lemma select_grants_elem owner name subject db row :
  row ∈ select_grants owner name subject db ↔
  ∃ r, repository_grants db !! (r, subject) = Some row ∧
       repositories db !! r = Some {| rp_owner := owner; rp_name := name |}.
Proof.
  unfold select_grants. rewrite list_elem_of_fmap. split.
  - intros ([[r s] row'] & -> & [[Hs Hr] Hin]%list_elem_of_filter). cbn in *. subst s.
    apply elem_of_map_to_list in Hin. exists r. split; [done|].
    destruct (repositories db !! r) as [[o n]|]; by simplify_eq/=.
  - intros (r & Hrow & Hr). exists ((r, subject), row). split; [done|].
    apply list_elem_of_filter. cbn. rewrite Hr. split; [done|]. by apply elem_of_map_to_list.
Qed.

(** One repository of a name has at most one grant for a subject. *)
Lemma select_grants_one owner name subject db r row :
  tenants_ok db → repositories db !! r = Some {| rp_owner := owner; rp_name := name |} →
  repository_grants db !! (r, subject) = Some row →
  select_grants owner name subject db = [row].
Proof.
  intros Hok Hr Hrow. unfold select_grants.
  set (l := filter _ _). assert (Hnd : NoDup l) by (apply NoDup_filter, NoDup_map_to_list).
  assert (Hl : ∀ kv, kv ∈ l ↔ kv = ((r, subject), row)).
  { intros [[r' s] row']. unfold l. rewrite list_elem_of_filter, elem_of_map_to_list. cbn. split.
    - intros [[-> Hn] Hin]. destruct (repositories db !! r') as [[o n]|] eqn:Hr'; simplify_eq/=.
      assert (r' = r) as -> by (by eapply tenants_unique). congruence.
    - intros [= -> -> ->]. by rewrite Hr. }
  clearbody l. assert (((r, subject), row) ∈ l) as Hin by (by apply Hl).
  destruct l as [|kv l]; [set_solver|]. assert (kv = ((r, subject), row)) as -> by (apply Hl; set_solver).
  destruct l as [|kv l]; [done|]. assert (kv = ((r, subject), row)) as -> by (apply Hl; set_solver).
  apply NoDup_cons in Hnd as [Hnd _]. set_solver.
Qed.

Lemma upsert_repository_spec id owner name now db r db' :
  upsert_repository id owner name now db = Ok (r, db') → tenants_ok db →
  tenants_ok db' ∧ repositories db' !! r = Some {| rp_owner := owner; rp_name := name |} ∧
  (∀ existing, select_repository_id owner name db = Some existing → r = existing) ∧
  (∀ r' row, repositories db' !! r' = Some row ↔
     repositories db !! r' = Some row ∨ r' = r ∧ row = {| rp_owner := owner; rp_name := name |}) ∧
  ∃ t, db' = with_repositories t db.
Proof.
  unfold upsert_repository. intros H Hok.
  destruct (select_repository_id owner name db) as [existing|] eqn:Hs.
  - injection H as <- <-. apply select_repository_Some in Hs. split_and!; [done|done|by intros ? [= ->]| |].
    + intros r' row. split; [by left|]. by intros [?|[-> ->]].
    + exists (repositories db). by destruct db.
  - apply require_ok in H as [Hn [= <- <-]]. bool_hyps.
    assert (Hnew := λ r', select_repository_None _ _ _ r' Hs).
    split_and!; [|by cbn; rewrite lookup_insert_eq|done| |by eexists].
    + split; cbn.
      * intros r' r2 row. rewrite !lookup_insert_Some.
        intros [[<- <-]|[? H1]] [[<- E]|[? H2]]; [done|by apply Hnew in H2|subst row; by apply Hnew in H1|].
        by eapply tenants_unique.
      * by apply tenants_checks.
      * intros r' s row Hrow%(tenants_exist _ Hok). destruct (decide (r' = id)) as [->|];
          [by rewrite lookup_insert_eq|by rewrite lookup_insert_ne].
    + intros r' row. cbn. rewrite lookup_insert_Some. split.
      * intros [[<- <-]|[_ ?]]; [by right|by left].
      * intros [Hr'|[-> ->]]; [right|by left]. split; [|done]. intros <-. congruence.
Qed.

Lemma upsert_grant_spec r subject can_write can_admin now db db' :
  upsert_grant r subject can_write can_admin now db = Ok (tt, db') → tenants_ok db →
  let row := {| gr_can_read := true; gr_can_write := can_write; gr_can_admin := can_admin |} in
  tenants_ok db' ∧ db' = with_repository_grants (<[(r, subject) := row]> (repository_grants db)) db.
Proof.
  unfold upsert_grant. rewrite !require_ok. intros (Hc & Hr & [= <-]) Hok. cbv zeta.
  split; [|done]. split; cbn.
  - by apply tenants_unique.
  - intros k row [[<- <-]|[_ ?]]%lookup_insert_Some; [done|by eapply tenants_checks].
  - intros r' s row [[[= <- <-] _]|[_ ?]]%lookup_insert_Some; [|by eapply tenants_exist].
    unfold repository_exists in Hr. by bool_hyps.
Qed.

End Tenants.

Section Theorems.
  Context {St Json : Type}.
  Implicit Types (w : World St Json).

Lemma run_query_ok {E A} (l : SqlxError → E) (q : Z → Db Json → result SqlxError (A * Db Json)) w a w' :
  run (query l q) w = (Ok a, w') → q (w_now w) (w_db w) = Ok (a, w_db w') ∧ w_store w' = w_store w.
Proof.
  cbn. unfold tx_map_err. destruct (stmt q w) as [[x|e] w1] eqn:Hs; cbn; [|done].
  intros [= <- <-]. by apply stmt_spec in Hs as (? & _ & ?).
Qed.

Lemma run_repository_add owner name w r w' :
  run (repository_add owner name) w = (Ok r, w') →
  ∃ id now, upsert_repository id owner name now (w_db w) = Ok (r, w_db w') ∧ w_store w' = w_store w.
Proof.
  intros (id & w1 & Hid & Hrun)%run_bind_ok. injection Hid as _ <-.
  apply run_query_ok in Hrun as [? ?]. by exists id, (w_now w).
Qed.

(** C31: provisioning gives exactly the access that was asked for.  After
    [repository-add] and [grant] succeeded, the name belongs to the repository
    that was printed, which is the one that already had it if any; the OIDC
    adapter reads for the subject the single grant requested, where
    administration includes writing and writing includes reading; no other
    repository or subject gained or lost a grant; and names are still unique. *)
Theorem provisioning_spec owner name subject write admin w r w1 w2 :
  tenants_ok (w_db w) →
  run (repository_add owner name) w = (Ok r, w1) →
  run (grant r subject write admin) w1 = (Ok tt, w2) →
  tenants_ok (w_db w2) ∧
  select_repository_id owner name (w_db w2) = Some r ∧
  (∀ existing, select_repository_id owner name (w_db w) = Some existing → r = existing) ∧
  select_grants owner name subject (w_db w2) =
    [{| gr_can_read := true; gr_can_write := write || admin; gr_can_admin := admin |}] ∧
  (∀ o n s row, (o, n, s) ≠ (owner, name, subject) →
     row ∈ select_grants o n s (w_db w2) ↔ row ∈ select_grants o n s (w_db w)).
Proof.
  intros Hok (id & now & Hadd & _)%run_repository_add [Hgrant _]%run_query_ok.
  apply upsert_repository_spec in Hadd as (Hok1 & Hr & Hex & Hrows & t & H1); [|done].
  apply upsert_grant_spec in Hgrant as [Hok2 H2]; [|done].
  assert (Hr2 : repositories (w_db w2) = repositories (w_db w1)) by (by rewrite H2).
  assert (Hg2 := f_equal repository_grants H2). cbn in Hg2.
  assert (Hg1 : repository_grants (w_db w1) = repository_grants (w_db w)) by (by rewrite H1).
  split_and!; [done| |done| |].
  - apply select_repository_iff; [done|]. by rewrite Hr2.
  - apply (select_grants_one _ _ _ _ r); [done|by rewrite Hr2|]. by rewrite Hg2, lookup_insert_eq.
  - intros o n s row Hne. rewrite !select_grants_elem. setoid_rewrite Hr2. rewrite Hg2, Hg1.
    split.
    + intros (r' & Hrow & Hr'). exists r'.
      apply lookup_insert_Some in Hrow as [[[= <- <-] _]|[_ Hrow]]; [congruence|]. split; [done|].
      destruct (tenants_exist _ Hok _ _ _ Hrow) as [row' Hrow'].
      assert (repositories (w_db w1) !! r' = Some row') as H' by (apply Hrows; by left). congruence.
    + intros (r' & Hrow & Hr'). assert (repositories (w_db w1) !! r' = Some {| rp_owner := o; rp_name := n |})
        as H' by (apply Hrows; by left).
      exists r'. split; [|done]. apply lookup_insert_Some. right. split; [|done].
      intros [= <- <-]. rewrite H' in Hr. congruence.
Qed.

End Theorems.

(** ** The commands *)

(** Every command but [migrate], which is in [Migrate]. *)
Inductive AdminCommand :=
| Healthcheck (url : string)
| MigrateStatus
| SchemaCheck
| RepositoryAdd (owner name : string)
| Grant (repository_id : Uuid) (subject : string) (write admin : bool)
| ReconcileCommand (repository_id : Uuid) (git_url : string)
| GcDryRun (repository_id : Uuid)
| GcStage (repository_id : Uuid) (grace_seconds : N)
| GcCollect (repository_id : Uuid)
| UploadsReclaim (repository_id : Uuid) (grace_seconds : N).

Inductive AdminError :=
| AdminHttp
| AdminStartup (error : StartupError)
| AdminSql (error : SqlxError)
| AdminScan (error : ScanError)
| AdminGc (error : GcError).

Definition print_schema_status (status : SchemaStatus) : string :=
  "applied=" +:+ pretty (ss_applied_version status) +:+ " target=" +:+ pretty (ss_target_version status)
  +:+ " pending=" +:+ pretty (ss_pending status) +:+ " newer=" +:+ pretty (ss_newer status).

Section Commands.
  Context {St Json G : Type} {object_store : ObjectStore St} {json : ManifestJson Json}
          {hex : HexCodec} {hashes : Hashes} {uuid_text : UuidText} {url_lib : UrlLib} {host : Host}
          {commands : Commands G}.
  (** The embedded migrations, a GET on the health URL, [tempfile::tempdir]
      and the system [git] runs on. *)
  Context (MIGRATOR : list Migration) (http_get : string → HttpOutcome unit)
          (tempdir : result IoError string) (system : G).

(** [?] on an error that is boxed. *)
Fixpoint boxed {E A} (f : E → AdminError) (p : prog St Json E A) : prog St Json AdminError A :=
  match p with
  | Ret r => Ret (map_err f r)
  | Act g k => Act g (λ x, boxed f (k x))
  end.

Definition startup_lift {A} (r : result StartupError A) : prog St Json AdminError A :=
  lift (map_err AdminStartup r).

(** The URL, parsed, and the store it names. *)
Definition admin_store : prog St Json AdminError unit :=
  let! storage_url := startup_lift (parse_required_url "GIT_LFS_DELTA_STORAGE_URL") in
  startup_lift (map_err StorageUrlError (store_parse_url storage_url)).

Definition TAB : string := String (Ascii.ascii_of_N 9) EmptyString.

(** The second [match], after the schema was checked: the lines printed. *)
Definition admin_operation (fuel : nat) (command : AdminCommand)
  : prog St Json AdminError (list string) :=
  match command with
  | Healthcheck _ | MigrateStatus | SchemaCheck =>
      fail (AdminStartup (ConfigurationError "administrative command dispatch failed"))
  | RepositoryAdd owner name =>
      let! id := boxed AdminSql (repository_add owner name) in mret [uuid_display id]
  | Grant r subject write admin =>
      let! _ := boxed AdminSql (grant r subject write admin) in mret []
  | ReconcileCommand r git_url =>
      let! scan := lift (map_err AdminScan (Reconcile.scan tempdir git_url system).1) in
      let! epoch := boxed AdminSql (submit_snapshot
        {| rs_repository_id := r; rs_ref_fingerprint := Reconcile.ref_fingerprint scan;
           rs_reachable_objects := Reconcile.reachable_objects scan |}) in
      mret ["epoch " +:+ uuid_display epoch +:+ ": "
            +:+ pretty (lenN (Reconcile.reachable_objects scan)) +:+ " reachable objects"]
  | GcDryRun r =>
      let! candidates := boxed AdminSql (dry_run r) in
      mret (map (λ c, ObjectOid_display (gc_oid c) +:+ TAB +:+ pretty (gc_size c)) candidates)
  | GcStage r grace_seconds =>
      let! candidates := boxed AdminSql (stage r grace_seconds) in
      mret ["staged " +:+ pretty (lenN candidates) +:+ " objects"]
  | GcCollect r =>
      let! _ := admin_store in
      let! deleted := boxed AdminGc (collect_due fuel r) in
      mret ["deleted " +:+ pretty (default 0 deleted) +:+ " objects"]
  | UploadsReclaim r grace_seconds =>
      let! _ := admin_store in
      let! reclaimed := boxed AdminGc (reclaim_expired_uploads r grace_seconds) in
      mret ["reclaimed " +:+ pretty reclaimed +:+ " expired upload sessions"]
  end.

Definition admin_main (fuel : nat) (command : AdminCommand) : prog St Json AdminError (list string) :=
  match command with
  | Healthcheck url =>
      match http_get url with
      | HttpTransport => fail AdminHttp
      | HttpResponse status _ => if within 400 599 status then fail AdminHttp else mret []
      end
  | _ =>
      let! database_url := startup_lift (required "GIT_LFS_DELTA_DATABASE_URL") in
      let! _ := startup_lift (map_err PoolError (pool_connect database_url 10)) in
      match command with
      | MigrateStatus =>
          let! status := startup_lift (map_err SchemaFailed
            (schema_status MIGRATOR history_exists history)) in
          mret [print_schema_status status]
      | _ =>
          let! status := startup_lift (map_err SchemaFailed
            (schema_check MIGRATOR history_exists history)) in
          match command with
          | SchemaCheck => mret [print_schema_status status]
          | _ => admin_operation fuel command
          end
      end
  end.

End Commands.
