(* ===== verification/Metrics.v ===== *)
(** * Metrics: the counters of the service and their text

    [ServiceMetrics]'s HTTP counters and the text [metrics] prints. *)
From S2P Require Import Prelude Digest Manifest Stream Protocol Storage Database Effects.
#[local] Open Scope N_scope.

(** ** The counters of the HTTP layer *)

(** [fetch_sub] wraps around. *)
Definition wrapping_sub_u64 (a b : N) : N := (a + (U64_MAX + 1 - b)) `mod` (U64_MAX + 1).

Definition add_in_flight (n : N) (m : ServiceMetrics) : ServiceMetrics :=
  mkServiceMetrics (logical_uploaded m) (logical_downloaded m) (chunks_received m)
    (auth_cache_hits m) (auth_cache_misses m) (forgejo_requests m) (http_requests m)
    (http_failures m) (wrapping_add_u64 (in_flight m) n).
Definition sub_in_flight (n : N) (m : ServiceMetrics) : ServiceMetrics :=
  mkServiceMetrics (logical_uploaded m) (logical_downloaded m) (chunks_received m)
    (auth_cache_hits m) (auth_cache_misses m) (forgejo_requests m) (http_requests m)
    (http_failures m) (wrapping_sub_u64 (in_flight m) n).
Definition add_http_requests (n : N) (m : ServiceMetrics) : ServiceMetrics :=
  mkServiceMetrics (logical_uploaded m) (logical_downloaded m) (chunks_received m)
    (auth_cache_hits m) (auth_cache_misses m) (forgejo_requests m)
    (wrapping_add_u64 (http_requests m) n) (http_failures m) (in_flight m).
Definition add_http_failures (n : N) (m : ServiceMetrics) : ServiceMetrics :=
  mkServiceMetrics (logical_uploaded m) (logical_downloaded m) (chunks_received m)
    (auth_cache_hits m) (auth_cache_misses m) (forgejo_requests m) (http_requests m)
    (wrapping_add_u64 (http_failures m) n) (in_flight m).

(** [StatusCode::is_server_error]. *)
Definition is_server_error (status : N) : bool := (500 <=? status) && (status <=? 599).

Definition LINE_FEED : string := String (Ascii.ascii_of_N 10) EmptyString.

(** One metric of the exposition text. *)
Definition exposition (name kind : string) (value : N) : string :=
  "# TYPE " +:+ name +:+ " " +:+ kind +:+ LINE_FEED +:+ name +:+ " " +:+ pretty value +:+ LINE_FEED.

Definition metrics_text (m : ServiceMetrics) : string :=
  exposition "git_lfs_delta_logical_upload_bytes_total" "counter" (logical_uploaded m) +:+
  exposition "git_lfs_delta_logical_download_bytes_total" "counter" (logical_downloaded m) +:+
  exposition "git_lfs_delta_received_chunk_bytes_total" "counter" (chunks_received m) +:+
  exposition "git_lfs_delta_forgejo_auth_cache_hits_total" "counter" (auth_cache_hits m) +:+
  exposition "git_lfs_delta_forgejo_auth_cache_misses_total" "counter" (auth_cache_misses m) +:+
  exposition "git_lfs_delta_forgejo_requests_total" "counter" (forgejo_requests m) +:+
  exposition "git_lfs_delta_http_requests_total" "counter" (http_requests m) +:+
  exposition "git_lfs_delta_http_failures_total" "counter" (http_failures m) +:+
  exposition "git_lfs_delta_http_in_flight" "gauge" (in_flight m).

Section Layer.
  Context {St Json : Type}.

(** One [load]. *)
Definition load {E} (counter : ServiceMetrics → N) : prog St Json E N :=
  act (λ w, (counter (w_metrics w), w)).

(** [metrics]: the counters are loaded one after the other. *)
Definition metrics {E} : prog St Json E string :=
  let! uploaded := load logical_uploaded in
  let! downloaded := load logical_downloaded in
  let! received := load chunks_received in
  let! hits := load auth_cache_hits in
  let! misses := load auth_cache_misses in
  let! forgejo := load forgejo_requests in
  let! requests := load http_requests in
  let! failures := load http_failures in
  let! flying := load in_flight in
  mret (metrics_text (mkServiceMetrics uploaded downloaded received hits misses forgejo requests
                        failures flying)).

(** The counters of the HTTP layer. *)
Definition http_of (w : World St Json) : N * N * N :=
  (in_flight (w_metrics w), http_requests (w_metrics w), http_failures (w_metrics w)).

End Layer.
