(* ===== verification/Handlers.v ===== *)
(** * Handlers: what every action of a request does

    A relation that the few transactions of the handlers and everything without
    effect on tables and counters respect ([Respected]) relates the worlds
    before and after every single action of every handler. *)
From S2P Require Import Prelude Digest Manifest Stream Protocol Storage Database Effects Actions Api Sessions Uploads Locks Batch Metrics.
#[local] Open Scope N_scope.

(** [T] allows the transactions of the handlers, and every action that leaves
    the tables, the clock and the HTTP counters alone. *)
Class Respected {St Json} {json : ManifestJson Json} {pg : PgText} (T : relation (World St Json)) := {
  respects_calm w w' : w_db w' = w_db w → w_now w' = w_now w → http_of w' = http_of w → T w w';
  respects_open_session r m v e :
    each_tx T (atomically ApiError_database (open_session r m v e));
  respects_register r id d :
    each_tx T (atomically ApiError_database (register_session_chunk r id d));
  respects_publish r id m : each_tx T (atomically ApiError_database (publish_tx r id m));
  respects_create_lock id r path subject :
    each_tx T (tx_map_err lock_error (stmt (insert_lock id r path subject)));
  respects_unlock id r : each_tx T (tx_map_err ApiError_database (stmt (delete_lock id r)));
}.

Section Calm.
  Context {St Json : Type} {json : ManifestJson Json} {pg : PgText}
          (T : relation (World St Json)) {T_respected : Respected T}.
  Local Abbreviation each p := (each T p).

Lemma each_calm_act {E A} (f : World St Json → A * World St Json) :
  (∀ w, w_db (f w).2 = w_db w ∧ w_now (f w).2 = w_now w ∧ http_of (f w).2 = http_of w) →
  each (act (E:=E) f).
Proof. intros Hf. apply each_act. intros w. by apply respects_calm; apply Hf. Qed.

Lemma each_read {E A} (l : SqlxError → E) (f : Z → Db Json → A) :
  each (query l (λ now db, Ok (f now db, db))).
Proof.
  apply each_atomic, each_tx_map_err. intros w. unfold stmt.
  destruct (hd false (w_faults w)); by apply respects_calm.
Qed.

Lemma each_count {E} f :
  (∀ w : World St Json, http_of (set_metrics (f (w_metrics w)) w) = http_of w) →
  each (count (E:=E) f).
Proof. intros Hf. apply each_calm_act. intros w. split_and!; [done|done|apply Hf]. Qed.
Lemma each_store_call {E F A} (l : F → E) (f : St → result F A * St) : each (store_call l f).
Proof.
  apply each_atomic, each_tx_map_err. intros w. unfold tx_store.
  destruct (f (w_store w)); by apply respects_calm.
Qed.
Lemma each_io {E} (e : E) : each (io e).
Proof. apply each_atomic. intros w. by apply respects_calm. Qed.
Lemma each_acquire {E} (e : E) : each (acquire e).
Proof. apply each_atomic. intros w. by apply respects_calm. Qed.
Lemma each_new_v4 {E} : each (new_v4 (E:=E)).
Proof. by apply each_calm_act. Qed.

End Calm.

Create HintDb each discriminated.
#[export] Hint Resolve each_ret each_fail each_lift each_store_call each_io each_acquire each_new_v4
  respects_open_session respects_register respects_publish respects_create_lock respects_unlock : each.

(** One step into a program. *)
Ltac each_step :=
  match goal with
  | |- each _ (mbind _ _) => apply each_bind; [|intros]
  | |- each _ (transaction _ _) => apply each_atomic
  | |- each _ (query _ (insert_lock _ _ _ _)) => apply each_atomic
  | |- each _ (query _ (delete_lock _ _)) => apply each_atomic
  | |- each _ (query _ _) =>
      first [apply (each_read _ _ (λ now db, _)) | apply (each_read _ _ (λ _ db, _)) | apply (each_read _ _ (λ _ _, _))]
  | |- each _ (count _) => by apply each_count
  | |- each _ (atomic _) => apply each_atomic; intros ?; by apply respects_calm
  | |- each _ (act _) => apply each_calm_act; intros; by repeat case_match
  | |- _ (match ?x with _ => _ end) => destruct x
  | |- _ => progress eauto with each
  end.
Ltac each_steps := repeat each_step.

Section Handlers.
  Context {St Json : Type} {object_store : ObjectStore St}
          {json : ManifestJson Json} {pg : PgText} {hex : HexCodec} {hashes : Hashes}
          {uuid_text : UuidText} {fastcdc : FastCdc} {url_lib : UrlLib} {jwt : JwtLib}
          {forgejo : ForgejoApi}.
  Context (T : relation (World St Json)) {T_respected : Respected T}.
  Local Abbreviation each p := (each T p).

Lemma authenticate_each state headers owner repository access :
  each (authenticate state headers owner repository access).
Proof. unfold authenticate, authenticate_forgejo, authenticate_oidc, cache_lookup. each_steps. Qed.
Lemma repository_id_each owner repository : each (repository_id owner repository).
Proof. unfold repository_id. each_steps. Qed.
Lemma load_manifest_each r o : each (load_manifest r o).
Proof. unfold load_manifest. each_steps. Qed.
Lemma load_open_upload_each r o id : each (load_open_upload r o id).
Proof. unfold load_open_upload. each_steps. Qed.
Lemma load_finalizable_upload_each r o id : each (load_finalizable_upload r o id).
Proof. unfold load_finalizable_upload. each_steps. Qed.

Lemma register_and_store_chunk_each r id d b : each (register_and_store_chunk r id d b).
Proof. unfold register_and_store_chunk. each_steps. Qed.
Lemma publish_manifest_each r id m : each (publish_manifest r id m).
Proof. unfold publish_manifest. each_steps. Qed.
Lemma count_published_each m b : each (count_published m b).
Proof. unfold count_published. each_steps. Qed.
Lemma reopen_reader_each content : each (reopen_reader content).
Proof. unfold reopen_reader. each_steps. Qed.

Lemma ensure_upload_session_each r m : each (ensure_upload_session r m).
Proof. unfold ensure_upload_session. each_steps. Qed.

(** The loops. *)
Lemma missing_indexes_each r l missing : each (missing_indexes r l missing).
Proof. revert missing. induction l as [|[i d] l IH]; intros missing; cbn [missing_indexes]; each_steps; done. Qed.
Lemma hash_chunks_each r l h : each (hash_chunks r l h).
Proof. revert h. induction l as [|d l IH]; intros h; cbn [hash_chunks]; each_steps. Qed.
Lemma reassemble_each r l h file : each (reassemble r l h file).
Proof. revert h file. induction l as [|d l IH]; intros h file; cbn [reassemble]; each_steps. Qed.
Lemma copy_limited_each limit body copied file : each (copy_limited limit body copied file).
Proof.
  revert limit copied file. induction body as [|[b|e] body IH]; intros; cbn [copy_limited]; each_steps.
Qed.
Lemma store_stream_each r id items stream : each (store_stream r id items stream).
Proof.
  revert stream. induction items as [|item items IH]; intros stream; cbn [store_stream]; [done|].
  destruct (ChunkStream_accept _ item) as [[chunk st]|e]; [|done].
  apply each_bind; [apply register_and_store_chunk_each|done].
Qed.
Lemma map_prog_each {A B} (f : A → prog St Json ApiError B) l :
  (∀ x, each (f x)) → each (map_prog f l).
Proof. intros Hf. induction l as [|x l IH]; cbn [map_prog]; each_steps. Qed.

End Handlers.
#[export] Hint Resolve authenticate_each repository_id_each  load_manifest_each
  load_open_upload_each load_finalizable_upload_each register_and_store_chunk_each
  publish_manifest_each count_published_each reopen_reader_each missing_indexes_each
  hash_chunks_each reassemble_each copy_limited_each store_stream_each
  map_prog_each ensure_upload_session_each : each.

(** *** The handlers *)

Section Programs.
  Context {St Json : Type} {object_store : ObjectStore St}
          {json : ManifestJson Json} {pg : PgText} {hex : HexCodec} {hashes : Hashes}
          {uuid_text : UuidText} {fastcdc : FastCdc} {url_lib : UrlLib} {jwt : JwtLib}
          {forgejo : ForgejoApi}.
  Context (T : relation (World St Json)) {T_respected : Respected T}.
  Local Abbreviation each p := (each T p).

Lemma readiness_each : each readiness.
Proof. unfold readiness. each_steps. Qed.
Lemma metrics_each {E} : each (metrics (E:=E)).
Proof. unfold metrics, load. each_steps. Qed.
Lemma begin_cdc_each state owner repository oid headers request :
  each (begin_cdc state owner repository oid headers request).
Proof. unfold begin_cdc. each_steps. Qed.
Lemma upload_cdc_chunk_each state owner repository oid id index headers b :
  each (upload_cdc_chunk state owner repository oid id index headers b).
Proof. unfold upload_cdc_chunk. each_steps. Qed.
Lemma finalize_cdc_each state owner repository oid id headers :
  each (finalize_cdc state owner repository oid id headers).
Proof. unfold finalize_cdc. each_steps. Qed.
Lemma download_cdc_manifest_each state owner repository oid headers :
  each (download_cdc_manifest state owner repository oid headers).
Proof. unfold download_cdc_manifest. each_steps. Qed.
Lemma download_cdc_chunk_each state owner repository oid index headers :
  each (download_cdc_chunk state owner repository oid index headers).
Proof. unfold download_cdc_chunk. each_steps. Qed.
Lemma download_basic_each state owner repository oid headers :
  each (download_basic state owner repository oid headers).
Proof. unfold download_basic. each_steps. Qed.
Lemma upload_basic_each state owner repository oid headers body :
  each (upload_basic state owner repository oid headers body).
Proof. unfold upload_basic. each_steps. Qed.
Lemma batch_each state owner repository headers request :
  each (batch state owner repository headers request).
Proof. unfold batch, batch_object. each_steps. apply (map_prog_each T). intros x. each_steps. Qed.
Lemma create_lock_each state owner repository headers request :
  each (create_lock state owner repository headers request).
Proof. unfold create_lock. each_steps. Qed.
Lemma list_locks_each state owner repository query headers :
  each (list_locks state owner repository query headers).
Proof. unfold list_locks, load_locks_page. each_steps. Qed.
Lemma verify_locks_each state owner repository headers request :
  each (verify_locks state owner repository headers request).
Proof. unfold verify_locks, load_locks_page. each_steps. Qed.
Lemma unlock_each state owner repository id headers request :
  each (unlock state owner repository id headers request).
Proof. unfold unlock. each_steps. Qed.

End Programs.
#[export] Hint Resolve readiness_each metrics_each begin_cdc_each upload_cdc_chunk_each
  finalize_cdc_each download_cdc_manifest_each download_cdc_chunk_each download_basic_each
  upload_basic_each batch_each create_lock_each list_locks_each verify_locks_each
  unlock_each : each.
