(* ===== verification/Routes.v ===== *)
(** * Routes: from HTTP requests to handlers and back
    ([git-lfs-delta-server/src/lib.rs])

    [build_router]'s table, the extraction of each handler's arguments and the
    response made of its outcome.  The [axum] crate (the choice of a pattern for
    a path, the extractors and their rejections), [serde_json] and the text form
    of UUIDs are interfaces. *)
From S2P Require Import Prelude Digest Manifest Stream Text Protocol Storage Database Effects Actions Api Sessions Uploads Locks Batch Metrics.
#[local] Open Scope N_scope.

(** ** The routing table *)

Inductive Segment := Lit (s : string) | Var.

#[global] Instance Segment_eq_dec : EqDecision Segment.
Proof. solve_decision. Defined.

Inductive Endpoint :=
| EHealthz | EReadiness | EMetrics | EBatch
| EUploadBasic | EDownloadBasic | EBeginCdc | EDownloadCdcManifest | EDownloadCdcChunk
| EUploadCdcChunk | EFinalizeCdc
| ECreateLock | EListLocks | EVerifyLocks | EUnlock.

Record Route := mkRoute { rt_pattern : list Segment; rt_methods : list (Method * Endpoint) }.

(** "/{owner}/{repository}/info/lfs/objects/{oid}", and what follows it. *)
Definition object_pattern (rest : list Segment) : list Segment :=
  [Var; Var; Lit "info"; Lit "lfs"; Lit "objects"; Var] ++ rest.
Definition locks_pattern (rest : list Segment) : list Segment :=
  [Var; Var; Lit "info"; Lit "lfs"; Lit "locks"] ++ rest.

Definition build_router : list Route :=
  [mkRoute [Lit "healthz"] [(GET, EHealthz)];
   mkRoute [Lit "readyz"] [(GET, EReadiness)];
   mkRoute [Lit "metrics"] [(GET, EMetrics)];
   mkRoute [Var; Var; Lit "info"; Lit "lfs"; Lit "objects"; Lit "batch"] [(POST, EBatch)];
   mkRoute (object_pattern []) [(PUT, EUploadBasic); (GET, EDownloadBasic)];
   mkRoute (object_pattern [Lit "cdc"]) [(POST, EBeginCdc); (GET, EDownloadCdcManifest)];
   mkRoute (object_pattern [Lit "cdc"; Lit "chunks"; Var]) [(GET, EDownloadCdcChunk)];
   mkRoute (object_pattern [Lit "cdc"; Var; Lit "chunks"; Var]) [(PUT, EUploadCdcChunk)];
   mkRoute (object_pattern [Lit "cdc"; Var; Lit "finalize"]) [(POST, EFinalizeCdc)];
   mkRoute (locks_pattern []) [(POST, ECreateLock); (GET, EListLocks)];
   mkRoute (locks_pattern [Lit "verify"]) [(POST, EVerifyLocks)];
   mkRoute (locks_pattern [Var; Lit "unlock"]) [(POST, EUnlock)]].

(** [DefaultBodyLimit::max]. *)
Definition BODY_LIMIT : N := 64 * 1024 * 1024.

Definition LFS_MEDIA_TYPE : string := "application/vnd.git-lfs+json".

(** ** Interfaces *)

(** A segment of a path fits a segment of a pattern. *)
Definition segment_fits (p : Segment) (segment : string) : Prop :=
  match p with Lit s => segment = s | Var => segment ≠ "" end.
Definition fits : list Segment → list string → Prop := Forall2 segment_fits.

#[global] Instance segment_fits_dec p s : Decision (segment_fits p s).
Proof. destruct p; unfold segment_fits; apply _. Defined.
#[global] Instance fits_dec p path : Decision (fits p path).
Proof. apply Forall2_dec, _. Defined.

(** Where two patterns first differ, the second has a literal and the first a
    variable. *)
Fixpoint yields_to (p q : list Segment) : bool :=
  match p, q with
  | Var :: _, Lit _ :: _ => true
  | x :: p, y :: q => bool_decide (x = y) && yields_to p q
  | _, _ => false
  end.

Definition Rejection : Type := N * string.

(** The crates [axum], [uuid] and [percent-encoding].  A [RequestBody] is what a
    request carries beside its method, path, query and the two headers that the
    service reads itself: its body and the headers that describe it. *)
Class Axum := {
  RequestBody : Type;
  (** the index of the pattern a path is routed to *)
  select_route : list (list Segment) → list string → option nat;
  percent_decode : string → option string;
  (** the text of the rejection of a path's variables *)
  path_rejection_text : list string → string;
  uuid_parse : string → option Uuid;
  extract_lock_query : option string → result Rejection LockListQuery;
  (** [Json] and [Bytes] under a limit, and the frames of a plain [Body] *)
  extract_lock_request : N → RequestBody → result Rejection LockRequest;
  extract_lock_verify_request : N → RequestBody → result Rejection LockVerifyRequest;
  extract_unlock_request : N → RequestBody → result Rejection UnlockRequest;
  extract_batch_request : N → RequestBody → result Rejection BatchRequest;
  extract_begin_request : N → RequestBody → result Rejection BeginUploadRequest;
  extract_bytes : N → RequestBody → result Rejection bytes;
  body_frames : RequestBody → list (result string bytes);
}.

(** [serde_json] on the values the service answers with. *)
Class Answers {url_lib : UrlLib} := {
  json_lock_response : LockResponse → bytes;
  json_lock_list : LockList → bytes;
  json_lock_verify_response : LockVerifyResponse → bytes;
  json_unlock_response : UnlockResponse → bytes;
  json_batch_response : BatchResponse → bytes;
  json_begin_response : BeginUploadResponse → bytes;
  json_manifest : ObjectManifest → bytes;
  json_error_body : string → bytes;
}.

(** What the router does, for the paths of requests: segments are compared with
    literals as they are, and a literal takes precedence over a variable. *)
Class AxumLaws {axum : Axum} := {
  select_fits ps path i :
    select_route ps path = Some i → ∃ p, ps !! i = Some p ∧ fits p path;
  select_total ps path p : p ∈ ps → fits p path → is_Some (select_route ps path);
  select_specific ps path i j p q :
    select_route ps path = Some i → ps !! i = Some p → ps !! j = Some q → fits q path →
    yields_to p q = false;
}.

(** ** Requests and responses *)

Record ServerRequest {axum : Axum} := mkServerRequest {
  sr_method : Method;
  sr_path : list string;
  sr_query : option string;
  sr_headers : HeaderMap;
  sr_body : RequestBody;
}.
Arguments mkServerRequest {axum} _ _ _ _ _.

Record Response := Response_new {
  res_status : N;
  res_content_type : option string;
  res_content_length : option N;
  res_body : bytes;
}.

(** [IntoResponse] of a status, of text and of the service's errors, and the
    responses of the other handlers. *)
Definition status_response (status : N) : Response := Response_new status None None [].
Definition text_response (status : N) (text : string) : Response :=
  Response_new status (Some "text/plain; charset=utf-8") None (as_bytes text).
Definition json_response (status : N) (b : bytes) : Response :=
  Response_new status (Some "application/json") None b.
Definition bytes_response (b : bytes) : Response :=
  Response_new OK_STATUS (Some "application/octet-stream") None b.
Definition file_response (file : N * bytes) : Response :=
  Response_new OK_STATUS (Some "application/octet-stream") (Some file.1) file.2.
Definition rejected (rejection : Rejection) : Response := text_response rejection.1 rejection.2.

Definition ApiError_into_response {url_lib : UrlLib} {answers : Answers} (self : ApiError) : Response :=
  Response_new (ae_status self) (Some LFS_MEDIA_TYPE) None (json_error_body (ae_message self)).

(** The segments at a pattern's variables. *)
Fixpoint captured (p : list Segment) (path : list string) : list string :=
  match p, path with
  | Var :: p, segment :: path => segment :: captured p path
  | Lit _ :: p, _ :: path => captured p path
  | _, _ => []
  end.

Section Dispatch.
  Context {St Json : Type} {object_store : ObjectStore St}
          {json : ManifestJson Json} {pg : PgText} {hex : HexCodec} {hashes : Hashes}
          {uuid_text : UuidText} {fastcdc : FastCdc} {url_lib : UrlLib} {jwt : JwtLib}
          {forgejo : ForgejoApi} {axum : Axum} {answers : Answers}.
  Local Abbreviation Handling := (prog St Json Empty_set Response).

(** The response made of a handler's outcome. *)
Definition handled {A} (into : A → Response) (p : prog St Json ApiError A) : Handling :=
  let! outcome := outcome_of p in
  mret (match outcome with Ok a => into a | Err e => ApiError_into_response e end).

(** The next extractor, or its rejection. *)
Definition extracted {A} (r : result Rejection A) (next : A → Handling) : Handling :=
  match r with Ok a => next a | Err rejection => mret (rejected rejection) end.

(** The fields of a [Path]. *)
Definition invalid_path (raw : list string) : Rejection := (BAD_REQUEST, path_rejection_text raw).
Definition path_uuid (raw : list string) (s : string) : result Rejection Uuid :=
  ok_or (invalid_path raw) (uuid_parse s).
Definition path_usize (raw : list string) (s : string) : result Rejection N :=
  map_err (λ _, invalid_path raw) (u64_parse s).

(** The arguments of a handler are extracted in the order of its parameters. *)
Definition run_endpoint (state : AppState) (e : Endpoint) (raw : list string) (req : ServerRequest)
  : Handling :=
  let headers := sr_headers req in
  let body := sr_body req in
  match e with
  | EHealthz => mret (status_response NO_CONTENT)
  | EReadiness => handled status_response readiness
  | EMetrics => handled (text_response OK_STATUS) metrics
  | _ =>
      extracted (ok_or (invalid_path raw) (mapM percent_decode raw)) (λ path,
      match e, path with
      | EBatch, [owner; repository] =>
          extracted (extract_batch_request BODY_LIMIT body) (λ request,
          handled (λ r, Response_new OK_STATUS (Some LFS_MEDIA_TYPE) None (json_batch_response r))
            (batch state owner repository headers request))
      | EUploadBasic, [owner; repository; oid] =>
          handled status_response (upload_basic state owner repository oid headers (body_frames body))
      | EDownloadBasic, [owner; repository; oid] =>
          handled file_response (download_basic state owner repository oid headers)
      | EBeginCdc, [owner; repository; oid] =>
          extracted (extract_begin_request BODY_LIMIT body) (λ request,
          handled (λ r, json_response OK_STATUS (json_begin_response r))
            (begin_cdc state owner repository oid headers request))
      | EDownloadCdcManifest, [owner; repository; oid] =>
          handled (λ m, json_response OK_STATUS (json_manifest m))
            (download_cdc_manifest state owner repository oid headers)
      | EDownloadCdcChunk, [owner; repository; oid; index] =>
          extracted (path_usize raw index) (λ index,
          handled bytes_response (download_cdc_chunk state owner repository oid index headers))
      | EUploadCdcChunk, [owner; repository; oid; upload_id; index] =>
          extracted (path_uuid raw upload_id) (λ upload_id,
          extracted (path_usize raw index) (λ index,
          extracted (extract_bytes BODY_LIMIT body) (λ b,
          handled status_response
            (upload_cdc_chunk state owner repository oid upload_id index headers b))))
      | EFinalizeCdc, [owner; repository; oid; upload_id] =>
          extracted (path_uuid raw upload_id) (λ upload_id,
          handled status_response (finalize_cdc state owner repository oid upload_id headers))
      | ECreateLock, [owner; repository] =>
          extracted (extract_lock_request BODY_LIMIT body) (λ request,
          handled (λ r, json_response r.1 (json_lock_response r.2))
            (create_lock state owner repository headers request))
      | EListLocks, [owner; repository] =>
          extracted (extract_lock_query (sr_query req)) (λ query,
          handled (λ l, json_response OK_STATUS (json_lock_list l))
            (list_locks state owner repository query headers))
      | EVerifyLocks, [owner; repository] =>
          extracted (extract_lock_verify_request BODY_LIMIT body) (λ request,
          handled (λ r, json_response OK_STATUS (json_lock_verify_response r))
            (verify_locks state owner repository headers request))
      | EUnlock, [owner; repository; lock_id] =>
          extracted (path_uuid raw lock_id) (λ lock_id,
          extracted (extract_unlock_request BODY_LIMIT body) (λ request,
          handled (λ r, json_response OK_STATUS (json_unlock_response r))
            (unlock state owner repository lock_id headers request)))
      | _, _ => mret (rejected (INTERNAL_SERVER_ERROR, path_rejection_text raw))
      end)
  end.

Definition METHOD_NOT_ALLOWED : N := 405.

(** [axum]'s [get] also answers [HEAD], without the body. *)
Definition method_endpoint (m : Method) (l : list (Method * Endpoint)) : option Endpoint :=
  let m := match m with HEAD => GET | _ => m end in
  snd <$> head (filter (λ kv, kv.1 = m) l).

Definition without_body (response : Response) : Response :=
  Response_new (res_status response) (res_content_type response) (res_content_length response) [].

(** The endpoint and captures of a request, or the status of its refusal. *)
Definition find_route (m : Method) (path : list string) : result N (Endpoint * list string) :=
  let! i := ok_or NOT_FOUND (select_route (rt_pattern <$> build_router) path) in
  let! r := ok_or NOT_FOUND (build_router !! i) in
  let! e := ok_or METHOD_NOT_ALLOWED (method_endpoint m (rt_methods r)) in
  Ok (e, captured (rt_pattern r) path).

Definition dispatch (state : AppState) (req : ServerRequest) : Handling :=
  match find_route (sr_method req) (sr_path req) with
  | Ok (e, raw) =>
      match sr_method req with
      | HEAD => let! response := run_endpoint state e raw req in mret (without_body response)
      | _ => run_endpoint state e raw req
      end
  | Err status => mret (status_response status)
  end.

End Dispatch.

(** ** The table is unambiguous *)

(** Some path fits both patterns. *)
Fixpoint overlap (p q : list Segment) : bool :=
  match p, q with
  | [], [] => true
  | Lit a :: p, Lit b :: q => bool_decide (a = b) && overlap p q
  | _ :: p, _ :: q => overlap p q
  | _, _ => false
  end.

Lemma fits_overlap p q path : fits p path → fits q path → overlap p q = true.
Proof.
  intros Hp. revert q. induction Hp as [|x s p path Hx _ IH]; intros q.
  - by intros ->%Forall2_nil_inv_r.
  - intros (y & q' & Hy & Hq & ->)%Forall2_cons_inv_r. specialize (IH _ Hq).
    destruct x, y; cbn in *; [|done..]. subst. by rewrite bool_decide_eq_true_2.
Qed.

Definition patterns : list (list Segment) := rt_pattern <$> build_router.

(** Of two overlapping patterns one is more specific, and it is not the other
    way round. *)
Lemma table_ordered i j p q :
  patterns !! i = Some p → patterns !! j = Some q → overlap p q = true → i ≠ j →
  yields_to p q = true ∨ yields_to q p = true.
Proof.
  assert (H : forallb (λ i, forallb (λ j,
    match patterns !! i, patterns !! j with
    | Some p, Some q => negb (overlap p q) || bool_decide (i = j) || yields_to p q || yields_to q p
    | _, _ => true
    end) (seq 0 12)) (seq 0 12) = true) by (vm_compute; reflexivity).
  intros Hp Hq Ho Hne. rewrite forallb_forall in H.
  assert (Hi : ∀ k x, patterns !! k = Some x → In k (seq 0 12)).
  { intros k x Hk%lookup_lt_Some. apply in_seq. cbn in Hk. lia. }
  specialize (H i (Hi _ _ Hp)). rewrite forallb_forall in H. specialize (H j (Hi _ _ Hq)).
  rewrite Hp, Hq, Ho, bool_decide_eq_false_2 in H by done. by apply orb_true_iff.
Qed.

(** Specificity between the patterns that fit one path. *)
Lemma yields_to_asym p q path :
  fits p path → fits q path → yields_to p q = true → yields_to q p = false.
Proof.
  intros Hp. revert q. induction Hp as [|x s p path Hx _ IH]; intros q.
  - by intros ->%Forall2_nil_inv_r.
  - intros (y & q' & Hy & Hq & ->)%Forall2_cons_inv_r. specialize (IH _ Hq).
    destruct x, y; cbn; [|done|done|].
    + intros [<-%bool_decide_eq_true H]%andb_true_iff. by rewrite bool_decide_eq_true_2, IH.
    + done.
Qed.

Section Routing.
  Context {axum : Axum} {axum_laws : AxumLaws}.

(** The route of a path: it fits, and so do only less specific ones. *)
Definition route_of (path : list string) (r : Route) : Prop :=
  r ∈ build_router ∧ fits (rt_pattern r) path ∧
  ∀ q, q ∈ build_router → fits (rt_pattern q) path → q = r ∨ yields_to (rt_pattern q) (rt_pattern r) = true.

Lemma pattern_at i p :
  patterns !! i = Some p ↔ ∃ r, build_router !! i = Some r ∧ p = rt_pattern r.
Proof. unfold patterns. rewrite list_lookup_fmap_Some. naive_solver. Qed.

Lemma select_route_of path i :
  select_route patterns path = Some i ↔ ∃ r, build_router !! i = Some r ∧ route_of path r.
Proof.
  split.
  - intros Hs. destruct (select_fits _ _ _ Hs) as (p & Hp & Hf).
    pose proof Hp as (r & Hr & ->)%pattern_at. exists r. split; [done|].
    split_and!; [by eapply list_elem_of_lookup_2|done|].
    intros q [j Hq]%list_elem_of_lookup_1 Hfq. destruct (decide (i = j)) as [<-|Hne]; [naive_solver|].
    right. assert (Hj : patterns !! j = Some (rt_pattern q)) by (apply pattern_at; eauto).
    destruct (table_ordered i j _ _ Hp Hj) as [Hy|Hy]; [by eapply fits_overlap|done| |done].
    by rewrite (select_specific _ _ _ _ _ _ Hs Hp Hj Hfq) in Hy.
  - intros (r & Hr & Hin & Hf & Hspec).
    assert (Hi : patterns !! i = Some (rt_pattern r)) by (apply pattern_at; eauto).
    destruct (select_total patterns path (rt_pattern r)) as [k Hk];
      [by eapply list_elem_of_lookup_2|done|].
    destruct (select_fits _ _ _ Hk) as (p & Hp & Hfp). rewrite Hk. f_equal.
    destruct (decide (k = i)) as [|Hne]; [done|]. exfalso.
    assert (Hno := select_specific _ _ _ _ _ _ Hk Hp Hi Hf).
    destruct (table_ordered k i _ _ Hp Hi) as [Hy|Hy]; [by eapply fits_overlap|done|congruence|].
    pose proof Hp as (s & Hs & ->)%pattern_at.
    destruct (Hspec s) as [-> |H]; [by eapply list_elem_of_lookup_2|done| |congruence].
    pose proof (yields_to_asym _ _ _ Hf Hf Hy). congruence.
Qed.

(** A path whose route is known. *)
Lemma find_route_at m path r e :
  route_of path r → method_endpoint m (rt_methods r) = Some e →
  find_route m path = Ok (e, captured (rt_pattern r) path).
Proof.
  intros Hr He. pose proof Hr as ([i Hi]%list_elem_of_lookup_1 & _).
  assert (Hs : select_route patterns path = Some i) by (apply select_route_of; eauto).
  unfold find_route. fold patterns. rewrite Hs. cbn. rewrite Hi. cbn. by rewrite He.
Qed.

(** Routing is decided by the table: a request reaches an endpoint exactly when
    the most specific pattern that its path fits lists the endpoint under its
    method; it is answered 404 exactly when no pattern fits, and 405 exactly
    when that pattern does not list the method. *)
Theorem find_route_exact m path :
  (∀ e raw, find_route m path = Ok (e, raw) ↔
     ∃ r, route_of path r ∧ method_endpoint m (rt_methods r) = Some e ∧
       raw = captured (rt_pattern r) path) ∧
  (find_route m path = Err NOT_FOUND ↔ ∀ r, r ∈ build_router → ¬ fits (rt_pattern r) path) ∧
  (find_route m path = Err METHOD_NOT_ALLOWED ↔
     ∃ r, route_of path r ∧ method_endpoint m (rt_methods r) = None).
Proof.
  assert (Huniq : ∀ r s, route_of path r → route_of path s → r = s).
  { intros r s Hr Hs. pose proof Hr as ([i Hi]%list_elem_of_lookup_1 & _).
    pose proof Hs as ([j Hj]%list_elem_of_lookup_1 & _).
    assert (H1 : select_route patterns path = Some i) by (apply select_route_of; eauto).
    assert (H2 : select_route patterns path = Some j) by (apply select_route_of; eauto). congruence. }
  unfold find_route. fold patterns.
  destruct (select_route patterns path) as [i|] eqn:Hs.
  - pose proof Hs as (r & Hr & Hroute)%select_route_of. cbn. rewrite Hr. cbn.
    assert (Hfit : ¬ ∀ r, r ∈ build_router → ¬ fits (rt_pattern r) path)
      by (destruct Hroute as (? & ? & _); naive_solver).
    destruct (method_endpoint m (rt_methods r)) as [e|] eqn:He; cbn;
      split_and!; try (by split; [intros [=]|done]).
    + intros e' raw. split; [intros [= <- <-]; eauto|].
      intros (s & Hs' & He' & ->). rewrite <- (Huniq _ _ Hroute Hs') in He'.
      rewrite (Huniq _ _ Hroute Hs') in *. congruence.
    + split; [done|]. intros (s & Hs' & He'). rewrite (Huniq _ _ Hroute Hs') in *. congruence.
    + intros e' raw. split; [done|]. intros (s & Hs' & He' & _).
      rewrite (Huniq _ _ Hroute Hs') in *. congruence.
    + split; [eauto|done].
  - assert (Hnone : ∀ r, r ∈ build_router → ¬ fits (rt_pattern r) path).
    { intros r [i Hi]%list_elem_of_lookup_1 Hf.
      destruct (select_total patterns path (rt_pattern r)) as [k Hk]; [|done|congruence].
      eapply list_elem_of_lookup_2, pattern_at; eauto. }
    cbn. split_and!; [|done|].
    + intros e raw. split; [done|]. intros (r & (Hin & Hf & _) & _). by destruct (Hnone r).
    + split; [done|]. intros (r & (Hin & Hf & _) & _). by destruct (Hnone r).
Qed.

End Routing.

(** ** A concrete router *)

(** Literals first: among the patterns a path fits, the one with the greatest
    weight. *)
Definition weight (p : list Segment) : N :=
  foldl (λ n s, 2 * n + match s with Lit _ => 1 | Var => 0 end) 0 p.

Fixpoint best_route (i : nat) (ps : list (list Segment)) (path : list string) : option (nat * N) :=
  match ps with
  | [] => None
  | p :: ps =>
      let rest := best_route (S i) ps path in
      if bool_decide (fits p path)
      then match rest with
           | Some (j, w) => if weight p <? w then Some (j, w) else Some (i, weight p)
           | None => Some (i, weight p)
           end
      else rest
  end.

Lemma weight_from p n :
  foldl (λ n s, 2 * n + match s with Lit _ => 1 | Var => 0 end) n p =
  n * 2 ^ lenN p + weight p ∧ weight p < 2 ^ lenN p.
Proof.
  unfold weight. revert n. induction p as [|s p IH]; intros n; [cbn; unfold lenN; cbn; lia|].
  cbn [foldl]. rewrite lenN_cons, N.pow_add_r.
  destruct (IH (2 * n + match s with Lit _ => 1 | Var => 0 end)) as [-> _].
  destruct (IH (2 * 0 + match s with Lit _ => 1 | Var => 0 end)) as [-> Hlt].
  set (P := 2 ^ lenN p) in *. change (2 ^ 1) with 2. destruct s; split; lia.
Qed.

Lemma yields_to_weight p q :
  length p = length q → yields_to p q = true → weight p < weight q.
Proof.
  revert q. induction p as [|x p IH]; intros [|y q]; try done. intros [= Hl].
  assert (Hlen : lenN p = lenN q) by (unfold lenN; congruence).
  assert (Hw : ∀ z l, weight (z :: l) = match z with Lit _ => 1 | Var => 0 end * 2 ^ lenN l + weight l).
  { intros z l. unfold weight at 1. cbn [foldl]. rewrite (proj1 (weight_from l _)). destruct z; cbn; lia. }
  rewrite !Hw, Hlen. pose proof (proj2 (weight_from p 0)) as Hp. rewrite Hlen in Hp.
  destruct x, y; cbn [yields_to]; [|done|lia|].
  - intros [_ H]%andb_true_iff. specialize (IH _ Hl H). lia.
  - intros [_ H]%andb_true_iff. specialize (IH _ Hl H). lia.
Qed.

Lemma best_route_spec i ps path :
  match best_route i ps path with
  | None => ∀ p, p ∈ ps → ¬ fits p path
  | Some (k, w) => (i ≤ k)%nat ∧ ∃ p, ps !! (k - i)%nat = Some p ∧ fits p path ∧ w = weight p ∧
      ∀ q, q ∈ ps → fits q path → weight q ≤ w
  end.
Proof.
  revert i. induction ps as [|p ps IH]; intros i; cbn; [intros p []%elem_of_nil|].
  specialize (IH (S i)). case_bool_decide as Hf.
  - assert (Hfirst : (∀ q, q ∈ ps → fits q path → weight q ≤ weight p) →
      (i ≤ i)%nat ∧ ∃ p0, (p :: ps) !! (i - i)%nat = Some p0 ∧ fits p0 path ∧ weight p = weight p0 ∧
        ∀ q, q ∈ p :: ps → fits q path → weight q ≤ weight p).
    { intros H. split; [lia|]. exists p. rewrite Nat.sub_diag. split_and!; try done.
      intros q [-> |Hq]%elem_of_cons; [done|by apply H]. }
    destruct (best_route (S i) ps path) as [[k w]|].
    + destruct IH as (Hk & q & Hq & Hfq & -> & Hmax). destruct (N.ltb_spec (weight p) (weight q)).
      * split; [lia|]. exists q. replace (k - i)%nat with (S (k - S i)) by lia. split_and!; try done.
        intros x [-> |Hx]%elem_of_cons; [lia|by apply Hmax].
      * apply Hfirst. intros x Hx Hfx. specialize (Hmax x Hx Hfx). lia.
    + apply Hfirst. intros q Hq Hfq. by destruct (IH q Hq).
  - destruct (best_route (S i) ps path) as [[k w]|].
    + destruct IH as (Hk & q & Hq & Hfq & -> & Hmax). split; [lia|]. exists q.
      replace (k - i)%nat with (S (k - S i)) by lia. split_and!; try done.
      intros x [-> |Hx]%elem_of_cons; [done|by apply Hmax].
    + intros q [-> |Hq]%elem_of_cons; [done|by apply IH].
Qed.

(** Bodies as values; the decoding of segments and UUIDs is left open. *)
Inductive PlainBody :=
| PlainEmpty | PlainBytes (b : bytes) | PlainBegin (request : BeginUploadRequest)
| PlainBatch (request : BatchRequest) | PlainLock (request : LockRequest).

Definition plain_body {A} (f : PlainBody → option A) (limit : N) (b : PlainBody) : result Rejection A :=
  ok_or (BAD_REQUEST, "Failed to buffer the request body"%string) (f b).

Definition plain_axum (decode : string → option string) (parse : string → option Uuid) : Axum := {|
  RequestBody := PlainBody;
  select_route ps path := fst <$> best_route 0 ps path;
  percent_decode := decode;
  path_rejection_text _ := "Invalid URL"%string;
  uuid_parse := parse;
  extract_lock_query _ := Ok {| lq_path := None; lq_id := None; lq_cursor := None; lq_limit := None |};
  extract_lock_request := plain_body (λ b, match b with PlainLock r => Some r | _ => None end);
  extract_lock_verify_request := plain_body (λ b, Some {| lvr_cursor := None; lvr_limit := None |});
  extract_unlock_request := plain_body (λ b, Some {| ur_force := false |});
  extract_batch_request := plain_body (λ b, match b with PlainBatch r => Some r | _ => None end);
  extract_begin_request := plain_body (λ b, match b with PlainBegin r => Some r | _ => None end);
  extract_bytes := plain_body (λ b, match b with PlainBytes x => Some x | _ => None end);
  body_frames b := match b with PlainBytes x => [Ok x] | _ => [] end;
|}.

Lemma plain_axum_laws decode parse : @AxumLaws (plain_axum decode parse).
Proof.
  split; intros ps path.
  - intros i Hs. pose proof (best_route_spec 0 ps path) as H. cbn in Hs.
    destruct (best_route 0 ps path) as [[k w]|]; [|done]. injection Hs as ->.
    destruct H as (_ & p & Hp & Hf & _). rewrite Nat.sub_0_r in Hp. eauto.
  - intros p Hp Hf. pose proof (best_route_spec 0 ps path) as H. cbn.
    destruct (best_route 0 ps path) as [[k w]|]; [by eexists|]. by destruct (H p Hp).
  - intros i j p q Hs Hp Hq Hf. pose proof (best_route_spec 0 ps path) as H. cbn in Hs.
    destruct (best_route 0 ps path) as [[k w]|]; [|done]. injection Hs as ->.
    destruct H as (_ & p' & Hp' & Hfp & -> & Hmax). rewrite Nat.sub_0_r in Hp'.
    assert (p' = p) as -> by congruence. apply not_true_is_false. intros Hy.
    specialize (Hmax q (list_elem_of_lookup_2 _ _ _ Hq) Hf).
    apply yields_to_weight in Hy; [lia|].
    by rewrite (Forall2_length _ _ _ Hfp), (Forall2_length _ _ _ Hf).
Qed.
