(* ===== verification/Router.v ===== *)
(** * Router: the metrics layer around every request
    ([git-lfs-delta-server/src/lib.rs])

    [record_http_metrics] counts requests around the router of [Routes], as
    [build_router] layers it.  However many requests interleave, the counters
    are exact: the gauge counts the requests being handled and returns to zero,
    and every request is counted once, with its failure if its status is a
    server error.  (Dropping a request's future half way would leave the gauge
    up.) *)
From S2P Require Import Prelude Digest Manifest Stream Protocol Storage Database Effects Actions Api Sessions Uploads Locks Batch Metrics Handlers Routes.
From stdpp Require Import relations.
#[local] Open Scope N_scope.

Section Requests.
  Context {St Json : Type} {object_store : ObjectStore St}
          {json : ManifestJson Json} {pg : PgText} {hex : HexCodec} {hashes : Hashes}
          {uuid_text : UuidText} {fastcdc : FastCdc} {url_lib : UrlLib} {jwt : JwtLib}
          {forgejo : ForgejoApi} {axum : Axum} {answers : Answers}.

(** What follows [next.run(request)]. *)
Definition after_response (response : Response) : prog St Json Empty_set Response :=
  let! _ := count (sub_in_flight 1) in
  let! _ := count (add_http_requests 1) in
  let! _ := if is_server_error (res_status response) then count (add_http_failures 1) else mret tt in
  mret response.

Definition record_http_metrics (next : prog St Json Empty_set Response)
  : prog St Json Empty_set Response :=
  let! _ := count (add_in_flight 1) in
  let! response := next in
  after_response response.

(** The service: the router under the layer. *)
Definition serve (state : AppState) (req : ServerRequest) : prog St Json Empty_set Response :=
  record_http_metrics (dispatch state req).

(** *** Every action of a request *)

Section Actions.
  Context (T : relation (World St Json)) {T_respected : Respected T}.

Lemma extracted_each {A} (r : result Rejection A) (next : A → prog St Json Empty_set Response) :
  (∀ a, each T (next a)) → each T (extracted r next).
Proof. intros Hn. destruct r; [apply Hn|done]. Qed.
Lemma handled_each {A} (into : A → Response) (p : prog St Json ApiError A) :
  each T p → each T (handled into p).
Proof. intros Hp. apply each_bind; [by apply each_outcome_of|done]. Qed.

Lemma run_endpoint_each state e raw req : each T (run_endpoint state e raw req).
Proof.
  unfold run_endpoint.
  destruct e; try done; try (apply handled_each; eauto with each; done);
    apply extracted_each; intros path;
    repeat (destruct path as [|? path]; try done);
    repeat (apply extracted_each; intros); apply handled_each; eauto with each.
Qed.

Lemma dispatch_each state req : each T (dispatch state req).
Proof.
  unfold dispatch. destruct (find_route _ _) as [[e raw]|]; [|done].
  destruct (sr_method req); try apply run_endpoint_each.
  apply each_bind; [apply run_endpoint_each|done].
Qed.

(** The layer, when [T] allows its counters too. *)
Lemma serve_each state req :
  (∀ w w', w_db w' = w_db w → w_now w' = w_now w → T w w') → each T (serve state req).
Proof.
  intros HT. assert (∀ f, each T (count (E:=Empty_set) f)) as Hcount.
  { intros f. apply each_act. intros w. by apply HT. }
  unfold serve, record_http_metrics, after_response.
  repeat (apply each_bind; [first [apply Hcount|apply dispatch_each|by destruct (is_server_error _)]|intros]).
  done.
Qed.

End Actions.

(** The router leaves the counters of the layer alone. *)
Definition same_http : relation (World St Json) := λ w w', http_of w' = http_of w.

#[local] Instance same_http_preorder : PreOrder same_http.
Proof. split; [by intros w|]. intros w1 w2 w3 H1 H2. unfold same_http. by rewrite H2. Qed.

Lemma same_http_stmt {A} (q : Z → Db Json → result SqlxError (A * Db Json)) : each_tx same_http (stmt q).
Proof. intros w. unfold stmt. destruct (hd false _); [done|]. by destruct (q _ _) as [[]|]. Qed.

Lemma same_http_transaction {E A} (l : SqlxError → E) (m : TX St Json E A) :
  each_tx same_http m → each_tx same_http (atomically l m).
Proof.
  intros Hm w. unfold atomically. cbv zeta.
  match goal with |- context [match ?m w with _ => _ end] => assert (H : each_tx same_http m);
    [|specialize (H w); by destruct (m w) as [[a|e] w1]] end.
  apply (each_tx_bind same_http); [by apply each_tx_map_err, same_http_stmt|intros _].
  apply (each_tx_bind same_http); [done|intros a].
  apply (each_tx_bind same_http); [by apply each_tx_map_err, same_http_stmt|by intros _ w1].
Qed.

Ltac same_http_steps :=
  repeat match goal with
  | |- each_tx _ (for_each _ _) => apply (each_tx_for_each same_http); intros
  | |- each_tx _ (mbind _ _) => apply (each_tx_bind same_http); [|intros]
  | |- each_tx _ (tx_map_err _ _) => apply each_tx_map_err
  | |- each_tx _ (match ?x with _ => _ end) => destruct x
  | |- _ => first [apply same_http_stmt | by intros w]
  end.

#[local] Instance same_http_respected : Respected same_http.
Proof.
  split; [done|..]; intros; try apply same_http_transaction.
  - unfold open_session, sql. same_http_steps.
  - unfold register_session_chunk, sql. same_http_steps.
  - unfold publish_tx, write_object, publish_descriptor, sql. same_http_steps.
  - same_http_steps.
  - same_http_steps.
Qed.

(** ** Safe handlers make safe requests *)

Section Safe.
  Context (R : relation (World St Json)) (I : World St Json → Prop) {R_pre : PreOrder R}.
  Implicit Types (w : World St Json).

Lemma safe_later {E A} w0 (p : prog St Json E A) w : R w0 w → safe R I any p w0 → safe R I any p w.
Proof.
  destruct p as [[a|e]|X f k]; [done|done|]. intros Hr Hp w1 Hr1. apply Hp. by etrans.
Qed.

Lemma outcome_of_safe {E F A} (p : prog St Json E A) w :
  safe R I any p w → safe R I any (outcome_of (F:=F) p) w.
Proof.
  revert w. induction p as [r|X f k IH]; intros w Hp; [done|].
  intros w1 Hr Hw. destruct (Hp w1 Hr Hw) as (? & ? & Hk). split_and!; [done|done|by apply IH].
Qed.

Lemma handled_safe {A} (into : A → Response) p w :
  thread_safe R I w (Thread p) → thread_safe R I w (Thread (handled into p)).
Proof.
  intros (w0 & Hw & Hp). exists w0. split; [done|].
  apply (safe_bind R I any); [by apply outcome_of_safe|done].
Qed.

Lemma layer_safe next w :
  stable R I →
  (∀ w, thread_safe R I w (Thread next)) → thread_safe R I w (Thread (record_http_metrics next)).
Proof.
  intros HRI Hnext. exists w. split; [done|]. unfold record_http_metrics.
  apply (safe_bind R I any); [by apply count_safe|intros [] w1 _ _].
  destruct (Hnext w1) as (w2 & Hw & Hd).
  apply (safe_bind R I any); [by apply (safe_later w2)|intros response w3 _ _].
  unfold after_response. do 2 (apply (safe_bind R I any); [by apply count_safe|intros [] ? _ _]).
  apply (safe_bind R I any); [|done]. by destruct (is_server_error _); [apply count_safe|].
Qed.

End Safe.

(** ** A request under the layer goes through five stages *)

Inductive Stage := Arriving | Handling | Left | Failing | Answered (failed : bool).

(** What a request at a stage adds to the gauge and the two counters. *)
Definition contribution (s : Stage) : N * N * N :=
  match s with
  | Arriving | Left => (0, 0, 0)
  | Handling => (1, 0, 0)
  | Failing => (0, 1, 0)
  | Answered failed => (0, 1, if failed then 1 else 0)
  end.

(** The status a finished request was answered with. *)
Inductive answered : thread (St:=St) (Json:=Json) → N → Prop :=
| answered_with {E} response :
    answered (Thread (@Ret St Json E Response (Ok response))) (res_status response).

(** Equality of 64-bit counters. *)
Definition same_u64 (a b : N) : Prop := a mod (U64_MAX + 1) = b mod (U64_MAX + 1).
Definition same_counters (a b : N * N * N) : Prop :=
  same_u64 a.1.1 b.1.1 ∧ same_u64 a.1.2 b.1.2 ∧ same_u64 a.2 b.2.
Definition plus (a b : N * N * N) : N * N * N := (a.1.1 + b.1.1, a.1.2 + b.1.2, a.2 + b.2).

(** Every action moves the request to a stage and the counters with it. *)
Fixpoint metered {E A} (s : Stage) (p : prog St Json E A) : Prop :=
  match p with
  | Ret r => ∃ status, answered (Thread (Ret r)) status ∧ s = Answered (is_server_error status)
  | Act f k => ∀ w, ∃ s',
      same_counters (plus (http_of (f w).2) (contribution s)) (plus (http_of w) (contribution s')) ∧
      metered s' (k (f w).1)
  end.

(** *** Counter arithmetic *)

#[local] Instance same_u64_equiv : Equivalence same_u64.
Proof. unfold same_u64. split; [by intros a|by intros a b ->|by intros a b c -> ->]. Qed.

#[local] Instance add_same_u64 : Proper (same_u64 ==> same_u64 ==> same_u64) N.add.
Proof.
  unfold same_u64. intros a a' Ha b b' Hb. rewrite (N.Div0.add_mod a), (N.Div0.add_mod a').
  by rewrite Ha, Hb.
Qed.

#[local] Instance same_counters_equiv : Equivalence same_counters.
Proof.
  split; [by intros a|intros a b (H1 & H2 & H3); split_and!; by symmetry|].
  intros a b c (H1 & H2 & H3) (H4 & H5 & H6). split_and!; by etrans.
Qed.

#[local] Instance plus_same_counters : Proper (same_counters ==> same_counters ==> same_counters) plus.
Proof.
  intros a a' (H1 & H2 & H3) b b' (H4 & H5 & H6). unfold plus.
  split_and!; cbn; by apply add_same_u64.
Qed.

Lemma same_wrapping_add a b : same_u64 (wrapping_add_u64 a b) (a + b).
Proof. unfold same_u64, wrapping_add_u64. by rewrite N.Div0.mod_mod. Qed.

Lemma same_wrapping_sub a : same_u64 (wrapping_sub_u64 a 1 + 1) a.
Proof.
  unfold same_u64, wrapping_sub_u64. rewrite N.Div0.add_mod_idemp_l.
  replace (a + (U64_MAX + 1 - 1) + 1) with (a + 1 * (U64_MAX + 1)) by lia.
  by rewrite N.Div0.mod_add.
Qed.

Lemma same_u64_add_inj a b c : same_u64 (a + c) (b + c) → same_u64 a b.
Proof.
  assert (Hd : ∀ x, same_u64 (x + c + c * U64_MAX) x).
  { intros x. unfold same_u64. replace (x + c + c * U64_MAX) with (x + c * (U64_MAX + 1)) by lia.
    by rewrite N.Div0.mod_add. }
  intros H. rewrite <- (Hd a), <- (Hd b). by rewrite H.
Qed.

(** One request moved from [s] to [s'], taking a counter from [h] to [h']. *)
Lemma same_u64_cancel h h' s s' p q :
  same_u64 (h' + s) (h + s') → same_u64 h (p + (s + q)) → same_u64 h' (p + (s' + q)).
Proof.
  intros Hm Hh. apply (same_u64_add_inj _ _ s). rewrite Hm, Hh.
  by replace (p + (s + q) + s') with (p + (s' + q) + s) by lia.
Qed.

(** *** The layer *)

Lemma metered_after_response response : metered Handling (after_response response).
Proof.
  intros w. exists Left. split.
  { split_and!; cbn; [|done|done]. rewrite N.add_0_r. apply same_wrapping_sub. }
  set (failed := is_server_error (res_status response)).
  intros w1. exists (if failed then Failing else Answered false). split.
  { destruct failed; (split_and!; cbn; [done| |done]); rewrite N.add_0_r; apply same_wrapping_add. }
  cbn. fold failed. destruct failed eqn:Hs; cbn.
  - intros w2. exists (Answered true). split.
    + split_and!; cbn; [done|done|]. rewrite N.add_0_r. apply same_wrapping_add.
    + exists (res_status response). fold failed. by rewrite Hs.
  - exists (res_status response). fold failed. by rewrite Hs.
Qed.

Lemma metered_handler (p : prog St Json Empty_set Response) :
  each same_http p → metered Handling (let! response := p in after_response response).
Proof.
  unfold mbind, prog_bind. induction p as [[r|[]]|X f k IH]; intros Hp; cbn [prog_bind_def].
  - apply metered_after_response.
  - intros w. destruct (Hp w) as [Hw Hk]. exists Handling. rewrite Hw. split; [done|by apply IH].
Qed.

Lemma metered_request state req : metered Arriving (serve state req).
Proof.
  intros w. exists Handling. split.
  - split_and!; cbn; [|done|done]. rewrite N.add_0_r. apply same_wrapping_add.
  - apply (metered_handler (dispatch state req)), (dispatch_each same_http).
Qed.

(** ** All interleavings *)

(** Any HTTP request to the service. *)
Inductive requests (state : AppState) : thread (St:=St) (Json:=Json) → Prop :=
| served req : requests state (Thread (serve state req)).

Definition metered_thread (t : thread (St:=St) (Json:=Json)) (s : Stage) : Prop :=
  match t with Thread p => metered s p end.

Definition total (ss : list Stage) : N * N * N := foldr plus (0, 0, 0) (map contribution ss).

Lemma total_app ss ss' : total (ss ++ ss') = plus (total ss) (total ss').
Proof.
  unfold total. induction ss as [|s ss IH]; cbn; [by destruct (foldr plus _ _) as [[]]|].
  rewrite IH. unfold plus. cbn. by rewrite !N.add_assoc.
Qed.

Lemma counted_metered state t : requests state t → metered_thread t Arriving.
Proof. destruct 1. apply metered_request. Qed.

(** The counters are the sum of what the requests contribute. *)
Definition accounted (c : list (thread (St:=St) (Json:=Json)) * World St Json) : Prop :=
  ∃ ss, Forall2 metered_thread c.1 ss ∧ same_counters (http_of c.2) (total ss).

Lemma accounted_step state c c' : step (requests state) c c' → accounted c → accounted c'.
Proof.
  destruct 1 as [E A X pre post f k w x w' Hf|ts w w' (dn & di & fs & ios & cl & _ & _ & ->)|ts t w Ht];
    intros (ss & Hss & Hc); cbn in *.
  - apply Forall2_app_inv_l in Hss as (pres & rest & Hpre & Hrest & ->).
    apply Forall2_cons_inv_l in Hrest as (s & posts & Hs & Hpost & ->).
    destruct (Hs w) as (s' & Hmove & Hk). rewrite Hf in *. cbn in *.
    exists (pres ++ s' :: posts). split; [by apply Forall2_app; [|constructor]|].
    rewrite total_app in *. change (total (s :: posts)) with (plus (contribution s) (total posts)) in Hc.
    change (total (s' :: posts)) with (plus (contribution s') (total posts)).
    destruct Hmove as (M1 & M2 & M3), Hc as (C1 & C2 & C3). unfold plus in *. cbn in *.
    split_and!; cbn; eapply same_u64_cancel; eassumption.
  - exists ss. split; [done|exact Hc].
  - exists (ss ++ [Arriving]). split; [apply Forall2_app; [done|]; constructor; [|done];
      by eapply counted_metered|].
    rewrite total_app. cbn. destruct Hc as (C1 & C2 & C3). unfold plus. cbn.
    split_and!; cbn; by rewrite N.add_0_r.
Qed.

(** A request whose response is out. *)
Definition is_finished (t : thread (St:=St) (Json:=Json)) : Prop :=
  match t with Thread (Ret _) => True | _ => False end.

Lemma total_bounds ss :
  (total ss).1.1 + (total ss).1.2 ≤ lenN ss ∧ (total ss).2 ≤ (total ss).1.2.
Proof.
  induction ss as [|s ss [IH1 IH2]]; [done|].
  change (total (s :: ss)) with (plus (contribution s) (total ss)). rewrite lenN_cons.
  destruct s as [| | | |[]]; unfold plus; cbn; lia.
Qed.

Lemma total_answered (statuses : list N) :
  total (map (λ s, Answered (is_server_error s)) statuses) =
  (0, lenN statuses, lenN (filter (λ s, is_server_error s = true) statuses)).
Proof.
  induction statuses as [|s l IH]; [done|]. cbn [map].
  change (total (?x :: ?y)) with (plus (contribution x) (total y)). rewrite IH.
  unfold plus. cbn [contribution fst snd]. rewrite lenN_cons. destruct (is_server_error s) eqn:Hs.
  - rewrite filter_cons_True by done. by rewrite lenN_cons.
  - rewrite filter_cons_False by congruence. done.
Qed.

Lemma finished_statuses ts ss :
  Forall2 metered_thread ts ss → Forall is_finished ts →
  ∃ statuses, Forall2 answered ts statuses ∧ ss = map (λ s, Answered (is_server_error s)) statuses.
Proof.
  induction 1 as [|t s ts ss Ht _ IH]; [by exists []|]. intros [Hf Hfs]%Forall_cons.
  destruct (IH Hfs) as (statuses & Hs & ->). destruct t as [E A [r|]]; [|done].
  destruct Ht as (status & Ha & ->). exists (status :: statuses). split; [by constructor|done].
Qed.

(** C30: the HTTP metrics are exact.  From zero counters, under any interleaving
    of requests to the service with any failures: at every moment the
    gauge and the request counter together count no more than the requests
    begun, and failures no more than requests; and when every response is out
    the gauge is back at zero, the request counter has counted each request
    once and the failure counter those whose status is 500 to 599. *)
Theorem http_metrics_exact state w ts w' :
  http_of w = (0, 0, 0) → rtc (step (requests state)) ([], w) (ts, w') →
  (∃ flying counted failed, same_counters (http_of w') (flying, counted, failed) ∧
     flying + counted ≤ lenN ts ∧ failed ≤ counted) ∧
  (Forall is_finished ts → ∃ statuses, Forall2 answered ts statuses ∧
     same_counters (http_of w')
       (0, lenN ts, lenN (filter (λ s, is_server_error s = true) statuses))).
Proof.
  intros H0 Hsteps.
  assert (accounted ([], w)) as Hacc by (exists []; cbn; rewrite H0; by split).
  assert (accounted (ts, w')) as (ss & Hss & Hc).
  { revert Hacc. induction Hsteps as [|c1 c2 c3 Hstep _ IH]; [done|].
    intros Hacc. by eapply IH, accounted_step. }
  cbn in Hss, Hc. pose proof (Forall2_length _ _ _ Hss) as Hlen. split.
  - destruct (total_bounds ss) as [H1 H2]. exists (total ss).1.1, (total ss).1.2, (total ss).2.
    split_and!; [by destruct (total ss) as [[]]|unfold lenN in *; lia|done].
  - intros Hf. destruct (finished_statuses _ _ Hss Hf) as (statuses & Ha & ->).
    exists statuses. split; [done|]. rewrite total_answered in Hc.
    by replace (lenN ts) with (lenN statuses) by (rewrite length_map in Hlen; unfold lenN in *; lia).
Qed.

End Requests.
