(* ===== verification/Service.v ===== *)
(** * Service: all programs together

    The service is any number of HTTP requests, each from its path and method
    to its response, and of administrative operations, interleaved action by
    action.  The invariants hold in every reachable world; published objects
    keep their chunks as long as the programs that publish and the programs
    that delete do not run at the same time. *)
From S2P Require Import Prelude Digest Manifest Stream Protocol Storage Database Effects Api Sessions Uploads UploadSpecs Gc GcFacts GcSpecs Locks Batch Admin Metrics Routes Router.

Section Service.
  Context {St Json : Type} {object_store : ObjectStore St} {store_laws : ObjectStoreLaws St}
          {json : ManifestJson Json} {json_laws : ManifestJsonLaws Json}
          {pg : PgText} {hex : HexCodec} {hex_laws : HexLaws} {hashes : Hashes}
          {uuid_text : UuidText} {uuid_laws : UuidTextLaws}
          {fastcdc : FastCdc} {cdc_laws : FastCdcLaws} {url_lib : UrlLib} {jwt : JwtLib}
          {forgejo : ForgejoApi} {axum : Axum} {answers : Answers}.
  Implicit Types (w : World St Json).

(** ** The programs *)

(** Handlers that publish no object. *)
Inductive plain_request (state : AppState) : thread (St:=St) (Json:=Json) → Prop :=
| req_begin_cdc owner repository oid headers request :
    plain_request state (Thread (begin_cdc state owner repository oid headers request))
| req_upload_cdc_chunk owner repository oid id index headers b :
    plain_request state (Thread (upload_cdc_chunk state owner repository oid id index headers b))
| req_download_manifest owner repository oid headers :
    plain_request state (Thread (download_cdc_manifest state owner repository oid headers))
| req_download_chunk owner repository oid index headers :
    plain_request state (Thread (download_cdc_chunk state owner repository oid index headers))
| req_download_basic owner repository oid headers :
    plain_request state (Thread (download_basic state owner repository oid headers))
| req_batch owner repository headers request :
    plain_request state (Thread (batch state owner repository headers request))
| req_create_lock owner repository headers request :
    plain_request state (Thread (create_lock state owner repository headers request))
| req_list_locks owner repository query headers :
    plain_request state (Thread (list_locks state owner repository query headers))
| req_verify_locks owner repository headers request :
    plain_request state (Thread (verify_locks state owner repository headers request))
| req_unlock owner repository id headers request :
    plain_request state (Thread (unlock state owner repository id headers request))
| req_readiness : plain_request state (Thread readiness)
| req_metrics : plain_request state (Thread (metrics (E:=ApiError))).

(** Handlers that publish an object. *)
Inductive publishing_request (state : AppState) : thread (St:=St) (Json:=Json) → Prop :=
| req_finalize_cdc owner repository oid id headers :
    publishing_request state (Thread (finalize_cdc state owner repository oid id headers))
| req_upload_basic owner repository oid headers body :
    publishing_request state (Thread (upload_basic state owner repository oid headers body)).

(** The operations of [git-lfs-delta-admin]: garbage collection and
    provisioning. *)
Inductive gc_operation : thread (St:=St) (Json:=Json) → Prop :=
| op_submit_snapshot snapshot : gc_operation (Thread (submit_snapshot snapshot))
| op_dry_run r : gc_operation (Thread (dry_run r))
| op_stage r grace : gc_operation (Thread (stage r grace))
| op_collect_due fuel r : gc_operation (Thread (collect_due fuel r))
| op_reclaim r grace : gc_operation (Thread (reclaim_expired_uploads r grace))
| op_repository_add owner name : gc_operation (Thread (repository_add owner name))
| op_grant r subject write admin : gc_operation (Thread (grant r subject write admin)).

(** The endpoints behind which an object is published. *)
Definition publishing_endpoint (e : Endpoint) : bool :=
  match e with EFinalizeCdc | EUploadBasic => true | _ => false end.
Definition publishes (req : ServerRequest) : bool :=
  match find_route (sr_method req) (sr_path req) with
  | Ok (e, _) => publishing_endpoint e
  | Err _ => false
  end.

(** A request that publishes nothing. *)
Inductive plain_requests (state : AppState) : thread (St:=St) (Json:=Json) → Prop :=
| served_plain req : publishes req = false → plain_requests state (Thread (serve state req)).

Definition everything (state : AppState) (t : thread (St:=St) (Json:=Json)) : Prop :=
  requests state t ∨ gc_operation t.
Definition without_publishing (state : AppState) (t : thread (St:=St) (Json:=Json)) : Prop :=
  plain_requests state t ∨ gc_operation t.

(** What an endpoint runs: nothing, when the request is rejected, or one
    handler. *)
Inductive endpoint_runs (state : AppState) (publishing : bool) : prog St Json Empty_set Response → Prop :=
| runs_nothing response : endpoint_runs state publishing (mret response)
| runs_plain {A} (into : A → Response) p :
    plain_request state (Thread p) → endpoint_runs state publishing (handled into p)
| runs_publishing {A} (into : A → Response) p :
    publishing = true → publishing_request state (Thread p) →
    endpoint_runs state publishing (handled into p)
| runs_head p :
    endpoint_runs state publishing p →
    endpoint_runs state publishing (let! response := p in mret (without_body response)).

Lemma extracted_runs {A} state publishing (r : result Rejection A) next :
  (∀ a, endpoint_runs state publishing (next a)) → endpoint_runs state publishing (extracted r next).
Proof. intros Hn. destruct r; [apply Hn|apply runs_nothing]. Qed.

(** The handler of a goal, by its name. *)
Ltac handler_of :=
  lazymatch goal with
  | |- plain_request _ (Thread (begin_cdc _ _ _ _ _ _)) => apply req_begin_cdc
  | |- plain_request _ (Thread (upload_cdc_chunk _ _ _ _ _ _ _ _)) => apply req_upload_cdc_chunk
  | |- plain_request _ (Thread (download_cdc_manifest _ _ _ _ _)) => apply req_download_manifest
  | |- plain_request _ (Thread (download_cdc_chunk _ _ _ _ _ _)) => apply req_download_chunk
  | |- plain_request _ (Thread (download_basic _ _ _ _ _)) => apply req_download_basic
  | |- plain_request _ (Thread (batch _ _ _ _ _)) => apply req_batch
  | |- plain_request _ (Thread (create_lock _ _ _ _ _)) => apply req_create_lock
  | |- plain_request _ (Thread (list_locks _ _ _ _ _)) => apply req_list_locks
  | |- plain_request _ (Thread (verify_locks _ _ _ _ _)) => apply req_verify_locks
  | |- plain_request _ (Thread (unlock _ _ _ _ _ _)) => apply req_unlock
  | |- plain_request _ (Thread readiness) => apply req_readiness
  | |- plain_request _ (Thread metrics) => apply req_metrics
  | |- publishing_request _ (Thread (finalize_cdc _ _ _ _ _ _)) => apply req_finalize_cdc
  | |- publishing_request _ (Thread (upload_basic _ _ _ _ _ _)) => apply req_upload_basic
  end.
Ltac runs_step :=
  cbv beta iota;
  lazymatch goal with
  | |- endpoint_runs _ _ (mret _) => apply runs_nothing
  | |- endpoint_runs _ _ (extracted _ _) => apply extracted_runs; intros ?
  | |- endpoint_runs _ true (handled _ _) => apply runs_publishing; [done|handler_of]
  | |- endpoint_runs _ false (handled _ _) => apply runs_plain; handler_of
  | |- endpoint_runs _ _ (match ?path with [] => _ | _ => _ end) => destruct path
  end.

Lemma run_endpoint_runs state e raw req :
  endpoint_runs state (publishing_endpoint e) (run_endpoint state e raw req).
Proof. unfold run_endpoint. destruct e; cbn [publishing_endpoint]; repeat runs_step. Qed.

Lemma dispatch_runs state req : endpoint_runs state (publishes req) (dispatch state req).
Proof.
  unfold dispatch, publishes. destruct (find_route _ _) as [[e raw]|]; [|apply runs_nothing].
  destruct (sr_method req); try apply run_endpoint_runs. apply runs_head, run_endpoint_runs.
Qed.

(** ** Each program is safe *)

Section Safe.
  Context (gc : bool) (R : relation (World St Json)) {R_pre : PreOrder R}
          (HR : ∀ w w' : World St Json, keeps_chunks (w_store w) (w_store w') → R w w').
  Local Abbreviation I := (service_ok gc).

(** A statement that publishes nothing. *)
Lemma query_tables_safe {E A} (l : SqlxError → E)
    (q : Z → Db Json → result SqlxError (A * Db Json)) w0 :
  (∀ now db a db', db_ok db → q now db = Ok (a, db') →
     db_ok db' ∧ objects db' = objects db ∧ object_chunks db' = object_chunks db) →
  safe R I any (query l q) w0.
Proof.
  intros Hq. apply (safe_atomic R I). intros w r w' _ Hw Hs. unfold tx_map_err in Hs.
  destruct (stmt q w) as [q0 w1] eqn:Hst. injection Hs as <- <-.
  apply stmt_spec in Hst as (Hs & Hn & Hres).
  destruct q0 as [a|e].
  - apply Hq in Hres as (Hok & Ho & Hc); [|apply Hw].
    destruct (service_ok_tables gc w w1) as [?%HR ?]; [done|done| |done|by split_and!].
    intros r o m. by eapply published_tables.
  - destruct (service_stable gc R HR w w1) as [? Hi]; [done|done|done|]. split_and!; [done|by apply Hi|done].
Qed.

Lemma load_locks_page_safe r path id cursor limit w0 :
  safe R I any (load_locks_page (St:=St) (Json:=Json) r path id cursor limit) w0.
Proof. pose proof (service_stable gc R HR). unfold load_locks_page. by safe_skips. Qed.

Lemma map_prog_safe {A B} (f : A → prog St Json ApiError B) l w0 :
  (∀ x w, safe R I any (f x) w) → safe R I any (map_prog f l) w0.
Proof.
  intros Hf. revert w0. induction l as [|x l IH]; intros w0; cbn [map_prog]; [done|].
  apply (safe_bind R I any); [apply Hf|intros ? ? _ _].
  apply (safe_bind R I any); [apply IH|done].
Qed.

Lemma batch_object_safe state owner repository identity operation transfer r object w0 :
  safe R I any (batch_object (St:=St) (Json:=Json) state owner repository identity operation
                  transfer r object) w0.
Proof.
  pose proof (service_stable gc R HR). unfold batch_object. safe_skip.
  destruct operation; match goal with |- context [if ?b then _ else _] => destruct b end;
    try done; by safe_skips.
Qed.

Lemma plain_request_safe state t w : plain_request state t → thread_safe R I w t.
Proof.
  pose proof (service_stable gc R HR) as Hst.
  destruct 1; exists w; (split; [done|]).
  - by apply begin_cdc_safe.
  - by apply upload_cdc_chunk_safe.
  - eapply safe_any; [apply _|]; by apply download_cdc_manifest_safe.
  - eapply safe_any; [apply _|]; by apply download_cdc_chunk_safe.
  - eapply safe_any; [apply _|]; by apply download_basic_safe.
  - unfold batch. destruct (1000 <? _); [done|]. do 3 safe_skip.
    apply (safe_bind R I any); [|done]. apply map_prog_safe. intros x ?. apply batch_object_safe.
  - unfold create_lock. do 4 safe_skip. apply (safe_bind R I any); [|done].
    apply query_tables_safe. intros now db x db' Hok Hins.
    apply insert_lock_spec in Hins as (Hok' & _ & _ & _ & ->); [|done]. done.
  - unfold list_locks. do 2 safe_skip. apply (safe_bind R I any); [apply load_locks_page_safe|by intros; apply (safe_ret R I)].
  - unfold verify_locks. do 2 safe_skip. apply (safe_bind R I any); [apply load_locks_page_safe|by intros; apply (safe_ret R I)].
  - unfold unlock. do 4 safe_skip. destruct (_ && _); [done|].
    apply (safe_bind R I any).
    + apply query_tables_safe. intros now db x db' Hok Hdel.
      apply delete_lock_ok in Hdel as (Hok' & _ & u & -> & _); [|done]. done.
    + intros ? ? _ _. safe_skip. done.
  - by apply readiness_safe.
  - unfold metrics, load. repeat (apply (safe_bind R I any); [by apply (safe_stable_act R I)|intros]). done.
Qed.

Lemma publishing_request_safe state t w :
  chunks_persist gc R → publishing_request state t → thread_safe R I w t.
Proof.
  intros HP. destruct 1; exists w; (split; [done|]);
    [by apply finalize_cdc_safe|by apply upload_basic_safe].
Qed.

Lemma endpoint_safe state publishing p w :
  (publishing = true → chunks_persist gc R) → endpoint_runs state publishing p →
  thread_safe R I w (Thread p).
Proof.
  intros HP. induction 1 as [response|A into p Hp|A into p Hpub Hp|p _ (w0 & Hw & Hp)].
  - by exists w.
  - by apply (handled_safe R I), (plain_request_safe state).
  - by apply (handled_safe R I), (publishing_request_safe state); [apply HP|].
  - exists w0. split; [done|]. by apply (safe_bind R I any).
Qed.

Lemma serve_safe state req w :
  (publishes req = true → chunks_persist gc R) → thread_safe R I w (Thread (serve state req)).
Proof.
  intros HP. apply (layer_safe R I); [by apply service_stable|]. intros w1.
  by eapply endpoint_safe, dispatch_runs.
Qed.

End Safe.

#[export] Instance all_preorder : PreOrder (λ _ _ : World St Json, True).
Proof. split; [by intros w|by intros w1 w2 w3 _ _]. Qed.

(** The garbage collector and the other commands of the administrative binary,
    among programs that may delete chunks. *)
Lemma gc_operation_safe complete t w :
  gc_operation t → thread_safe (λ _ _, True) (service_ok (negb complete)) w t.
Proof.
  intros Ht. destruct Ht; exists w; (split; [done|]).
  - by apply submit_snapshot_safe.
  - by apply dry_run_safe.
  - by apply stage_safe.
  - by apply collect_due_safe.
  - by apply reclaim_safe.
  - pose proof (service_stable (negb complete) (λ _ _, True) (λ w w' _, I)) as Hst.
    unfold repository_add. safe_skip. eapply safe_any; [apply _|].
    apply (query_tables_safe (negb complete) (λ _ _, True) (λ w w' _, I)).
    intros now db id db' Hok Hup. by apply upsert_repository_ok in Hup.
  - eapply safe_any; [apply _|]. apply (query_tables_safe (negb complete) (λ _ _, True) (λ w w' _, I)).
    intros now db [] db' Hok Hup. by apply upsert_grant_ok in Hup.
Qed.

(** ** Reachable worlds *)

Lemma reachable_ok state w ts w' :
  service_ok true w → rtc (step (everything state)) ([], w) (ts, w') → service_ok true w'.
Proof.
  intros Hw Hsteps.
  apply (steps_invariant (λ _ _, True) (service_ok true)) in Hsteps as (_ & H & _); [done| | | |done].
  - intros w1 w2 H. split; [done|]. by apply env_step_ok.
  - intros t w1 [[req]|Ht] _.
    + by apply (serve_safe true (λ _ _, True)).
    + by apply (gc_operation_safe false).
  - constructor.
Qed.

Lemma spawn_all service (ts us : list (thread (St:=St) (Json:=Json))) w :
  Forall service us → rtc (step service) (ts, w) (ts ++ us, w).
Proof.
  intros Hus. revert ts. induction Hus as [|u us Hu _ IH]; intros ts; [by rewrite app_nil_r|].
  eapply rtc_l; [by apply step_spawn|].
  rewrite (assoc_L (++) ts [u] us : ts ++ u :: us = (ts ++ [u]) ++ us). apply IH.
Qed.

(** C1: in every world the service can reach, by any interleaving of any
    number of HTTP requests and administrative operations, with failures of the
    database, the staging files or the provider at any point, the metadata are
    consistent (exact reference counts, valid manifests whose descriptors are
    all recorded, one open session per object, unique locks), every stored
    chunk hashes to its identity, and every published object is authentic: its
    manifest names chunks that make up bytes with the SHA-256 of its OID. *)
Theorem service_invariant state w ts w' :
  service_ok true w → rtc (step (everything state)) ([], w) (ts, w') →
  db_ok (w_db w') ∧ content_ok (w_store w') ∧
  ∀ r o m, published (w_db w') r o m → authentic m.
Proof.
  intros Hw Hsteps. apply reachable_ok in Hsteps as (H1 & H2 & H3); [|done].
  split_and!; [done..|]. intros r o m Hp. by apply (H3 r o m).
Qed.

(** C2: durability: as long as nothing is collected, an object that is
    published keeps every one of its chunks, under any interleaving of uploads,
    downloads and lock requests with any failures; and no stored chunk is ever
    changed. *)
Theorem published_objects_complete state w ts w' :
  service_ok false w →
  rtc (step (requests state)) ([], w) (ts, w') →
  keeps_chunks (w_store w) (w_store w') ∧
  ∀ r o m, published (w_db w') r o m → available (w_store w') r (om_chunks m).
Proof.
  intros Hw Hsteps.
  apply (steps_invariant (rely false) (service_ok false)) in Hsteps as (_ & (_ & _ & H) & Hr);
    [split; [by apply Hr|intros r o m Hp; by apply (H r o m)]| | | |done].
  - intros w1 w2 Hs. apply (env_step_ok false) in Hs as [Hk Hi]. split; [by intros _|done].
  - intros t w1 [req] _. apply (serve_safe false (rely false)); [by intros w2 w3 Hk _|].
    intros _. apply rely_persists.
  - constructor.
Qed.

(** C3: the garbage collector never takes a chunk from a published object:
    while no object is being published, any interleaving of snapshots, staging,
    collection, reclaiming and all other requests leaves every published object
    with all its chunks. *)
Theorem collector_keeps_published state w ts w' :
  service_ok false w →
  rtc (step (without_publishing state)) ([], w) (ts, w') →
  ∀ r o m, published (w_db w') r o m → available (w_store w') r (om_chunks m).
Proof.
  intros Hw Hsteps.
  apply (steps_invariant (λ _ _, True) (service_ok false)) in Hsteps as (_ & (_ & _ & H) & _);
    [intros r o m Hp; by apply (H r o m)| | | |done].
  - intros w1 w2 Hs. split; [done|]. by apply env_step_ok.
  - intros t w1 [[req Hp]|Ht] _.
    + apply (serve_safe false (λ _ _, True)); [done|]. by rewrite Hp.
    + by apply (gc_operation_safe true).
  - constructor.
Qed.

End Service.
