(* ===== verification/Tenancy.v ===== *)
(** * Tenancy: what a request may change

    The statements and store calls of the handlers, each for one repository, and
    who may cause them: what all changes of the repository respect is respected
    by a request that writes to it, and a request that is denied write access
    changes nothing.  [Isolation] applies this to tenants and to published
    objects. *)
From S2P Require Import Prelude Digest Manifest Stream Protocol Storage Database Effects Api Sessions Uploads Locks Batch Metrics Routes Router Service.
#[local] Open Scope N_scope.

Section Tenancy.
  Context {St Json : Type} {object_store : ObjectStore St} {store_laws : ObjectStoreLaws St}
          {json : ManifestJson Json} {pg : PgText} {hex : HexCodec} {hex_laws : HexLaws}
          {hashes : Hashes} {uuid_text : UuidText} {uuid_laws : UuidTextLaws}
          {fastcdc : FastCdc} {url_lib : UrlLib} {jwt : JwtLib}
          {forgejo : ForgejoApi} {axum : Axum} {answers : Answers}.
  Implicit Types (w : World St Json) (db : Db Json).

(** ** The changes that the statements make *)

(** Every change of the tables that a handler makes for the repository [r]. *)
Record statements_respect (U : relation (Db Json)) (r : Uuid) : Prop := {
  sr_expire oid now db :
    U db (with_upload_sessions (expire_row now r oid <$> upload_sessions db) db);
  sr_session id row db :
    (∀ old, upload_sessions db !! id = Some old → us_repository_id old = r) →
    us_repository_id row = r → U db (with_upload_sessions (<[id := row]> (upload_sessions db)) db);
  sr_session_chunk id c db :
    upload_session_chunks db !! (id, c) = None →
    us_repository_id <$> upload_sessions db !! id = Some r →
    U db (with_upload_session_chunks (<[(id, c) := r]> (upload_session_chunks db)) db);
  sr_chunk c row db :
    (∀ old, chunks db !! (r, c) = Some old → ck_size row = ck_size old) →
    U db (with_chunks (<[(r, c) := row]> (chunks db)) db);
  sr_object oid row db :
    objects db !! (r, oid) = None → U db (with_objects (<[(r, oid) := row]> (objects db)) db);
  sr_object_chunk oid z row db :
    object_chunks db !! (r, oid, z) = None →
    U db (with_object_chunks (<[(r, oid, z) := row]> (object_chunks db)) db);
  sr_lock id row db :
    lfs_locks db !! id = None → lr_repository_id row = r →
    U db (with_lfs_locks (<[id := row]> (lfs_locks db)) db);
  sr_unlock id row db :
    lfs_locks db !! id = Some row → lr_repository_id row = r →
    U db (with_lfs_locks (delete id (lfs_locks db)) db);
}.

(** Every change of the store. *)
Definition store_respects (V : relation St) (r : Uuid) : Prop :=
  ∀ id b st res st', put_verified r id b st = (res, st') → V st st'.

(** Stores with the same chunks. *)
Definition same_chunks (st st' : St) : Prop :=
  ∀ r id, chunk_bytes st' r id = chunk_bytes st r id.

Lemma alter_insert_session (f : SessionRow Json → SessionRow Json) id (m : gmap Uuid (SessionRow Json)) row :
  m !! id = Some row → alter f id m = <[id := f row]> m.
Proof.
  intros Hm. apply map_eq. intros i. destruct (decide (i = id)) as [->|Hne].
  - by rewrite lookup_alter_eq, lookup_insert_eq, Hm.
  - by rewrite lookup_alter_ne, lookup_insert_ne.
Qed.

(** The repositories and the access to them. *)
Definition Tenants : Type := gmap Uuid RepositoryRow * gmap (Uuid * string) GrantRow.
Definition tenants_of db : Tenants := (repositories db, repository_grants db).
Definition tenants_are (tenants : Tenants) w : Prop := tenants_of (w_db w) = tenants.

(** Authentication does not accept the request, whatever happens meanwhile other
    than a change of the access. *)
Definition denied (tenants : Tenants) state headers owner repository access : Prop :=
  ∀ w, safe anything (tenants_are tenants) (λ _ _, False)
    (authenticate state headers owner repository access) w.

Lemma tenants_stable tenants : stable anything (tenants_are tenants).
Proof. intros w w' Hdb _ _. unfold tenants_are. by rewrite Hdb. Qed.

(** Without the header, in every mode. *)
Lemma denied_anonymous tenants state headers owner repository access :
  h_authorization headers = None → denied tenants state headers owner repository access.
Proof. intros Hh w. unfold authenticate. by rewrite Hh. Qed.

(** With another token than the one of development. *)
Lemma denied_development tenants state hash headers owner repository access :
  as_authentication state = DevelopmentToken hash →
  (∀ token, h_authorization headers = Some ("Bearer " +:+ token) →
     digest_bytes (sha256_digest (as_bytes token)) ≠ digest_bytes hash) →
  denied tenants state headers owner repository access.
Proof.
  intros Hs Htoken w. unfold authenticate.
  destruct (h_authorization headers) as [value|]; [|exact I]. cbn [ok_or]. rewrite Hs.
  apply (safe_bind _ _ (λ v _, v = value)); [apply (safe_lift anything _); by intros ? [= ->]|]. intros ? ? _ ->.
  apply (safe_bind _ _ (λ token _, value = "Bearer " +:+ token)).
  { apply (safe_lift anything _). by intros token Ht%ok_or_ok%strip_prefix_Some. }
  intros token ? _ ->. cbv zeta. rewrite bool_decide_eq_false_2; [exact I|by apply Htoken].
Qed.

Lemma select_grants_tenants owner repository subject db db' :
  tenants_of db' = tenants_of db →
  select_grants owner repository subject db' = select_grants owner repository subject db.
Proof. intros [= H1 H2]. unfold select_grants. by rewrite H1, H2. Qed.

(** A subject without a grant to write, in the mode of OIDC. *)
Lemma denied_oidc db state issuer audience keys headers owner repository :
  as_authentication state = Oidc issuer audience keys →
  (∀ token key validation now claims grant,
     h_authorization headers = Some ("Bearer " +:+ token) →
     jwt_decode token key validation now = Some claims →
     grant ∈ select_grants owner repository (oc_sub claims) db → gr_can_write grant = false) →
  denied (tenants_of db) state headers owner repository Write.
Proof.
  intros Hs Hgrant w. pose proof (tenants_stable (tenants_of db)) as Hst. unfold authenticate.
  destruct (h_authorization headers) as [value|]; [|exact I]. cbn [ok_or]. rewrite Hs.
  apply (safe_bind _ _ (λ v _, v = value)); [apply (safe_lift anything _); by intros ? [= ->]|]. intros ? ? _ ->.
  unfold authenticate_oidc.
  apply (safe_bind _ _ (λ token _, value = "Bearer " +:+ token)).
  { apply (safe_lift anything _). by intros token Ht%ok_or_ok%strip_prefix_Some. }
  intros token ? _ ->. do 4 safe_skip.
  eapply (safe_bind _ _ (λ claims _, ∃ key v now, jwt_decode token key v now = Some claims)).
  { apply (safe_stable anything _ Hst); [done|]. intros ? claims _ _ Hc%ok_or_ok. by eexists _, _, _. }
  intros claims ? _ (key & v & now & Hc).
  apply (safe_bind _ _ (λ grants _, grants = select_grants owner repository (oc_sub claims) db)).
  { apply (safe_query_read anything _ Hst _ (λ _, select_grants owner repository (oc_sub claims))).
    intros ? ? _ Hw _ _ _. by apply select_grants_tenants. }
  intros grants ? _ ->.
  apply (safe_bind _ _ (λ grant _, gr_can_write grant = false)).
  { apply (safe_lift anything _). intros grant Hg%ok_or_ok%head_Some_elem_of. by eapply Hgrant. }
  by intros grant ? _ ->.
Qed.

(** What a change may be for its respect to carry over to programs: it composes,
    tells the tenants apart and does not see how the store keeps its chunks. *)
Class Change (U : relation (Db Json)) (V : relation St) : Prop := {
  change_db :: PreOrder U;
  change_store :: PreOrder V;
  change_tenants db db' : U db db' → tenants_of db' = tenants_of db;
  change_chunks st st' : same_chunks st st' → V st st';
}.

Section Respect.
  Context (U : relation (Db Json)) (V : relation St) {change : Change U V}.

(** ** Statements *)

Section Statements.
  Context (r : Uuid) (Hr : statements_respect U r).

Lemma expire_respects oid now db a db' :
  expire_open_sessions r oid now db = Ok (a, db') → U db db'.
Proof. intros [= <- <-]. by apply sr_expire. Qed.

Lemma upsert_respects id oid size value now db a db' :
  upsert_open_session id r oid size value now db = Ok (a, db') → U db db'.
Proof.
  unfold upsert_open_session. destruct (find_open r oid db) as [[sid row]|] eqn:Hf.
  - intros [= <- <-]. apply find_open_Some in Hf as (Hs & Hrow & _).
    apply (sr_session _ _ Hr); [|done]. intros old Hold. congruence.
  - rewrite !require_ok. intros (_ & _ & Hn & _ & [= <- <-]). bool_hyps.
    apply (sr_session _ _ Hr); [|done]. intros old Hold. congruence.
Qed.

Lemma register_chunk_respects c size now db a db' :
  register_chunk r c size now db = Ok (a, db') → U db db'.
Proof.
  unfold register_chunk. destruct (chunks db !! (r, c)) as [row|] eqn:Hc.
  - by case_match; intros [= <- <-].
  - rewrite !require_ok. intros (_ & _ & _ & [= <- <-]). apply (sr_chunk _ _ Hr). congruence.
Qed.

Lemma insert_session_chunk_respects id c now db a db' :
  insert_session_chunk id r c now db = Ok (a, db') → U db db'.
Proof.
  unfold insert_session_chunk. destruct (upload_session_chunks db !! (id, c)) eqn:Hc.
  - by intros [= <- <-].
  - rewrite !require_ok. intros (_ & Hs & [= <- <-]). bool_hyps. by apply (sr_session_chunk _ _ Hr).
Qed.

Lemma insert_chunk_respects c size now db a db' :
  insert_chunk r c size now db = Ok (a, db') → U db db' ∧ upload_sessions db' = upload_sessions db.
Proof.
  unfold insert_chunk. destruct (chunks db !! (r, c)) as [row|] eqn:Hc.
  - by intros [= <- <-].
  - rewrite !require_ok. intros (_ & _ & _ & [= <- <-]). split; [apply (sr_chunk _ _ Hr); congruence|done].
Qed.

Lemma insert_object_respects oid size value now db a db' :
  insert_object r oid size value now db = Ok (a, db') → U db db' ∧ upload_sessions db' = upload_sessions db.
Proof.
  unfold insert_object. destruct (objects db !! (r, oid)) eqn:Ho.
  - by intros [= <- <-].
  - rewrite !require_ok. intros (_ & _ & _ & [= <- <-]). split; [by apply (sr_object _ _ Hr)|done].
Qed.

Lemma insert_object_chunk_respects oid z row now db a db' :
  insert_object_chunk r oid z row now db = Ok (a, db') → U db db' ∧ upload_sessions db' = upload_sessions db.
Proof.
  unfold insert_object_chunk. rewrite !require_ok. intros (_ & Hn & _ & [= <- <-]). bool_hyps.
  split; [by apply (sr_object_chunk _ _ Hr)|done].
Qed.

Lemma add_reference_respects c delta now db a db' :
  add_reference r c delta now db = Ok (a, db') → U db db' ∧ upload_sessions db' = upload_sessions db.
Proof.
  unfold add_reference. destruct (chunks db !! (r, c)) as [row|] eqn:Hc; [|by intros [= <- <-]].
  rewrite !require_ok. intros (_ & _ & [= <- <-]). split; [|done]. apply (sr_chunk _ _ Hr).
  intros old Hold. rewrite Hc in Hold. by injection Hold as <-.
Qed.

Lemma insert_lock_respects id path subject now db a db' :
  insert_lock id r path subject now db = Ok (a, db') → U db db'.
Proof.
  unfold insert_lock. rewrite !require_ok. intros (Hn & _ & [= <- <-]). bool_hyps.
  by apply (sr_lock _ _ Hr).
Qed.

Lemma delete_lock_respects id now db a db' :
  delete_lock id r now db = Ok (a, db') → U db db'.
Proof.
  unfold delete_lock, lock_of_repository.
  destruct (lfs_locks db !! id) as [row|] eqn:Hl; [|by intros [= <- <-]].
  case_decide as Hrow; [|by intros [= <- <-]]. intros [= <- <-]. by eapply (sr_unlock _ _ Hr).
Qed.

End Statements.

(** ** Transactions *)

Section Transactions.
  Context (r : Uuid) (Hr : statements_respect U r).

(** A transaction body that respects [U], and one that also leaves the sessions
    alone. *)
Definition tx_respects {E A} (m : TX St Json E A) : Prop :=
  ∀ now db0, tx_triple now (U db0) m (λ _, U db0).
Definition beside_sessions db0 db : Prop := U db0 db ∧ upload_sessions db = upload_sessions db0.
Definition tx_beside {E A} (m : TX St Json E A) : Prop :=
  ∀ now db0, tx_triple now (beside_sessions db0) m (λ _, beside_sessions db0).

Lemma sql_respects {A} (q : Z → Db Json → result SqlxError (A * Db Json)) :
  (∀ now db a db', q now db = Ok (a, db') → U db db') → tx_respects (sql q).
Proof. intros Hq now db0. apply triple_sql. intros db a db' H0 H%Hq. by etrans. Qed.

Lemma sql_beside {A} (q : Z → Db Json → result SqlxError (A * Db Json)) :
  (∀ now db a db', q now db = Ok (a, db') → U db db' ∧ upload_sessions db' = upload_sessions db) →
  tx_beside (sql q).
Proof.
  intros Hq now db0. apply triple_sql. intros db a db' [H0 Hs] [H Hs']%Hq.
  split; [by etrans|congruence].
Qed.

Lemma open_session_respects m value too_large : tx_respects (open_session r m value too_large).
Proof.
  intros now db0. unfold open_session.
  eapply triple_bind; [apply sql_respects; intros; by eapply expire_respects|intros ?].
  eapply (triple_bind _ _ (λ _, U db0)); [by intros w q w' Hn HU [= <- <-]|intros id].
  eapply (triple_bind _ _ (λ _, U db0)); [by apply triple_result|intros size].
  eapply (triple_bind _ _ (λ _, U db0)); [by apply triple_result|intros v].
  eapply triple_bind; [apply sql_respects; intros; by eapply upsert_respects|intros [[sid t] stored]].
  eapply (triple_bind _ _ (λ _, U db0)); [by apply triple_result|intros m'].
  case_bool_decide; [by apply triple_ret|apply triple_fail].
Qed.

Lemma register_session_chunk_respects id d : tx_respects (register_session_chunk r id d).
Proof.
  intros now db0. unfold register_session_chunk.
  eapply triple_bind; [apply sql_respects; intros; by eapply register_chunk_respects|intros [z|]];
    [|apply triple_fail].
  apply sql_respects. intros. by eapply insert_session_chunk_respects.
Qed.

Lemma publish_descriptor_beside oid p : tx_beside (publish_descriptor r oid p).
Proof.
  intros now db0. destruct p as [z d]. unfold publish_descriptor.
  do 3 (eapply (triple_bind _ _ (λ _, beside_sessions db0)); [by apply triple_result|intros ?]).
  eapply triple_bind; [apply sql_beside; intros; by eapply insert_object_chunk_respects|intros ?].
  apply sql_beside. intros. by eapply add_reference_respects.
Qed.

Lemma write_object_beside m : tx_beside (write_object r m).
Proof.
  intros now db0. unfold write_object.
  do 2 (eapply (triple_bind _ _ (λ _, beside_sessions db0)); [by apply triple_result|intros ?]).
  eapply triple_bind; [apply sql_beside; intros; by eapply insert_object_respects|intros n].
  eapply (triple_bind _ _ (λ _, beside_sessions db0)); [|intros ?; by apply triple_ret].
  destruct (n =? 1); [|by apply triple_ret].
  apply (triple_for_each now (λ _, beside_sessions db0)). intros. apply publish_descriptor_beside.
Qed.

Lemma publish_tx_respects id m : tx_respects (publish_tx r id m).
Proof.
  intros now db0 w q w' Hn H0. unfold publish_tx.
  set (oid := ObjectOid_as_bytes (om_object_oid m)).
  refine (triple_bind now (eq (w_db w)) (λ o db, db = w_db w ∧
    o = select_finalizable_session id r oid now (w_db w)) (λ _, U db0) _ _ _ _ w q w' Hn eq_refl).
  { apply triple_sql. by intros db o db' <- [= <- <-]. }
  intros o. eapply (triple_bind _ _ (λ s db, db = w_db w ∧
    select_finalizable_session id r oid now (w_db w) = Some s)).
  { apply triple_result. intros s db [-> ->] Hs%ok_or_ok. done. }
  intros s. destruct (us_state s); [|apply triple_ret; by intros db [-> _]|apply triple_fail].
  eapply (triple_bind _ _ (λ _ db, beside_sessions (w_db w) db ∧
    select_finalizable_session id r oid now (w_db w) = Some s)).
  { intros w1 q1 w1' Hn1 [Hd Hs] Hrun.
    destruct (triple_for_each now (λ _, beside_sessions (w_db w)) (om_chunks m)
      (λ d, sql (insert_chunk r (ChunkId_as_bytes (cd_id d)) (Z.of_N (cd_length d))))
      ltac:(intros; apply sql_beside; intros; by eapply insert_chunk_respects)
      w1 q1 w1' Hn1 ltac:(by rewrite Hd) Hrun) as (? & ? & HQ).
    split_and!; [done|done|]. intros a Ha. split; [by apply HQ with a|done]. }
  intros []. eapply (triple_bind _ _ (λ _ db, beside_sessions (w_db w) db ∧
    select_finalizable_session id r oid now (w_db w) = Some s)).
  { intros w1 q1 w1' Hn1 [Hd Hs] Hrun.
    destruct (write_object_beside m now (w_db w) w1 q1 w1' Hn1 Hd Hrun) as (? & ? & HQ).
    split_and!; [done|done|]. intros v Hv. split; [by apply HQ with v|done]. }
  intros b. eapply (triple_bind _ _ (λ _, U db0)); [|intros ?; by apply triple_ret].
  apply triple_sql. intros db u db' [[HU Hsess] Hsel] [= _ <-].
  apply select_finalizable_session_Some in Hsel as (Hs & Hrow & _).
  etrans; [exact H0|]. etrans; [exact HU|].
  erewrite alter_insert_session by (rewrite Hsess; exact Hs).
  apply (sr_session _ _ Hr); [|done]. rewrite Hsess. intros old Hold. congruence.
Qed.

End Transactions.

(** ** Handlers

    The repositories of the system and the access to them are [tenants]: a
    request changes none. *)

Section Handlers.
  Context (tenants : Tenants).

Definition within (w w' : World St Json) : Prop :=
  U (w_db w) (w_db w') ∧ V (w_store w) (w_store w').
Local Abbreviation I := (tenants_are tenants).
Local Abbreviation R := within.

#[export] Instance within_preorder : PreOrder within.
Proof.
  split; [by intros w|]. intros w1 w2 w3 [H1 H2] [H3 H4]. split; by etrans.
Qed.

Lemma within_stable : stable R I.
Proof.
  intros w w' Hdb Hst _. unfold within, tenants_are. rewrite Hdb, Hst. by split.
Qed.

(** A repository of this name. *)
Definition named (owner repository : string) (r : Uuid) : Prop :=
  ∃ row, tenants.1 !! r = Some row ∧ rp_owner row = owner ∧ rp_name row = repository.

(** What the handlers do to it is respected. *)
Definition respected (r : Uuid) : Prop := statements_respect U r ∧ store_respects V r.

Lemma repository_id_named owner repository w0 :
  safe R I (λ r _, named owner repository r) (repository_id owner repository) w0.
Proof.
  unfold repository_id.
  apply (safe_bind R I (λ row w, ∀ r, row = Some r → named owner repository r)).
  - apply (safe_query_read R I within_stable _ (λ _, select_repository_id owner repository)).
    intros w w' _ Hw _ _ _ r. unfold select_repository_id. intros Hr.
    apply fmap_Some in Hr as ([id row] & Hh & ->).
    apply head_Some_elem_of, list_elem_of_filter in Hh as [[Ho Hn] Hin%elem_of_map_to_list].
    exists row. by rewrite <- Hw.
  - intros row w _ Hrow. apply (safe_lift R I). intros r Hr%ok_or_ok. by apply Hrow.
Qed.

Lemma query_within {E A} (l : SqlxError → E) (q : Z → Db Json → result SqlxError (A * Db Json)) w0 :
  (∀ now db a db', q now db = Ok (a, db') → U db db') → safe R I any (query l q) w0.
Proof.
  intros Hq. apply (safe_atomic R I). intros w r w' _ Hw Hs. unfold tx_map_err in Hs.
  destruct (stmt q w) as [q0 w1] eqn:Hst. injection Hs as <- <-.
  apply stmt_spec in Hst as (Hs & _ & Hres). unfold within, tenants_are. rewrite Hs.
  destruct q0 as [a|e].
  - apply Hq in Hres. by rewrite (change_tenants _ _ Hres).
  - by rewrite Hres.
Qed.

Lemma transaction_within {E A} (l : SqlxError → E) (m : TX St Json E A) w0 :
  tx_respects m → safe R I any (transaction l m) w0.
Proof.
  intros Hm. apply (safe_transaction R I (λ _ db _, U db)).
  - intros w w' Hdb Hst Hnow. by apply within_stable.
  - intros w _ _. eapply triple_conseq; [apply (Hm (w_now w) (w_db w))|by intros db ->|done].
  - intros w a w' _ Hw Hs _ HU. unfold within, tenants_are. rewrite Hs.
    by rewrite (change_tenants _ _ HU).
Qed.

Lemma store_call_within {E F A} (l : F → E) (f : St → result F A * St) w0 :
  (∀ st res st', f st = (res, st') → V st st') → safe R I any (store_call l f) w0.
Proof.
  intros Hf. apply (safe_atomic R I). intros w res w' _ Hw. rewrite run_store_call. intros [= _ <-].
  destruct (f (w_store w)) as [q st'] eqn:Hq. apply Hf in Hq. by split.
Qed.

(** *** Every handler is within *)

Lemma get_verified_within {E} (l : StorageError → E) r id w0 :
  safe R I any (store_call l (get_verified r id)) w0.
Proof. apply store_call_within. intros st res st' [H _]%get_verified_spec. by apply change_chunks. Qed.
Lemma exists_chunk_within {E} (l : StorageError → E) r id w0 :
  safe R I any (store_call l (exists_chunk r id)) w0.
Proof. apply store_call_within. intros st res st' [H _]%exists_chunk_spec. by apply change_chunks. Qed.
Lemma healthcheck_within {E} (l : StorageError → E) probe w0 :
  safe R I any (store_call l (healthcheck probe)) w0.
Proof.
  apply store_call_within. intros st res st' H. apply change_chunks. intros r id.
  by rewrite <- (healthcheck_spec probe st), H.
Qed.
Lemma register_and_store_chunk_within r id d b w0 :
  respected r → safe R I any (register_and_store_chunk r id d b) w0.
Proof.
  intros [HU HV]. unfold register_and_store_chunk. apply (safe_bind R I any); [|intros _ ? _ _].
  - by apply transaction_within, register_session_chunk_respects.
  - apply store_call_within. intros. by eapply HV.
Qed.

Section OneRequest.
  Context (state : AppState) (headers : HeaderMap) (owner repository : string).

Lemma missing_indexes_within r l acc w0 : safe R I any (missing_indexes r l acc) w0.
Proof.
  pose proof within_stable. revert acc w0. induction l as [|[i d] l IH]; intros acc w0;
    cbn [missing_indexes]; [done|].
  apply (safe_bind R I any); [apply exists_chunk_within|intros present ? _ _].
  destruct (negb present); [safe_skip|]; apply IH.
Qed.

Lemma load_open_upload_within r oid id w0 : safe R I any (load_open_upload r oid id) w0.
Proof. pose proof within_stable. unfold load_open_upload. safe_skips. safe_call. Qed.
Lemma load_finalizable_upload_within r oid id w0 :
  safe R I any (load_finalizable_upload r oid id) w0.
Proof. pose proof within_stable. unfold load_finalizable_upload. safe_skips. done. Qed.
Lemma load_manifest_within r oid w0 : safe R I any (load_manifest r oid) w0.
Proof. pose proof within_stable. unfold load_manifest. safe_skips. safe_call. Qed.
Lemma publish_manifest_within r id m w0 :
  respected r → safe R I any (publish_manifest r id m) w0.
Proof.
  intros [HU _]. pose proof within_stable. unfold publish_manifest. safe_skip.
  by apply transaction_within, publish_tx_respects.
Qed.
Lemma count_published_within m b w0 : safe R I any (count_published m b) w0.
Proof. destruct b; [apply count_safe; [apply _|apply within_stable]|done]. Qed.

Lemma hash_chunks_within r l h w0 : safe R I any (hash_chunks r l h) w0.
Proof.
  revert h w0. induction l as [|d l IH]; intros h w0; cbn [hash_chunks]; [done|].
  apply (safe_bind R I any); [apply get_verified_within|intros b ? _ _].
  destruct (negb _); [done|apply IH].
Qed.

Lemma download_cdc_manifest_within oid w0 :
  safe R I any (download_cdc_manifest state owner repository oid headers) w0.
Proof.
  pose proof within_stable. unfold download_cdc_manifest. safe_skips. apply load_manifest_within.
Qed.

Lemma download_cdc_chunk_within oid index w0 :
  safe R I any (download_cdc_chunk state owner repository oid index headers) w0.
Proof.
  pose proof within_stable. unfold download_cdc_chunk. do 4 safe_skip.
  apply (safe_bind R I any); [apply load_manifest_within|intros m ? _ _]. safe_skip.
  apply (safe_bind R I any); [apply get_verified_within|intros b ? _ _]. by destruct (negb _).
Qed.

Lemma reassemble_within r l h f w0 : safe R I any (reassemble r l h f) w0.
Proof.
  pose proof within_stable. revert h f w0.
  induction l as [|d l IH]; intros h f w0; cbn [reassemble]; [done|].
  apply (safe_bind R I any); [apply get_verified_within|intros b ? _ _].
  destruct (negb _); [done|]. safe_skip. apply IH.
Qed.

Lemma download_basic_within oid w0 :
  safe R I any (download_basic state owner repository oid headers) w0.
Proof.
  pose proof within_stable. unfold download_basic. do 4 safe_skip.
  apply (safe_bind R I any); [apply load_manifest_within|intros m ? _ _]. do 3 safe_skip.
  apply (safe_bind R I any); [apply reassemble_within|intros [h f] ? _ _].
  destruct (negb _); [done|]. safe_skips. done.
Qed.

Lemma copy_limited_within limit body copied file w0 :
  safe R I any (copy_limited limit body copied file) w0.
Proof.
  pose proof within_stable. revert limit copied file w0.
  induction body as [|[b|e] body IH]; intros limit copied file w0; cbn [copy_limited];
    [done|..]; destruct (limit =? 0); try done. safe_skip. apply IH.
Qed.

Lemma store_stream_within r id items stream w0 :
  respected r → safe R I any (store_stream r id items stream) w0.
Proof.
  intros Hr. revert stream w0. induction items as [|item items IH]; intros stream w0;
    cbn [store_stream]; [done|].
  destruct (ChunkStream_accept _ item) as [[c s]|e]; [|done].
  apply (safe_bind R I any); [by apply register_and_store_chunk_within|intros _ ? _ _]. apply IH.
Qed.

Lemma map_prog_within {A B} (f : A → prog St Json ApiError B) l w0 :
  (∀ x w, safe R I any (f x) w) → safe R I any (map_prog f l) w0.
Proof.
  intros Hf. revert w0. induction l as [|x l IH]; intros w0; cbn [map_prog]; [done|].
  apply (safe_bind R I any); [apply Hf|intros ? ? _ _]. apply (safe_bind R I any); [apply IH|done].
Qed.

Lemma batch_within request w0 : safe R I any (batch state owner repository headers request) w0.
Proof.
  pose proof within_stable. unfold batch. destruct (1000 <? _); [done|]. do 3 safe_skip.
  apply (safe_bind R I any); [|done]. apply map_prog_within. intros object ?.
  unfold batch_object. safe_skip.
  destruct (br_operation request); match goal with |- context [if ?b then _ else _] => destruct b end;
    safe_skips; done.
Qed.

Lemma load_locks_page_within r path id cursor limit w0 :
  safe R I any (load_locks_page r path id cursor limit) w0.
Proof. pose proof within_stable. unfold load_locks_page. safe_skips. done. Qed.

Lemma list_locks_within query w0 :
  safe R I any (list_locks state owner repository query headers) w0.
Proof.
  pose proof within_stable. unfold list_locks. do 2 safe_skip.
  apply (safe_bind R I any); [apply load_locks_page_within|done].
Qed.

Lemma verify_locks_within request w0 :
  safe R I any (verify_locks state owner repository headers request) w0.
Proof.
  pose proof within_stable. unfold verify_locks. do 2 safe_skip.
  apply (safe_bind R I any); [apply load_locks_page_within|done].
Qed.

(** What an identity with write access may do to the repository is respected. *)
Definition writer_respected : Prop :=
  ∀ w, safe R I (λ _ _, ∀ r, named owner repository r → respected r)
    (authenticate state headers owner repository Write) w.

Context (Hwriter : writer_respected).

#[local] Tactic Notation "write_access" :=
  eapply (safe_bind R I); [apply Hwriter|intros ? ? _ Hall].

Lemma begin_cdc_within oid request w0 :
  safe R I any (begin_cdc state owner repository oid headers request) w0.
Proof.
  pose proof within_stable. unfold begin_cdc. write_access. safe_skip. destruct (negb _); [done|].
  safe_skip. destruct (negb _); [done|].
  eapply (safe_bind R I); [apply repository_id_named|intros r ? _ [HU _]%Hall]. safe_skip.
  apply (safe_bind R I any); [by apply transaction_within, open_session_respects|].
  intros [[id t] m] ? _ _. apply (safe_bind R I any); [apply missing_indexes_within|done].
Qed.

Lemma upload_cdc_chunk_within oid id index b w0 :
  safe R I any (upload_cdc_chunk state owner repository oid id index headers b) w0.
Proof.
  pose proof within_stable. unfold upload_cdc_chunk. safe_skip. write_access. safe_skip.
  eapply (safe_bind R I); [apply repository_id_named|intros r ? _ Hr%Hall].
  apply (safe_bind R I any); [apply load_open_upload_within|intros m ? _ _]. safe_skip.
  destruct (negb _); [done|].
  apply (safe_bind R I any); [by apply register_and_store_chunk_within|intros _ ? _ _]. by safe_skip.
Qed.

Lemma finalize_cdc_within oid id w0 :
  safe R I any (finalize_cdc state owner repository oid id headers) w0.
Proof.
  pose proof within_stable. unfold finalize_cdc. safe_skip. write_access. safe_skip.
  eapply (safe_bind R I); [apply repository_id_named|intros r ? _ Hr%Hall].
  apply (safe_bind R I any); [apply load_finalizable_upload_within|intros [m b] ? _ _].
  cbn [fst snd]. destruct b; [done|].
  apply (safe_bind R I any); [apply hash_chunks_within|intros h ? _ _]. destruct (negb _); [done|].
  apply (safe_bind R I any); [by apply publish_manifest_within|intros p ? _ _].
  apply (safe_bind R I any); [apply count_published_within|done].
Qed.

Lemma upload_basic_within oid body w0 :
  safe R I any (upload_basic state owner repository oid headers body) w0.
Proof.
  pose proof within_stable. unfold upload_basic. write_access. safe_skip.
  eapply (safe_bind R I); [apply repository_id_named|intros r ? _ Hr%Hall].
  destruct (match _ with Some _ => _ | None => _ end); [done|]. do 4 safe_skip.
  apply (safe_bind R I any); [apply copy_limited_within|intros [copied file] ? _ _].
  destruct (_ <? _); [done|]. do 2 safe_skip.
  apply (safe_bind R I any); [by apply (act_safe R I)|intros rd ? _ _]. safe_skip.
  destruct (negb _); [done|]. apply (safe_bind R I any).
  { unfold ensure_upload_session. apply (safe_bind R I any); [|done].
    apply transaction_within, open_session_respects, Hr. }
  intros id ? _ _. safe_skip.
  apply (safe_bind R I any); [by apply (act_safe R I)|intros rd' ? _ _].
  apply (safe_bind R I any); [by apply store_stream_within|intros _ ? _ _].
  apply (safe_bind R I any); [by apply publish_manifest_within|intros p ? _ _].
  apply (safe_bind R I any); [apply count_published_within|intros _ ? _ _]. safe_skips. done.
Qed.

Lemma create_lock_within request w0 :
  safe R I any (create_lock state owner repository headers request) w0.
Proof.
  pose proof within_stable. unfold create_lock. write_access. safe_skip.
  eapply (safe_bind R I); [apply repository_id_named|intros r ? _ [HU _]%Hall]. safe_skip.
  apply (safe_bind R I any); [|done]. apply query_within. intros. by eapply insert_lock_respects.
Qed.

Lemma unlock_within id request w0 :
  safe R I any (unlock state owner repository id headers request) w0.
Proof.
  pose proof within_stable. unfold unlock. write_access.
  eapply (safe_bind R I); [apply repository_id_named|intros r ? _ [HU _]%Hall]. do 2 safe_skip.
  destruct (_ && _); [done|]. apply (safe_bind R I any).
  - apply query_within. intros. by eapply delete_lock_respects.
  - intros ? ? _ _. by safe_skip.
Qed.

End OneRequest.

(** ** Requests *)

Lemma readiness_within w0 : safe R I any readiness w0.
Proof.
  pose proof within_stable. unfold readiness. do 2 safe_skip.
  match goal with |- safe _ _ _ (if ?b then _ else _) _ => destruct b; [done|] end.
  safe_skip. apply (safe_bind R I any); [apply healthcheck_within|intros _ ? _ _].
  apply (safe_bind R I any); [by apply (act_safe R I)|done].
Qed.

Lemma metrics_within {E} w0 : safe R I any (metrics (E:=E)) w0.
Proof.
  pose proof within_stable. unfold metrics, load.
  repeat (apply (safe_bind R I any); [by apply (act_safe R I)|intros ? ? _ _]). done.
Qed.

(** The endpoints that write, and the repository that a request to one of them
    writes to, as the router reads its path. *)
Definition writing_endpoint (e : Endpoint) : bool :=
  match e with
  | EUploadBasic | EBeginCdc | EUploadCdcChunk | EFinalizeCdc | ECreateLock | EUnlock => true
  | _ => false
  end.

Definition path_repository (path : list string) : option (string * string) :=
  match path with owner :: repository :: _ => Some (owner, repository) | _ => None end.

Definition written_repository (req : ServerRequest) : option (string * string) :=
  match find_route (sr_method req) (sr_path req) with
  | Ok (e, raw) =>
      if writing_endpoint e then
        mapM percent_decode raw ≫= path_repository
      else None
  | Err _ => None
  end.

Lemma extracted_within {A} (r : result Rejection A) (next : A → prog St Json Empty_set Response) w :
  (∀ a, thread_safe R I w (Thread (next a))) → thread_safe R I w (Thread (extracted r next)).
Proof. intros Hn. destruct r; [apply Hn|by exists w]. Qed.

Lemma handled_within {A} (into : A → Response) (p : prog St Json ApiError A) w :
  safe R I any p w → thread_safe R I w (Thread (handled into p)).
Proof. intros Hp. apply (handled_safe R I). by exists w. Qed.

Lemma run_endpoint_within state e raw req w :
  (∀ owner repository rest, writing_endpoint e = true →
     mapM percent_decode raw = Some (owner :: repository :: rest) →
     writer_respected state (sr_headers req) owner repository) →
  thread_safe R I w (Thread (run_endpoint state e raw req)).
Proof.
  intros Hall. unfold run_endpoint.
  destruct (mapM percent_decode raw) as [path|] eqn:Hraw.
  2:{ destruct e; try (by exists w); apply handled_within;
      first [apply readiness_within|apply metrics_within]. }
  destruct e; try (by exists w); try (apply handled_within; first [apply readiness_within|apply metrics_within]);
    cbn [ok_or extracted]; repeat (destruct path as [|? path]; try (by exists w));
    repeat (apply extracted_within; intros ?); apply handled_within;
    try (pose proof (Hall _ _ _ eq_refl eq_refl));
    eauto using batch_within, upload_basic_within, download_basic_within, begin_cdc_within,
      download_cdc_manifest_within, download_cdc_chunk_within, upload_cdc_chunk_within,
      finalize_cdc_within, create_lock_within, list_locks_within, verify_locks_within, unlock_within.
Qed.

Lemma serve_within state req w :
  (∀ owner repository, written_repository req = Some (owner, repository) →
     writer_respected state (sr_headers req) owner repository) →
  thread_safe R I w (Thread (serve state req)).
Proof.
  intros Hall. apply (layer_safe R I); [apply within_stable|]. clear w. intros w.
  unfold dispatch. unfold written_repository in Hall.
  destruct (find_route _ _) as [[e raw]|]; [|by exists w].
  assert (Hrun : ∀ w, thread_safe R I w (Thread (run_endpoint (St:=St) (Json:=Json) state e raw req))).
  { intros w1. apply run_endpoint_within. intros owner repository rest He Hraw.
    apply Hall. by rewrite He, Hraw. }
  destruct (sr_method req); try apply Hrun. destruct (Hrun w) as (w0 & Hw & Hp).
  exists w0. split; [done|]. by apply (safe_bind R I any).
Qed.

#[export] Instance named_dec owner repository r : Decision (named owner repository r).
Proof.
  unfold named. destruct (tenants.1 !! r) as [row|] eqn:Hr.
  - destruct (decide (rp_owner row = owner ∧ rp_name row = repository)) as [H|H].
    + left. by exists row.
    + right. intros (row' & [= <-] & H'). by apply H.
  - right. by intros (row' & [=] & _).
Defined.

(** Writers are respected when everything in the repository is. *)
Lemma all_respected state headers owner repository :
  (∀ r, named owner repository r → respected r) → writer_respected state headers owner repository.
Proof.
  intros Hall w. eapply (safe_mono R I any); [apply authenticate_safe; [apply _|apply within_stable]|].
  done.
Qed.

(** Nobody who is denied access writes. *)
Lemma denied_respected state headers owner repository :
  denied tenants state headers owner repository Write → writer_respected state headers owner repository.
Proof.
  intros Hdenied w. eapply (safe_weaken R _ I); [| | |apply authenticate_safe|apply Hdenied].
  all: try done; first [apply _|apply within_stable].
Qed.

(** A request that a writer of what it changes sends, or that is denied. *)
Lemma request_within state req w :
  (∀ owner repository, written_repository req = Some (owner, repository) →
     denied tenants state (sr_headers req) owner repository Write ∨
     ∀ r, named owner repository r → respected r) →
  thread_safe R I w (Thread (serve state req)).
Proof.
  intros Hall. apply serve_within. intros owner repository [Hd|Hr]%Hall;
    [by apply denied_respected|by apply all_respected].
Qed.

(** Any number of programs, interleaved with each other. *)
Lemma programs_within (service : thread (St:=St) (Json:=Json) → Prop) w ts w' :
  (∀ t w1, service t → thread_safe R I w1 t) →
  tenants_are tenants w → rtc (step service) ([], w) (ts, w') → within w w'.
Proof.
  intros Hserv Hw Hsteps.
  apply (steps_invariant R I) in Hsteps as (_ & _ & H); [done| | |constructor|done].
  - intros w1 w2 (dn & di & fs & ios & c & _ & _ & ->). unfold within, tenants_are. cbn. by split.
  - intros t w1 Ht _. by apply Hserv.
Qed.

End Handlers.
End Respect.

End Tenancy.
