(* ===== verification/Isolation.v ===== *)
(** * Isolation: tenants and published objects

    Two things that all requests respect, under any interleaving: the data of a
    repository that nobody writes to, which the collector for other repositories
    respects too, and the objects that are published. *)
From S2P Require Import Prelude Digest Manifest Stream Protocol Storage Database Effects Api Sessions Uploads Gc GcFacts GcSpecs Locks Batch Metrics Routes Router Service Tenancy.
#[local] Open Scope N_scope.

Section Isolation.
  Context {St Json : Type} {object_store : ObjectStore St} {store_laws : ObjectStoreLaws St}
          {json : ManifestJson Json} {pg : PgText} {hex : HexCodec} {hex_laws : HexLaws}
          {hashes : Hashes} {uuid_text : UuidText} {uuid_laws : UuidTextLaws}
          {fastcdc : FastCdc} {url_lib : UrlLib} {jwt : JwtLib}
          {forgejo : ForgejoApi} {axum : Axum} {answers : Answers}.
  Implicit Types (w : World St Json) (db : Db Json).

(** ** Isolation of tenants *)

(** Everything the database holds for the repository [r'], the repositories and
    the access to them. *)
Record tenant_kept (r' : Uuid) db db' : Prop := {
  tk_tenants : tenants_of db' = tenants_of db;
  tk_objects o : objects db' !! (r', o) = objects db !! (r', o);
  tk_chunks c : chunks db' !! (r', c) = chunks db !! (r', c);
  tk_object_chunks o z : object_chunks db' !! (r', o, z) = object_chunks db !! (r', o, z);
  tk_sessions id row : us_repository_id row = r' →
    upload_sessions db' !! id = Some row ↔ upload_sessions db !! id = Some row;
  tk_session_chunks id c : us_repository_id <$> upload_sessions db !! id = Some r' →
    upload_session_chunks db' !! (id, c) = upload_session_chunks db !! (id, c);
  tk_locks id row : lr_repository_id row = r' →
    lfs_locks db' !! id = Some row ↔ lfs_locks db !! id = Some row;
  tk_epochs id row : ep_repository_id row = r' →
    reachability_epochs db' !! id = Some row ↔ reachability_epochs db !! id = Some row;
  tk_reachable e o : ep_repository_id <$> reachability_epochs db !! e = Some r' →
    (e, o) ∈ reachable_objects db' ↔ (e, o) ∈ reachable_objects db;
  tk_tombstones o : object_tombstones db' !! (r', o) = object_tombstones db !! (r', o);
  tk_queue c : chunk_gc_queue db' !! (r', c) = chunk_gc_queue db !! (r', c);
}.

#[local] Instance tenant_kept_preorder r' : PreOrder (tenant_kept r').
Proof.
  split; [by intros db; split|]. intros a b c [] []. split; try congruence; intros.
  - by rewrite tk_sessions1, tk_sessions0.
  - rewrite tk_session_chunks1; [by apply tk_session_chunks0|].
    apply fmap_Some in H as (row & Hrow & ->). by rewrite (proj2 (tk_sessions0 _ _ eq_refl) Hrow).
  - by rewrite tk_locks1, tk_locks0.
  - by rewrite tk_epochs1, tk_epochs0.
  - rewrite tk_reachable1; [by apply tk_reachable0|].
    apply fmap_Some in H as (row & Hrow & ->). by rewrite (proj2 (tk_epochs0 _ _ eq_refl) Hrow).
Qed.

Definition store_kept (r' : Uuid) (st st' : St) : Prop :=
  ∀ id, chunk_bytes st' r' id = chunk_bytes st r' id.

#[local] Instance store_kept_preorder r' : PreOrder (store_kept r').
Proof. split; [by intros st id|]. intros a b c Hab Hbc id. by rewrite Hbc. Qed.

#[export] Instance tenant_change r' : Change (tenant_kept r') (store_kept r').
Proof. split; [apply _|apply _|by intros ? ? []|intros st st' H id; apply H]. Qed.

(** A row of another repository is inserted, changed or deleted. *)
Lemma insert_kept {V} (P : V → Prop) (m : gmap Uuid V) i x j y :
  (∀ old, m !! i = Some old → ¬ P old) → ¬ P x → P y → <[i := x]> m !! j = Some y ↔ m !! j = Some y.
Proof.
  intros Hold Hx Hy. destruct (decide (i = j)) as [<-|]; [|by rewrite lookup_insert_ne].
  rewrite lookup_insert_eq. split; [intros [= ->]|intros H%Hold]; done.
Qed.

Lemma fmap_kept {V} (P : V → Prop) (f : V → V) (m : gmap Uuid V) j y :
  (∀ x, P x → f x = x) → (∀ x, P (f x) → P x) → P y → (f <$> m) !! j = Some y ↔ m !! j = Some y.
Proof.
  intros Hf Hback Hy. rewrite lookup_fmap. destruct (m !! j) as [x|]; [|done]. cbn. split.
  - intros [= <-]. by rewrite Hf at 1 by by apply Hback.
  - intros [= ->]. by rewrite Hf.
Qed.

Section Elsewhere.
  Context (r r' : Uuid) (Hne : r ≠ r').

Lemma tenant_statements : statements_respect (tenant_kept r') r.
Proof.
  split.
  - intros oid now db. split; try done. intros id row Hrow. cbn.
    apply (fmap_kept (λ row, us_repository_id row = r')); [| |done]; intros x; unfold expire_row;
      destruct (bool_decide (us_repository_id x = r)) eqn:Hx; try done; bool_hyps; cbn.
    + congruence.
    + by destruct (_ && _).
  - intros id row db Hold Hrow. split; try done. intros id' row' Hrow'. cbn.
    apply (insert_kept (λ row, us_repository_id row = r')); [|congruence|done].
    intros old Ho%Hold. congruence.
  - intros id c db Hn Hs. split; try done. intros id' c' Hs'. cbn. apply lookup_insert_ne. congruence.
  - intros c row db _. split; try done. intros c'. cbn. by rewrite lookup_insert_ne by congruence.
  - intros oid row db _. split; try done. intros o. cbn. by rewrite lookup_insert_ne by congruence.
  - intros oid z row db _. split; try done. intros o z'. cbn. by rewrite lookup_insert_ne by congruence.
  - intros id row db Hn Hrow. split; try done. intros id' row' Hrow'. cbn.
    apply (insert_kept (λ row, lr_repository_id row = r')); congruence.
  - intros id row db Hl Hrow. split; try done. intros id' row' Hrow'. cbn.
    destruct (decide (id = id')) as [<-|]; [|by rewrite lookup_delete_ne].
    rewrite lookup_delete_eq, Hl. split; [done|intros [= ->]; congruence].
Qed.

Lemma tenant_store : store_respects (store_kept r') r.
Proof. intros id b st res st' (Hother & _)%put_verified_spec id'. apply Hother. congruence. Qed.

(** *** The collector for another repository *)

(** A transaction body that leaves [r'] alone, whatever it returns. *)
Definition tx_keeps {E A} (m : TX St Json E A) : Prop :=
  ∀ w q w', m w = (q, w') →
  tenant_kept r' (w_db w) (w_db w') ∧ store_kept r' (w_store w) (w_store w').

Lemma keeps_result {E A} (q : result E A) : tx_keeps (tx_result q).
Proof. by intros w q' w' [= <- <-]. Qed.

Lemma keeps_bind {E A B} (m : TX St Json E A) (f : A → TX St Json E B) :
  tx_keeps m → (∀ a, tx_keeps (f a)) → tx_keeps (let! a := m in f a).
Proof.
  intros Hm Hf w q w' [(a & w1 & [H1 H2]%Hm & [H3 H4]%Hf)|(e & H%Hm & _)]%tx_bind_inv; [|done].
  split; by etrans.
Qed.

Lemma keeps_for_each {E A} (l : list A) (f : A → TX St Json E unit) :
  (∀ x, tx_keeps (f x)) → tx_keeps (for_each l f).
Proof.
  intros Hf. induction l as [|x l IH]; cbn [for_each]; [apply (keeps_result (Ok tt))|].
  by apply keeps_bind.
Qed.

Lemma keeps_gsql {A} (q : Z → Db Json → result SqlxError (A * Db Json)) :
  (∀ now db a db', q now db = Ok (a, db') → tenant_kept r' db db') → tx_keeps (gsql q).
Proof.
  intros Hq w res w' (Hs & _ & Hres)%gsql_inv. rewrite Hs.
  destruct res as [a|e]; [by apply Hq in Hres|by rewrite Hres].
Qed.

Lemma keeps_read {A} (f : Z → Db Json → A) : tx_keeps (gsql (λ now db, Ok (f now db, db))).
Proof. apply keeps_gsql. by intros now db a db' [= _ <-]. Qed.

Lemma delete_object_kept oid now db a db' :
  delete_object r oid now db = Ok (a, db') → tenant_kept r' db db'.
Proof.
  intros [= _ <-]. split; try done; cbn; intros.
  - apply lookup_delete_ne. congruence.
  - destruct (object_chunks db !! (r', o, z)) as [row|] eqn:Hrow; apply option_eq; intros row';
      rewrite map_lookup_filter_Some, Hrow; [|naive_solver].
    split; [by intros [? _]|]. intros [= <-]. split; [done|]. cbn. congruence.
  - apply lookup_delete_ne. congruence.
Qed.

Lemma enqueue_unreferenced_kept c now db a db' :
  enqueue_unreferenced r c now db = Ok (a, db') → tenant_kept r' db db'.
Proof.
  unfold enqueue_unreferenced. repeat case_match; rewrite ?require_ok; intros; destruct_and?; simplify_eq; try done.
  split; try done. intros c'. cbn. apply lookup_insert_ne. congruence.
Qed.

Lemma collect_one_keeps : tx_keeps (collect_one r).
Proof.
  unfold collect_one. apply keeps_bind; [apply (keeps_read (λ _ _, tt))|intros _].
  apply keeps_bind; [apply (keeps_read (λ now, select_due r now))|intros [oid|]];
    [|apply (keeps_result (Ok false))].
  apply keeps_bind; [apply (keeps_read (λ _, select_object_chunks r oid))|intros ids].
  apply keeps_bind; [apply keeps_gsql, delete_object_kept|intros _].
  apply keeps_bind; [|intros _; apply (keeps_result (Ok true))].
  apply keeps_for_each. intros c. unfold release_chunk. apply keeps_bind.
  - apply keeps_gsql. intros now db a db' H.
    by apply (add_reference_respects _ _ _ tenant_statements) in H as [H _].
  - intros _. apply keeps_gsql, enqueue_unreferenced_kept.
Qed.

Lemma delete_queued_kept c now db a db' :
  delete_queued r c now db = Ok (a, db') → tenant_kept r' db db'.
Proof. intros [= _ <-]. split; try done. intros c'. cbn. apply lookup_delete_ne. congruence. Qed.

Lemma delete_chunk_row_kept c now db a db' :
  delete_chunk_row r c now db = Ok (a, db') → tenant_kept r' db db'.
Proof.
  unfold delete_chunk_row. repeat case_match; rewrite ?require_ok; intros; destruct_and?; simplify_eq; try done.
  split; try done. intros c'. cbn. apply lookup_delete_ne. congruence.
Qed.

Lemma drain_one_keeps raw : tx_keeps (drain_one r raw).
Proof.
  pose proof (keeps_gsql _ (delete_queued_kept raw)) as Hq. unfold drain_one.
  apply keeps_bind; [apply (keeps_read (λ _ db, chunks db !! (r, raw)))|intros [row|]]; [|done].
  destruct (0 <? _)%Z; [done|].
  apply keeps_bind; [apply (keeps_read (λ _, chunk_active r raw))|intros [|]];
    [apply (keeps_result (Ok tt))|].
  apply keeps_bind; [apply keeps_result|intros id].
  apply keeps_bind; [|intros _; apply keeps_bind; [apply keeps_gsql, delete_chunk_row_kept|by intros _]].
  intros w q w' H. rewrite run_store_call in H. injection H as _ <-.
  split; [by destruct (delete_chunk r id (w_store w))|].
  destruct (delete_chunk r id (w_store w)) as [q1 st] eqn:Hd. cbn.
  apply delete_chunk_spec in Hd as [Hother _]. intros id'. apply Hother. congruence.
Qed.

Lemma reclaim_keeps secs : tx_keeps (reclaim_tx r secs).
Proof.
  unfold reclaim_tx. apply keeps_bind; [|intros _; apply keeps_bind; [|intros _]]; apply keeps_gsql.
  - intros now db a db' [= _ <-]. split; try done. intros id row Hrow. cbn.
    apply (fmap_kept (λ row, us_repository_id row = r')); [| |done]; intros x; unfold expire_repository_row;
      destruct (bool_decide (us_repository_id x = r)) eqn:Hx; try done; bool_hyps; cbn.
    + congruence.
    + by destruct (_ && _).
  - intros now db a db'. unfold enqueue_abandoned. rewrite require_ok. intros [_ [= _ <-]].
    split; try done. intros c. cbn. rewrite lookup_union, lookup_fmap.
    destruct (filter _ _ !! (r', c)) eqn:Hf; [|by destruct (chunk_gc_queue db !! _)].
    apply map_lookup_filter_Some in Hf as (_ & Hr & _). cbn in Hr. congruence.
  - intros now db a db'. unfold delete_stale_sessions. rewrite require_ok. intros [_ [= _ <-]].
    assert (Hkept : ∀ id row, us_repository_id row = r' →
      filter (λ kv : Uuid * SessionRow Json, ¬ (us_repository_id kv.2 = r ∧ stale r (now - secs * 1000000) kv.2 = true))
        (upload_sessions db) !! id = Some row ↔ upload_sessions db !! id = Some row).
    { intros id row Hrow. rewrite map_lookup_filter_Some. cbn. split; [by intros [? _]|].
      intros H. split; [done|]. intros [? _]. congruence. }
    split; try done; cbn.
    intros id c (row & Hrow & Hr)%fmap_Some. apply option_eq. intros r2.
    rewrite map_lookup_filter_Some. cbn. split; [by intros [? _]|]. intros H. split; [done|].
    exists row. by apply Hkept.
Qed.

(** *** The operations of the collector *)

Section Operations.
  Context (tenants : Tenants).
  Local Abbreviation I := (tenants_are tenants).
  Local Abbreviation R := (within (tenant_kept r') (store_kept r')).

Lemma transaction_keeps {E A} (l : SqlxError → E) (m : TX St Json E A) w0 :
  tx_keeps m → safe R I any (transaction l m) w0.
Proof.
  intros Hm. apply (safe_atomic R I). intros w q w' _ Hw Ha.
  assert (R w w') as HR.
  { apply atomically_inv in Ha as [[(Hd & Hs & _) _]|(w1 & q1 & w2 & (Hd1 & Hs1 & _) & H & Hs & _ & Hq)].
    { unfold within. by rewrite Hd, Hs. }
    apply Hm in H as [HU HV]. unfold within. rewrite Hs, <- Hs1. split; [|done].
    destruct q; [destruct Hq as [_ ->]; by rewrite <- Hd1|by rewrite Hq]. }
  split_and!; [done| |done]. unfold tenants_are. rewrite <- Hw. by apply (tk_tenants r'), HR.
Qed.

Lemma drain_chunk_queue_keeps w0 : safe R I any (drain_chunk_queue r) w0.
Proof.
  pose proof (within_stable (tenant_kept r') (store_kept r') tenants). unfold drain_chunk_queue. safe_skip.
  apply (for_each_safe R I). intros raw ? _ _. apply transaction_keeps, drain_one_keeps.
Qed.

Lemma collect_due_keeps fuel w0 : safe R I any (collect_due fuel r) w0.
Proof.
  unfold collect_due. apply (safe_bind R I any).
  - generalize 0 as n. revert w0. induction fuel as [|fuel IH]; intros w0 n; [done|].
    cbn [collect_loop]. apply (safe_bind R I any); [apply transaction_keeps, collect_one_keeps|].
    intros [] ? _ _; [apply IH|done].
  - intros [n|] ? _ _; [|done]. apply (safe_bind R I any); [apply drain_chunk_queue_keeps|done].
Qed.

Lemma reclaim_expired_uploads_keeps grace w0 : safe R I any (reclaim_expired_uploads r grace) w0.
Proof.
  pose proof (within_stable (tenant_kept r') (store_kept r') tenants).
  unfold reclaim_expired_uploads. safe_skip.
  apply (safe_bind R I any); [apply transaction_keeps, reclaim_keeps|intros n ? _ _].
  apply (safe_bind R I any); [apply drain_chunk_queue_keeps|done].
Qed.

Lemma dry_run_keeps w0 : safe R I any (dry_run (St:=St) (Json:=Json) r) w0.
Proof.
  pose proof (within_stable (tenant_kept r') (store_kept r') tenants). unfold dry_run. safe_skip. safe_call.
Qed.

Lemma stage_keeps grace w0 : safe R I any (stage (St:=St) (Json:=Json) r grace) w0.
Proof.
  pose proof (within_stable (tenant_kept r') (store_kept r') tenants). unfold stage.
  apply (safe_bind R I any); [apply dry_run_keeps|intros l ? _ _]. safe_skip.
  apply (safe_bind R I any); [|done]. apply transaction_keeps, keeps_for_each.
  intros c v q v' (Hs & _ & Hq)%stmt_spec. rewrite Hs.
  destruct q as [x|e]; [|by rewrite Hq]. split; [|done].
  revert Hq. unfold insert_tombstone. rewrite require_ok. intros [_ Hq].
  destruct (object_tombstones _ !! _); [by injection Hq as _ <-|].
  rewrite require_ok in Hq. destruct Hq as [_ [= _ <-]].
  split; try done. intros o. cbn. apply lookup_insert_ne. congruence.
Qed.

(** A snapshot writes the reachable objects of the epoch that it began. *)
Lemma snapshot_keeps s w0 :
  rs_repository_id s = r → safe R I any (submit_snapshot (St:=St) s) w0.
Proof.
  intros Hs. apply transaction_within; [apply _|].
  intros now db0. unfold snapshot_tx.
  eapply (triple_bind _ _ (λ _, tenant_kept r' db0)); [by intros v q v' Hn HU [= <- <-]|intros e].
  set (mine db := tenant_kept r' db0 db ∧ ep_repository_id <$> reachability_epochs db !! e = Some r).
  eapply (triple_bind _ _ (λ _, mine)).
  { apply triple_plain. unfold insert_epoch. intros db a db' HU. rewrite !require_ok.
    intros (Hn & _ & [= _ <-]). bool_hyps. split; cbn; [|by rewrite lookup_insert_eq, Hs].
    etrans; [exact HU|]. split; try done. intros id row Hrow. cbn.
    apply (insert_kept (λ row, ep_repository_id row = r')); cbn; congruence. }
  intros _. eapply (triple_bind _ _ (λ _, mine)).
  { apply (triple_for_each now (λ _, mine)). intros pre oid post _. apply triple_plain.
    unfold insert_reachable. intros db a db' [HU He]. rewrite !require_ok.
    intros (_ & _ & _ & [= _ <-]). split; [|done]. etrans; [exact HU|]. split; try done.
    intros e' o He'. cbn. rewrite elem_of_union, elem_of_singleton. naive_solver. }
  intros _. eapply (triple_bind _ _ (λ _, tenant_kept r' db0)); [|intros _; by apply triple_ret].
  apply triple_plain. unfold complete_epoch. intros db a db' [HU He] [= _ <-]. etrans; [exact HU|].
  apply fmap_Some in He as (row & Hrow & Hr). split; try done. intros id row' Hrow'. cbn.
  destruct (decide (id = e)) as [->|Hid]; [|by rewrite lookup_alter_ne].
  rewrite lookup_alter_eq, Hrow. cbn. split; intros [= <-]; cbn in *; congruence.
Qed.

End Operations.
End Elsewhere.

(** *** The theorem *)

(** Requests that do not write to the repository [r'], as it is named in [w], or
    are not allowed to. *)
Definition no_writer state w (r' : Uuid) (req : ServerRequest) : Prop :=
  ∀ owner repository, written_repository req = Some (owner, repository) →
    named (tenants_of (w_db w)) owner repository r' →
    denied (St:=St) (Json:=Json) (tenants_of (w_db w)) state (sr_headers req) owner repository Write.

(** Programs that are not for [r']: such requests, and the operations of the
    collector for other repositories. *)
Inductive elsewhere state w (r' : Uuid) : thread (St:=St) (Json:=Json) → Prop :=
| other_request req : no_writer state w r' req → elsewhere state w r' (Thread (serve state req))
| other_snapshot s : rs_repository_id s ≠ r' → elsewhere state w r' (Thread (submit_snapshot s))
| other_dry_run r : r ≠ r' → elsewhere state w r' (Thread (dry_run r))
| other_stage r grace : r ≠ r' → elsewhere state w r' (Thread (stage r grace))
| other_collect_due fuel r : r ≠ r' → elsewhere state w r' (Thread (collect_due fuel r))
| other_reclaim r grace : r ≠ r' → elsewhere state w r' (Thread (reclaim_expired_uploads r grace)).


(** ** Immutability *)

Definition rows_kept db db' : Prop :=
  tenants_of db' = tenants_of db ∧ objects db ⊆ objects db' ∧
  object_chunks db ⊆ object_chunks db' ∧
  ∀ k row, chunks db !! k = Some row → ∃ row', chunks db' !! k = Some row' ∧ ck_size row' = ck_size row.

#[local] Instance rows_kept_preorder : PreOrder rows_kept.
Proof.
  split.
  - intros db. split_and!; try done. intros k row H. by exists row.
  - intros a b c (H1 & H2 & H3 & H4) (H5 & H6 & H7 & H8). split_and!; [congruence|by etrans..|].
    intros k row (row1 & Hr1 & Hs1)%H4. apply H8 in Hr1 as (row2 & Hr2 & Hs2).
    exists row2. split; [done|congruence].
Qed.

#[local] Instance keeps_chunks_preorder : PreOrder (keeps_chunks (St:=St)).
Proof. split; [by intros st r id b|]. intros a b c Hab Hbc r id x Hx. by apply Hbc, Hab. Qed.

Lemma rows_respected r : statements_respect rows_kept r ∧ store_respects keeps_chunks r.
Proof.
  assert (Hsame : ∀ db db', tenants_of db' = tenants_of db → objects db' = objects db →
    object_chunks db' = object_chunks db → chunks db' = chunks db → rows_kept db db').
  { intros db db' H1 H2 H3 H4. unfold rows_kept. rewrite H1, H2, H3, H4. split_and!; try done. intros k row H. by exists row. }
  split; [split|].
  - intros. by apply Hsame.
  - intros. by apply Hsame.
  - intros. by apply Hsame.
  - intros c row db Hsize. split_and!; try done. cbn. intros k old Hold.
    destruct (decide (k = (r, c))) as [->|]; [|rewrite lookup_insert_ne by done; by exists old].
    exists row. rewrite lookup_insert_eq. split; [done|by apply Hsize].
  - intros oid row db Hn. split_and!; try done; [by apply insert_subseteq|]. intros k old H. by exists old.
  - intros oid z row db Hn. split_and!; try done; [by apply insert_subseteq|]. intros k old H. by exists old.
  - intros. by apply Hsame.
  - intros. by apply Hsame.
  - intros id b st res st' (Hother & Hs & _)%put_verified_spec r2 id2 x Hx.
    destruct (decide ((r2, id2) = (r, id))) as [[= -> ->]|Hne]; [|by rewrite Hother].
    destruct Hs as [->|[Hn _]]; congruence.
Qed.

#[export] Instance rows_change : Change rows_kept keeps_chunks.
Proof. split; [apply _|apply _|by intros ? ? []|intros st st' H r id b Hb; by rewrite H]. Qed.

(** C7: published objects are immutable.  Under any interleaving of requests with
    any failures an object that is published stays published with the manifest
    it has, and every chunk in the store keeps its bytes: what a download of the
    object returns is fixed when it is published. *)
Theorem published_immutable {json_laws : ManifestJsonLaws Json} {cdc_laws : FastCdcLaws} state w ts w' :
  service_ok true w →
  rtc (step (requests state)) ([], w) (ts, w') →
  (∀ r o m, published (w_db w) r o m → published (w_db w') r o m) ∧
  keeps_chunks (w_store w) (w_store w').
Proof.
  intros Hw Hsteps.
  assert (db_ok (w_db w')) as [_ Hok].
  { apply (reachable_ok state w ts w'); [done|].
    eapply (rtc_subrel (step (requests state))); [|exact Hsteps]. intros c c' Hstep.
    destruct Hstep; [by apply step_act|by apply step_env|apply step_spawn; by left]. }
  apply (programs_within rows_kept keeps_chunks) with (tenants := tenants_of (w_db w)) in Hsteps
    as [(_ & Hobj & _) Hk]; [| |done].
  - split; [|done]. intros r o m ((row & Hrow & Hj & _) & _).
    eapply lookup_weaken in Hrow; [|exact Hobj]. destruct (Hok _ _ _ Hrow) as [[]|[m' Hm']].
    destruct Hm' as ((row' & Hrow' & Hj' & Hsize') & Hrest).
    assert (m' = m) as -> by congruence. split; [by exists row'|exact Hrest].
  - intros t w1 [req]. apply request_within; [apply _|]. intros owner repository _.
    right. intros r _. apply rows_respected.
Qed.

End Isolation.
