(* ===== verification/Catalogue.v ===== *)
(** * Catalogue: the service refines an abstract catalogue

    What the service promises of its objects, as a state machine: a catalogue of
    authentic objects that grows by publishing, where an object is removed only
    after it was condemned and its grace period is over.  Every atomic action of
    every request and every administrative operation is one transition of that
    machine or none. *)
From S2P Require Import Prelude Digest Manifest Stream Protocol Storage Database Effects Actions Api Sessions Uploads UploadSpecs Gc GcFacts GcSpecs Locks Batch Admin Metrics Handlers Routes Router Service.
#[local] Open Scope N_scope.

(** ** The abstract machine *)

Record Catalogue := {
  cat_objects : gmap (Uuid * bytes) ObjectManifest;
  cat_condemned : gmap (Uuid * bytes) Z;
  cat_clock : Z;
}.

Section Machine.
  Context {hashes : Hashes}.

Inductive transition : relation Catalogue :=
| publish objects condemned clock r m :
    objects !! (r, ObjectOid_as_bytes (om_object_oid m)) = None →
    authentic m → ObjectManifest_validate m = Ok tt →
    transition (Build_Catalogue objects condemned clock)
      (Build_Catalogue (<[(r, ObjectOid_as_bytes (om_object_oid m)) := m]> objects) condemned clock)
| condemn objects condemned condemned' clock :
    condemned ⊆ condemned' →
    (∀ k t, condemned' !! k = Some t → condemned !! k = Some t ∨ (clock <= t)%Z ∧ is_Some (objects !! k)) →
    transition (Build_Catalogue objects condemned clock) (Build_Catalogue objects condemned' clock)
| collect objects condemned clock k t :
    condemned !! k = Some t → (t <= clock)%Z →
    transition (Build_Catalogue objects condemned clock)
      (Build_Catalogue (delete k objects) (delete k condemned) clock)
| tick objects condemned clock clock' :
    (clock <= clock')%Z →
    transition (Build_Catalogue objects condemned clock) (Build_Catalogue objects condemned clock').

End Machine.

(** ** What one action does to the tables of the machine *)

Section Tables.
  Context {St Json : Type}.
  Implicit Types (w : World St Json) (db : Db Json).

Definition view db : gmap (Uuid * bytes) (ObjectRow Json) * gmap (Uuid * bytes) TombstoneRow :=
  (objects db, object_tombstones db).

Inductive change (now : Z) : relation (gmap (Uuid * bytes) (ObjectRow Json) * gmap (Uuid * bytes) TombstoneRow) :=
| change_nothing v : change now v v
| change_publish o t k row : o !! k = None → change now (o, t) (<[k := row]> o, t)
| change_condemn o t t' :
    t ⊆ t' →
    (∀ k row, t' !! k = Some row → t !! k = Some row ∨ (now <= tb_delete_after row)%Z ∧ is_Some (o !! k)) →
    change now (o, t) (o, t')
| change_collect o t k row :
    t !! k = Some row → (tb_delete_after row <= now)%Z → change now (o, t) (delete k o, delete k t).

Definition idle : relation (World St Json) :=
  λ w w', view (w_db w') = view (w_db w) ∧ w_now w' = w_now w.
Definition acts : relation (World St Json) :=
  λ w w', change (w_now w) (view (w_db w)) (view (w_db w')) ∧ w_now w' = w_now w.

#[export] Instance idle_preorder : PreOrder idle.
Proof. split; [by intros w|]. intros a b c [H1 H2] [H3 H4]. unfold idle. by rewrite H3, H4. Qed.

Lemma idle_acts w w' : idle w w' → acts w w'.
Proof. intros [Hv Hn]. split; [rewrite Hv; constructor|done]. Qed.

Lemma idle_then_acts w1 w2 w3 : idle w1 w2 → acts w2 w3 → acts w1 w3.
Proof. intros [Hv Hn] [Hc Hn2]. split; [by rewrite <- Hv, <- Hn|congruence]. Qed.

Lemma acts_then_idle w1 w2 w3 : acts w1 w2 → idle w2 w3 → acts w1 w3.
Proof. intros [Hc Hn] [Hv Hn2]. split; [by rewrite Hv|congruence]. Qed.

(** *** Transaction bodies *)

Lemma each_tx_acts {E A} (m : TX St Json E A) : each_tx idle m → each_tx acts m.
Proof. intros Hm w. apply idle_acts, Hm. Qed.

Lemma idle_bind {E A B} (m : TX St Json E A) (f : A → TX St Json E B) :
  each_tx idle m → (∀ a, each_tx acts (f a)) → each_tx acts (let! a := m in f a).
Proof.
  intros Hm Hf w. unfold mbind, tx_bind. specialize (Hm w). destruct (m w) as [[a|e] w1]; cbn in *.
  - eapply idle_then_acts; [exact Hm|apply Hf].
  - by apply idle_acts.
Qed.

Lemma acts_bind {E A B} (m : TX St Json E A) (f : A → TX St Json E B) :
  each_tx acts m → (∀ a, each_tx idle (f a)) → each_tx acts (let! a := m in f a).
Proof.
  intros Hm Hf w. unfold mbind, tx_bind. specialize (Hm w). destruct (m w) as [[a|e] w1]; cbn in *; [|done].
  eapply acts_then_idle; [exact Hm|apply Hf].
Qed.

Lemma acts_transaction {E A} (l : SqlxError → E) (m : TX St Json E A) :
  each_tx acts m → each_tx acts (atomically l m).
Proof.
  intros Hm w. destruct (atomically l m w) as [r w'] eqn:Ha. cbn.
  apply atomically_inv in Ha as [[(Hd & _ & Hn) _]|(w1 & r1 & w2 & (Hd1 & _ & Hn1) & H & _ & Hn & Hr)].
  - apply idle_acts. split; [by rewrite Hd|done].
  - specialize (Hm w1). rewrite H in Hm. destruct Hm as [Hc Hn2]. cbn in Hc, Hn2.
    rewrite Hd1, Hn1 in Hc. rewrite Hn1 in Hn2. split; [|congruence].
    destruct r; [destruct Hr as [_ ->]; exact Hc|rewrite Hr; constructor].
Qed.

(** A statement that leaves both tables alone. *)
Definition silent {A} (q : Z → Db Json → result SqlxError (A * Db Json)) : Prop :=
  ∀ now db a db', q now db = Ok (a, db') → view db' = view db.

Lemma idle_stmt {A} (q : Z → Db Json → result SqlxError (A * Db Json)) : silent q → each_tx idle (stmt q).
Proof.
  intros Hq w. destruct (stmt q w) as [r w'] eqn:Hs. apply stmt_spec in Hs as (_ & Hn & Hr).
  split; [|done]. destruct r; [by eapply Hq|by cbn; rewrite Hr].
Qed.

Lemma silent_read {A} (f : Z → Db Json → A) : silent (λ now db, Ok (f now db, db)).
Proof. by intros now db a db' [= _ <-]. Qed.

End Tables.

(** ** The statements *)

Section Statements.
  Context {Json : Type}.
  Implicit Types (db : Db Json).

(** A statement whose branches all leave both tables alone. *)
Ltac silent_cases :=
  intros now db a db'; cbv zeta; repeat case_match; rewrite ?require_ok; intros; destruct_and?;
  simplify_eq; done.

Lemma expire_open_sessions_silent r oid : silent (expire_open_sessions (Json:=Json) r oid).
Proof. unfold expire_open_sessions. silent_cases. Qed.
Lemma upsert_open_session_silent id r oid size value :
  silent (upsert_open_session (Json:=Json) id r oid size value).
Proof. unfold upsert_open_session. silent_cases. Qed.
Lemma register_chunk_silent r c size : silent (register_chunk (Json:=Json) r c size).
Proof. unfold register_chunk. silent_cases. Qed.
Lemma insert_session_chunk_silent id r c : silent (insert_session_chunk (Json:=Json) id r c).
Proof. unfold insert_session_chunk. silent_cases. Qed.
Lemma insert_chunk_silent r c size : silent (insert_chunk (Json:=Json) r c size).
Proof. unfold insert_chunk. silent_cases. Qed.
Lemma insert_object_chunk_silent r oid i row : silent (insert_object_chunk (Json:=Json) r oid i row).
Proof. unfold insert_object_chunk. silent_cases. Qed.
Lemma add_reference_silent r c delta : silent (add_reference (Json:=Json) r c delta).
Proof. unfold add_reference. silent_cases. Qed.
Lemma finalize_session_silent id : silent (finalize_session (Json:=Json) id).
Proof. unfold finalize_session. silent_cases. Qed.
Lemma insert_lock_silent id r path subject : silent (insert_lock (Json:=Json) id r path subject).
Proof. unfold insert_lock. silent_cases. Qed.
Lemma delete_lock_silent id r : silent (delete_lock (Json:=Json) id r).
Proof. unfold delete_lock. silent_cases. Qed.
Lemma insert_epoch_silent id r fingerprint : silent (insert_epoch (Json:=Json) id r fingerprint).
Proof. unfold insert_epoch. silent_cases. Qed.
Lemma insert_reachable_silent epoch oid : silent (insert_reachable (Json:=Json) epoch oid).
Proof. unfold insert_reachable. silent_cases. Qed.
Lemma complete_epoch_silent id : silent (complete_epoch (Json:=Json) id).
Proof. unfold complete_epoch. silent_cases. Qed.
Lemma enqueue_unreferenced_silent r c : silent (enqueue_unreferenced (Json:=Json) r c).
Proof. unfold enqueue_unreferenced. silent_cases. Qed.
Lemma expire_repository_sessions_silent r : silent (expire_repository_sessions (Json:=Json) r).
Proof. unfold expire_repository_sessions. silent_cases. Qed.
Lemma enqueue_abandoned_silent r secs : silent (enqueue_abandoned (Json:=Json) r secs).
Proof. unfold enqueue_abandoned. silent_cases. Qed.
Lemma delete_stale_sessions_silent r secs : silent (delete_stale_sessions (Json:=Json) r secs).
Proof. unfold delete_stale_sessions. silent_cases. Qed.
Lemma delete_queued_silent r c : silent (delete_queued (Json:=Json) r c).
Proof. unfold delete_queued. silent_cases. Qed.
Lemma delete_chunk_row_silent r c : silent (delete_chunk_row (Json:=Json) r c).
Proof. unfold delete_chunk_row. silent_cases. Qed.
Lemma upsert_repository_silent id owner name : silent (upsert_repository (Json:=Json) id owner name).
Proof. unfold upsert_repository. silent_cases. Qed.
Lemma upsert_grant_silent r subject write admin : silent (upsert_grant (Json:=Json) r subject write admin).
Proof. unfold upsert_grant. silent_cases. Qed.

End Statements.

Create HintDb silent discriminated.
#[export] Hint Resolve expire_open_sessions_silent upsert_open_session_silent register_chunk_silent
  insert_session_chunk_silent insert_chunk_silent insert_object_chunk_silent add_reference_silent
  finalize_session_silent insert_lock_silent delete_lock_silent insert_epoch_silent
  insert_reachable_silent complete_epoch_silent enqueue_unreferenced_silent
  expire_repository_sessions_silent enqueue_abandoned_silent delete_stale_sessions_silent
  delete_queued_silent delete_chunk_row_silent upsert_repository_silent upsert_grant_silent : silent.

(** One step into a transaction body all of whose statements are silent. *)
Ltac idle_step :=
  match goal with
  | |- each_tx _ (for_each _ _) => apply (each_tx_for_each idle); intros
  | |- each_tx _ (mbind _ _) => apply (each_tx_bind idle); [|intros]
  | |- each_tx _ (tx_map_err _ _) => apply each_tx_map_err
  | |- each_tx _ (stmt _) => apply idle_stmt
  | |- each_tx _ (match ?x with _ => _ end) => destruct x
  | |- silent _ => first [by eauto with silent | apply (silent_read (λ now db, _))
                         | apply (silent_read (λ _ db, _)) | apply (silent_read (λ _ _, _))]
  | |- each_tx _ _ => by intros ?
  end.
Ltac idle_steps := repeat idle_step.

(** ** Requests *)

Section Actions.
  Context {St Json : Type} {object_store : ObjectStore St} {store_laws : ObjectStoreLaws St}
          {json : ManifestJson Json} {pg : PgText} {hex : HexCodec} {hex_laws : HexLaws}
          {hashes : Hashes} {uuid_text : UuidText} {uuid_laws : UuidTextLaws} {fastcdc : FastCdc}
          {url_lib : UrlLib} {jwt : JwtLib} {forgejo : ForgejoApi} {axum : Axum} {answers : Answers}.
  Implicit Types (w : World St Json).

(** Publishing is one action: the object row appears, and nothing else of the
    two tables changes. *)
Lemma insert_object_acts r oid size value :
  each_tx (acts (St:=St) (Json:=Json)) (sql (insert_object r oid size value)).
Proof.
  apply each_tx_map_err. intros w. destruct (stmt _ w) as [q w'] eqn:Hs.
  apply stmt_spec in Hs as (_ & Hn & Hr). split; [|done]. destruct q as [n|e]; cbn; [|rewrite Hr; constructor].
  revert Hr. unfold insert_object. destruct (objects (w_db w) !! (r, oid)) eqn:Ho.
  - intros [= _ <-]. constructor.
  - rewrite !require_ok. intros (_ & _ & _ & [= _ <-]). by constructor.
Qed.

Lemma write_object_acts r m : each_tx (acts (St:=St) (Json:=Json)) (write_object r m).
Proof.
  unfold write_object. apply idle_bind; [idle_steps|intros size]. apply idle_bind; [idle_steps|intros value].
  apply acts_bind; [apply insert_object_acts|intros n].
  unfold publish_descriptor, sql. idle_steps.
Qed.

Lemma publish_tx_acts r id m : each_tx (acts (St:=St) (Json:=Json)) (publish_tx r id m).
Proof.
  unfold publish_tx, sql. apply idle_bind; [idle_steps|intros row]. apply idle_bind; [idle_steps|intros session].
  destruct (us_state session); [|by apply each_tx_acts; idle_steps..].
  apply idle_bind; [idle_steps|intros _]. apply acts_bind; [apply write_object_acts|intros created].
  idle_steps.
Qed.

#[export] Instance acts_respected : Respected (acts (St:=St) (Json:=Json)).
Proof.
  split.
  - intros w w' Hd Hn _. apply idle_acts. unfold idle. by rewrite Hd.
  - intros. apply acts_transaction, each_tx_acts. unfold open_session, sql. idle_steps.
  - intros. apply acts_transaction, each_tx_acts. unfold register_session_chunk, sql. idle_steps.
  - intros. apply acts_transaction, publish_tx_acts.
  - intros. apply each_tx_acts. idle_steps.
  - intros. apply each_tx_acts. idle_steps.
Qed.

Lemma request_acts state req : each (acts (St:=St) (Json:=Json)) (serve state req).
Proof. apply serve_each; [apply _|]. intros w w' Hd Hn. apply idle_acts. unfold idle. by rewrite Hd. Qed.

(** ** The collector *)

(** Staging condemns objects. *)
Definition condemns : relation (World St Json) := λ w w',
  w_now w' = w_now w ∧ objects (w_db w') = objects (w_db w) ∧
  object_tombstones (w_db w) ⊆ object_tombstones (w_db w') ∧
  ∀ k row, object_tombstones (w_db w') !! k = Some row → object_tombstones (w_db w) !! k = Some row ∨
    (w_now w <= tb_delete_after row)%Z ∧ is_Some (objects (w_db w) !! k).

#[local] Instance condemns_preorder : PreOrder condemns.
Proof.
  split; [intros w; split_and!; try done; by left|].
  intros a b c (H1 & H2 & H3 & H4) (H5 & H6 & H7 & H8). split_and!; [congruence|congruence|by etrans|].
  intros k row [Hk|Hk]%H8; [by apply H4|]. right. by rewrite <- H1, <- H2.
Qed.

Lemma stage_acts r seconds l : (0 <= seconds)%Z → each_tx (acts (St:=St) (Json:=Json)) (stage_tx r seconds l).
Proof.
  intros Hs. assert (each_tx condemns (stage_tx r seconds l)) as H.
  - apply (each_tx_for_each condemns). intros c w. destruct (stmt _ w) as [q w'] eqn:Hq.
    apply stmt_spec in Hq as (_ & Hn & Hr). cbn. destruct q as [x|e].
    2:{ unfold condemns. rewrite Hr. split_and!; [done..|by left]. }
    unfold condemns.
    revert Hr. unfold insert_tombstone. rewrite require_ok. intros [_ Hr].
    destruct (object_tombstones (w_db w) !! _) eqn:Ht.
    { injection Hr as _ <-. split_and!; try done. by left. }
    rewrite require_ok in Hr. destruct Hr as [Ho [= _ <-]]. bool_hyps.
    split_and!; [done|done|by apply insert_subseteq|]. intros k row. cbn.
    rewrite lookup_insert_Some. intros [[<- <-]|[_ Hk]]; [right|by left]. cbn. split; [lia|done].
  - intros w. destruct (H w) as (Hn & Ho & Hsub & Hnew). split; [|done]. unfold view. rewrite Ho.
    by apply change_condemn.
Qed.

(** The end of a body, by cases on its steps. *)
Ltac run_body w' H :=
  match goal with |- _ _ (?m ?w).2 => destruct (m w) as [? w'] eqn:H; cbn [snd] end.

(** The statements after an object was selected: its rows are deleted or not. *)
Definition deletes (k : Uuid * bytes) : relation (World St Json) := λ w w', idle w w' ∨
  view (w_db w') = (delete k (objects (w_db w)), delete k (object_tombstones (w_db w))) ∧ w_now w' = w_now w.

Lemma delete_then_release r oid chunk_ids : each_tx (deletes (r, oid))
  (let! _ := gsql (delete_object r oid) in
   let! _ := for_each chunk_ids (release_chunk r) in mret true).
Proof.
  intros w. run_body w' Hrun.
  apply tx_bind_inv in Hrun as [([] & w1 & Hd & Hrun)|(e & Hd & _)].
  2:{ left. apply gsql_inv in Hd as (_ & Hn & Hr). split; [by rewrite Hr|done]. }
  apply gsql_inv in Hd as (_ & Hn & [= Hr]).
  assert (idle w1 w') as [Hv Hn'].
  { assert (each_tx idle (let! _ := for_each chunk_ids (release_chunk (St:=St) (Json:=Json) r) in mret true)) as H.
    { unfold release_chunk, gsql. idle_steps. }
    specialize (H w1). by rewrite Hrun in H. }
  right. split; [by rewrite Hv, <- Hr|congruence].
Qed.

Lemma select_due_tombstone r now (db : Db Json) oid :
  select_due r now db = Some oid →
  ∃ row, object_tombstones db !! (r, oid) = Some row ∧ (tb_delete_after row <= now)%Z.
Proof.
  unfold select_due. intros ([[r' o] row] & Hhead & [= <-])%fmap_Some.
  apply head_Some_elem_of in Hhead. rewrite merge_sort_Permutation in Hhead.
  apply list_elem_of_filter in Hhead as [[Hr Hdue] Hin]. apply elem_of_map_to_list in Hin.
  cbn in *. subst r'. by exists row.
Qed.

Lemma collect_one_acts r : each_tx (acts (St:=St) (Json:=Json)) (collect_one r).
Proof.
  unfold collect_one. apply idle_bind; [unfold gsql; idle_steps|intros _].
  intros w. run_body w' Hrun.
  apply tx_bind_inv in Hrun as [(oid & w1 & Hsel & Hrun)|(e & Hsel & _)];
    apply gsql_inv in Hsel as (_ & Hn & Hr); [|apply idle_acts; split; [by rewrite Hr|done]].
  injection Hr as Hdue Hdb. destruct oid as [oid|].
  2:{ injection Hrun as _ <-. apply idle_acts. by split; [rewrite <- Hdb|]. }
  assert (deletes (r, oid) w1 w') as Hdel.
  { apply tx_bind_inv in Hrun as [(ids & w2 & Hids & Hrun)|(e & Hids & _)];
      apply gsql_inv in Hids as (_ & Hn2 & Hr2); [|left; split; [by rewrite Hr2|done]].
    injection Hr2 as _ Hdb2. pose proof (delete_then_release r oid ids w2) as H. rewrite Hrun in H.
    unfold deletes, idle in *. cbn in H. by rewrite <- Hdb2, Hn2 in H. }
  unfold deletes, idle in Hdel. rewrite <- Hdb, Hn in Hdel.
  destruct Hdel as [Hidle|[Hv Hn']]; [by apply idle_acts|]. split; [|done]. rewrite Hv.
  apply select_due_tombstone in Hdue as (row & Ht & Hle). by eapply change_collect.
Qed.

Lemma drain_chunk_queue_acts r : each (acts (St:=St) (Json:=Json)) (drain_chunk_queue r).
Proof.
  unfold drain_chunk_queue. apply each_bind; [apply each_atomic, each_tx_acts; idle_steps|intros l].
  apply each_for_each. intros raw. apply each_atomic, acts_transaction, each_tx_acts.
  unfold drain_one, gsql. idle_steps. intros w. unfold tx_store. by destruct (delete_chunk _ _ _).
Qed.

Lemma dry_run_acts r : each (acts (St:=St) (Json:=Json)) (dry_run r).
Proof.
  unfold dry_run. apply each_bind; [|done]. apply each_atomic, each_tx_acts. idle_steps.
Qed.

Lemma collect_due_acts fuel r : each (acts (St:=St) (Json:=Json)) (collect_due fuel r).
Proof.
  unfold collect_due. apply each_bind.
  - generalize 0 as n. induction fuel as [|fuel IH]; intros n; [done|]. cbn [collect_loop].
    apply each_bind; [apply each_atomic, acts_transaction, collect_one_acts|]. by intros [|]; [apply IH|].
  - intros [n|]; [|done]. apply each_bind; [apply drain_chunk_queue_acts|done].
Qed.

Lemma operation_acts t : gc_operation t → match t with Thread p => each (acts (St:=St) (Json:=Json)) p end.
Proof.
  destruct 1.
  - apply each_atomic, acts_transaction, each_tx_acts. unfold snapshot_tx. idle_steps.
  - apply dry_run_acts.
  - unfold stage. apply each_bind; [apply dry_run_acts|intros l]. apply each_given. intros secs Hs.
    apply each_bind; [|done]. apply each_atomic, acts_transaction, stage_acts.
    apply ok_or_ok in Hs. unfold i64_try_from in Hs. destruct (grace <=? I64_MAX); [injection Hs as <-; lia|done].
  - apply collect_due_acts.
  - unfold reclaim_expired_uploads. apply each_bind; [done|intros secs].
    apply each_bind; [|intros n; apply each_bind; [apply drain_chunk_queue_acts|done]].
    apply each_atomic, acts_transaction, each_tx_acts. unfold reclaim_tx, gsql. idle_steps.
  - apply each_bind; [apply each_act; intros w; by apply idle_acts|intros id].
    apply each_atomic, each_tx_acts. idle_steps.
  - apply each_atomic, each_tx_acts. idle_steps.
Qed.

End Actions.

(** ** The refinement *)

Section Refinement.
  Context {St Json : Type} {object_store : ObjectStore St} {store_laws : ObjectStoreLaws St}
          {json : ManifestJson Json} {json_laws : ManifestJsonLaws Json}
          {pg : PgText} {hex : HexCodec} {hex_laws : HexLaws} {hashes : Hashes}
          {uuid_text : UuidText} {uuid_laws : UuidTextLaws}
          {fastcdc : FastCdc} {cdc_laws : FastCdcLaws} {url_lib : UrlLib} {jwt : JwtLib}
          {forgejo : ForgejoApi} {axum : Axum} {answers : Answers}.
  Implicit Types (w : World St Json) (db : Db Json).

Definition decoded (row : ObjectRow Json) : option ObjectManifest :=
  match manifest_from_value (ob_manifest row) with Ok m => Some m | Err _ => None end.

(** The catalogue of a world: the manifests of the published objects, the
    tombstones and the database clock. *)
Definition catalogue w : Catalogue := {|
  cat_objects := omap decoded (objects (w_db w));
  cat_condemned := tb_delete_after <$> object_tombstones (w_db w);
  cat_clock := w_now w;
|}.

Lemma published_decoded db k row :
  db_ok db → objects db !! k = Some row → ∃ m, published db k.1 k.2 m ∧ decoded row = Some m.
Proof.
  destruct k as [r oid]. intros Hok Hrow. destruct (db_ok_published _ _ _ _ Hok Hrow) as [m Hp].
  exists m. split; [done|]. destruct Hp as ((row' & Hrow' & Hm & _) & _). cbn in Hrow'.
  rewrite Hrow in Hrow'. injection Hrow' as <-. unfold decoded. by rewrite Hm.
Qed.

(** One action, seen from the catalogue. *)
Lemma acts_simulated w w' :
  service_ok true w → service_ok true w' → acts w w' →
  catalogue w' = catalogue w ∨ transition (catalogue w) (catalogue w').
Proof.
  intros (Hok & _) (Hok' & _ & Hauth) [Hc Hn]. unfold catalogue. rewrite Hn.
  remember (view (w_db w)) as v eqn:Hv. remember (view (w_db w')) as v' eqn:Hv'. unfold view in Hv, Hv'.
  destruct Hc as [v|o t k row Hk|o t t' Hsub Hnew|o t k row Hk Hdue].
  - left. rewrite Hv in Hv'. by injection Hv' as -> ->.
  - right. injection Hv as -> ->. injection Hv' as Ho Ht. rewrite <- Ht.
    destruct (published_decoded (w_db w') k row) as (m & Hp & Hdec); [done|by rewrite <- Ho, lookup_insert_eq|].
    destruct k as [r oid]. cbn in Hp. pose proof Hp as (_ & Hoid & Hval & _). apply Hauth in Hp as [Ha _].
    rewrite <- Ho, <- Hoid in *. rewrite (omap_insert_Some _ _ _ _ _ Hdec).
    constructor; [|done|done]. by rewrite lookup_omap, Hk.
  - right. injection Hv as -> ->. injection Hv' as Ho ->. rewrite <- Ho. apply condemn; [by apply map_fmap_mono|].
    intros k t. rewrite lookup_fmap. intros (row & Hrow & ->)%fmap_Some.
    destruct (Hnew _ _ Hrow) as [Ht|[Hle [orow Hobj]]]; [left; by rewrite lookup_fmap, Ht|right].
    split; [done|]. destruct (published_decoded _ _ _ Hok Hobj) as (m & _ & Hdec).
    exists m. rewrite lookup_omap, Hobj. exact Hdec.
  - right. injection Hv as -> ->. injection Hv' as Ho Ht. rewrite <- Ho, <- Ht, omap_delete, fmap_delete.
    apply (collect _ _ _ _ (tb_delete_after row)); [|done]. by rewrite lookup_fmap, Hk.
Qed.

(** Every action of every thread of a run is accounted for. *)
Definition thread_acts (t : thread (St:=St) (Json:=Json)) : Prop :=
  match t with Thread p => each acts p end.

Lemma everything_acts state t : everything state t → thread_acts t.
Proof. intros [[req]|Ht]; [apply request_acts|by apply operation_acts]. Qed.

Lemma step_acts state c c' :
  Forall thread_acts c.1 → step (everything state) c c' →
  Forall thread_acts c'.1 ∧ (acts c.2 c'.2 ∨ env_step c.2 c'.2).
Proof.
  intros Hts Hstep. destruct Hstep as [E A X pre post f k w x w' Hf|ts w w' Henv|ts t w Ht]; cbn in *.
  - apply Forall_app in Hts as [Hpre [Hp Hpost]%Forall_cons]. destruct (Hp w) as [Ha Hk].
    rewrite Hf in Ha, Hk. split; [|by left]. apply Forall_app. split; [done|by constructor].
  - split; [done|by right].
  - split; [|left; by apply idle_acts]. apply Forall_app. split; [done|]. constructor; [|done].
    by eapply everything_acts.
Qed.

Lemma steps_act state c c' :
  Forall thread_acts c.1 → rtc (step (everything state)) c c' → Forall thread_acts c'.1.
Proof.
  intros Hts. induction 1 as [c|c1 c2 c3 Hstep _ IH]; [done|]. by apply IH, (step_acts state c1).
Qed.

(** C6: the service refines the catalogue.  In every run of any number of
    requests and administrative operations, with any failures, each step is one
    transition of the abstract machine or none: an authentic object with a valid
    manifest is published where there was none, objects are condemned to stay at
    least until now, a condemned object whose grace period is over is removed,
    or time passes.  Objects change in no other way. *)
Theorem service_refines_catalogue state w ts1 w1 ts2 w2 :
  service_ok true w →
  rtc (step (everything state)) ([], w) (ts1, w1) →
  step (everything state) (ts1, w1) (ts2, w2) →
  catalogue w2 = catalogue w1 ∨ transition (catalogue w1) (catalogue w2).
Proof.
  intros Hw Hsteps Hstep.
  assert (service_ok true w1) as Hw1 by (by eapply reachable_ok; [exact Hw|]).
  assert (service_ok true w2) as Hw2 by (eapply reachable_ok; [exact Hw|by eapply rtc_r]).
  destruct (step_acts state (ts1, w1) (ts2, w2)) as [_ [Ha|Henv]]; [|done|..]; cbn in *.
  - by apply (steps_act state ([], w) (ts1, w1)).
  - by apply acts_simulated.
  - destruct Henv as (dn & di & fs & ios & c & Hdn & _ & ->). right. apply tick. cbn. lia.
Qed.

End Refinement.
