(* ===== verification/Errors.v ===== *)
(** * Errors: failures never look like successes

    The errors a program can end with, by a predicate on its runs, and the status
    of every error of every handler: 400 to 599. *)
From S2P Require Import Prelude Digest Manifest Stream Protocol Storage Database Effects Api Sessions Uploads Locks Batch Metrics Routes Router Gc Admin Service.
#[local] Open Scope N_scope.

Section Fails.
  Context {St Json : Type}.

(** Every error of [p], from any world, is in [P]. *)
Fixpoint fails {E A} (P : E → Prop) (p : prog St Json E A) : Prop :=
  match p with
  | Ret (Ok _) => True
  | Ret (Err e) => P e
  | Act f k => ∀ w, fails P (k (f w).1)
  end.
Definition fails_tx {E A} (P : E → Prop) (m : TX St Json E A) : Prop :=
  ∀ w e, (m w).1 = Err e → P e.

Lemma run_fails {E A} P (p : prog St Json E A) w e w' :
  fails P p → run p w = (Err e, w') → P e.
Proof.
  revert w. induction p as [[a|e0]|X f k IH]; cbn; intros w Hp; [done|by intros [= -> _]|].
  specialize (Hp w). destruct (f w) as [x w1]. by apply IH.
Qed.

Section Rules.
Context {E : Type} (P : E → Prop).

Lemma fails_bind {A B} (m : prog St Json E A) (f : A → prog St Json E B) :
  fails P m → (∀ a, fails P (f a)) → fails P (let! a := m in f a).
Proof.
  unfold mbind, prog_bind. intros Hm Hf.
  induction m as [[a|e]|X g k IH]; cbn in *; [by apply Hf|done|intros w; by apply IH].
Qed.
Lemma fails_ret {A} (a : A) : fails P (mret (M:=prog St Json E) a).
Proof. done. Qed.
Lemma fails_fail {A} (e : E) : P e → fails P (fail (A:=A) e).
Proof. done. Qed.
Lemma fails_lift {A} (r : result E A) : (∀ e, r = Err e → P e) → fails P (lift r).
Proof. destruct r; cbn; auto. Qed.
Lemma fails_ok_or {A} (e : E) (x : option A) : P e → fails P (lift (ok_or e x)).
Proof. by destruct x. Qed.
Lemma fails_map_err {F A} (g : F → E) (r : result F A) : (∀ e, P (g e)) → fails P (lift (map_err g r)).
Proof. intros Hg. destruct r; cbn; [done|apply Hg]. Qed.
Lemma fails_act {A} (f : World St Json → A * World St Json) : fails P (act (E:=E) f).
Proof. by intros w. Qed.
Lemma fails_count f : fails P (count (St:=St) (Json:=Json) (E:=E) f).
Proof. by intros w. Qed.
Lemma fails_new_v4 : fails P (new_v4 (St:=St) (Json:=Json) (E:=E)).
Proof. by intros w. Qed.
Lemma fails_atomic {A} (m : TX St Json E A) : fails_tx P m → fails P (atomic m).
Proof. intros Hm w. cbn. specialize (Hm w). destruct (m w) as [[a|e] w']; cbn in *; auto. Qed.
Lemma fails_store_call {F A} (l : F → E) (f : St → result F A * St) :
  (∀ e, P (l e)) → fails P (store_call (Json:=Json) l f).
Proof.
  intros Hl. apply fails_atomic. intros w e. unfold tx_map_err, tx_store.
  destruct (f (w_store w)) as [[a|e0] st]; cbn; [done|by intros [= <-]].
Qed.
Lemma fails_io (e : E) : P e → fails P (io (St:=St) (Json:=Json) e).
Proof. intros He. apply fails_atomic. intros w e0. cbn. destruct (hd _ _); [by intros [= <-]|done]. Qed.
Lemma fails_acquire (e : E) : P e → fails P (acquire (St:=St) (Json:=Json) e).
Proof. intros He. apply fails_atomic. intros w e0. cbn. destruct (w_closed w); [by intros [= <-]|done]. Qed.

Lemma tx_fails_bind {A B} (m : TX St Json E A) (f : A → TX St Json E B) :
  fails_tx P m → (∀ a, fails_tx P (f a)) → fails_tx P (let! a := m in f a).
Proof.
  intros Hm Hf w e. unfold mbind, tx_bind. specialize (Hm w).
  destruct (m w) as [[a|e0] w1]; cbn in *; [apply Hf|by intros [= <-]; apply Hm].
Qed.
Lemma tx_fails_new_v4 : fails_tx P (tx_new_v4 (St:=St) (Json:=Json) (E:=E)).
Proof. by intros w e. Qed.
Lemma tx_fails_ret {A} (a : A) : fails_tx P (mret (M:=TX St Json E) a).
Proof. by intros w e. Qed.
Lemma tx_fails_fail {A} (e : E) : P e → fails_tx P (tx_fail (St:=St) (Json:=Json) (A:=A) e).
Proof. by intros He w e0 [= <-]. Qed.
Lemma tx_fails_result {A} (r : result E A) :
  (∀ e, r = Err e → P e) → fails_tx P (tx_result (St:=St) (Json:=Json) r).
Proof. intros Hr w e He. by apply Hr. Qed.
Lemma tx_fails_ok_or {A} (e : E) (x : option A) :
  P e → fails_tx P (tx_result (St:=St) (Json:=Json) (ok_or e x)).
Proof. intros He. apply tx_fails_result. intros e0. by destruct x; [|intros [= <-]]. Qed.
Lemma tx_fails_result_map_err {F A} (g : F → E) (r : result F A) :
  (∀ e, P (g e)) → fails_tx P (tx_result (St:=St) (Json:=Json) (map_err g r)).
Proof. intros Hg. apply tx_fails_result. intros e0. by destruct r; [|intros [= <-]]. Qed.
Lemma tx_fails_map_err {F A} (l : F → E) (m : TX St Json F A) :
  (∀ e, P (l e)) → fails_tx P (tx_map_err l m).
Proof.
  intros Hl w e. unfold tx_map_err. destruct (m w) as [[a|e0] w1]; cbn; [done|by intros [= <-]].
Qed.
Lemma tx_fails_for_each {A} (l : list A) (f : A → TX St Json E unit) :
  (∀ x, fails_tx P (f x)) → fails_tx P (for_each l f).
Proof. intros Hf. induction l as [|x l IH]; cbn [for_each]; [done|]. by apply tx_fails_bind. Qed.
Lemma tx_fails_atomically {A} (l : SqlxError → E) (m : TX St Json E A) :
  (∀ e, P (l e)) → fails_tx P m → fails_tx P (atomically l m).
Proof.
  intros Hl Hm w e. unfold atomically. cbv zeta.
  match goal with |- context [match ?m w with _ => _ end] => assert (H : fails_tx P m);
    [|specialize (H w); destruct (m w) as [[a|e0] w1]; [done|intros [= <-]; by apply H]] end.
  apply tx_fails_bind; [by apply tx_fails_map_err|intros _].
  apply tx_fails_bind; [done|intros a].
  apply tx_fails_bind; [by apply tx_fails_map_err|done].
Qed.
End Rules.

End Fails.

(** ** Client and server errors *)

Definition is_error (e : ApiError) : Prop := (400 <=? ae_status e) && (ae_status e <=? 599) = true.

Lemma is_error_storage {hex : HexCodec} e : is_error (ApiError_storage e).
Proof. by destruct e. Qed.

Create HintDb fails discriminated.
#[export] Hint Resolve fails_ret fails_act fails_count fails_new_v4 tx_fails_ret is_error_storage : fails.

Ltac an_error := intros; first [reflexivity | assumption | apply is_error_storage].
Ltac fails_step :=
  lazymatch goal with
  | |- fails _ (mret _) => apply fails_ret
  | |- fails_tx _ (for_each _ _) => apply tx_fails_for_each; intros
  | |- fails_tx _ (mbind _ _) => apply tx_fails_bind; [|intros]
  | |- fails_tx _ (mret _) => apply tx_fails_ret
  | |- fails_tx _ (tx_map_err _ _) => apply tx_fails_map_err; an_error
  | |- fails_tx _ tx_new_v4 => apply tx_fails_new_v4
  | |- fails_tx _ (tx_fail _) => apply tx_fails_fail; an_error
  | |- fails_tx _ (tx_result (ok_or _ _)) => apply tx_fails_ok_or; an_error
  | |- fails_tx _ (tx_result (map_err _ _)) => apply tx_fails_result_map_err; an_error
  | |- fails_tx _ (tx_result _) => solve [apply tx_fails_result; eauto]
  | |- fails _ (mbind _ _) => apply fails_bind; [|intros]
  | |- fails _ (transaction _ _) => apply fails_atomic, tx_fails_atomically; [an_error|]
  | |- fails _ (query _ _) => apply fails_atomic, tx_fails_map_err; an_error
  | |- fails _ (store_call _ _) => apply fails_store_call; an_error
  | |- fails _ (count _) => apply fails_count
  | |- fails _ (act _) => apply fails_act
  | |- fails _ new_v4 => apply fails_new_v4
  | |- fails _ (io _) => apply fails_io; an_error
  | |- fails _ (acquire _) => apply fails_acquire; an_error
  | |- fails _ (fail _) => apply fails_fail; an_error
  | |- fails _ (lift (ok_or _ _)) => apply fails_ok_or; an_error
  | |- fails _ (lift (map_err _ _)) => apply fails_map_err; an_error
  | |- _ (let '_ := ?x in _) => destruct x
  | |- _ (match ?x with _ => _ end) => destruct x
  | |- _ => solve [eauto with fails]
  end.
Ltac fails := repeat fails_step.

Section Handlers.
  Context {St Json : Type} {object_store : ObjectStore St}
          {json : ManifestJson Json} {pg : PgText} {hex : HexCodec} {hashes : Hashes}
          {uuid_text : UuidText} {fastcdc : FastCdc} {url_lib : UrlLib} {jwt : JwtLib}
          {forgejo : ForgejoApi}.
  Local Abbreviation fails p := (fails (St:=St) (Json:=Json) is_error p).

Lemma user_of_response_fails r e : user_of_response r = Err e → is_error e.
Proof.
  unfold user_of_response. destruct r as [|status [u|]]; [by intros [= <-]|..];
    (destruct (negb _); [by intros [= <-]|]); cbn; [done|by intros [= <-]].
Qed.
Lemma repository_of_response_fails r e : repository_of_response r = Err e → is_error e.
Proof.
  unfold repository_of_response. destruct r as [|status [u|]]; [by intros [= <-]|..];
    (destruct (status =? _); [by intros [= <-]|]); (destruct (status =? _); [by intros [= <-]|]);
    (destruct (400 <=? status); [by intros [= <-]|]); cbn; [done|by intros [= <-]].
Qed.

Lemma authenticate_forgejo_fails base ttl capacity value owner repository access :
  fails (authenticate_forgejo base ttl capacity value owner repository access).
Proof.
  unfold authenticate_forgejo. fails_step; [fails|]. destruct a; fails.
  - apply fails_lift. intros e. by destruct (url_has_segments base); [|intros [= <-]].
  - apply fails_atomic. intros w e. apply user_of_response_fails.
  - apply fails_atomic. intros w e. apply repository_of_response_fails.
Qed.
Lemma authenticate_oidc_fails issuer audience keys value owner repository access :
  fails (authenticate_oidc issuer audience keys value owner repository access).
Proof.
  unfold authenticate_oidc. do 5 (fails_step; [fails|]). fails_step; [|fails].
  apply fails_atomic. intros w e. cbn. by destruct (jwt_decode _ _ _ _); [|intros [= <-]].
Qed.
Lemma authenticate_fails state headers owner repository access :
  fails (authenticate state headers owner repository access).
Proof.
  unfold authenticate. fails; [apply authenticate_forgejo_fails|apply authenticate_oidc_fails].
Qed.
Lemma repository_id_fails owner repository : fails (repository_id owner repository).
Proof. unfold repository_id. fails. Qed.
Lemma parse_oid_fails oid : fails (lift (parse_oid oid)).
Proof. unfold parse_oid. fails. Qed.

End Handlers.
#[export] Hint Resolve authenticate_fails repository_id_fails parse_oid_fails : fails.

Section Parts.
  Context {St Json : Type} {object_store : ObjectStore St}
          {json : ManifestJson Json} {pg : PgText} {hex : HexCodec} {hashes : Hashes}
          {uuid_text : UuidText} {fastcdc : FastCdc} {url_lib : UrlLib} {jwt : JwtLib}
          {forgejo : ForgejoApi}.
  Local Abbreviation fails p := (fails (St:=St) (Json:=Json) is_error p).

Lemma load_manifest_fails r o : fails (load_manifest r o).
Proof. unfold load_manifest. fails. Qed.
Lemma load_open_upload_fails r o id : fails (load_open_upload r o id).
Proof. unfold load_open_upload. fails. Qed.
Lemma load_finalizable_upload_fails r o id : fails (load_finalizable_upload r o id).
Proof. unfold load_finalizable_upload. fails. Qed.
Lemma open_session_fails r m v e :
  (∀ x, v = Err x → is_error x) → is_error e → fails_tx is_error (open_session (St:=St) (Json:=Json) r m v e).
Proof. intros Hv He. unfold open_session, sql. fails. Qed.
Lemma ensure_upload_session_fails r m : fails (ensure_upload_session r m).
Proof.
  unfold ensure_upload_session. fails. apply open_session_fails; [|reflexivity].
  intros x. by destruct (manifest_to_value m); [|intros [= <-]].
Qed.
Lemma register_and_store_chunk_fails r id d b : fails (register_and_store_chunk r id d b).
Proof. unfold register_and_store_chunk, register_session_chunk, sql. fails. Qed.
Lemma publish_manifest_fails r id m : fails (publish_manifest r id m).
Proof. unfold publish_manifest, publish_tx, write_object, publish_descriptor, sql. fails. Qed.

Lemma missing_indexes_fails r l missing : fails (missing_indexes r l missing).
Proof. revert missing. induction l as [|[i d] l IH]; intros missing; cbn [missing_indexes]; fails; apply IH. Qed.
Lemma hash_chunks_fails r l h : fails (hash_chunks r l h).
Proof.
  revert h. induction l as [|d l IH]; intros h; cbn [hash_chunks]; [done|].
  fails_step; [|fails; apply IH]. apply fails_store_call. intros [| |[]]; reflexivity.
Qed.
Lemma reassemble_fails r l h file : fails (reassemble r l h file).
Proof. revert h file. induction l as [|d l IH]; intros h file; cbn [reassemble]; fails; apply IH. Qed.
Lemma copy_limited_fails limit body copied file : fails (copy_limited limit body copied file).
Proof.
  revert limit copied file. induction body as [|[b|e] body IH]; intros; cbn [copy_limited]; fails; apply IH.
Qed.
Lemma store_stream_fails r id items stream : fails (store_stream r id items stream).
Proof.
  revert stream. induction items as [|item items IH]; intros stream; cbn [store_stream]; [done|].
  destruct (ChunkStream_accept _ item) as [[chunk st]|e]; [|apply fails_fail; reflexivity].
  apply fails_bind; [apply register_and_store_chunk_fails|intros _; apply IH].
Qed.
Lemma load_locks_page_fails r path id cursor limit : fails (load_locks_page r path id cursor limit).
Proof. unfold load_locks_page. fails. Qed.
Lemma map_prog_fails {A B} (f : A → prog St Json ApiError B) l :
  (∀ x, fails (f x)) → fails (map_prog f l).
Proof. intros Hf. induction l as [|x l IH]; cbn [map_prog]; fails. Qed.
Lemma batch_object_fails state owner repository identity operation transfer r object :
  fails (batch_object state owner repository identity operation transfer r object).
Proof.
  unfold batch_object. fails; unfold action_url; destruct (url_has_segments _);
    apply fails_lift; intros e He; by inversion He.
Qed.
End Parts.
#[export] Hint Resolve load_manifest_fails load_open_upload_fails load_finalizable_upload_fails
  ensure_upload_session_fails register_and_store_chunk_fails publish_manifest_fails
  missing_indexes_fails hash_chunks_fails reassemble_fails copy_limited_fails store_stream_fails
  load_locks_page_fails : fails.

(** ** The handlers *)

Section Programs.
  Context {St Json : Type} {object_store : ObjectStore St}
          {json : ManifestJson Json} {pg : PgText} {hex : HexCodec} {hashes : Hashes}
          {uuid_text : UuidText} {fastcdc : FastCdc} {url_lib : UrlLib} {jwt : JwtLib}
          {forgejo : ForgejoApi}.
  Local Abbreviation fails p := (fails (St:=St) (Json:=Json) is_error p).

Lemma begin_cdc_fails state owner repository oid headers request :
  fails (begin_cdc state owner repository oid headers request).
Proof.
  unfold begin_cdc. fails. apply open_session_fails; [by intros x [=]|reflexivity].
Qed.
Lemma finalize_cdc_fails state owner repository oid id headers :
  fails (finalize_cdc state owner repository oid id headers).
Proof. unfold finalize_cdc, count_published. fails. Qed.
Lemma upload_basic_fails state owner repository oid headers body :
  fails (upload_basic state owner repository oid headers body).
Proof. unfold upload_basic, count_published, reopen_reader. fails. Qed.

Lemma validate_lock_path_fails path : fails (lift (validate_lock_path path)).
Proof. unfold validate_lock_path. repeat case_match; reflexivity. Qed.

Lemma upload_cdc_chunk_fails state owner repository oid id index headers b :
  fails (upload_cdc_chunk state owner repository oid id index headers b).
Proof. unfold upload_cdc_chunk. fails. Qed.
Lemma download_cdc_manifest_fails state owner repository oid headers :
  fails (download_cdc_manifest state owner repository oid headers).
Proof. unfold download_cdc_manifest. fails. Qed.
Lemma download_cdc_chunk_fails state owner repository oid index headers :
  fails (download_cdc_chunk state owner repository oid index headers).
Proof. unfold download_cdc_chunk. fails. Qed.
Lemma download_basic_fails state owner repository oid headers :
  fails (download_basic state owner repository oid headers).
Proof. unfold download_basic. fails. Qed.
Lemma batch_fails state owner repository headers request :
  fails (batch state owner repository headers request).
Proof. unfold batch. fails. apply map_prog_fails. intros x. apply batch_object_fails. Qed.
Lemma create_lock_fails state owner repository headers request :
  fails (create_lock state owner repository headers request).
Proof.
  unfold create_lock. fails_step; [fails|]. fails_step; [apply validate_lock_path_fails|].
  fails. apply fails_atomic, tx_fails_map_err. intros e. unfold lock_error. repeat case_match; reflexivity.
Qed.
Lemma list_locks_fails state owner repository query headers :
  fails (list_locks state owner repository query headers).
Proof. unfold list_locks. fails. Qed.
Lemma verify_locks_fails state owner repository headers request :
  fails (verify_locks state owner repository headers request).
Proof. unfold verify_locks. fails. Qed.
Lemma unlock_fails state owner repository id headers request :
  fails (unlock state owner repository id headers request).
Proof. unfold unlock. fails. Qed.
Lemma readiness_fails : fails readiness.
Proof. unfold readiness. fails. Qed.

(** A failure is reported with the status of a client or server error. *)
Definition fails_honestly {A} (p : prog St Json ApiError A) : Prop :=
  ∀ w e w', run p w = (Err e, w') → 400 ≤ ae_status e ≤ 599.

Lemma fails_honest {A} (p : prog St Json ApiError A) : fails p → fails_honestly p.
Proof.
  intros Hp w e w' Hr. pose proof (run_fails _ _ _ _ _ Hp Hr) as He. unfold is_error in He.
  bool_hyps. lia.
Qed.


End Programs.
#[export] Hint Resolve begin_cdc_fails upload_cdc_chunk_fails finalize_cdc_fails download_cdc_manifest_fails
  download_cdc_chunk_fails upload_basic_fails download_basic_fails batch_fails create_lock_fails
  list_locks_fails verify_locks_fails unlock_fails readiness_fails : fails.
