(* ===== verification/Access.v ===== *)
(** * Access: what a request without access is answered

    A request about a repository that authentication does not accept is answered
    with a refusal, whatever else happens: no handler reads anything of the
    repository before it knows who asks.  [Isolation] shows that such requests
    change nothing either. *)
From S2P Require Import Prelude Digest Manifest Stream Protocol Storage Database Effects Actions Api Sessions Uploads Locks Batch Metrics Text Routes Router Service Errors Tenancy.
#[local] Open Scope N_scope.

Section Outcome.
  Context {St Json : Type} (R : relation (World St Json)) (I : World St Json → Prop) {R_pre : PreOrder R}.

(** What [outcome_of] returns, when the errors are known. *)
Lemma outcome_safe {E F A} (P : E → Prop) (Q : A → World St Json → Prop) (p : prog St Json E A) w :
  fails P p → safe R I Q p w →
  safe R I (λ o w, match o with Ok a => Q a w | Err e => P e end) (outcome_of (F:=F) p) w.
Proof.
  revert w. induction p as [[a|e]|X f k IH]; intros w Hf Hp; [done|done|].
  intros w1 Hr Hw. destruct (Hp w1 Hr Hw) as (? & ? & Hk). split_and!; [done|done|].
  apply IH; [apply Hf|done].
Qed.
End Outcome.

Section Access.
  Context {St Json : Type} {object_store : ObjectStore St} {store_laws : ObjectStoreLaws St}
          {json : ManifestJson Json} {pg : PgText} {hex : HexCodec}
          {hashes : Hashes} {uuid_text : UuidText} {uuid_laws : UuidTextLaws}
          {fastcdc : FastCdc} {url_lib : UrlLib} {jwt : JwtLib}
          {forgejo : ForgejoApi} {axum : Axum} {answers : Answers}.
  Implicit Types (w : World St Json).

(** The router's rejections of a request: of its path, its query or its body. *)
Inductive rejects (req : ServerRequest) : Rejection → Prop :=
| rejects_path status raw : 400 ≤ status → rejects req (status, path_rejection_text raw)
| rejects_query e : extract_lock_query (sr_query req) = Err e → rejects req e
| rejects_batch e : extract_batch_request BODY_LIMIT (sr_body req) = Err e → rejects req e
| rejects_begin e : extract_begin_request BODY_LIMIT (sr_body req) = Err e → rejects req e
| rejects_bytes e : extract_bytes BODY_LIMIT (sr_body req) = Err e → rejects req e
| rejects_lock e : extract_lock_request BODY_LIMIT (sr_body req) = Err e → rejects req e
| rejects_verify e : extract_lock_verify_request BODY_LIMIT (sr_body req) = Err e → rejects req e
| rejects_unlock e : extract_unlock_request BODY_LIMIT (sr_body req) = Err e → rejects req e.

(** An answer that tells nothing of a repository: the router's rejection of the
    request, or an error. *)
Inductive refusal (req : ServerRequest) : Response → Prop :=
| refusal_rejected rejection : rejects req rejection → refusal req (rejected rejection)
| refusal_error e : is_error e → refusal req (ApiError_into_response e)
| refusal_head response : refusal req response → refusal req (without_body response).

Lemma rejects_invalid_path req raw : rejects req (invalid_path raw).
Proof. by apply rejects_path. Qed.
Lemma rejects_uuid req raw s e : path_uuid raw s = Err e → rejects req e.
Proof. unfold path_uuid. destruct (uuid_parse s); cbn; [done|]. intros [= <-]. apply rejects_invalid_path. Qed.
Lemma rejects_usize req raw s e : path_usize raw s = Err e → rejects req e.
Proof. unfold path_usize. destruct (u64_parse s); cbn; [done|]. intros [= <-]. apply rejects_invalid_path. Qed.

(** ** Handlers *)

Section Denied.
  Context (tenants : Tenants) (state : AppState) (headers : HeaderMap) (owner repository : string)
          (req : ServerRequest) (Hdenied : ∀ access, denied (St:=St) (Json:=Json) tenants state headers owner repository access).
  Local Abbreviation I := (tenants_are tenants).
  Local Abbreviation R := (@anything St Json).

(** A handler that gets no result. *)
Definition refused {A} (p : prog St Json ApiError A) : Prop := ∀ w, safe R I (λ _ _, False) p w.

Lemma authenticate_refused {A} access (f : Identity → prog St Json ApiError A) :
  refused (let! identity := authenticate state headers owner repository access in f identity).
Proof. intros w. by apply (safe_bind R I (λ _ _, False)); [apply Hdenied|]. Qed.

Lemma permit_refused {A} e (p : prog St Json ApiError A) :
  refused p → refused (let! _ := acquire e in p).
Proof. intros Hp w. pose proof (tenants_stable tenants). safe_skip. apply Hp. Qed.

Lemma batch_refused request : refused (batch state owner repository headers request).
Proof. unfold batch. destruct (1000 <? _); [done|apply authenticate_refused]. Qed.

Lemma handled_refused {A} (into : A → Response) p w :
  refused p → fails is_error p → safe R I (λ response _, refusal req response) (handled into p) w.
Proof.
  intros Hp Hf. unfold handled. eapply (safe_bind R I); [exact (outcome_safe R I _ _ _ _ Hf (Hp w))|].
  intros [a|e] w1 _ Ho; [done|by apply refusal_error].
Qed.

Lemma extracted_refused {A} (r : result Rejection A) next w :
  (∀ e, r = Err e → rejects req e) →
  (∀ a, safe R I (λ response _, refusal req response) (next a) w) →
  safe R I (λ response _, refusal req response) (extracted r next) w.
Proof. intros Hr Hn. destruct r; [apply Hn|by apply refusal_rejected, Hr]. Qed.

(** An endpoint of the repository. *)
Lemma endpoint_refused e raw w :
  headers = sr_headers req → e ≠ EHealthz → e ≠ EReadiness → e ≠ EMetrics →
  (∀ path, mapM percent_decode raw = Some path → path_repository path = Some (owner, repository)) →
  safe R I (λ response _, refusal req response) (run_endpoint state e raw req) w.
Proof.
  intros Hh H1 H2 H3 Hpath. unfold run_endpoint. rewrite <- Hh.
  destruct (mapM percent_decode raw) as [path|].
  2:{ destruct e; try done; apply refusal_rejected, rejects_invalid_path. }
  specialize (Hpath path eq_refl). destruct e; try done;
    cbn [ok_or extracted]; repeat (destruct path as [|? path]; try by apply refusal_rejected, rejects_path);
    injection Hpath as Ho Hr; subst s s0; repeat (apply extracted_refused;
      [solve [eauto using rejects, rejects_uuid, rejects_usize]|intros ?]);
    (apply handled_refused; [|eauto with fails]);
    first [ apply batch_refused
          | unfold upload_cdc_chunk, finalize_cdc, download_cdc_chunk; apply permit_refused, authenticate_refused
          | apply authenticate_refused ].
Qed.

End Denied.
(** ** Requests *)

Definition repository_endpoint (e : Endpoint) : bool :=
  match e with EHealthz | EReadiness | EMetrics => false | _ => true end.

(** The repository that a request is about, as the router reads its path. *)
Definition requested_repository (req : ServerRequest) : option (string * string) :=
  match find_route (sr_method req) (sr_path req) with
  | Ok (e, raw) => if repository_endpoint e then mapM percent_decode raw ≫= path_repository else None
  | Err _ => None
  end.

Lemma dispatch_refused tenants state req owner repository w :
  (∀ access, denied (St:=St) (Json:=Json) tenants state (sr_headers req) owner repository access) →
  requested_repository req = Some (owner, repository) →
  safe anything (tenants_are tenants) (λ response _, refusal req response) (dispatch state req) w.
Proof.
  intros Hdenied Hreq. unfold dispatch, requested_repository in *.
  destruct (find_route _ _) as [[e raw]|]; [|done].
  assert (Hrun : ∀ w, safe anything (tenants_are tenants) (λ response _, refusal req response)
    (run_endpoint (St:=St) (Json:=Json) state e raw req) w).
  { intros w1. eapply (endpoint_refused tenants state (sr_headers req) owner repository req); [done|done|..];
      try by intros ->.
    intros path Hpath. rewrite Hpath in Hreq. by destruct e. }
  destruct (sr_method req); try apply Hrun.
  eapply (safe_bind _ _); [apply Hrun|]. intros response w1 _ Hr. by apply refusal_head.
Qed.


End Access.
