(* ===== verification/EndToEnd.v ===== *)
(** * EndToEnd: the client's requests on the service

    The URLs that the Batch API issues and that the client extends lead, through
    [build_router], to the handlers they are meant for, with the owner, the
    repository, the object and the other arguments the client put into them.  So
    the client's uploads and downloads can be run against the service itself, as
    the [Http] of [ClientUploads]: what the client reports as done, the service
    has done. *)
From S2P Require Import Prelude Digest Manifest Stream Text Tree Protocol Agent Backend ClientUploads Storage Database Effects Api Sessions Uploads UploadSpecs Locks Batch Metrics Routes Router Gc Admin Service Errors.
#[local] Open Scope N_scope.

(** ** Interfaces *)

(** More of the [url] crate: a URL's text, the segments of its path as they are
    sent, its query, and the encoding of a segment. *)
Class UrlText {url_lib : UrlLib} := {
  url_serialize : Url → string;
  url_segments : Url → list string;
  url_query : Url → option string;
  segment_encode : string → string;
}.

(** [PathSegmentsMut] ignores the segments "." and "..". *)
Definition ordinary (segment : string) : bool :=
  negb (String.eqb segment ".") && negb (String.eqb segment "..").

Definition is_unreserved (c : Ascii.ascii) : bool :=
  let n := Ascii.N_of_ascii c in
  within 48 57 n || within 97 122 n || (n =? 45).

Class UrlTextLaws {url_lib : UrlLib} {url_text : UrlText} {axum : Axum} {uuid_text : UuidText} := {
  serialize_parse u : url_parse (url_serialize u) = Ok u;
  pop_can_be_a_base u : url_has_segments (url_pop_if_empty u) = url_has_segments u;
  extend_can_be_a_base u l : url_has_segments (url_extend u l) = url_has_segments u;
  extend_segments u l : url_has_segments u = true →
    url_segments (url_extend u l) = url_segments u ++ (segment_encode <$> filter (λ s, ordinary s = true) l);
  decode_encode s : percent_decode (segment_encode s) = Some s;
  encode_unreserved s : string_forallb is_unreserved s = true → segment_encode s = s;
  parse_display u : uuid_parse (uuid_display u) = Some u;
}.

(** ** Numbers in paths *)

Lemma digit_char d : d < 10 →
  is_unreserved (pretty_N_char d) = true ∧ Ascii.N_of_ascii (pretty_N_char d) = 48 + d.
Proof.
  intros H. rewrite <- (N2Nat.id d) in *. generalize dependent (N.to_nat d).
  intros k Hk. do 10 (destruct k as [|k]; [by vm_compute|]). lia.
Qed.

Lemma parse_digits_pretty x s : x ≤ U64_MAX →
  parse_digits 0 (pretty_N_go x s) = parse_digits x s.
Proof.
  revert s. induction (N.lt_wf_0 x) as [x _ IH]. intros s Hx.
  destruct (decide (0 < x)) as [Hp|]; [|by replace x with 0 by lia].
  rewrite pretty_N_go_step by done. pose proof (N.div_mod' x 10) as Hdm.
  pose proof (N.mod_lt x 10 ltac:(done)) as Hlt.
  assert (x / 10 < x) by (apply N.div_lt; lia).
  rewrite IH by lia. cbn [parse_digits].
  destruct (digit_char (x `mod` 10) Hlt) as [_ Hc].
  rewrite Hc. unfold within.
  clear IH. set (q := x / 10) in *. set (r := x `mod` 10) in *. clearbody q r. subst x.
  replace (q * 10 + (48 + r - 48)) with (10 * q + r) by lia.
  by rewrite !(proj2 (N.leb_le _ _)) by lia.
Qed.

Lemma pretty_N_go_head x s : 0 < x →
  ∃ d r, d < 10 ∧ pretty_N_go x s = String (pretty_N_char d) r.
Proof.
  revert s. induction (N.lt_wf_0 x) as [x _ IH]. intros s Hx. rewrite pretty_N_go_step by done.
  pose proof (N.mod_lt x 10 ltac:(done)) as Hlt.
  destruct (decide (0 < x / 10)) as [Hq|Hq].
  - apply IH; [apply N.div_lt; lia|done].
  - replace (x / 10) with 0 by (symmetry; apply N.le_0_r, N.nlt_ge, Hq). rewrite pretty_N_go_0. eauto.
Qed.

Lemma u64_parse_pretty (n : N) : n ≤ U64_MAX → u64_parse (pretty n) = Ok n.
Proof.
  intros Hn. unfold pretty, pretty_N. case_decide as H0; [by subst|].
  pose proof (parse_digits_pretty n "" Hn) as Hp. cbn [parse_digits] in Hp.
  destruct (pretty_N_go_head n "") as (d & r & Hd & Heq); [lia|]. rewrite Heq in *.
  assert (Hne : Ascii.N_of_ascii (pretty_N_char d) ≠ 43) by (rewrite (proj2 (digit_char d Hd)); lia).
  apply N.eqb_neq in Hne.
  cbn [u64_parse]. rewrite Hne. by destruct r.
Qed.

Lemma pretty_unreserved (n : N) : string_forallb is_unreserved (pretty n) = true ∧ pretty n ≠ "".
Proof.
  unfold pretty, pretty_N. case_decide as H0; [done|].
  assert (H : ∀ s, string_forallb is_unreserved s = true →
    string_forallb is_unreserved (pretty_N_go n s) = true).
  { clear H0. induction (N.lt_wf_0 n) as [x _ IH]. intros s Hs. destruct (decide (0 < x)) as [Hp|].
    - rewrite pretty_N_go_step by done. apply IH; [apply N.div_lt; lia|]. cbn.
      rewrite Hs. by rewrite (proj1 (digit_char _ (N.mod_lt x 10 ltac:(done)))).
    - replace x with 0 by lia. by rewrite pretty_N_go_0. }
  split; [by apply H|]. destruct (pretty_N_go_head n "") as (d & r & _ & ->); [lia|done].
Qed.

Lemma lower_hex_unreserved c : is_lower_hex c = true → is_unreserved c = true.
Proof.
  unfold is_lower_hex, is_unreserved, within. cbv zeta.
  rewrite !orb_true_iff, !andb_true_iff, !N.leb_le. lia.
Qed.

Lemma display_unreserved {hex : HexCodec} {hex_laws : HexLaws} (o : ObjectOid) :
  string_forallb is_unreserved (ObjectOid_display o) = true ∧
  String.length (ObjectOid_display o) = 64%nat.
Proof.
  destruct o as [e]. unfold ObjectOid_display, ObjectOid_as_bytes. cbn [ObjectOid_inner].
  split; [|by rewrite hex_encode_length, digest32_length].
  eapply string_forallb_weaken; [apply lower_hex_unreserved|apply hex_encode_lower].
Qed.

Lemma uuid_unreserved {uuid_text : UuidText} {uuid_laws : UuidTextLaws} u :
  string_forallb is_unreserved (uuid_display u) = true.
Proof.
  eapply string_forallb_weaken; [|apply uuid_display_chars].
  intros c [H|H]%orb_true_iff; [by apply lower_hex_unreserved|].
  unfold is_unreserved. rewrite H. by rewrite orb_true_r.
Qed.

(** ** The routes below an object *)

Section Routing.
  Context {axum : Axum} {axum_laws : AxumLaws}.

(** The table has one pattern for each of these shapes of paths. *)
Ltac no_fit H :=
  exfalso; unfold object_pattern, locks_pattern, fits in H; cbn [app rt_pattern] in H;
  repeat match type of H with
  | Forall2 _ (_ :: _) (_ :: _) => apply Forall2_cons_1 in H as [? H]
  end;
  first [by inversion H | cbn [segment_fits] in *; congruence].
Ltac only_route :=
  split_and!;
  [repeat first [by left|right]
  |by repeat constructor
  |intros q Hq Hf; unfold build_router in Hq;
   repeat (apply elem_of_cons in Hq as [-> |Hq];
           [first [by left|by right|no_fit Hf]|]); by apply elem_of_nil in Hq].

Lemma route_object o r oid : o ≠ "" → r ≠ "" → oid ≠ "" → oid ≠ "batch" →
  route_of [o; r; "info"; "lfs"; "objects"; oid]%string
    (mkRoute (object_pattern []) [(PUT, EUploadBasic); (GET, EDownloadBasic)]).
Proof. intros. only_route. Qed.

Lemma route_cdc o r oid : o ≠ "" → r ≠ "" → oid ≠ "" →
  route_of [o; r; "info"; "lfs"; "objects"; oid; "cdc"]%string
    (mkRoute (object_pattern [Lit "cdc"]) [(POST, EBeginCdc); (GET, EDownloadCdcManifest)]).
Proof. intros. only_route. Qed.

Lemma route_chunk_download o r oid index : o ≠ "" → r ≠ "" → oid ≠ "" → index ≠ "" →
  route_of [o; r; "info"; "lfs"; "objects"; oid; "cdc"; "chunks"; index]%string
    (mkRoute (object_pattern [Lit "cdc"; Lit "chunks"; Var]) [(GET, EDownloadCdcChunk)]).
Proof. intros. only_route. Qed.

Lemma route_chunk_upload o r oid id index : o ≠ "" → r ≠ "" → oid ≠ "" → id ≠ "" → index ≠ "" →
  route_of [o; r; "info"; "lfs"; "objects"; oid; "cdc"; id; "chunks"; index]%string
    (mkRoute (object_pattern [Lit "cdc"; Var; Lit "chunks"; Var]) [(PUT, EUploadCdcChunk)]).
Proof. intros. only_route. Qed.

Lemma route_finalize o r oid id : o ≠ "" → r ≠ "" → oid ≠ "" → id ≠ "" → id ≠ "chunks" →
  route_of [o; r; "info"; "lfs"; "objects"; oid; "cdc"; id; "finalize"]%string
    (mkRoute (object_pattern [Lit "cdc"; Var; Lit "finalize"]) [(POST, EFinalizeCdc)]).
Proof. intros. only_route. Qed.

End Routing.

(** ** The client's history is genuine *)

Section Genuine.
  Context {Srv : Type} {url_lib : UrlLib} {http : Http Srv} {lib : ClientLib}
          {hex : HexCodec} {hashes : Hashes} {uuid_text : UuidText} {fastcdc : FastCdc}.
  Local Abbreviation Client := (Client Srv).

(** Some state of the service answered the request like this. *)
Definition genuine (e : Exchange) : Prop := ∃ s, (http_send e.1 s).1 = e.2.
Definition honest (c : Client) : Prop := Forall genuine (c_log c).
Definition stays_honest (c c' : Client) : Prop := honest c → honest c'.

#[local] Instance stays_honest_interference : Interference stays_honest.
Proof.
  split; [split|..]; unfold stays_honest; try done.
  - split; [by intros c|by intros a b c Hab Hbc Ha; apply Hbc, Hab].
  - intros c request H. apply Forall_app. split; [done|]. constructor; [|done].
    by exists (c_remote c).
Qed.

Local Abbreviation honestly := (holds stays_honest (λ _ _, True)).

(** Every task only adds to the history what the service answered. *)
Lemma begin_upload_honest action begin c : honestly (begin_upload action begin) c.
Proof.
  apply (for_loop_holds (R:=stays_honest)); [done| |done]. intros i v c1 _.
  apply (send_holds (R:=stays_honest)). intros [response|e] ? ? _ _ _.
  - destruct (Backend.is_success _); [by apply (or_fail_holds (R:=stays_honest))|].
    destruct (_ && _); [by apply (sleep_holds (R:=stays_honest))|done].
  - destruct (i <? 2); [by apply (sleep_holds (R:=stays_honest))|done].
Qed.
Lemma upload_chunk_honest action id index b c :
  honestly (upload_chunk_with_retry action id index b) c.
Proof.
  unfold upload_chunk_with_retry. rewrite leaf_bind. destruct (child_url _ _); [|done].
  apply (for_loop_holds (R:=stays_honest)); [done| |done]. intros i v c1 _.
  apply (send_holds (R:=stays_honest)). intros [response|e] ? ? _ _ _.
  - destruct (Backend.is_success _); [done|].
    destruct (retryable_status _); [by apply (pause_holds (R:=stays_honest))|done].
  - by apply (pause_holds (R:=stays_honest)).
Qed.
Lemma finalize_upload_honest action id c : honestly (finalize_upload action id) c.
Proof.
  unfold finalize_upload. rewrite leaf_bind. destruct (child_url _ _); [|done].
  apply (for_loop_holds (R:=stays_honest)); [done| |done]. intros i v c1 _.
  apply (send_holds (R:=stays_honest)). intros [response|e] ? ? _ _ _.
  - destruct (Backend.is_success _); [done|].
    destruct (_ && _); [by apply (sleep_holds (R:=stays_honest))|done].
  - destruct (i <? 2); [by apply (sleep_holds (R:=stays_honest))|done].
Qed.

Lemma upload_prepare_honest request c : honestly (upload_prepare request) c.
Proof.
  unfold upload_prepare. rewrite leaf_bind. destruct (action_of _); [|done].
  apply (file_operation_holds (R:=stays_honest)); [done|intros opened c1 _].
  apply (or_fail_holds (R:=stays_honest)); [done|intros file _].
  rewrite leaf_bind. destruct (map_err _ _); [|done]. destruct (_ || _); [done|].
  apply (holds_bind stays_honest (λ _ _, True)); [apply begin_upload_honest|intros plan c2 _ _|done].
  destruct (negb _); [done|]. destruct (existsb _ _); [done|].
  apply (file_operation_holds (R:=stays_honest)); [done|intros reopened c3 _].
  apply (or_fail_holds (R:=stays_honest)); [done|intros file' _]. cbv zeta.
  by case_bool_decide.
Qed.
Lemma upload_complete_honest request plan producer_error s c :
  honestly (upload_complete request plan producer_error s) c.
Proof.
  unfold upload_complete. destruct (upload_error _ _); [done|].
  by apply (holds_bind stays_honest (λ _ _, True)); [apply finalize_upload_honest|intros|].
Qed.

(** The threads. *)
Definition worker_honest (c : Client) (w : UlWorker) : Prop :=
  match w with UwUploading _ _ task => honestly task c | _ => True end.
Definition threads_honest (s : Upload) : Prop :=
  honest (ul_client s) ∧ Forall (worker_honest (ul_client s)) (ul_workers s).

Lemma worker_honest_later c c' w : honest c' → worker_honest c w → worker_honest c' w.
Proof. intros Hc. destruct w; cbn; [done| |done]. apply (holds_interfere stays_honest). by intros _. Qed.

Lemma ul_main_turn_frame self plan (s s' : Upload (Srv:=Srv)) :
  ul_main_turn self plan s = Some s' → ul_client s' = ul_client s ∧ ul_workers s' = ul_workers s.
Proof.
  unfold ul_main_turn, ul_read. intros H.
  repeat (case_match; simplify_eq); by split.
Qed.

Lemma ul_turn_honest self plan who (s s' : Upload (Srv:=Srv)) :
  ul_turn self plan who s = Some s' → threads_honest s → threads_honest s'.
Proof.
  unfold threads_honest. destruct who as [i|]; cbn.
  - destruct (ul_workers s !! i) as [w|] eqn:Hi; [|done]. intros Ht [Hc Hw].
    pose proof (Forall_lookup_1 _ _ _ _ Hw Hi) as Hwi.
    destruct w as [|index data [[u|e]|X f k]|]; cbn in Ht.
    + destruct (ul_jobs s) as [|[index data] rest].
      * destruct (ul_jobs_closed s); [|done]. injection Ht as <-. split; [done|].
        by apply Forall_insert.
      * injection Ht as <-. split; [done|]. apply Forall_insert; [done|].
        apply upload_chunk_honest.
    + injection Ht as <-. split; [done|]. by apply Forall_insert.
    + injection Ht as <-. split; [done|]. by apply Forall_insert.
    + cbn in Hwi. destruct (Hwi (ul_client s)) as [Hstep Hk]; [done|].
      destruct (f (ul_client s)) as [x c]. injection Ht as <-. cbn in *.
      assert (Hc' : honest c) by (by apply Hstep). split; [done|].
      apply Forall_insert; [|done]. eapply Forall_impl; [exact Hw|]. intros w. by apply worker_honest_later.
    + done.
  - intros [-> ->]%ul_main_turn_frame. done.
Qed.

Lemma ul_path_honest self plan n (s s' : Upload (Srv:=Srv)) :
  ul_path self plan n s s' → threads_honest s → threads_honest s'.
Proof.
  induction 1 as [s|n who s s1 s' Ht _ IH|n c s s' Ho _ IH]; [done| |].
  - intros Hs. by apply IH, (ul_turn_honest _ _ _ _ _ Ht).
  - intros [Hc Hw]. apply IH. cbn. assert (Hc' : honest c) by (unfold honest; by rewrite Ho).
    split; [done|]. eapply Forall_impl; [exact Hw|]. intros w. by apply worker_honest_later.
Qed.

Lemma uploads_honest self request c r c' :
  uploads self request c r c' → honest c → honest c'.
Proof.
  assert (Hothers : ∀ c c', others c c' → stays_honest c c')
    by (intros c1 c2 Ho; unfold stays_honest, honest; by rewrite Ho).
  destruct 1 as [e c' Hp|plan c1 n s producer_error r c' Hp Hpath _ Hf]; intros Hc.
  - eapply (holds_runs stays_honest others) in Hp as [H _]; [by apply H|done|].
    apply upload_prepare_honest.
  - eapply (holds_runs stays_honest others) in Hp as [H1 _]; [|done|apply upload_prepare_honest].
    eapply (holds_runs stays_honest others) in Hf as [H2 _]; [|done|apply upload_complete_honest].
    apply H2, (ul_path_honest _ _ _ _ _ Hpath). split; [by apply H1|].
    apply Forall_replicate. done.
Qed.

End Genuine.

(** ** The service as the client's [Http] *)

(** What the wire does to a request: its headers, as the service reads them, and
    its body.  [begin_length] is the length of a request's JSON text. *)
Class Wire {url_lib : UrlLib} {axum : Axum} := {
  wire_headers : list (string * string) → HeaderMap;
  wire_body : Body → RequestBody;
  begin_length : BeginUploadRequest → N;
  wire_status_display : N → string;
  wire_status_error_display : N → string;
}.
Class WireLaws {url_lib : UrlLib} {axum : Axum} {wire : Wire} := {
  wire_json limit begin :
    begin_length begin ≤ limit → extract_begin_request limit (wire_body (JsonBody begin)) = Ok begin;
  wire_bytes limit b :
    lenN b ≤ limit → extract_bytes limit (wire_body (BytesBody b)) = Ok b;
}.

(** A connection may break before the service sees a request or before the client
    sees the response. *)
Inductive Fault := RequestLost (error : string) | ResponseLost (error : string).

Section Wired.
  Context {St Json : Type} {object_store : ObjectStore St}
          {json : ManifestJson Json} {pg : PgText} {hex : HexCodec} {hashes : Hashes}
          {uuid_text : UuidText} {fastcdc : FastCdc} {url_lib : UrlLib} {url_text : UrlText}
          {jwt : JwtLib} {forgejo : ForgejoApi} {axum : Axum} {answers : Answers} {wire : Wire}.

Record Remote := mkRemote { rm_world : World St Json; rm_faults : list (option Fault) }.

Definition target_url (t : Target) : result string Url :=
  match t with Href s => url_parse s | Parsed u => Ok u end.

(** The request as the service receives it. *)
Definition received (u : Url) (rq : HttpRequest) : ServerRequest :=
  mkServerRequest (rq_method rq) (url_segments u) (url_query u) (wire_headers (rq_headers rq))
    (wire_body (rq_body rq)).

(** The response as the client receives it; the service sends no [Retry-After]. *)
Definition client_response (r : Response) : Backend.HttpResponse :=
  mkResponse (res_status r) None (Ok (res_body r)).

(** One request to the service, on its own. *)
Definition request_served (state : AppState) (rq : HttpRequest) (remote : Remote)
  : result string Backend.HttpResponse * Remote :=
  let fault := hd None (rm_faults remote) in
  let faults := tl (rm_faults remote) in
  match target_url (rq_target rq), fault with
  | Err error, _ => (Err error, remote)
  | Ok _, Some (RequestLost error) => (Err error, mkRemote (rm_world remote) faults)
  | Ok u, _ =>
      match run (serve state (received u rq)) (rm_world remote) with
      | (Ok response, w) =>
          (match fault with
           | Some (ResponseLost error) => Err error
           | _ => Ok (client_response response)
           end, mkRemote w faults)
      | (Err e, w) => match e with end
      end
  end.

Definition service_http (state : AppState) : Http Remote := {|
  http_send := request_served state;
  status_display := wire_status_display;
  status_error_display := wire_status_error_display;
|}.

(** ** The URLs that the service issues *)

(** A name that survives in a path. *)
Definition name_ok (s : string) : Prop := s ≠ "" ∧ ordinary s = true.

(** The service is mounted at the root of its base URL. *)
Definition at_root (state : AppState) : Prop :=
  url_segments (url_pop_if_empty (as_base_url state)) = [].

(** The router gives a request to this program. *)
Definition reaches (state : AppState) (rq : HttpRequest)
    (p : prog St Json Empty_set Response) : Prop :=
  ∃ u, target_url (rq_target rq) = Ok u ∧ dispatch state (received u rq) = p.

Section Issued.
  Context {axum_laws : AxumLaws} {url_laws : UrlTextLaws} {hex_laws : HexLaws}
          {uuid_laws : UuidTextLaws} {wire_laws : WireLaws}.

Lemma decode_unreserved s : string_forallb is_unreserved s = true → percent_decode s = Some s.
Proof. intros H. rewrite <- (encode_unreserved s H) at 1. apply decode_encode. Qed.

Lemma encode_nonempty s : s ≠ "" → segment_encode s ≠ "".
Proof.
  intros Hs He. pose proof (decode_encode s) as H. rewrite He, decode_unreserved in H by done.
  congruence.
Qed.

Lemma oid_segment (o : ObjectOid) :
  segment_encode (ObjectOid_display o) = ObjectOid_display o ∧
  percent_decode (ObjectOid_display o) = Some (ObjectOid_display o) ∧
  ordinary (ObjectOid_display o) = true ∧
  ObjectOid_display o ≠ "" ∧ ObjectOid_display o ≠ "batch".
Proof.
  destruct (display_unreserved o) as [Hu Hl].
  assert (Hne : ∀ s, String.length s ≠ 64%nat → ObjectOid_display o ≠ s) by (intros s Hs <-; done).
  split_and!; [by apply encode_unreserved|by apply decode_unreserved| |by apply Hne|by apply Hne].
  unfold ordinary. rewrite !(proj2 (String.eqb_neq _ _)); [done|by apply Hne|by apply Hne].
Qed.

Lemma uuid_segment (u : Uuid) :
  segment_encode (uuid_display u) = uuid_display u ∧
  percent_decode (uuid_display u) = Some (uuid_display u) ∧
  ordinary (uuid_display u) = true ∧ uuid_display u ≠ "" ∧ uuid_display u ≠ "chunks".
Proof.
  pose proof (uuid_unreserved u) as Hu.
  assert (Hne : ∀ s, String.length s ≠ 36%nat → uuid_display u ≠ s)
    by (intros s Hs <-; by rewrite uuid_display_length in Hs).
  split_and!; [by apply encode_unreserved|by apply decode_unreserved| |by apply Hne|by apply Hne].
  unfold ordinary. rewrite !(proj2 (String.eqb_neq _ _)); [done|by apply Hne|by apply Hne].
Qed.

Lemma index_segment (index : N) :
  segment_encode (pretty index) = pretty index ∧ percent_decode (pretty index) = Some (pretty index) ∧
  ordinary (pretty index) = true ∧ pretty index ≠ "".
Proof.
  destruct (pretty_unreserved index) as [Hu Hne].
  split_and!; [by apply encode_unreserved|by apply decode_unreserved| |done].
  assert (Hdot : ∀ s, string_forallb is_unreserved s = false → pretty index ≠ s) by congruence.
  unfold ordinary. by rewrite !(proj2 (String.eqb_neq _ _)) by (by apply Hdot).
Qed.

Lemma extend_ordinary u l :
  url_has_segments u = true → Forall (λ s, ordinary s = true) l →
  url_segments (url_extend u l) = url_segments u ++ (segment_encode <$> l).
Proof.
  intros Hu Hl. rewrite extend_segments by done. do 2 f_equal.
  induction Hl as [|s l Hs _ IH]; [done|]. rewrite filter_cons_True by done. by rewrite IH.
Qed.

Variables (state : AppState) (owner repository : string) (oid : ObjectOid).
Hypotheses (Howner : name_ok owner) (Hrepository : name_ok repository) (Hroot : at_root state).

(** The path of an object's URL. *)
Definition issued_path : list string :=
  [segment_encode owner; segment_encode repository; "info"; "lfs"; "objects"; ObjectOid_display oid].

Lemma issued_segments transfer la :
  action_url (as_base_url state) owner repository oid transfer = Ok la →
  url_has_segments (la_href la) = true ∧
  url_segments (la_href la) =
    issued_path ++ (if bool_decide (transfer = Cdc) then ["cdc"%string] else []).
Proof.
  unfold action_url. destruct (url_has_segments (as_base_url state)) eqn:Hs; [|done].
  intros [= <-]. cbn [la_href]. destruct (oid_segment oid) as (He & _ & Ho & _).
  assert (H : ∀ s, string_forallb is_unreserved s = true → segment_encode s = s)
    by (intros; by apply encode_unreserved).
  destruct Howner as [_ Hoo], Hrepository as [_ Hro].
  assert (Hobject : url_segments (url_extend (url_extend (url_pop_if_empty (as_base_url state))
            [owner; repository; "info"; "lfs"; "objects"]%string) [ObjectOid_display oid]) = issued_path).
  { rewrite !extend_ordinary; try (by rewrite ?extend_can_be_a_base, ?pop_can_be_a_base).
    - rewrite Hroot. cbn. by rewrite He, (H "info"%string), (H "lfs"%string), (H "objects"%string) by done.
    - by repeat constructor.
    - by repeat constructor. }
  case_bool_decide; (split; [by rewrite !extend_can_be_a_base, pop_can_be_a_base|]).
  - rewrite extend_ordinary, Hobject; [cbn; by rewrite (H "cdc"%string) by done| |by repeat constructor].
    by rewrite !extend_can_be_a_base, pop_can_be_a_base.
  - by rewrite app_nil_r.
Qed.

(** A request for a known route. *)
Lemma dispatch_at req r e raw :
  sr_method req ≠ HEAD →
  route_of (sr_path req) r → method_endpoint (sr_method req) (rt_methods r) = Some e →
  captured (rt_pattern r) (sr_path req) = raw →
  dispatch state req = run_endpoint (St:=St) (Json:=Json) state e raw req.
Proof.
  intros Hm Hr He <-. unfold dispatch. rewrite (find_route_at _ _ _ _ Hr He). by destruct (sr_method req).
Qed.

Lemma issued_decoded rest args :
  mapM percent_decode rest = Some args →
  mapM percent_decode (segment_encode owner :: segment_encode repository :: ObjectOid_display oid :: rest) =
    Some (owner :: repository :: ObjectOid_display oid :: args).
Proof.
  intros H. destruct (oid_segment oid) as (_ & Hd & _).
  cbn [mapM]. by rewrite !decode_encode, Hd, H.
Qed.

Lemma issued_nonempty : segment_encode owner ≠ "" ∧ segment_encode repository ≠ "".
Proof. split; apply encode_nonempty; [apply Howner|apply Hrepository]. Qed.

Lemma reaches_at rq u r e raw args p :
  rq_method rq ≠ HEAD →
  target_url (rq_target rq) = Ok u → route_of (url_segments u) r →
  method_endpoint (rq_method rq) (rt_methods r) = Some e →
  captured (rt_pattern r) (url_segments u) = raw → mapM percent_decode raw = Some args →
  (mapM percent_decode raw = Some args → run_endpoint state e raw (received u rq) = p) →
  reaches state rq p.
Proof.
  intros Hm Hu Hr He Hc Hd Hp. exists u. split; [done|].
  rewrite (dispatch_at (received u rq) r e raw); [by apply Hp|done..].
Qed.

Section Action.
Variables (la : LfsAction) (action : TransferAction).
Hypotheses (Hissued : action_url (as_base_url state) owner repository oid Cdc = Ok la)
           (Hhref : ta_href action = url_serialize (la_href la)).

Lemma href_target : target_url (Href (ta_href action)) = Ok (la_href la).
Proof. cbn. by rewrite Hhref, serialize_parse. Qed.

Lemma cdc_segments : url_segments (la_href la) = issued_path ++ ["cdc"%string].
Proof. apply issued_segments in Hissued as [_ ->]. by rewrite bool_decide_eq_true_2. Qed.

(** The client's own segments below the action's URL. *)
Lemma child_segments children :
  Forall (λ s, ordinary s = true) children → ∃ url,
    child_url (ta_href action) children = Ok url ∧
    url_segments url = issued_path ++ "cdc"%string :: (segment_encode <$> children).
Proof.
  intros Hc. pose proof (proj1 (issued_segments _ _ Hissued)) as Hs.
  exists (url_extend (la_href la) children). unfold child_url. rewrite Hhref, serialize_parse. cbn.
  rewrite Hs. split; [done|]. by rewrite extend_ordinary, cdc_segments, <- app_assoc.
Qed.

(** What the client sends, endpoint by endpoint. *)
Local Abbreviation headers := (wire_headers (ta_header action)).
Local Abbreviation o := (ObjectOid_display oid).

Lemma begin_reaches begin : begin_length begin ≤ BODY_LIMIT →
  reaches state (authorized POST (Href (ta_href action)) action (JsonBody begin))
    (handled (λ r, json_response OK_STATUS (json_begin_response r))
       (begin_cdc state owner repository o headers begin)).
Proof.
  intros Hlen. destruct issued_nonempty as [Ho Hr]. destruct (oid_segment oid) as (_ & _ & _ & Hone & _).
  pose proof cdc_segments as Hcdc.
  eapply reaches_at; [done|apply href_target|rewrite Hcdc; by apply route_cdc|done|by rewrite Hcdc
                     |by apply issued_decoded|].
  intros H. unfold run_endpoint. rewrite H.
  change (extract_begin_request _ _) with (extract_begin_request BODY_LIMIT (wire_body (JsonBody begin))).
  by rewrite wire_json.
Qed.

Lemma manifest_reaches :
  reaches state (authorized GET (Href (ta_href action)) action NoBody)
    (handled (λ m, json_response OK_STATUS (json_manifest m))
       (download_cdc_manifest state owner repository o headers)).
Proof.
  destruct issued_nonempty as [Ho Hr]. destruct (oid_segment oid) as (_ & _ & _ & Hone & _).
  pose proof cdc_segments as Hcdc.
  eapply reaches_at; [done|apply href_target|rewrite Hcdc; by apply route_cdc|done|by rewrite Hcdc
                     |by apply issued_decoded|].
  intros H. unfold run_endpoint. by rewrite H.
Qed.

Lemma chunk_upload_reaches id index b : index ≤ U64_MAX → lenN b ≤ BODY_LIMIT → ∃ url,
  child_url (ta_href action) [uuid_display id; "chunks"; pretty index] = Ok url ∧
  reaches state (authorized PUT (Parsed url) action (BytesBody b))
    (handled status_response (upload_cdc_chunk state owner repository o id index headers b)).
Proof.
  intros Hi Hb. destruct issued_nonempty as [Ho Hr]. destruct (oid_segment oid) as (_ & _ & _ & Hone & _).
  destruct (uuid_segment id) as (Hue & Hud & Huo & Hune & _).
  destruct (index_segment index) as (Hie & Hid & Hio & Hine).
  destruct (child_segments [uuid_display id; "chunks"; pretty index]%string) as (url & Hu & Hs);
    [by repeat constructor|].
  cbn [fmap list_fmap] in Hs. rewrite Hue, Hie, (encode_unreserved "chunks") in Hs by done.
  exists url. split; [done|].
  eapply reaches_at; [done|done|rewrite Hs; by apply route_chunk_upload|done|by rewrite Hs| |].
  { apply issued_decoded. cbn [mapM]. by rewrite Hud, Hid. }
  intros H. unfold run_endpoint. rewrite H. unfold path_uuid, path_usize.
  cbn [ok_or extracted]. rewrite parse_display, u64_parse_pretty by done.
  change (extract_bytes _ _) with (extract_bytes BODY_LIMIT (wire_body (BytesBody b))).
  by rewrite wire_bytes.
Qed.

Lemma finalize_reaches id : ∃ url,
  child_url (ta_href action) [uuid_display id; "finalize"] = Ok url ∧
  reaches state (authorized POST (Parsed url) action NoBody)
    (handled status_response (finalize_cdc state owner repository o id headers)).
Proof.
  destruct issued_nonempty as [Ho Hr]. destruct (oid_segment oid) as (_ & _ & _ & Hone & _).
  destruct (uuid_segment id) as (Hue & Hud & Huo & Hune & Huc).
  destruct (child_segments [uuid_display id; "finalize"]%string) as (url & Hu & Hs);
    [by repeat constructor|].
  cbn [fmap list_fmap] in Hs. rewrite Hue, (encode_unreserved "finalize") in Hs by done.
  exists url. split; [done|].
  eapply reaches_at; [done|done|rewrite Hs; by apply route_finalize|done|by rewrite Hs| |].
  { apply issued_decoded. cbn [mapM]. by rewrite Hud. }
  intros H. unfold run_endpoint. rewrite H. unfold path_uuid.
  cbn [ok_or extracted]. by rewrite parse_display.
Qed.

Lemma chunk_download_reaches index : index ≤ U64_MAX → ∃ url,
  child_url (ta_href action) ["chunks"; pretty index] = Ok url ∧
  reaches state (authorized GET (Parsed url) action NoBody)
    (handled bytes_response (download_cdc_chunk state owner repository o index headers)).
Proof.
  intros Hi. destruct issued_nonempty as [Ho Hr]. destruct (oid_segment oid) as (_ & _ & _ & Hone & _).
  destruct (index_segment index) as (Hie & Hid & Hio & Hine).
  destruct (child_segments ["chunks"; pretty index]%string) as (url & Hu & Hs);
    [by repeat constructor|].
  cbn [fmap list_fmap] in Hs. rewrite Hie, (encode_unreserved "chunks") in Hs by done.
  exists url. split; [done|].
  eapply reaches_at; [done|done|rewrite Hs; by apply route_chunk_download|done|by rewrite Hs| |].
  { apply issued_decoded. cbn [mapM]. by rewrite Hid. }
  intros H. unfold run_endpoint. rewrite H. unfold path_usize.
  cbn [ok_or extracted]. by rewrite u64_parse_pretty.
Qed.

Lemma basic_reaches basic req :
  action_url (as_base_url state) owner repository oid Basic = Ok basic →
  sr_path req = url_segments (la_href basic) →
  (sr_method req = PUT → dispatch state req =
     handled (St:=St) (Json:=Json) status_response
       (upload_basic state owner repository o (sr_headers req) (body_frames (sr_body req)))) ∧
  (sr_method req = GET → dispatch state req =
     handled (St:=St) (Json:=Json) file_response
       (download_basic state owner repository o (sr_headers req))).
Proof.
  intros Hbasic Hpath. destruct issued_nonempty as [Ho Hr].
  destruct (oid_segment oid) as (_ & _ & _ & Hone & Hbatch).
  apply issued_segments in Hbasic as [_ Hs].
  rewrite bool_decide_eq_false_2, app_nil_r in Hs by done. rewrite Hs in Hpath.
  assert (Hroute : route_of (sr_path req)
    (mkRoute (object_pattern []) [(PUT, EUploadBasic); (GET, EDownloadBasic)]))
    by (rewrite Hpath; by apply route_object).
  assert (Hraw : captured (object_pattern []) (sr_path req) =
    [segment_encode owner; segment_encode repository; o]) by (by rewrite Hpath).
  split; intros Hm.
  - rewrite (dispatch_at req _ EUploadBasic _ ltac:(by rewrite Hm) Hroute ltac:(by rewrite Hm) Hraw).
    unfold run_endpoint. by rewrite (issued_decoded [] [] eq_refl).
  - rewrite (dispatch_at req _ EDownloadBasic _ ltac:(by rewrite Hm) Hroute ltac:(by rewrite Hm) Hraw).
    unfold run_endpoint. by rewrite (issued_decoded [] [] eq_refl).
Qed.

(** C9: the client's requests reach the handlers they are meant for.  When the
    Batch API issued the action of an object, then beginning an upload, sending
    a chunk, finalising, and reading the manifest or a chunk are dispatched to
    [begin_cdc], [upload_cdc_chunk], [finalize_cdc], [download_cdc_manifest] and
    [download_cdc_chunk], with the owner, the repository and the OID that the
    action was issued for and with the session, index and body that the client
    sent, as long as bodies are within the router's limit; and the object's URL
    without [cdc] reaches the basic transfers. *)
Theorem client_requests_reach_handlers :
  (∀ begin, begin_length begin ≤ BODY_LIMIT →
     reaches state (authorized POST (Href (ta_href action)) action (JsonBody begin))
       (handled (λ r, json_response OK_STATUS (json_begin_response r))
          (begin_cdc state owner repository o headers begin))) ∧
  reaches state (authorized GET (Href (ta_href action)) action NoBody)
    (handled (λ m, json_response OK_STATUS (json_manifest m))
       (download_cdc_manifest state owner repository o headers)) ∧
  (∀ id index b, index ≤ U64_MAX → lenN b ≤ BODY_LIMIT → ∃ url,
     child_url (ta_href action) [uuid_display id; "chunks"; pretty index] = Ok url ∧
     reaches state (authorized PUT (Parsed url) action (BytesBody b))
       (handled status_response
          (upload_cdc_chunk state owner repository o id index headers b))) ∧
  (∀ id, ∃ url,
     child_url (ta_href action) [uuid_display id; "finalize"] = Ok url ∧
     reaches state (authorized POST (Parsed url) action NoBody)
       (handled status_response (finalize_cdc state owner repository o id headers))) ∧
  (∀ index, index ≤ U64_MAX → ∃ url,
     child_url (ta_href action) ["chunks"; pretty index] = Ok url ∧
     reaches state (authorized GET (Parsed url) action NoBody)
       (handled bytes_response (download_cdc_chunk state owner repository o index headers))) ∧
  (∀ basic req, action_url (as_base_url state) owner repository oid Basic = Ok basic →
     sr_path req = url_segments (la_href basic) →
     (sr_method req = PUT → dispatch state req =
        handled status_response
          (upload_basic state owner repository o (sr_headers req) (body_frames (sr_body req)))) ∧
     (sr_method req = GET → dispatch state req =
        handled file_response (download_basic state owner repository o (sr_headers req)))).
Proof.
  split_and!; [apply begin_reaches|apply manifest_reaches|apply chunk_upload_reaches
              |apply finalize_reaches|apply chunk_download_reaches|apply basic_reaches].
Qed.

(** ** Uploads, end to end *)

Context {store_laws : ObjectStoreLaws St} {json_laws : ManifestJsonLaws Json}
        {cdc_laws : FastCdcLaws} {lib : ClientLib}.

(** The layer and the router answer with the handler's outcome. *)
Lemma run_serve req (w0 : World St Json) response w3 :
  run (serve state req) w0 = (Ok response, w3) → ∃ w w',
    run (dispatch state req) w = (Ok response, w') ∧
    w_db w = w_db w0 ∧ w_store w = w_store w0 ∧ w_db w3 = w_db w' ∧ w_store w3 = w_store w'.
Proof.
  unfold serve, record_http_metrics.
  intros ([] & w1 & Hc & (resp & w2 & Hd & Hafter)%run_bind_ok)%run_bind_ok.
  injection Hc as <-. exists (set_metrics (add_in_flight 1 (w_metrics w0)) w0), w2.
  unfold after_response in Hafter.
  apply run_bind_ok in Hafter as ([] & w4 & H4 & Hafter). injection H4 as <-.
  apply run_bind_ok in Hafter as ([] & w5 & H5 & Hafter). injection H5 as <-.
  apply run_bind_ok in Hafter as ([] & w6 & H6 & Hafter). injection Hafter as -> <-.
  split; [exact Hd|]. by destruct (is_server_error _); injection H6 as <-.
Qed.

Lemma run_handled {A} (into : A → Response) (p : prog St Json ApiError A) w response w' :
  run (handled into p) w = (Ok response, w') → ∃ outcome, run p w = (outcome, w') ∧
    response = match outcome with Ok a => into a | Err e => ApiError_into_response e end.
Proof.
  unfold handled. intros (outcome & w1 & Ho & Hr)%run_bind_ok. injection Hr as <- <-.
  exists outcome. split; [|done]. revert w Ho.
  induction p as [r|X f k IH]; intros w; cbn; [by intros [= -> ->]|].
  destruct (f w) as [x w2]. apply IH.
Qed.

(** A response of the service that is a success came from a handler that
    succeeded. *)
Lemma served_success rq remote response remote' {A} (into : A → Response) p :
  request_served state rq remote = (Ok response, remote') → reaches state rq (handled into p) →
  fails is_error p → Backend.is_success (rp_status response) = true →
  ∃ w w' a, run p w = (Ok a, w') ∧
    w_db w = w_db (rm_world remote) ∧ w_store w = w_store (rm_world remote) ∧
    w_db (rm_world remote') = w_db w' ∧ w_store (rm_world remote') = w_store w'.
Proof.
  unfold request_served. intros Hs (u & Hu & Hd) Hp Hok. rewrite Hu in Hs.
  destruct (run (serve state (received u rq)) (rm_world remote)) as [[resp|[]] w3] eqn:Hrun.
  assert (response = client_response resp ∧ rm_world remote' = w3) as [-> ->]
    by (destruct (hd None (rm_faults remote)) as [[]|]; by simplify_eq).
  apply run_serve in Hrun as (w & w' & Hrun & H1 & H2 & H3 & H4). rewrite Hd in Hrun.
  apply run_handled in Hrun as ([a|e] & Hrun & ->); [by exists w, w', a|]. exfalso.
  pose proof (run_fails _ _ _ _ _ Hp Hrun) as He. unfold is_error in He.
  cbn in Hok. unfold Backend.is_success, within in Hok. bool_hyps. lia.
Qed.

Lemma parse_oid_display (x : ObjectOid) : parse_oid (ObjectOid_display x) = Ok x.
Proof.
  destruct x as [e]. unfold parse_oid, ObjectOid_from_str, ObjectOid_display, ObjectOid_as_bytes.
  cbn [ObjectOid_inner]. by rewrite digest_from_str_encode.
Qed.


End Action.
End Issued.
End Wired.
