(* ===== verification/ClientExamples.v ===== *)
(** * ClientExamples: the client and the tools on concrete machines

    A service that holds one object and is unavailable for its first requests,
    a cache directory, a mirror with a pointer, and a database with its
    migrations.  The theorems of the client's files are applied there. *)
From S2P Require Import Prelude Digest Manifest Stream Protocol Storage Text Agent Tree Backend ClientDownloads ClientUploads ClientSession Cli Reconcile Startup.
From stdpp Require Import relations.
#[local] Open Scope N_scope.

#[export] Existing Instance toy_hashes.
#[export] Existing Instance plain_url.

(** Equalities of computed values. *)
Ltac compute_eq := apply (bool_decide_unpack _); vm_compute; exact I.

(** ** A service with one object *)

Definition object : bytes := sample_content.
Definition object_manifest : ObjectManifest :=
  match ChunkStream_finish (ChunkStream_new (file_reader object) ChunkingProfile_beta_v1) with
  | Ok m => m
  | Err _ => sample_manifest
  end.
Definition object_oid : ObjectOid := om_object_oid object_manifest.
Definition object_descriptor : ChunkDescriptor :=
  default (mkChunkDescriptor sample_id 0 0) (head (om_chunks object_manifest)).
Definition upload_plan : BeginUploadResponse :=
  {| bur_protocol_version := 1; bur_upload_id := uuid_from 5;
     bur_missing_chunk_indexes := [0]; bur_expires_at := "tomorrow" |}.

(** The service answers so many requests with 503 first. *)
Record Remote := mkRemote { rm_outages : nat }.

Definition service_answer (rq : HttpRequest) : HttpResponse :=
  match rq_method rq, rq_target rq with
  | GET, Href _ => mkResponse 200 None (Ok (as_bytes "manifest"))
  | GET, Parsed _ => mkResponse 200 None (Ok object)
  | POST, Href _ => mkResponse 200 None (Ok (as_bytes "plan"))
  | _, _ => mkResponse 204 None (Ok [])
  end.

#[export] Instance remote_http : Http Remote := {|
  http_send rq s :=
    match rm_outages s with
    | S n => (Ok (mkResponse 503 (Some "1"%string) (Ok [])), mkRemote n)
    | O => (Ok (service_answer rq), s)
    end;
  status_display status := pretty status;
  status_error_display status := "HTTP status error " +:+ pretty status;
|}.

#[export] Instance plain_lib : ClientLib := {|
  begin_response_from_json b :=
    if decide (b = as_bytes "plan") then Ok upload_plan else Err "expected value"%string;
  manifest_from_json b :=
    if decide (b = as_bytes "manifest") then Ok object_manifest else Err "expected value"%string;
  keep_path directory _ := Text.join directory ".tmp0";
|}.

Definition backend : HttpBackend := mkHttpBackend 10 300 "cache" 2.
Definition action : TransferAction := mkTransferAction "https://lfs/objects" [("Authorization", "Basic")]%string.

(** A machine with the object as a file; the service is down for two requests. *)
Definition machine (outages : nat) : Client Remote :=
  mkClient (mkRemote outages) ∅ {["object"%string := file_reader object]} [] [] [].

Definition download_request : DownloadRequest := mkDownloadRequest object_oid 7 (Some action).
Definition upload_request : UploadRequest := mkUploadRequest object_oid 7 "object" (Some action).

Lemma backend_workers : 1 ≤ chunk_concurrency backend.
Proof. done. Qed.

(** Always the first thread that can act. *)
Definition first_choice : nat → nat := λ _, 0%nat.

Lemma pair_of {A B} (p : A * B) a : p.1 = a → p = (a, p.2).
Proof. destruct p. cbn. by intros ->. Qed.

(** ** Downloads *)

Lemma fetched_object :
  (http_download backend first_choice download_request (machine 0)).1 =
    Ok (mkDownloadResult "cache/.tmp0" 7).
Proof. vm_compute. reflexivity. Qed.

Definition delivered_object (c : Client Remote) : Prop :=
  ∃ bs, c_files c !! "cache/.tmp0"%string = Some (concat bs) ∧
        sha256_digest (concat bs) = ObjectOid_inner object_oid.

Lemma client_download_authentic_witness :
  downloads backend download_request (machine 0) (Ok (mkDownloadResult "cache/.tmp0" 7))
    (http_download backend first_choice download_request (machine 0)).2 ∧
  delivered_object (http_download backend first_choice download_request (machine 0)).2.
Proof.
  pose proof (http_download_refines backend first_choice backend_workers download_request (machine 0)) as H.
  rewrite fetched_object in H. split; [exact H|].
  destruct (client_download_authentic backend download_request (machine 0) _ _
              (mkDownloadResult "cache/.tmp0" 7) H eq_refl) as (_ & m & bs & _ & _ & _ & Hf & Hs & _).
  exists bs. split; [exact Hf|exact Hs].
Defined.

(** The threads of this download take [n] turns until they have joined. *)
Lemma download_completes_witness :
  ∃ n s, dl_path backend action object_manifest n (dl_start backend (machine 0)) s ∧
    (n ≤ TURNS 1 2)%nat ∧ (length (flight s) + size (dl_pending s) ≤ 2)%nat.
Proof.
  destruct (drive_download backend first_choice backend_workers action object_manifest (machine 0))
    as (n & outcome & Hp & _).
  eexists n, _. split; [exact Hp|].
  destruct (download_completes backend action object_manifest (machine 0) n _ backend_workers Hp)
    as (Hn & _ & Hb).
  split; [exact Hn|exact Hb].
Defined.

(** A cache entry that does not hold the chunk is replaced. *)
Definition entry : string := chunk_cache_path backend (ChunkId_display (cd_id object_descriptor)).
Definition corrupted : Client Remote :=
  mkClient (mkRemote 1) {[entry := [x00]]} ∅ [] [] [].

Definition fetched_once : Client Remote :=
  (alone (read_or_fetch_chunk backend action 0 object_descriptor) corrupted).2.

Lemma fetched_result :
  (alone (read_or_fetch_chunk backend action 0 object_descriptor) corrupted).1 = Ok object.
Proof. vm_compute. reflexivity. Qed.

Lemma chunk_cache_sound_witness :
  alone (read_or_fetch_chunk backend action 0 object_descriptor) corrupted = (Ok object, fetched_once) ∧
  alone (read_or_fetch_chunk backend action 0 object_descriptor) fetched_once = (Ok object, fetched_once) ∧
  holds (keeps_cache backend) (λ r _, ∀ b, r = Ok b → valid_chunk b object_descriptor = true)
    (read_or_fetch_chunk backend action 0 object_descriptor) corrupted.
Proof.
  pose proof (pair_of _ _ fetched_result : _ = (_, fetched_once)) as Hf.
  destruct (chunk_cache_sound backend action 0 object_descriptor corrupted) as [H1 H2].
  split; [exact Hf|]. split; [|exact H1]. exact (H2 object fetched_once eq_refl Hf).
Defined.

(** ** Uploads *)

Lemma upload_result : (http_upload backend first_choice upload_request (machine 2)).1 = Ok 7.
Proof. vm_compute. reflexivity. Qed.


Definition plan : Plan :=
  mkPlan action {| bu_protocol_version := 1; bu_manifest := object_manifest |} upload_plan
    (file_reader object) {[0]}.

Lemma upload_completes_witness :
  ∃ n s, ul_path backend plan n (ul_start backend plan (machine 0)) s ∧
    (n ≤ UPLOAD_TURNS (source_items plan) 2)%nat.
Proof.
  destruct (drive_upload backend first_choice backend_workers plan (machine 0))
    as (n & error & Hp & _).
  eexists n, _. split; [exact Hp|].
  exact (proj1 (upload_completes backend plan (machine 0) n _ backend_workers Hp)).
Defined.

(** Two unavailable answers and a success: three attempts. *)
Lemma retry_policy_witness :
  (alone (finalize_upload action (uuid_from 5)) (machine 2)).1 = Ok tt ∧
  ∃ es url, c_log (alone (finalize_upload action (uuid_from 5)) (machine 2)).2 = es ∧
    attempted (authorized POST (Parsed url) action NoBody) false true es.
Proof.
  split; [vm_compute; reflexivity|].
  destruct (retry_policy action (uuid_from 5) 0 object (machine 2)) as (_ & H & _).
  destruct (alone (finalize_upload action (uuid_from 5)) (machine 2)) as [r c'] eqn:Ha.
  assert (r = Ok tt) as Hr.
  { change r with (r, c').1. rewrite <- Ha. vm_compute. reflexivity. }
  rewrite Hr in Ha. destruct (H _ _ _ eq_refl eq_refl) as (es & Hes & Hatt).
  exists es. eexists.
  rewrite Hr in Hatt. split; [exact Hes|exact Hatt].
Defined.

(** ** The transfer process *)

#[export] Instance plain_json : TransferJson := {|
  message_from_str line :=
    if decide (line = "init"%string) then Ok (Init "download" "origin" true 8)
    else if decide (line = "get"%string) then Ok (DownloadMessage download_request)
    else if decide (line = "put"%string) then Ok (UploadMessage upload_request)
    else if decide (line = "end"%string) then Ok Terminate
    else Err "expected value"%string;
|}.

Definition newline : string := String (Ascii.ascii_of_nat 10) EmptyString.
Definition conversation_input : Reader :=
  file_reader (as_bytes ("init" +:+ newline +:+ "get" +:+ newline +:+ "end" +:+ newline)).
Definition wide_pipe : Pipe := mkPipe [] None 10.

(** A data plane that transfers everything: three lines, one completion. *)
Definition scripted : Agent Script Pipe := mkAgent (mkScript [] 0) wide_pipe.

Lemma scripted_result : (run_transfer_protocol conversation_input scripted).1 = Ok tt.
Proof. vm_compute. reflexivity. Qed.

Lemma run_refines_protocol_witness :
  ∃ ms outs p b,
    protocol (Agent.Fresh, mkScript [] 0) ms outs (p, b) ∧
    written (ag_output (run_transfer_protocol conversation_input scripted).2) = outs ∧
    omap completed_oid outs = omap message_oid ms.
Proof.
  pose proof (pair_of _ _ scripted_result) as Hrun.
  destruct (run_refines_protocol conversation_input scripted _ _ Hrun) as (_ & Hok).
  destruct (Hok eq_refl) as (ms & outs & p & b & Hp & Hw & Hc & _).
  exists ms, outs, p, b. split; [exact Hp|]. split; [exact Hw|exact Hc].
Defined.

(** The real data plane under the same conversation. *)
Definition real_agent : Agent (Client Remote) Pipe := mkAgent (machine 0) wide_pipe.

Definition no_env : string → EnvVar := λ _, EnvNotPresent.

Definition real_run : result CliError unit * Agent (Client Remote) Pipe :=
  transfer no_env (λ _ _, Ok tt) (Ok "cache"%string) first_choice conversation_input real_agent.

Lemma real_result : real_run.1 = Ok tt.
Proof. vm_compute. reflexivity. Qed.

Lemma real_output :
  pi_lines (ag_output real_run.2) =
    [Agent.Empty; Message (Progress object_oid 7 7);
     Message (Complete object_oid (Some "cache/.tmp0"%string) None)].
Proof. vm_compute. reflexivity. Qed.

Lemma real_run_eq :
  transfer no_env (λ _ _, Ok tt) (Ok "cache"%string) first_choice conversation_input real_agent
    = (Ok tt, real_run.2).
Proof. rewrite <- real_result. unfold real_run. apply surjective_pairing. Qed.

Lemma real_completion :
  Message (Complete object_oid (Some "cache/.tmp0"%string) None) ∈ written (ag_output real_run.2).
Proof.
  change (written (ag_output real_run.2)) with (pi_lines (ag_output real_run.2)).
  rewrite real_output. right. right. left.
Qed.


(** ** The cache directory *)

Definition cache_directory : FsNode :=
  FsDirectory (Ok [
    Child "ab" (FsDirectory (Ok [Child "ab01" (FsFile 300 (Some 30)); Child "ab02" (FsFile 100 (Some 10))]));
    Child "cd" (FsDirectory (Ok [Child "cd01" (FsFile 200 (Some 20)); Child "socket" FsOther]));
    Child "ef" (FsDirectory (Err (mkDirError true (mkIoError false "gone"))))]).

Definition cache_files : list CacheEntry :=
  [mkCacheEntry "cache/chunks/ab/ab01" 300 30; mkCacheEntry "cache/chunks/ab/ab02" 100 10;
   mkCacheEntry "cache/chunks/cd/cd01" 200 20].

Lemma cache_entries_complete_witness :
  (directories cache_directory ≤ 4)%nat ∧
  ∃ found, cache_entries 4 "cache" cache_directory = Some (Ok found) ∧ found ≡ₚ cache_files.
Proof.
  assert (directories cache_directory ≤ 4)%nat as Hd by (apply Nat.leb_le; vm_compute; reflexivity).
  split; [exact Hd|].
  destruct (cache_entries_complete "cache" _ 4 Hd) as (r & Hr & Hres).
  destruct r as [found|e]; [|discriminate Hres].
  exists found. split; [exact Hr|]. exact (proj1 Hres).
Defined.

(** The two oldest files go: 600 bytes do not fit, nor do 500. *)
Lemma prune_cache_spec_witness :
  prune_entries (λ _, None) 300 cache_files =
    (Ok (300, 2), [mkCacheEntry "cache/chunks/ab/ab01" 300 30]) ∧
  ∃ gone, gone ++ [mkCacheEntry "cache/chunks/ab/ab01" 300 30] ≡ₚ cache_files.
Proof.
  assert (prune_entries (λ _, None) 300 cache_files =
    (Ok (300, 2), [mkCacheEntry "cache/chunks/ab/ab01" 300 30])) as Hp by (vm_compute; reflexivity).
  split; [exact Hp|].
  destruct (prune_cache_spec (λ _, None) 300 cache_files _ _
              ltac:(apply N.leb_le; vm_compute; reflexivity) Hp) as (gone & Hg & _).
  exists gone. exact Hg.
Defined.

(** ** A mirror with one pointer *)

Definition pointer_text : string :=
  POINTER_VERSION +:+ newline +:+ "oid sha256:" +:+ ObjectOid_display object_oid +:+ newline +:+
  "size 7" +:+ newline.

(** [git show] knows the pointer and a text file. *)
Definition shown (specification : string) : result ScanError bytes :=
  if decide (specification = "main:a.bin"%string) then Ok (as_bytes pointer_text)
  else Ok (as_bytes "a text").

#[export] Instance plain_git : Commands unit := {|
  command_output program arguments g :=
    match arguments with
    | [_; _; _; specification] =>
        (match shown specification with Ok b => Ok (Some 0, b) | Err _ => Ok (Some 128, []) end, g)
    | _ => (Ok (Some 1, []), g)
    end;
|}.

Lemma plain_git_shows specification g :
  output "git" ["-C"; "mirror"; "show"; specification]%string g = (shown specification, g).
Proof. unfold shown, output, mbind, scan_bind, scan_command. cbn. unfold shown. by case_decide. Qed.

Definition candidates : bytes := as_bytes ("main:a.bin" +:+ newline +:+ "main:readme" +:+ newline).
Definition candidate_text : string := "main:a.bin" +:+ newline +:+ "main:readme" +:+ newline.

Lemma parse_pointer_candidates_exact_witness :
  parse_pointer_candidates "mirror" candidates () = (Ok [object_oid], ()) ∧
  ∃ specification pointer,
    specification ∈ candidate_lines candidate_text ∧ shows shown specification pointer ∧
    points_to pointer object_oid.
Proof.
  assert ((match (parse_pointer_candidates "mirror" candidates ()).1 with
            | Ok found => found | Err _ => [] end) = [object_oid]) as Hrun by compute_eq.
  pose proof (parse_pointer_candidates_exact "mirror" shown plain_git_shows candidates candidate_text ())
    as H.
  destruct H as (r & Hr & Hres); [vm_compute; reflexivity|].
  rewrite Hr in Hrun. cbn [fst] in Hrun. destruct r as [found|e]; [|discriminate Hrun].
  rewrite Hrun in Hr, Hres.
  split; [exact Hr|]. destruct Hres as (_ & Hf & _). apply Hf. left.
Defined.
