(* ===== verification/Examples.v ===== *)
(** * Examples: the service on a concrete provider, database and client

    Concrete instances of the interfaces (a map as the object store, manifests
    stored as they are, path segments as URLs, padding as hash functions), a
    repository with one development token, and the worlds that a sequence of
    requests leads to.  The theorems of the other files are applied there. *)
From S2P Require Import Prelude Text Reconcile Startup Digest Manifest Stream Protocol Storage Database Effects Api Sessions Uploads UploadSpecs Gc GcFacts GcSpecs GcProps Locks AuthSpecs Batch Admin Metrics Routes Router Service Delivery.

(** ** Concrete interfaces *)

#[export] Existing Instance toy_hashes.

#[export] Existing Instance plain_url.

(** Tokens are [kid:subject]-less: the token is the subject and key ["k"]. *)
#[export] Instance plain_jwt : JwtLib := {|
  Jwk := unit;
  DecodingKey := unit;
  jwt_decode_header t := Some {| jh_kid := Some "k"%string; jh_alg := "RS256" |};
  jwt_from_jwk _ := Some tt;
  jwt_decode t _ _ _ := Some {| oc_sub := t |};
|}.

(** Forgejo knows one user, who may push. *)
#[export] Instance plain_forgejo : ForgejoApi := {|
  forgejo_get_user _ a _ :=
    if decide (a = "Basic alice"%string) then HttpResponse 200 (Some {| fu_login := "alice" |})
    else HttpResponse 401 None;
  forgejo_get_repository _ a _ :=
    if decide (a = "Basic alice"%string)
    then HttpResponse 200 (Some {| fr_permissions :=
           {| fp_pull := true; fp_push := true; fp_admin := false |} |})
    else HttpResponse 404 None;
|}.

#[export] Instance plain_router : Axum := plain_axum Some plain_uuid_parse.
#[export] Instance plain_router_laws : AxumLaws := plain_axum_laws Some plain_uuid_parse.

(** Responses without their bodies, which no example looks at. *)
#[export] Instance plain_answers : Answers := {|
  json_lock_response _ := [];
  json_lock_list _ := [];
  json_lock_verify_response _ := [];
  json_unlock_response _ := [];
  json_batch_response _ := [];
  json_begin_response _ := [];
  json_manifest _ := [];
  json_error_body s := as_bytes s;
|}.

(** ** A repository *)

Definition repo : Uuid := uuid_from 7.

Definition fresh_db : Db ObjectManifest :=
  mkDb {[repo := {| rp_owner := "team"; rp_name := "assets" |}]} ∅ ∅ ∅ ∅ ∅ ∅ ∅ ∅
    {[(repo, "bob"%string) :=
        {| gr_can_read := true; gr_can_write := true; gr_can_admin := false |}]} ∅ ∅.

Notation CWorld := (World MemStore ObjectManifest).

Definition fresh : CWorld :=
  mkWorld fresh_db (mkMemStore ∅ [] false) 1000000 0 (λ n, uuid_from (100 + N.of_nat n)) 0 [] []
    metrics_default ∅ None false.

Definition base : Url := ["https://lfs.example"%string].
Definition dev_state : AppState :=
  mkAppState base (DevelopmentToken (sha256_digest (as_bytes "secret"))).
Definition headers : HeaderMap :=
  {| h_authorization := Some "Bearer secret"%string; h_content_length := None |}.

Lemma fresh_db_ok : db_ok fresh_db.
Proof.
  split; [split|]; cbn; intros; intros; simplify_map_eq. intros ? ? ? H. simplify_map_eq.
Qed.

Lemma fresh_service_ok : service_ok false fresh.
Proof.
  split_and!; [apply fresh_db_ok| |].
  - by intros ? ? ?.
  - intros r o m ((row & Hr & _) & _). by simplify_map_eq.
Qed.

(** The world after a request. *)
Definition after {E A} (p : prog MemStore ObjectManifest E A) (w : CWorld) : CWorld := (run p w).2.

Lemma after_ok {E A} state (p : prog MemStore ObjectManifest E A) w :
  plain_request state (Thread p) ∨ publishing_request state (Thread p) →
  service_ok false w → service_ok false (after p w).
Proof.
  intros Hp Hw. unfold after. destruct (run p w) as [r w'] eqn:Hrun.
  eapply (thread_safe_run (rely false) (service_ok false)) in Hrun as [_ H]; [done| |done].
  destruct Hp as [Hp|Hp].
  - apply (plain_request_safe false (rely false)) with state; [by intros w1 w2 Hk _|done].
  - apply (publishing_request_safe false (rely false)) with state;
      [by intros w1 w2 Hk _|apply rely_persists|done].
Qed.

(** ** One object, uploaded with each protocol *)

Definition content : bytes := sample_content.
Definition manifest : ObjectManifest :=
  match ChunkStream_finish (ChunkStream_new (file_reader content) ChunkingProfile_beta_v1) with
  | Ok m => m
  | Err _ => sample_manifest
  end.
Definition oid : string := ObjectOid_display (om_object_oid manifest).
Definition session : Uuid := uuid_from 100.

Definition begin_request : BeginUploadRequest :=
  {| bu_protocol_version := 1; bu_manifest := manifest |}.

Definition begin_prog : prog MemStore ObjectManifest ApiError BeginUploadResponse :=
  begin_cdc dev_state "team" "assets" oid headers begin_request.
Definition chunk_prog : prog MemStore ObjectManifest ApiError N :=
  upload_cdc_chunk dev_state "team" "assets" oid session 0 headers content.
Definition finalize_prog : prog MemStore ObjectManifest ApiError N :=
  finalize_cdc dev_state "team" "assets" oid session headers.
Definition basic_prog : prog MemStore ObjectManifest ApiError N :=
  upload_basic dev_state "team" "assets" oid headers [Ok content].
Definition download_prog : prog MemStore ObjectManifest ApiError (N * bytes) :=
  download_basic dev_state "team" "assets" oid headers.

Definition begun : CWorld := after begin_prog fresh.
Definition received : CWorld := after chunk_prog begun.
Definition finished : CWorld := after finalize_prog received.

Lemma run_after {E A} (p : prog MemStore ObjectManifest E A) w r :
  (run p w).1 = r → run p w = (r, after p w).
Proof. intros <-. unfold after. by destruct (run p w). Qed.

(** An operation of the collector, when nothing is being published. *)
Lemma after_gc_ok {E A} (p : prog MemStore ObjectManifest E A) w :
  gc_operation (Thread p) → service_ok false w → service_ok false (after p w).
Proof.
  intros Hp Hw. unfold after. destruct (run p w) as [r w'] eqn:Hrun.
  eapply (thread_safe_run (λ _ _, True) (service_ok false)) in Hrun as [_ H]; [done| |done].
  by apply (gc_operation_safe true).
Qed.

(** Equalities of computed values. *)
Ltac compute_eq := apply (bool_decide_unpack _); vm_compute; exact I.

Lemma repo_selected : select_repository_id "team" "assets" (w_db fresh) = Some repo.
Proof. compute_eq. Qed.

Lemma finalize_result : (run finalize_prog received).1 = Ok NO_CONTENT.
Proof. vm_compute. reflexivity. Qed.

Lemma begun_ok : service_ok false begun.
Proof.
  apply (after_ok dev_state); [left; constructor|]. apply fresh_service_ok.
Qed.
Lemma received_ok : service_ok false received.
Proof. apply (after_ok dev_state); [left; constructor|]. apply begun_ok. Qed.
Lemma finished_ok : service_ok false finished.
Proof. apply (after_ok dev_state); [right; constructor|]. apply received_ok. Qed.

(** *** The upload protocol *)

Lemma begin_cdc_spec_witness :
  ∃ resp, run begin_prog fresh = (Ok resp, begun) ∧
    bur_missing_chunk_indexes resp = missing_of (w_store fresh) repo (enumerate (om_chunks manifest)).
Proof.
  destruct ((run begin_prog fresh).1) as [resp|e] eqn:Hok; [|by vm_compute in Hok].
  pose proof (run_after _ _ _ Hok : run begin_prog fresh = (Ok resp, begun)) as Hrun.
  exists resp. split; [exact Hrun|].
  destruct (begin_cdc_spec dev_state "team" "assets" oid headers begin_request fresh resp begun)
    as (_ & _ & _ & r & Hr & _ & H & _); [apply fresh_db_ok|exact Hrun|].
  rewrite repo_selected in Hr. injection Hr as <-. exact H.
Defined.

Lemma finalize_cdc_verifies_witness :
  run finalize_prog received = (Ok NO_CONTENT, finished) ∧
  ∃ o r, select_repository_id "team" "assets" (w_db received) = Some r ∧
    finalized received finished r o session.
Proof.
  pose proof (run_after _ _ _ finalize_result
    : run finalize_prog received = (Ok NO_CONTENT, finished)) as Hrun.
  split; [exact Hrun|].
  destruct (finalize_cdc_verifies dev_state "team" "assets" oid session headers received NO_CONTENT
              finished) as (_ & o & r & _ & Hr & Hf); [apply received_ok|exact Hrun|].
  exists o, r. split; [exact Hr|exact Hf].
Defined.

(** *** Downloads *)

Definition identity : Identity := mkIdentity "Bearer secret" "development-user" true.

Lemma manifest_row :
  ob_manifest <$> objects (w_db finished) !! (repo, ObjectOid_as_bytes (om_object_oid manifest)) =
    Some manifest.
Proof. compute_eq. Qed.

Lemma published_row (w : CWorld) r o m :
  db_ok (w_db w) → ob_manifest <$> objects (w_db w) !! (r, o) = Some m → published (w_db w) r o m.
Proof.
  intros Hdb Hm. destruct (objects (w_db w) !! (r, o)) as [row|] eqn:Hrow; [|discriminate].
  injection Hm as Hm. destruct (db_ok_published _ _ _ _ Hdb Hrow) as [m' Hp].
  enough (m' = m) as <- by exact Hp.
  destruct Hp as ((row' & Hrow' & Hj & _) & _). rewrite Hrow in Hrow'. injection Hrow' as <-.
  injection Hj as <-. exact Hm.
Qed.

Lemma finished_published :
  published (w_db finished) repo (ObjectOid_as_bytes (om_object_oid manifest)) manifest.
Proof. apply (published_row finished); [apply finished_ok|apply manifest_row]. Qed.

Lemma finished_contents : contents (w_store finished) repo (om_chunks manifest) [content].
Proof.
  assert (∃ d, om_chunks manifest = [d] ∧ lenN content = cd_length d ∧
    chunk_bytes (w_store finished) repo (cd_id d) = Some content ∧
    ChunkId_from_bytes (blake3_hash content) = cd_id d) as (d & -> & Hl & Hb & Hh).
  { exists (default (mkChunkDescriptor sample_id 0 0) (head (om_chunks manifest))).
    split; [compute_eq|]. split; [compute_eq|]. split; compute_eq. }
  apply Forall2_cons; split; [|apply Forall2_nil; exact I].
  split; [split; [exact Hb|exact Hh]|exact Hl].
Qed.

Lemma download_basic_delivers_witness :
  contents (w_store finished) repo (om_chunks manifest) [content] ∧
  ∃ w', run download_prog finished = (Ok (om_object_size manifest, concat [content]), w').
Proof.
  split; [exact finished_contents|].
  apply (download_basic_delivers dev_state "team" "assets" oid headers finished finished identity
           repo (om_object_oid manifest) manifest [content]).
  - reflexivity.
  - split; reflexivity.
  - compute_eq.
  - compute_eq.
  - exact finished_published.
  - exact finished_contents.
  - compute_eq.
Defined.

Definition basic_world : CWorld := after basic_prog fresh.

Lemma basic_world_ok : service_ok false basic_world.
Proof. apply (after_ok dev_state); [right; apply req_upload_basic|]. apply fresh_service_ok. Qed.

Lemma basic_result : (run basic_prog fresh).1 = Ok NO_CONTENT.
Proof. vm_compute. reflexivity. Qed.

Lemma download_result : (run download_prog basic_world).1 = Ok (7, content).
Proof. vm_compute. reflexivity. Qed.

Lemma upload_basic_spec_witness :
  run basic_prog fresh = (Ok NO_CONTENT, basic_world) ∧
  ∃ r m, available (w_store basic_world) r (om_chunks m).
Proof.
  pose proof (run_after _ _ _ basic_result : run basic_prog fresh = (Ok NO_CONTENT, basic_world)) as Hrun.
  split; [exact Hrun|].
  destruct (upload_basic_spec dev_state "team" "assets" oid headers [Ok content] fresh NO_CONTENT
    basic_world) as (_ & _ & _ & frames & c & o & r & m & _ & _ & _ & _ & _ & _ & _ & Hav & _);
    [exact fresh_db_ok|exact Hrun|]. exists r, m. exact Hav.
Defined.

Lemma upload_download_roundtrip_witness :
  run basic_prog fresh = (Ok NO_CONTENT, basic_world) ∧
  run download_prog basic_world = (Ok (7, content), after download_prog basic_world) ∧
  ∃ frames, [Ok content : result string bytes] = Ok <$> frames ∧ sha256_digest content = sha256_digest (concat frames).
Proof.
  pose proof (run_after _ _ _ basic_result : run basic_prog fresh = (Ok NO_CONTENT, basic_world)) as Hup.
  pose proof (run_after _ _ _ download_result) as Hdown.
  split; [exact Hup|]. split; [exact Hdown|].
  apply (upload_download_roundtrip dev_state "team" "assets" oid headers [Ok content] fresh NO_CONTENT
    basic_world dev_state "team" "assets" headers basic_world 7 content (after download_prog basic_world)).
  - exact fresh_db_ok.
  - exact (service_ok_weaken _ basic_world_ok).
  - exact Hup.
  - exact Hdown.
Defined.

Lemma put_get_roundtrip_witness :
  os_available (w_store fresh) ∧
  ∃ b, (get_verified repo (ChunkId_from_bytes (blake3_hash content))
          (put_verified repo (ChunkId_from_bytes (blake3_hash content)) content (w_store fresh)).2).1 =
       Ok b ∧ b = content.
Proof.
  split; [reflexivity|].
  pose proof (put_get_roundtrip repo content (w_store fresh)) as H.
  cbv zeta in H. revert H.
  destruct (put_verified repo _ content (w_store fresh)) as [res st'].
  intros H. destruct H as (_ & b & Hg & _ & Hnew);
    [reflexivity|exact (proj1 (proj2 fresh_service_ok))|].
  exists b. split; [exact Hg|]. apply Hnew. reflexivity.
Defined.

Definition chunk_download_prog : prog MemStore ObjectManifest ApiError bytes :=
  download_cdc_chunk dev_state "team" "assets" oid 0 headers.

Lemma download_basic_authentic_witness :
  (run download_prog finished).1 = Ok (7, content) ∧
  safe anything (service_ok true)
    (λ p _, parse_oid oid = Ok (ObjectOid_from_bytes (sha256_digest p.2)) ∧ p.1 = lenN p.2)
    download_prog finished.
Proof.
  split; [vm_compute; reflexivity|].
  exact (download_basic_authentic dev_state "team" "assets" oid headers finished).
Defined.

Lemma download_cdc_chunk_authentic_witness :
  (run chunk_download_prog finished).1 = Ok content ∧
  safe anything (service_ok true) (λ b _, ∃ o, parse_oid oid = Ok o ∧ delivers o 0 b)
    chunk_download_prog finished.
Proof.
  split; [vm_compute; reflexivity|].
  exact (download_cdc_chunk_authentic dev_state "team" "assets" oid 0 headers finished).
Defined.

(** A claimed identity that the bytes do not have is refused. *)
Lemma put_verified_immutable_witness :
  (put_verified repo sample_id content (w_store finished)).1 =
    Err (DigestMismatch sample_id (hex_encode (digest_bytes (blake3_hash content)))).
Proof.
  pose proof (put_verified_immutable repo sample_id content (w_store finished)) as H. revert H.
  destruct (put_verified repo sample_id content (w_store finished)) as [res st'].
  intros (_ & _ & _ & H). apply H. compute_eq.
Defined.

Lemma digest_text_roundtrip_witness :
  ObjectOid_from_str (ObjectOid_display sample_oid) = Ok sample_oid ∧
  ObjectOid_from_str "abc" = Err (DigestLength 3).
Proof.
  destruct (digest_text_roundtrip sample_id sample_oid "abc") as (_ & H1 & _ & _ & H2).
  split; [exact H1|]. apply H2. compute_eq.
Defined.

(** *** Garbage collection *)

Definition no_objects : ReachabilitySnapshot :=
  {| rs_repository_id := repo; rs_ref_fingerprint := "empty"; rs_reachable_objects := [] |}.

Definition snapshot_prog : prog MemStore ObjectManifest SqlxError Uuid := submit_snapshot no_objects.
Definition dry_run_prog : prog MemStore ObjectManifest SqlxError (list GcCandidate) := dry_run repo.
Definition stage_prog : prog MemStore ObjectManifest SqlxError (list GcCandidate) := stage repo 0.
Definition collect_prog : prog MemStore ObjectManifest GcError (option N) := collect_due 2 repo.
Definition reclaim_prog : prog MemStore ObjectManifest GcError N := reclaim_expired_uploads repo 0.

(** An empty object, so that its collection leaves no chunk to drain. *)
Definition empty_oid : string := ObjectOid_display (ObjectOid_from_bytes (sha256_digest [])).
Definition upload_empty_prog : prog MemStore ObjectManifest ApiError N :=
  upload_basic dev_state "team" "assets" empty_oid headers [].

Definition with_empty : CWorld := after upload_empty_prog fresh.
Definition seen_once : CWorld := after snapshot_prog with_empty.
Definition seen_twice : CWorld := after snapshot_prog seen_once.
Definition tombstoned : CWorld := after stage_prog seen_twice.
Definition collected_world : CWorld := after collect_prog tombstoned.

Lemma with_empty_ok : service_ok false with_empty.
Proof. apply (after_ok dev_state); [right; constructor|]. apply fresh_service_ok. Qed.
Lemma seen_once_ok : service_ok false seen_once.
Proof. apply after_gc_ok; [constructor|]. apply with_empty_ok. Qed.
Lemma seen_twice_ok : service_ok false seen_twice.
Proof. apply after_gc_ok; [constructor|]. apply seen_once_ok. Qed.
Lemma tombstoned_ok : service_ok false tombstoned.
Proof. apply after_gc_ok; [constructor|]. apply seen_twice_ok. Qed.

Definition empty_candidate : GcCandidate :=
  match (run dry_run_prog seen_twice).1 with
  | Ok (c :: _) => c
  | _ => mkGcCandidate sample_oid 1
  end.
Lemma empty_candidate_ok :
  gc_size empty_candidate = 0 ∧ ObjectOid_display (gc_oid empty_candidate) = empty_oid.
Proof. split; compute_eq. Qed.

Lemma candidate_eta c : mkGcCandidate (gc_oid c) (gc_size c) = c.
Proof. by destruct c. Qed.

Lemma dry_run_result : (run dry_run_prog seen_twice).1 = Ok [empty_candidate].
Proof. vm_compute. reflexivity. Qed.
Lemma stage_result : (run stage_prog seen_twice).1 = Ok [empty_candidate].
Proof. vm_compute. reflexivity. Qed.
Lemma collect_result : (run collect_prog tombstoned).1 = Ok (Some 1).
Proof. vm_compute. reflexivity. Qed.

Lemma snapshot_result : is_ok (run snapshot_prog with_empty).1 = true.
Proof. vm_compute. reflexivity. Qed.

Lemma submit_snapshot_atomic_witness :
  ∃ epoch, recorded (w_now with_empty) no_objects (w_db with_empty) epoch (w_db seen_once).
Proof.
  destruct ((run snapshot_prog with_empty).1) as [epoch|e] eqn:Hok;
    [|by pose proof snapshot_result as H; rewrite Hok in H].
  exists epoch.
  destruct (submit_snapshot_atomic no_objects with_empty (Ok epoch) seen_once) as [_ H];
    [exact (run_after _ _ _ Hok)|exact H].
Defined.

Lemma dry_run_spec_witness :
  run dry_run_prog seen_twice = (Ok [empty_candidate], after dry_run_prog seen_twice) ∧
  unreachable (w_db seen_twice) repo (ObjectOid_as_bytes (gc_oid empty_candidate)).
Proof.
  pose proof (run_after _ _ _ dry_run_result) as Hrun. split; [exact Hrun|].
  destruct (dry_run_spec repo seen_twice (Ok [empty_candidate]) (after dry_run_prog seen_twice))
    as (_ & H & _); [apply seen_twice_ok|exact Hrun|].
  apply (H (gc_oid empty_candidate) (gc_size empty_candidate)).
  rewrite candidate_eta. by left.
Defined.

Lemma stage_spec_witness :
  run stage_prog seen_twice = (Ok [empty_candidate], tombstoned) ∧
  staged (w_now seen_twice) repo 0 [empty_candidate] (w_db seen_twice) (w_db tombstoned).
Proof.
  pose proof (run_after _ _ _ stage_result
    : run stage_prog seen_twice = (Ok [empty_candidate], tombstoned)) as Hrun.
  split; [exact Hrun|].
  destruct (stage_spec repo 0 seen_twice [empty_candidate] tombstoned) as (_ & H & _);
    [apply seen_twice_ok|exact Hrun|exact H].
Defined.

Lemma collect_due_terminates_witness :
  length (due repo (w_now tombstoned) (w_db tombstoned)) = 1%nat ∧
  run collect_prog tombstoned ≠ (Ok None, collected_world).
Proof.
  assert (length (due repo (w_now tombstoned) (w_db tombstoned)) = 1%nat) as Hl by compute_eq.
  split; [exact Hl|].
  apply (collect_due_terminates 2 repo tombstoned collected_world); [apply tombstoned_ok|].
  rewrite Hl. constructor.
Defined.

Lemma collect_due_spec_witness :
  run collect_prog tombstoned = (Ok (Some 1), collected_world) ∧
  all_collected repo (w_now tombstoned) (w_db tombstoned) (w_db collected_world).
Proof.
  pose proof (run_after _ _ _ collect_result
    : run collect_prog tombstoned = (Ok (Some 1), collected_world)) as Hrun.
  split; [exact Hrun|].
  destruct (collect_due_spec 2 repo tombstoned 1 collected_world) as [_ H];
    [apply tombstoned_ok|exact Hrun|exact H].
Defined.

(** *** Abandoned uploads *)

(** The chunk was received and the session never finalized; a day passes. *)
Definition a_day_later (w : CWorld) : CWorld :=
  set_env (w_now w + 90000000000) (w_instant w) [] [] false w.
Definition abandoned_world : CWorld := a_day_later received.
Definition reclaimed_world : CWorld := after reclaim_prog abandoned_world.

Lemma a_day_later_ok w : service_ok false w → service_ok false (a_day_later w).
Proof. intros Hw. exact Hw. Qed.

Lemma abandoned_world_ok : service_ok false abandoned_world.
Proof. apply a_day_later_ok. apply received_ok. Qed.

Lemma reclaim_result : (run reclaim_prog abandoned_world).1 = Ok 1.
Proof. vm_compute. reflexivity. Qed.


(** *** A chunk of a finalized session *)

Definition published_then_collected : CWorld :=
  foldl (λ w f, f w) finished
    [after snapshot_prog; after snapshot_prog; after stage_prog;
     after (transaction GcDatabase (collect_one repo))].

Definition chunk_of_manifest : ChunkId :=
  cd_id (default (mkChunkDescriptor sample_id 0 0) (head (om_chunks manifest))).

Definition drain_prog : prog MemStore ObjectManifest GcError unit :=
  transaction GcDatabase (drain_one repo (ChunkId_as_bytes chunk_of_manifest)).

Lemma drain_blocked_by_finalized_session_witness :
  chunk_bytes (w_store published_then_collected) repo chunk_of_manifest = Some content ∧
  (run drain_prog published_then_collected).1 = Err (GcDatabase (Database FOREIGN_KEY_VIOLATION)) ∧
  chunk_bytes (w_store (after drain_prog published_then_collected)) repo chunk_of_manifest = None.
Proof.
  split; [compute_eq|].
  pose proof (run_after drain_prog published_then_collected _ eq_refl) as Hrun.
  destruct (drain_blocked_by_finalized_session repo chunk_of_manifest session
              (mkChunkRow 7 0) published_then_collected
              (run drain_prog published_then_collected).1 (after drain_prog published_then_collected))
    as (H1 & _ & H2).
  - split; reflexivity.
  - vm_compute. reflexivity.
  - reflexivity.
  - compute_eq.
  - vm_compute. reflexivity.
  - exact Hrun.
  - split; [exact H1|exact H2].
Defined.

(** *** Locks *)

Definition lock_request : LockRequest := {| lreq_path := "art/cover.psd" |}.
Definition lock_prog : prog MemStore ObjectManifest ApiError (N * LockResponse) :=
  create_lock dev_state "team" "assets" headers lock_request.
Definition locked : CWorld := after lock_prog fresh.
Definition unlock_prog : prog MemStore ObjectManifest ApiError UnlockResponse :=
  unlock dev_state "team" "assets" session headers {| ur_force := false |}.

Lemma locked_ok : service_ok false locked.
Proof. apply (after_ok dev_state); [left; constructor|]. apply fresh_service_ok. Qed.

Lemma create_lock_spec_witness :
  ∃ res, run lock_prog fresh = (Ok res, locked) ∧ res.1 = CREATED ∧ db_ok (w_db locked).
Proof.
  destruct ((run lock_prog fresh).1) as [res|e] eqn:Hok; [|by vm_compute in Hok].
  pose proof (run_after _ _ _ Hok : run lock_prog fresh = (Ok res, locked)) as Hrun.
  exists res. split; [exact Hrun|].
  destruct (create_lock_spec dev_state "team" "assets" headers lock_request fresh res locked)
    as (H1 & _ & H2 & _); [apply fresh_db_ok|exact Hrun|]. split; [exact H1|exact H2].
Defined.


Lemma lock_pages_complete_witness :
  ∃ locks, walk repo (Some 1) (w_db locked) None locks ∧
    locks = lock_of_row <$> matching_locks repo None None None (w_db locked).
Proof.
  destruct (lock_pages_complete repo (Some 1) (w_db locked)) as [[locks Hw] H].
  exists locks. split; [exact Hw|]. apply H. exact Hw.
Defined.

Lemma chunk_path_inj_witness :
  chunk_path repo sample_id = chunk_path (uuid_from (UUID_LIMIT + 7)) sample_id ∧
  repo = uuid_from (UUID_LIMIT + 7).
Proof.
  assert (chunk_path repo sample_id = chunk_path (uuid_from (UUID_LIMIT + 7)) sample_id) as H
    by compute_eq.
  split; [exact H|].
  destruct (chunk_path_inj repo (uuid_from (UUID_LIMIT + 7)) sample_id sample_id H) as [Hr _].
  exact Hr.
Defined.

(** *** Batches *)

Definition batch_request : BatchRequest :=
  {| br_operation := Download; br_transfers := ["basic"; "cdc"]%string; br_reference := None;
     br_objects := [{| bo_oid := om_object_oid manifest; bo_size := 7 |};
                    {| bo_oid := sample_oid; bo_size := 1 |}] |}.
Definition batch_prog : prog MemStore ObjectManifest ApiError BatchResponse :=
  batch dev_state "team" "assets" headers batch_request.

Lemma batch_spec_witness :
  ∃ resp, run batch_prog finished = (Ok resp, after batch_prog finished) ∧
    select_transfer (br_transfers batch_request) = Ok (bresp_transfer resp).
Proof.
  destruct ((run batch_prog finished).1) as [resp|e] eqn:Hok; [|by vm_compute in Hok].
  pose proof (run_after _ _ _ Hok) as Hrun. exists resp. split; [exact Hrun|].
  destruct (batch_spec dev_state "team" "assets" headers batch_request finished resp
              (after batch_prog finished)) as (_ & _ & H & _); [exact Hrun|exact H].
Defined.

(** *** Authentication *)

Lemma cache_key_preimage_inj_witness :
  cache_key_preimage "a" "o" "r" Read = cache_key_preimage "a" "o" "r" Read ∧ Read = Read.
Proof.
  split; [reflexivity|].
  destruct (cache_key_preimage_inj "a" "o" "r" Read "a" "o" "r" Read) as (_ & _ & _ & H);
    [compute_eq|compute_eq|compute_eq|compute_eq|reflexivity|exact H].
Defined.

Definition cached_key : bytes := [x01].
Definition cached (subject : string) : CWorld :=
  (cache_store 30 1 cached_key subject false fresh).2.

(** A cache of one entry, full: the entry is evicted. *)
Lemma cache_store_bounded_witness :
  size (w_auth_cache (cached "alice")) = 1%nat ∧
  N.of_nat (size (w_auth_cache (cache_store 30 1 [x02] "bob" false (cached "alice")).2)) ≤ 1.
Proof.
  split; [vm_compute; reflexivity|].
  destruct (cache_store_bounded 30 1 [x02] "bob" false (cached "alice")) as [H _];
    [done|vm_compute; discriminate|exact H].
Defined.

Definition forgejo_prog : prog MemStore ObjectManifest ApiError Identity :=
  authenticate_forgejo base 30000000 10 "Basic alice" "team" "assets" Write.


Definition oidc_state : AppState :=
  mkAppState base (Oidc "https://issuer" "lfs" {["k"%string := tt]}).
Definition bob_headers : HeaderMap :=
  {| h_authorization := Some "Bearer bob"%string; h_content_length := None |}.
Definition oidc_prog : prog MemStore ObjectManifest ApiError Identity :=
  authenticate oidc_state bob_headers "team" "assets" Write.

Lemma authenticate_oidc_sound_witness :
  run oidc_prog fresh = (Ok (mkIdentity "Bearer bob" "bob" false), after oidc_prog fresh) ∧
  ∃ grant, grant ∈ select_grants "team" "assets" "bob" (w_db fresh) ∧ gr_can_write grant = true.
Proof.
  pose proof (run_after oidc_prog fresh (Ok (mkIdentity "Bearer bob" "bob" false)) eq_refl) as Hrun.
  split; [exact Hrun|].
  destruct (authenticate_oidc_sound base "https://issuer" "lfs" {["k"%string := tt]} bob_headers
    "team" "assets" Write fresh (mkIdentity "Bearer bob" "bob" false) (after oidc_prog fresh))
    as (token & header & kid & jwk & key & claims & grant & _ & _ & _ & _ & _ & _ & Hg & Hw & Hid);
    [exact Hrun|].
  exists grant. injection Hid as _ Hsub _. rewrite Hsub. split; [exact Hg|exact Hw].
Defined.

(** ** All programs together *)

Abbreviation CThread := (thread (St:=MemStore) (Json:=ObjectManifest)).

(** The next thread of a list is a program of the service. *)
Tactic Notation "next_thread" tactic3(t) := apply Forall_cons; split; [t|].

(** A request with the token for what follows
    "/team/assets/info/lfs/objects/{oid}". *)
Definition object_path (o : string) (rest : list string) : list string :=
  ["team"; "assets"; "info"; "lfs"; "objects"; o]%string ++ rest.
Definition object_request (method : Method) (o : string) (rest : list string) (body : PlainBody)
  : ServerRequest := mkServerRequest method (object_path o rest) None headers body.

Definition begin_thread : CThread :=
  Thread (serve dev_state (object_request POST oid ["cdc"%string] (PlainBegin begin_request))).
Definition chunk_thread : CThread :=
  Thread (serve dev_state (object_request PUT oid ["cdc"; uuid_display session; "chunks"; "0"]%string
                             (PlainBytes content))).
Definition finalize_thread (id : Uuid) : CThread :=
  Thread (serve dev_state (object_request POST oid ["cdc"; uuid_display id; "finalize"]%string PlainEmpty)).
Definition download_thread : CThread :=
  Thread (serve dev_state (object_request GET oid [] PlainEmpty)).

Definition upload_threads : list CThread :=
  [begin_thread; chunk_thread; finalize_thread session; download_thread].
Definition upload_schedule : list nat :=
  ([0; 1; 2; 3] ++
   [0; 0; 0; 1; 0; 1; 0; 1; 1; 1; 1; 2; 2; 2; 2; 3; 2; 3; 2; 3; 3; 3; 3; 3; 3] ++
   [3; 2; 1; 0; 0; 1; 2; 3; 0; 1; 2; 3])%nat.

Lemma upload_threads_requests : Forall (requests dev_state) upload_threads.
Proof.
  next_thread (apply served). next_thread (apply served). next_thread (apply served).
  next_thread (apply served). apply Forall_nil. exact I.
Qed.

(** The threads are started and scheduled. *)
Lemma scheduled service (ts : list CThread) schedule w :
  Forall service ts → rtc (step service) ([], w) (exec schedule ts w).
Proof.
  intros Hts. etrans; [by apply (spawn_all service [] ts)|]. apply exec_sound.
Qed.

Definition uploaded : list CThread * CWorld := exec upload_schedule upload_threads fresh.

Lemma service_invariant_witness :
  db_ok (w_db uploaded.2) ∧ is_Some (objects (w_db uploaded.2) !!
                               (repo, ObjectOid_as_bytes (om_object_oid manifest))).
Proof.
  split; [|compute_eq].
  destruct (service_invariant dev_state fresh uploaded.1 uploaded.2) as [H _];
    [exact (service_ok_weaken _ fresh_service_ok)| |exact H].
  rewrite <- (surjective_pairing uploaded). apply scheduled.
  eapply Forall_impl; [exact upload_threads_requests|]. intros t Ht. left. exact Ht.
Defined.

Lemma uploaded_row :
  ob_manifest <$> objects (w_db uploaded.2) !! (repo, ObjectOid_as_bytes (om_object_oid manifest)) =
    Some manifest.
Proof. compute_eq. Qed.

Lemma published_objects_complete_witness :
  published (w_db uploaded.2) repo (ObjectOid_as_bytes (om_object_oid manifest)) manifest ∧
  available (w_store uploaded.2) repo (om_chunks manifest).
Proof.
  assert (rtc (step (requests dev_state)) ([], fresh) (uploaded.1, uploaded.2)) as Hsteps.
  { rewrite <- (surjective_pairing uploaded). apply scheduled. exact upload_threads_requests. }
  assert (published (w_db uploaded.2) repo (ObjectOid_as_bytes (om_object_oid manifest)) manifest)
    as Hpub.
  { apply published_row; [|exact uploaded_row].
    apply (reachable_ok dev_state fresh uploaded.1 uploaded.2);
      [exact (service_ok_weaken _ fresh_service_ok)|].
    rewrite <- (surjective_pairing uploaded). apply scheduled.
    eapply Forall_impl; [exact upload_threads_requests|]. intros t Ht. left. exact Ht. }
  split; [exact Hpub|].
  destruct (published_objects_complete dev_state fresh uploaded.1 uploaded.2) as [_ H];
    [exact fresh_service_ok|exact Hsteps|]. exact (H _ _ _ Hpub).
Defined.

(** Two objects, of which only one is reachable. *)
Definition both : CWorld := after upload_empty_prog finished.
Lemma both_ok : service_ok false both.
Proof. apply (after_ok dev_state); [right; apply req_upload_basic|]. apply finished_ok. Qed.

Definition keep_prog : prog MemStore ObjectManifest SqlxError Uuid :=
  submit_snapshot {| rs_repository_id := repo; rs_ref_fingerprint := "main";
                     rs_reachable_objects := [om_object_oid manifest] |}.

Definition gc_threads : list CThread :=
  [Thread keep_prog; Thread keep_prog; Thread stage_prog; Thread collect_prog; download_thread].
Definition gc_run : list CThread * CWorld :=
  exec (foldr (λ i l, replicate 14 i ++ l) [] [0; 1; 2; 4; 3]%nat) gc_threads both.

Lemma gc_threads_programs : Forall (without_publishing dev_state) gc_threads.
Proof.
  next_thread (right; apply op_submit_snapshot).
  next_thread (right; apply op_submit_snapshot).
  next_thread (right; apply op_stage).
  next_thread (right; apply op_collect_due).
  next_thread (left; apply served_plain; vm_compute; reflexivity). apply Forall_nil. exact I.
Qed.

Lemma gc_run_row :
  ob_manifest <$> objects (w_db gc_run.2) !! (repo, ObjectOid_as_bytes (om_object_oid manifest)) =
    Some manifest.
Proof. compute_eq. Qed.

(** The unreachable object is gone, the other one is complete. *)
Lemma collector_keeps_published_witness :
  size (objects (w_db both)) = 2%nat ∧ size (objects (w_db gc_run.2)) = 1%nat ∧
  published (w_db gc_run.2) repo (ObjectOid_as_bytes (om_object_oid manifest)) manifest ∧
  available (w_store gc_run.2) repo (om_chunks manifest).
Proof.
  split; [compute_eq|]. split; [compute_eq|].
  assert (published (w_db gc_run.2) repo (ObjectOid_as_bytes (om_object_oid manifest)) manifest)
    as Hpub.
  { apply published_row; [|exact gc_run_row].
    apply (reachable_ok dev_state both gc_run.1 gc_run.2);
      [exact (service_ok_weaken _ both_ok)|].
    rewrite <- (surjective_pairing gc_run). apply scheduled.
    eapply Forall_impl; [exact gc_threads_programs|].
    intros t [[req _]|Ht]; [left; apply served|right; exact Ht]. }
  split; [exact Hpub|].
  pose proof (collector_keeps_published dev_state both gc_run.1 gc_run.2) as H.
  refine (H _ _ _ _ _ Hpub); [exact both_ok|].
  rewrite <- (surjective_pairing gc_run). apply scheduled. exact gc_threads_programs.
Defined.

(** ** An upload that races with the collector *)

Definition resumed_session : Uuid := uuid_from 103.

(** An object is uploaded and becomes unreachable; a client begins to upload
    it again (no chunk is missing, so it sends none) and finalizes. *)
Definition race_threads : list CThread :=
  [begin_thread; chunk_thread; finalize_thread session;
   Thread snapshot_prog; Thread snapshot_prog; Thread stage_prog; begin_thread;
   finalize_thread resumed_session; Thread collect_prog].

(** The collector runs between the verification of the last thread but one and
    its publication. *)
Definition race_schedule : list nat :=
  foldr (λ i l, replicate 13 i ++ l) [] [0; 1; 2; 3; 4; 5; 6]%nat ++
  replicate 5 7%nat ++ replicate 9 8%nat ++ replicate 9 7%nat.
Definition race : list CThread * CWorld := exec race_schedule race_threads fresh.

Lemma race_programs : Forall (everything dev_state) race_threads.
Proof.
  next_thread (left; apply served). next_thread (left; apply served). next_thread (left; apply served).
  next_thread (right; apply op_submit_snapshot).
  next_thread (right; apply op_submit_snapshot).
  next_thread (right; apply op_stage).
  next_thread (left; apply served). next_thread (left; apply served).
  next_thread (right; apply op_collect_due). apply Forall_nil. exact I.
Qed.

Lemma race_row :
  ob_manifest <$> objects (w_db race.2) !! (repo, ObjectOid_as_bytes (om_object_oid manifest)) =
    Some manifest.
Proof. compute_eq. Qed.

Lemma race_lost : chunk_bytes (w_store race.2) repo chunk_of_manifest = None.
Proof. compute_eq. Qed.

(** Publication is not isolated from collection: [finalize_cdc] verifies
    the stored chunks before the publication transaction and does not register
    them to the session, so the collector may delete them in between; from an
    empty repository the service reaches a world in which a published object
    has lost a chunk. *)
Theorem finalize_races_collection :
  ∃ ts w r o m, rtc (step (everything dev_state)) ([], fresh) (ts, w) ∧
    published (w_db w) r o m ∧ ¬ available (w_store w) r (om_chunks m).
Proof.
  assert (rtc (step (everything dev_state)) ([], fresh) (race.1, race.2)) as Hsteps.
  { rewrite <- (surjective_pairing race). apply scheduled. exact race_programs. }
  exists race.1, race.2, repo, (ObjectOid_as_bytes (om_object_oid manifest)), manifest.
  split; [exact Hsteps|]. split.
  - apply published_row; [|exact race_row].
    apply (reachable_ok dev_state fresh race.1 race.2);
      [exact (service_ok_weaken _ fresh_service_ok)|exact Hsteps].
  - intros Hav.
    assert (is_Some (chunk_bytes (w_store race.2) repo chunk_of_manifest)) as [b Hb].
    { apply Hav. apply (bool_decide_unpack _). vm_compute. exact I. }
    rewrite race_lost in Hb. discriminate.
Qed.

(** ** Start-up *)

(** A development host: a loopback address, one applied migration. *)
Definition plain_env (name : string) : EnvVar :=
  if decide (name = "GIT_LFS_DELTA_DATABASE_URL"%string) then EnvValue "postgres://db"
  else if decide (name = "GIT_LFS_DELTA_BASE_URL"%string) then EnvValue "https://lfs.example"
  else if decide (name = "GIT_LFS_DELTA_STORAGE_URL"%string) then EnvValue "file:///srv"
  else if decide (name = "GIT_LFS_DELTA_AUTH_MODE"%string) then EnvValue "development"
  else if decide (name = "GIT_LFS_DELTA_DEV_TOKEN"%string) then EnvValue "secret"
  else if decide (name = "GIT_LFS_DELTA_MAX_BASIC_TRANSFERS"%string) then EnvValue "0"
  else EnvNotPresent.

#[export] Instance plain_host : Host := {|
  SocketAddr := string;
  env_var := plain_env;
  temp_dir := "/tmp";
  url_as_str u := foldr String.append EmptyString u;
  socket_addr_parse s := Ok s;
  is_loopback s := bool_decide (s = "127.0.0.1:8080"%string);
  pool_connect _ _ := Ok ();
  history_exists := Ok true;
  history := Ok [mkApplied 1 [x01] true; mkApplied 9 [x09] true];
  store_parse_url _ := Ok ();
  client_build := Ok ();
  tcp_bind _ := Ok ();
  max_permits := 2305843009213693951;
|}.

#[export] Instance plain_provider : OidcProvider := {|
  oidc_discovery _ := HttpTransport;
  oidc_jwks _ := HttpTransport;
|}.

Definition migrations : list Migration := [mkMigration 1 false [x01]; mkMigration 1 true [x02]].

Definition dev_server : Server :=
  mkServer (AppState_new base "secret") "127.0.0.1:8080"%string 20 "/tmp" 1 64.

Lemma startup_fail_closed_witness :
  startup migrations = Ok dev_server ∧
  configured "GIT_LFS_DELTA_AUTH_MODE" "development" ∧ 1 ≤ sv_basic_transfers dev_server.
Proof.
  assert (startup migrations = Ok dev_server) as Hs by (vm_compute; reflexivity).
  split; [exact Hs|].
  destruct (startup_fail_closed migrations dev_server Hs) as (_ & _ & (Hmode & _) & _ & Hb & _).
  split; [exact Hmode|exact Hb].
Defined.

(** ** Provisioning *)

Definition add_prog : prog MemStore ObjectManifest SqlxError Uuid := repository_add "team" "textures".
Definition textures : Uuid := uuid_from 100.
Definition grant_prog : prog MemStore ObjectManifest SqlxError unit := grant textures "carol" false true.

Lemma fresh_tenants : tenants_ok fresh_db.
Proof.
  split; cbn.
  - intros r r' row [<- _]%lookup_singleton_Some [<- _]%lookup_singleton_Some. reflexivity.
  - intros k row [_ <-]%lookup_singleton_Some. reflexivity.
  - intros r s row [H _]%lookup_singleton_Some. injection H as <- <-.
    exists {| rp_owner := "team"; rp_name := "assets" |}. reflexivity.
Qed.

Lemma add_result : (run add_prog fresh).1 = Ok textures.
Proof. compute_eq. Qed.
Lemma grant_result : (run grant_prog (after add_prog fresh)).1 = Ok tt.
Proof. compute_eq. Qed.

Lemma provisioning_spec_witness :
  run add_prog fresh = (Ok textures, after add_prog fresh) ∧
  select_grants "team" "textures" "carol" (w_db (after grant_prog (after add_prog fresh))) =
    [{| gr_can_read := true; gr_can_write := true; gr_can_admin := true |}].
Proof.
  pose proof (run_after _ _ _ add_result) as Hadd.
  pose proof (run_after _ _ _ grant_result) as Hgrant.
  split; [exact Hadd|].
  destruct (provisioning_spec "team" "textures" "carol" false true fresh textures _ _
              fresh_tenants Hadd Hgrant) as (_ & _ & _ & Hg & _).
  exact Hg.
Defined.

(** ** Metrics *)

(** A readiness probe of a healthy service, and a request without credentials. *)
Definition ready_prog : prog MemStore ObjectManifest Empty_set Response :=
  serve dev_state (mkServerRequest GET ["readyz"%string] None headers PlainEmpty).
Definition refused_prog : prog MemStore ObjectManifest Empty_set Response :=
  serve dev_state (mkServerRequest GET (object_path oid []) None
                     {| h_authorization := None; h_content_length := None |} PlainEmpty).

Definition probed : CWorld := after ready_prog fresh.
Definition refused : CWorld := after refused_prog probed.

Definition ready_response : Response := status_response NO_CONTENT.
Definition refused_response : Response := ApiError_into_response ApiError_unauthorized.

Lemma probe_result : (run ready_prog fresh).1 = Ok ready_response.
Proof. vm_compute. reflexivity. Qed.
Lemma refused_result : (run refused_prog probed).1 = Ok refused_response.
Proof. vm_compute. reflexivity. Qed.

Lemma metrics_steps :
  rtc (step (requests dev_state)) ([], fresh)
    ([Thread (@Ret MemStore ObjectManifest Empty_set Response (Ok ready_response));
      Thread (@Ret MemStore ObjectManifest Empty_set Response (Ok refused_response))], refused).
Proof.
  eapply rtc_l; [apply (step_spawn _ [] (Thread ready_prog)); apply served|].
  etrans; [exact (run_steps _ _ [] [] _ _ _ (run_after _ _ _ probe_result))|].
  eapply rtc_l; [apply (step_spawn _ _ (Thread refused_prog)); apply served|].
  exact (run_steps _ _ [Thread (@Ret MemStore ObjectManifest Empty_set Response (Ok ready_response))]
           [] _ _ _ (run_after _ _ _ refused_result)).
Qed.

Lemma http_metrics_exact_witness :
  http_of fresh = (0, 0, 0) ∧
  ∃ statuses, same_counters (http_of refused)
    (0, 2, lenN (filter (λ s, is_server_error s = true) statuses)).
Proof.
  split; [reflexivity|].
  destruct (http_metrics_exact dev_state fresh _ _ eq_refl metrics_steps) as [_ H].
  destruct H as (statuses & _ & Hc).
  - apply Forall_cons; split; [exact I|]. apply Forall_cons; split; [exact I|apply Forall_nil; exact I].
  - exists statuses. exact Hc.
Defined.
