(* ===== verification/OperationExamples.v ===== *)
(** * OperationExamples: routing, migration and the developer tasks at work

    A migrator that does what its laws say, a workstation whose commands fail
    where it is told to, and the environment that [cargo dev] makes for the
    server.  The theorems of [Routes], [Migrate] and [Xtask] are applied there. *)
From S2P Require Import Prelude Digest Text Protocol Storage Database Effects Api Startup Shutdown Migrate Xtask Metrics Routes Examples.
#[local] Open Scope N_scope.

(** ** Routing *)

Definition routed_path : list string := object_path "ab" ["cdc"; "chunks"; "7"]%string.

Lemma find_route_exact_witness :
  find_route GET routed_path = Ok (EDownloadCdcChunk, ["team"; "assets"; "ab"; "7"]%string) ∧
  ∃ r, route_of routed_path r ∧ method_endpoint GET (rt_methods r) = Some EDownloadCdcChunk.
Proof.
  assert (H : find_route GET routed_path = Ok (EDownloadCdcChunk, ["team"; "assets"; "ab"; "7"]%string))
    by (vm_compute; reflexivity).
  split; [exact H|].
  destruct (proj1 (proj1 (find_route_exact (axum_laws := plain_router_laws) GET routed_path) _ _) H)
    as (r & Hr & He & _).
  exists r. split; [exact Hr|exact He].
Defined.

(** ** Migration *)

Definition matches_history (ms : list Migration) (h : History) : bool :=
  forallb am_success (rows h) &&
  forallb (λ m, forallb (λ row,
    negb (bool_decide (am_version row = mg_version m)) || bool_decide (am_checksum row = mg_checksum m))
    (rows h)) (up_migrations ms).

#[local] Instance strict_migrator : Migrator := {|
  migrator_run ms h :=
    if matches_history ms h
    then (Ok tt, Some (rows h ++ (applied_now <$>
            filter (λ m, find_applied (mg_version m) (rows h) = None) (up_migrations ms))))
    else (Err "migration was previously applied but has been modified"%string, h);
|}.

#[local] Instance strict_migrator_laws ms : MigratorLaws ms.
Proof.
  split.
  - intros h. cbn. destruct (matches_history ms h); cbn; [by eexists|done].
  - intros h h'. cbn. destruct (matches_history ms h) eqn:Hm; [|done]. intros [= <-].
    unfold matches_history in Hm. apply andb_true_iff in Hm as [Hs Hc].
    rewrite forallb_forall in Hs, Hc. split_and!; [| |done].
    + apply Forall_forall. intros row Hrow. apply Hs. by apply list_elem_of_In.
    + intros m row Hin Hrow Hv. specialize (Hc m (proj1 (list_elem_of_In _ _) Hin)).
      rewrite forallb_forall in Hc. specialize (Hc row (proj1 (list_elem_of_In _ _) Hrow)).
      rewrite (bool_decide_eq_true_2 _ Hv) in Hc. cbn in Hc. by apply bool_decide_eq_true in Hc.
Qed.

(** Two migrations, of which the first was applied, and a newer one. *)
Definition two_migrations : list Migration :=
  [mkMigration 1 false [x01]; mkMigration 2 false [x02]; mkMigration 2 true [x03]].
Definition old_history : History := Some [mkApplied 1 [x01] true; mkApplied 9 [x09] true].
Definition new_history : History :=
  Some [mkApplied 1 [x01] true; mkApplied 9 [x09] true; mkApplied 2 [x02] true].

Lemma migrate_makes_current_witness :
  migrate two_migrations (Ok tt) (Ok tt) (Ok tt) old_history = (Ok tt, new_history) ∧
  is_ok (history_check two_migrations old_history) = false ∧
  is_ok (history_check two_migrations new_history) = true.
Proof.
  assert (H : migrate two_migrations (Ok tt) (Ok tt) (Ok tt) old_history = (Ok tt, new_history))
    by (vm_compute; reflexivity).
  split; [exact H|split; [vm_compute; reflexivity|]].
  refine (proj1 (proj2 (migrate_makes_current two_migrations _ _ _ _ _ _ H))).
  apply (bool_decide_unpack _). vm_compute. exact I.
Defined.

(** ** The developer tasks *)

#[local] Instance build : Build := {|
  CARGO_PKG_VERSION := "0.1.2";
  CARGO_MANIFEST_DIR := "/work/crates/xtask";
  CARGO := None;
|}.

(** The world is the list of files; every command but the migration succeeds. *)
#[local] Instance workstation : Workstation (list (string * string)) := {|
  command_status _ _ arguments _ w :=
    (Ok (if decide ("migrate"%string ∈ arguments) then Some 1 else Some 0), w);
  read_to_string path w :=
    ok_or (io_other "No such file or directory") (snd <$> head (filter (λ kv, kv.1 = path) w));
  is_file path w := bool_decide (path ∈ w.*1);
  create_dir_all _ w := (Ok tt, w);
|}.

Definition idle : Machine (W := list (string * string)) := mkMachine [] [].
Definition dev_run := dev "/work" idle.

Lemma tasks_in_order_witness :
  dev_run.1 = Err (CommandExited "cargo" (Some 1)) ∧
  ∃ taken failed rest, dev_steps "/work" = taken ++ failed :: rest ∧
    mc_log dev_run.2 = ((., true) <$> taken) ++ [(failed, false)].
Proof.
  assert (H1 : dev_run.1 = Err (CommandExited "cargo" (Some 1))) by (vm_compute; reflexivity).
  split; [exact H1|].
  assert (H2 : dev "/work" idle = (Err (CommandExited "cargo" (Some 1)), dev_run.2)).
  { rewrite <- H1. apply surjective_pairing. }
  exact (proj1 (tasks_in_order "/work" idle _ _) H2).
Defined.

(** The release of a workspace with all its files. *)
Definition release_files : list (string * string) :=
  [("/work/scripts/install.sh", "#!/bin/sh DEFAULT_VERSION='v0.1.2' ");
   ("/work/CHANGELOG.md", "# Changelog ## [0.1.2] ## [0.1.1]");
   ("/work/docker-compose.production.yml", "image: ghcr.io/tamedtornado/git-lfs-delta:v0.1.2");
   ("/work/.env.example", "IMAGE=ghcr.io/tamedtornado/git-lfs-delta:v0.1.2");
   ("/work/CLIENT-README.md", ""); ("/work/scripts/package-client.sh", "")]%string.

Example release_checked :
  (xtask_main ["release-check"; "v0.1.2"]%string (mkMachine release_files [])).1 = 0 ∧
  (xtask_main ["release-check"; "0.1.2"]%string (mkMachine release_files [])).1 = 1 ∧
  (xtask_main ["release-check"]%string (mkMachine (tail release_files) [])).1 = 1.
Proof. split_and!; vm_compute; reflexivity. Qed.

(** The host on which [cargo dev] runs the server. *)
Definition dev_storage : string := storage_dir "/work".
Definition dev_staging : string := staging_dir "/work".
#[local] Instance dev_host : Host := {|
  SocketAddr := string;
  env_var := child_env (λ _, EnvNotPresent) (dev_environment (file_url dev_storage) dev_staging);
  temp_dir := "/tmp";
  url_as_str u := foldr String.append EmptyString u;
  socket_addr_parse s := Ok s;
  is_loopback s := bool_decide (s = "127.0.0.1:8080"%string);
  pool_connect url _ := if decide (url = DATABASE_URL) then Ok () else Err Io;
  history_exists := Ok true;
  history := Ok (rows new_history);
  store_parse_url _ := Ok ();
  client_build := Ok ();
  tcp_bind _ := Ok ();
  max_permits := 2305843009213693951;
|}.

Definition local_server : Server :=
  mkServer (host := dev_host) (AppState_new ["http://127.0.0.1:8080/"]%string DEVELOPMENT_TOKEN)
    "127.0.0.1:8080"%string 20 dev_staging 2 64.

Lemma dev_server_starts_witness :
  file_url dev_storage = "file:///work/target/dev/storage"%string ∧
  startup (host := dev_host) two_migrations = Ok local_server.
Proof.
  split; [vm_compute; reflexivity|].
  apply (dev_server_starts (host := dev_host) two_migrations (λ _, EnvNotPresent) dev_storage dev_staging
           ["http://127.0.0.1:8080/"]%string [file_url dev_storage] "127.0.0.1:8080"%string);
    first [reflexivity | vm_compute; reflexivity | vm_compute; discriminate].
Defined.

(** ** Shutdown *)

(** A connection is open when SIGTERM arrives, and stays open. *)
Definition serving : list Action := [Install true; Advance; Advance; Connect].
Definition stopping : list Action := [Arrive Terminate; Send; Drain; Alarm].
Definition waiting : list Action := replicate 30 Tick.

Definition reached (l : list Action) : Run := default started (acts l started).

Lemma acts_reached l : is_Some (acts l started) → rtc step started (reached l).
Proof. intros [s Hs]. unfold reached. rewrite Hs. by apply (acts_steps l). Qed.

Lemma shutdown_in_order_witness :
  run_main (reached (serving ++ stopping ++ waiting ++ [Expire])) = Exited true ∧
  run_now (reached (serving ++ stopping ++ waiting ++ [Expire])) = 30.
Proof.
  assert (H : run_main (reached (serving ++ stopping ++ waiting ++ [Expire])) = Exited true)
    by (vm_compute; reflexivity).
  split; [exact H|].
  destruct (shutdown_in_order (reached (serving ++ stopping ++ waiting ++ [Expire])) true) as (t & Ht & Hn).
  - apply acts_reached. vm_compute. by eexists.
  - exact H.
  - assert (run_requested (reached (serving ++ stopping ++ waiting ++ [Expire])) = Some 0) as Hr
      by (vm_compute; reflexivity).
    rewrite Ht in Hr. injection Hr as ->. exact Hn.
Defined.

Lemma shutdown_in_time_witness :
  run_requested (reached (serving ++ stopping)) = Some 0 ∧
  ∀ n s', nsteps step n (reached (serving ++ stopping)) s' → N.of_nat n ≤ 1 + 32.
Proof.
  split; [vm_compute; reflexivity|].
  refine (proj2 (proj2 (shutdown_in_time (reached serving) (reached (serving ++ stopping)) 0 _ _ _ _ _)) 0 0 _ _).
  - apply acts_reached. vm_compute. by eexists.
  - vm_compute. discriminate.
  - vm_compute. reflexivity.
  - apply (acts_steps stopping). vm_compute. reflexivity.
  - vm_compute. reflexivity.
  - vm_compute. reflexivity.
  - vm_compute. reflexivity.
Defined.
