(* ===== verification/CompletionExamples.v ===== *)
(** * CompletionExamples: an upload that succeeds, and one that is hindered

    [upload_basic_completes] and [upload_cdc_completes] at the concrete service of [Examples], and why it
    asks that the recorded chunks have their lengths: a chunk whose upload fails
    its digest check leaves a row of the length its sender declared, and an
    honest upload of that chunk is refused from then on. *)
From S2P Require Import Prelude Digest Manifest Stream Protocol Storage Database Effects Api Sessions Uploads UploadSpecs Delivery Completion CdcCompletion Examples.
#[local] Open Scope N_scope.

(** ** An upload in a fresh repository, in two frames *)

Definition frames : list bytes := [[x67; x69; x74; x2d]; [x6c; x66; x73]].

Lemma manifest_single : ∃ d, om_chunks manifest = [d].
Proof. eexists. vm_compute. reflexivity. Qed.

Lemma fresh_clear : clear repo manifest fresh.
Proof. split; [reflexivity| |reflexivity]. intros id row H. simplify_map_eq. Qed.

Lemma fresh_compatible : compatible repo manifest (w_db fresh).
Proof.
  split; [|intros d row _ H; simplify_map_eq]. intros d d' Hd Hd' _. destruct manifest_single as [x Hx].
  rewrite Hx in Hd, Hd'. apply list_elem_of_singleton in Hd as ->, Hd' as ->. reflexivity.
Qed.

Lemma upload_basic_completes_witness :
  concat frames = content ∧
  ∃ w', run (upload_basic dev_state "team" "assets" oid headers (Ok <$> frames)) fresh = (Ok NO_CONTENT, w') ∧
    ∃ m', published (w_db w') repo (ObjectOid_as_bytes (om_object_oid manifest)) m' ∧
          available (w_store w') repo (om_chunks manifest).
Proof.
  split; [reflexivity|].
  apply (upload_basic_completes dev_state "team" "assets" oid headers frames fresh fresh identity
           repo manifest manifest).
  - reflexivity.
  - split; reflexivity.
  - exact fresh_db_ok.
  - vm_compute. discriminate.
  - discriminate.
  - compute_eq.
  - compute_eq.
  - vm_compute. reflexivity.
  - reflexivity.
  - exact fresh_clear.
  - exact fresh_compatible.
Defined.

(** ** The same object, chunk by chunk *)

Lemma dev_writer : writer (St:=MemStore) (Json:=ObjectManifest) dev_state headers "team" "assets".
Proof.
  intros w Hw. exists identity, w. split; [reflexivity|]. split; [exact Hw|reflexivity..].
Qed.

Lemma content_matches d : d ∈ om_chunks manifest → matches d content.
Proof.
  destruct manifest_single as [x Hx]. rewrite Hx. intros ->%list_elem_of_singleton.
  assert (H : head (om_chunks manifest) = Some x) by (rewrite Hx; reflexivity).
  revert H. vm_compute. intros [= <-]. split; reflexivity.
Qed.

Lemma upload_cdc_completes_witness :
  ∃ w', run (cdc_upload dev_state "team" "assets" oid headers manifest (λ _, content)) fresh = (Ok NO_CONTENT, w') ∧
    ∃ m', published (w_db w') repo (ObjectOid_as_bytes (om_object_oid manifest)) m'.
Proof.
  apply (upload_cdc_completes dev_state "team" "assets" oid headers repo manifest manifest (λ _, content)).
  - exact dev_writer.
  - compute_eq.
  - vm_compute. reflexivity.
  - reflexivity.
  - exact content_matches.
  - compute_eq.
  - split; reflexivity.
  - exact fresh_db_ok.
  - compute_eq.
  - exact fresh_clear.
  - exact fresh_compatible.
  - intros d b _ H. discriminate H.
Defined.

(** ** A chunk recorded with a wrong length *)

(** A manifest of three bytes that names the chunk of [content]. *)
Definition false_manifest : ObjectManifest :=
  {| om_version := V1; om_profile := FastCdcV1;
     om_object_oid := ObjectOid_from_bytes (sha256_digest [x01]);
     om_object_size := 3;
     om_chunks := [{| cd_id := ChunkId_from_bytes (blake3_hash content); cd_offset := 0; cd_length := 3 |}] |}.
Definition false_oid : string := ObjectOid_display (om_object_oid false_manifest).

Definition false_begin : prog MemStore ObjectManifest ApiError BeginUploadResponse :=
  begin_cdc dev_state "team" "assets" false_oid headers
    {| bu_protocol_version := 1; bu_manifest := false_manifest |}.
Definition false_chunk : prog MemStore ObjectManifest ApiError N :=
  upload_cdc_chunk dev_state "team" "assets" false_oid session 0 headers [x00; x00; x00].
Definition poisoned : CWorld := after false_chunk (after false_begin fresh).

(** The chunk is refused, its row stays, and the upload that
    [Examples.basic_result] shows to succeed otherwise is refused. *)
Theorem wrong_length_blocks_upload :
  ae_status <$> match (run false_chunk (after false_begin fresh)).1 with Err e => Some e | Ok _ => None end
    = Some UNPROCESSABLE_ENTITY ∧
  chunk_bytes (w_store poisoned) repo (ChunkId_from_bytes (blake3_hash content)) = None ∧
  (run basic_prog poisoned).1 = Err ApiError_integrity.
Proof. vm_compute. split_and!; reflexivity. Qed.
