(* ===== verification/CatalogueExamples.v ===== *)
(** * CatalogueExamples: one step of the service and one of the catalogue

    The collector removes a condemned object whose grace period is over: a
    single action of the service, and the transition [collect] of the abstract
    machine. *)
From S2P Require Import Prelude Digest Manifest Stream Protocol Storage Database Effects Api Sessions Uploads Gc Service Catalogue Examples.
#[local] Open Scope N_scope.

(** The catalogue before and after the first action of [collect_due]. *)
Definition swept : CWorld := (atomically GcDatabase (collect_one repo) tombstoned).2.

Lemma swept_catalogue :
  size (cat_objects (catalogue tombstoned)) = 1%nat ∧ size (cat_condemned (catalogue tombstoned)) = 1%nat ∧
  size (cat_objects (catalogue swept)) = 0%nat ∧ size (cat_condemned (catalogue swept)) = 0%nat.
Proof. split_and!; compute_eq. Qed.

Lemma collector_first_action : ∃ t, step (everything dev_state) ([Thread collect_prog], tombstoned) ([t], swept).
Proof.
  unfold swept. destruct (atomically GcDatabase (collect_one repo) tombstoned) as [x w'] eqn:Hf.
  eexists. exact (step_act _ [] [] (atomically GcDatabase (collect_one repo)) _ tombstoned x w' Hf).
Qed.

Lemma service_refines_catalogue_witness :
  cat_objects (catalogue swept) ≠ cat_objects (catalogue tombstoned) ∧
  (catalogue swept = catalogue tombstoned ∨ transition (catalogue tombstoned) (catalogue swept)).
Proof.
  destruct swept_catalogue as (H1 & _ & H2 & _). split; [intros H; rewrite <- H, H2 in H1; discriminate H1|].
  destruct collector_first_action as [t Hstep].
  apply (service_refines_catalogue dev_state tombstoned [Thread collect_prog] tombstoned [t] swept);
    [|apply rtc_once, (step_spawn (everything dev_state) []); right; apply op_collect_due|exact Hstep].
  apply service_ok_weaken. exact tombstoned_ok.
Defined.
