(* ===== verification/TenancyExamples.v ===== *)
(** * TenancyExamples: two tenants

    A second repository beside the one with a published object: its owner uploads
    the same bytes, and somebody with a wrong token tries to write to the first.
    the collector runs for it.
    The theorems of [Isolation] and [Access] are applied there. *)
From S2P Require Import Prelude Digest Manifest Stream Protocol Storage Database Effects Api Sessions Uploads Gc Locks Admin Metrics Routes Router Service Tenancy Isolation Errors Access Examples.
#[local] Open Scope N_scope.

(** ** Isolation *)

(** [team/textures], added to the world where [team/assets] has an object. *)
Definition two_tenants : CWorld := after add_prog finished.
Definition other : Uuid := default repo (select_repository_id "team" "textures" (w_db two_tenants)).

Definition wrong_headers : HeaderMap :=
  {| h_authorization := Some "Bearer guess"%string; h_content_length := None |}.

(** The other tenant uploads and locks, a stranger uploads to the first tenant, and
    the object of the first tenant is downloaded. *)
Definition tenant_requests : list ServerRequest :=
  [mkServerRequest PUT (["team"; "textures"; "info"; "lfs"; "objects"; oid]%string) None headers
     (PlainBytes content);
   mkServerRequest POST (["team"; "textures"; "info"; "lfs"; "locks"]%string) None headers
     (PlainLock {| lreq_path := "a.bin" |});
   mkServerRequest PUT (object_path oid []) None wrong_headers (PlainBytes content);
   object_request GET oid [] PlainEmpty].
Definition other_snapshot_prog : prog MemStore ObjectManifest SqlxError Uuid :=
  submit_snapshot {| rs_repository_id := other; rs_ref_fingerprint := "main"; rs_reachable_objects := [] |}.
(** The collector runs for the other tenant: nothing it has is reachable. *)
Definition collector_threads : list CThread :=
  [Thread other_snapshot_prog; Thread other_snapshot_prog;
   Thread (stage (St:=MemStore) (Json:=ObjectManifest) other 0);
   Thread (collect_due (St:=MemStore) (Json:=ObjectManifest) 3 other)].
Definition tenant_threads : list CThread :=
  ((λ req, Thread (serve dev_state req)) <$> tenant_requests) ++ collector_threads.
Definition requests_ran : list CThread * CWorld :=
  exec (concat (replicate 40 [0; 1; 2; 3]%nat)) tenant_threads two_tenants.
Definition tenants_ran : list CThread * CWorld :=
  exec (concat (replicate 40 [0; 1; 2; 3]%nat) ++
        foldr (λ i l, replicate 14 i ++ l) [] [4; 5; 6; 7]%nat) tenant_threads two_tenants.

Lemma two_tenants_ok : service_ok false two_tenants.
Proof. apply after_gc_ok; [apply op_repository_add|apply finished_ok]. Qed.

Lemma steps_of_schedule service (ts : list CThread) schedule w :
  Forall service ts → rtc (step service) ([], w) ((exec schedule ts w).1, (exec schedule ts w).2).
Proof. intros Hts. rewrite <- surjective_pairing. by apply scheduled. Qed.

(** A repository that is not named so. *)
Definition not_named (w : CWorld) (owner name : string) (r : Uuid) : bool :=
  match repositories (w_db w) !! r with
  | Some row => negb (bool_decide (rp_owner row = owner ∧ rp_name row = name))
  | None => true
  end.

Lemma not_named_spec (w : CWorld) owner name r :
  not_named w owner name r = true → ¬ named (tenants_of (w_db w)) owner name r.
Proof.
  unfold not_named. intros H (row & Hr & Hn). cbn in Hr. rewrite Hr in H.
  by rewrite bool_decide_eq_true_2 in H.
Qed.

Lemma tenant_writers : Forall (elsewhere dev_state two_tenants repo) tenant_threads.
Proof.
  assert (Hother : ∀ req, written_repository req = Some ("team", "textures")%string →
    elsewhere dev_state two_tenants repo (Thread (serve dev_state req))).
  { intros req Hreq. apply other_request. intros owner name. rewrite Hreq. intros [= <- <-] Hn.
    exfalso. revert Hn. apply not_named_spec. by vm_compute. }
  assert (Hne : other ≠ repo) by (apply (bool_decide_unpack (¬ _)); vm_compute; exact I).
  next_thread (apply Hother; by vm_compute). next_thread (apply Hother; by vm_compute).
  next_thread (apply other_request).
  { intros owner name _ _.
    apply (denied_development _ _ (sha256_digest (as_bytes "secret"))); [done|].
    intros token Ht. assert (Hp : strip_prefix "Bearer " "Bearer guess" = Some token)
      by (apply strip_prefix_Some; exact (f_equal (default ""%string) Ht)).
    vm_compute in Hp. injection Hp as <-. apply (bool_decide_unpack (¬ _)). vm_compute. exact I. }
  next_thread (by apply other_request).
  next_thread (by apply other_snapshot). next_thread (by apply other_snapshot).
  next_thread (by apply other_stage). next_thread (by apply other_collect_due).
  by apply Forall_nil.
Qed.


(** ** Immutability *)

(** The first tenant's object is uploaded once more, and stays as it was. *)
Definition again_threads : list CThread :=
  [Thread (serve dev_state (object_request PUT oid [] (PlainBytes content))); begin_thread] ++ take 4 tenant_threads.
Definition again : list CThread * CWorld :=
  exec (concat (replicate 40 [0; 1; 2; 3; 4; 5]%nat)) again_threads two_tenants.

Lemma again_requests : Forall (requests dev_state) again_threads.
Proof. repeat next_thread (apply served). by apply Forall_nil. Qed.

Lemma published_immutable_witness :
  published (w_db two_tenants) repo (ObjectOid_as_bytes (om_object_oid manifest)) manifest ∧
  size (upload_sessions (w_db two_tenants)) = 1%nat ∧
  size (objects (w_db again.2)) = 2%nat ∧
  published (w_db again.2) repo (ObjectOid_as_bytes (om_object_oid manifest)) manifest.
Proof.
  assert (published (w_db two_tenants) repo (ObjectOid_as_bytes (om_object_oid manifest)) manifest)
    as Hpub by (apply published_row; [apply two_tenants_ok|compute_eq]).
  split; [exact Hpub|]. split; [compute_eq|]. split; [compute_eq|].
  destruct (published_immutable dev_state two_tenants again.1 again.2) as [H _];
    [apply service_ok_weaken, two_tenants_ok|apply steps_of_schedule; exact again_requests|].
  exact (H _ _ _ Hpub).
Defined.

(** ** Access *)

(** Somebody without a token asks for the object. *)
Definition anonymous_download : ServerRequest :=
  mkServerRequest GET (object_path oid []) None
    {| h_authorization := None; h_content_length := None |} PlainEmpty.

