(* ===== verification/SystemExamples.v ===== *)
(** * SystemExamples: the client on the service

    URLs as texts with percent-encoded segments, a wire without loss, and a client
    that uploads a file to the model of the service and downloads it again.  The
    theorems of [EndToEnd] are applied there. *)
From S2P Require Import Prelude Digest Manifest Stream Text Tree Protocol Agent Backend ClientDownloads ClientUploads ClientSession Storage Database Effects Api Sessions Uploads UploadSpecs Locks Batch Metrics Routes Router Gc Admin Service Errors EndToEnd.
#[local] Open Scope N_scope.

#[local] Existing Instance toy_hashes.

(** ** URLs as texts *)

Definition PERCENT : Ascii.ascii := Ascii.ascii_of_N 37.

Definition encode_char (c : Ascii.ascii) (rest : string) : string :=
  if is_unreserved c then String c rest
  else let n := Ascii.N_of_ascii c in
       String PERCENT (String (hex_digit (n / 16)) (String (hex_digit (n `mod` 16)) rest)).

Fixpoint percent_encode (s : string) : string :=
  match s with
  | EmptyString => EmptyString
  | String c s => encode_char c (percent_encode s)
  end.

Fixpoint percent_decoded (s : string) : option string :=
  match s with
  | EmptyString => Some EmptyString
  | String c rest =>
      if Ascii.eqb c PERCENT then
        match rest with
        | String h (String l rest) =>
            h ← hex_value h; l ← hex_value l; rest ← percent_decoded rest;
            Some (String (Ascii.ascii_of_N (16 * h + l)) rest)
        | _ => None
        end
      else rest ← percent_decoded rest; Some (String c rest)
  end.

Lemma decode_char c rest s :
  percent_decoded rest = Some s → percent_decoded (encode_char c rest) = Some (String c s).
Proof.
  intros H. unfold encode_char. destruct (is_unreserved c) eqn:Hc.
  - cbn [percent_decoded]. destruct (Ascii.eqb_spec c PERCENT) as [-> |_]; [done|]. by rewrite H.
  - cbv zeta. set (n := Ascii.N_of_ascii c). assert (Hn : n < 256) by apply Ascii.N_ascii_bounded.
    assert (Hq : n / 16 < 16) by (by apply N.Div0.div_lt_upper_bound).
    assert (Hr : n `mod` 16 < 16) by (by apply N.mod_lt).
    cbn [percent_decoded]. rewrite (proj1 (hex_digit_spec _ Hq)), (proj1 (hex_digit_spec _ Hr)), H.
    cbn. rewrite <- N.div_mod'. unfold n. by rewrite Ascii.ascii_N_embedding.
Qed.

Lemma percent_roundtrip s : percent_decoded (percent_encode s) = Some s.
Proof. induction s as [|c s IH]; [done|]. cbn [percent_encode]. by apply decode_char. Qed.

Lemma encode_plain s : string_forallb is_unreserved s = true → percent_encode s = s.
Proof.
  induction s as [|c s IH]; [done|]. cbn. intros [Hc Hs]%andb_true_iff.
  unfold encode_char. by rewrite Hc, IH.
Qed.

Lemma split_app u x : split_slash (u +:+ "/" +:+ x) = split_slash u ++ split_slash x.
Proof.
  induction u as [|c u IH]; [done|].
  change (String c u +:+ "/" +:+ x) with (String c (u +:+ "/" +:+ x)). cbn [split_slash].
  destruct (Ascii.eqb c slash); [by rewrite IH|]. rewrite IH.
  destruct (split_slash u) eqn:Hu; [by apply split_slash_nonempty in Hu|done].
Qed.

Definition no_slash (c : Ascii.ascii) : bool := negb (Ascii.eqb c slash).

Lemma split_no_slash s : string_forallb no_slash s = true → split_slash s = [s].
Proof.
  induction s as [|c s IH]; [done|]. cbn [string_forallb split_slash].
  intros [Hc%negb_true_iff Hs]%andb_true_iff. by rewrite Hc, (IH Hs).
Qed.

Lemma hex_digit_no_slash n : n < 16 → no_slash (hex_digit n) = true.
Proof.
  intros Hn. unfold no_slash. destruct (Ascii.eqb_spec (hex_digit n) slash) as [He|]; [|done].
  pose proof (proj1 (hex_digit_spec n Hn)) as H. by rewrite He in H.
Qed.

Lemma split_encoded s : split_slash (percent_encode s) = [percent_encode s].
Proof.
  apply split_no_slash. induction s as [|c s IH]; [done|]. cbn [percent_encode]. unfold encode_char.
  destruct (is_unreserved c) eqn:Hc; cbv zeta; cbn [string_forallb]; rewrite IH.
  - unfold no_slash. by destruct (Ascii.eqb_spec c slash) as [-> |].
  - pose proof (Ascii.N_ascii_bounded c) as Hn.
    rewrite !hex_digit_no_slash; [done|by apply N.mod_lt|by apply N.Div0.div_lt_upper_bound].
Qed.

(** A text without a slash, and what follows it. *)
#[local] Instance text_url : UrlLib := {|
  Url := string;
  url_parse s := Ok s;
  url_join u s := Ok (u +:+ "/" +:+ s);
  url_has_segments _ := true;
  url_pop_if_empty u := u;
  url_extend u l :=
    foldl (λ u s, u +:+ "/" +:+ percent_encode s) u (filter (λ s, ordinary s = true) l);
  url_scheme _ := "https";
  url_path u := u;
|}.
#[local] Instance text_url_text : UrlText := {|
  url_serialize u := u;
  url_segments u := tail (split_slash u);
  url_query _ := None;
  segment_encode := percent_encode;
|}.

#[local] Instance text_router : Axum := plain_axum percent_decoded plain_uuid_parse.
#[local] Instance text_router_laws : AxumLaws := plain_axum_laws percent_decoded plain_uuid_parse.

#[local] Instance text_url_laws : UrlTextLaws.
Proof.
  split; cbn; try done.
  - intros u l _. generalize (filter (λ s, ordinary s = true) l) as segments. clear l.
    intros segments. revert u. induction segments as [|s l IH]; intros u; cbn; [by rewrite app_nil_r|].
    rewrite IH, split_app, split_encoded.
    destruct (split_slash u) eqn:Hu; [by apply split_slash_nonempty in Hu|].
    cbn. by rewrite <- app_assoc.
  - apply percent_roundtrip.
  - apply encode_plain.
  - apply plain_uuid_roundtrip.
Qed.

(** ** The rest of the world *)

#[local] Instance no_jwt : JwtLib := {|
  Jwk := unit;
  DecodingKey := unit;
  jwt_decode_header _ := None;
  jwt_from_jwk _ := None;
  jwt_decode _ _ _ _ := None;
|}.
#[local] Instance no_forgejo : ForgejoApi := {|
  forgejo_get_user _ _ _ := HttpTransport;
  forgejo_get_repository _ _ _ := HttpTransport;
|}.

Definition index_byte (n : N) : Byte.byte := default Byte.x00 (Byte.of_N n).

(** The session and the missing indexes of a plan, the bytes of others. *)
#[local] Instance text_answers : Answers := {|
  json_lock_response _ := [];
  json_lock_list _ := [];
  json_lock_verify_response _ := [];
  json_unlock_response _ := [];
  json_batch_response _ := [];
  json_begin_response r :=
    as_bytes (uuid_display (bur_upload_id r)) ++ (index_byte <$> bur_missing_chunk_indexes r);
  json_manifest _ := as_bytes "manifest";
  json_error_body s := as_bytes s;
|}.

#[local] Instance text_wire : Wire := {|
  wire_headers l := {| h_authorization := snd <$> head l; h_content_length := None |};
  wire_body b :=
    match b with NoBody => PlainEmpty | JsonBody r => PlainBegin r | BytesBody b => PlainBytes b end;
  begin_length _ := 0;
  wire_status_display status := pretty status;
  wire_status_error_display status := pretty status;
|}.
#[local] Instance text_wire_laws : WireLaws.
Proof. by split. Qed.

(** ** One file, uploaded by the client *)

Definition file : bytes := sample_content.
Definition file_manifest : ObjectManifest :=
  match ChunkStream_finish (ChunkStream_new (file_reader file) ChunkingProfile_beta_v1) with
  | Ok m => m
  | Err _ => sample_manifest
  end.
Definition file_oid : ObjectOid := om_object_oid file_manifest.

#[local] Instance text_lib : ClientLib := {|
  begin_response_from_json b :=
    match plain_uuid_parse (String.string_of_list_byte (take 36 b)) with
    | Some id => Ok {| bur_protocol_version := 1; bur_upload_id := id;
                       bur_missing_chunk_indexes := Byte.to_N <$> drop 36 b;
                       bur_expires_at := "" |}
    | None => Err "expected a plan"%string
    end;
  manifest_from_json _ := Ok file_manifest;
  keep_path directory _ := Text.join directory ".tmp0";
|}.

Definition hosting : Uuid := uuid_from 7.
Definition service_state : AppState :=
  mkAppState "origin"%string (DevelopmentToken (sha256_digest (as_bytes "secret"))).
Definition service_db : Db ObjectManifest :=
  mkDb {[hosting := {| rp_owner := "team"; rp_name := "big assets" |}]} ∅ ∅ ∅ ∅ ∅ ∅ ∅ ∅ ∅ ∅ ∅.
Definition service_world : World MemStore ObjectManifest :=
  mkWorld service_db (mkMemStore ∅ [] false) 1000000 0 (λ n, uuid_from (100 + N.of_nat n)) 0 [] []
    metrics_default ∅ None false.

Lemma service_root : at_root service_state.
Proof. reflexivity. Qed.
Lemma owner_ok : name_ok "team".
Proof. by split. Qed.
Lemma repository_ok : name_ok "big assets".
Proof. by split. Qed.

(** The action the Batch API issues for the file. *)
Definition issued : LfsAction :=
  {| la_href := "origin/team/big%20assets/info/lfs/objects/" +:+ ObjectOid_display file_oid +:+ "/cdc";
     la_header := ∅; la_expires_at := None |}.
Definition cdc_action : TransferAction :=
  mkTransferAction (url_serialize (la_href issued)) [("Authorization", "Bearer secret")]%string.

Lemma action_issued :
  action_url (as_base_url service_state) "team" "big assets" file_oid Cdc = Ok issued.
Proof. vm_compute. reflexivity. Qed.

(** A machine with the file; the connection breaks after the second request. *)
Definition host : Client (Remote (St:=MemStore) (Json:=ObjectManifest)) :=
  mkClient (mkRemote service_world [None; Some (ResponseLost "connection reset")])
    ∅ {["file"%string := file_reader file]} [] [] [].
Definition agent : HttpBackend := mkHttpBackend 10 300 "cache" 2.
Definition file_upload : UploadRequest := mkUploadRequest file_oid 7 "file" (Some cdc_action).
Definition in_order : nat → nat := λ _, 0%nat.

#[local] Instance service_answers : Http (Remote (St:=MemStore) (Json:=ObjectManifest)) :=
  service_http service_state.

Definition upload_run := http_upload agent in_order file_upload host.

Lemma upload_ran : upload_run.1 = Ok 7.
Proof. vm_compute. reflexivity. Qed.

(** Four requests: the plan, the chunk twice, and the finalisation. *)
Lemma upload_requests : length (c_log upload_run.2) = 4%nat.
Proof. vm_compute. reflexivity. Qed.

Lemma client_requests_reach_handlers_witness :
  action_url (as_base_url service_state) "team" "big assets" file_oid Cdc = Ok issued ∧
  reaches service_state (authorized GET (Href (ta_href cdc_action)) cdc_action NoBody)
    (handled (λ m, json_response OK_STATUS (json_manifest m))
       (download_cdc_manifest (St:=MemStore) (Json:=ObjectManifest) service_state "team" "big assets"
          (ObjectOid_display file_oid) (wire_headers (ta_header cdc_action)))).
Proof.
  split; [exact action_issued|].
  exact (proj1 (proj2 (client_requests_reach_handlers (St:=MemStore) (Json:=ObjectManifest)
    service_state "team" "big assets" file_oid owner_ok repository_ok service_root issued cdc_action
    action_issued eq_refl))).
Defined.


(** The client downloads what it uploaded, from the service it uploaded to. *)
Definition file_download : DownloadRequest := mkDownloadRequest file_oid 7 (Some cdc_action).
Definition download_run := http_download agent in_order file_download upload_run.2.

Lemma downloaded : download_run.1 = Ok (mkDownloadResult "cache/.tmp0" 7) ∧
  c_files download_run.2 !! "cache/.tmp0"%string = Some file.
Proof. split; vm_compute; reflexivity. Qed.
